(* ===== verification/_CoqProject ===== *)
-Q . S2P
Prelude.v
PyNum.v
Types.v
PyVal.v
Disk.v
PageStore.v
HeldStore.v
BufferPool.v
BufferPoolProps.v
HeapPage.v
HeapFile.v
HeapFileProps.v
HeapScan.v
BTree.v
BTreeNode.v
BTreeRep.v
BTreeSearch.v
BTreeInsert.v
BTreeRepair.v
BTreeFixup.v
BTreeDelete.v
Json.v
Wal.v
Transaction.v
Ast.v
Lexer.v
Parser.v
ParserProps.v
SqlPrint.v
PyDict.v
Expr.v
Executor.v
ExecutorProps.v
SortProps.v
Catalog.v
Planner.v
PlannerProps.v
TableRep.v
Base64.v
Database.v
LogRecords.v
TableWrite.v
InsertProps.v
DeleteProps.v
UpdateProps.v
CreateIndexProps.v
DatabaseProps.v
Lifecycle.v
Unsynced.v
Redo.v
Repl.v
