(* ===== verification/Prelude.v ===== *)
(** * minirel: a verified model of a small relational storage engine

    minirel (src/src/minirel) is an embedded SQL engine: SQL text is parsed,
    planned and executed over heap files and B+-tree indexes, which live in
    fixed-size pages cached by a buffer pool over one data file; transactions
    get snapshot isolation from (xmin, xmax) stamps on row versions, and a
    write-ahead log makes commits durable.

    ** Conventions

    A Python call that can raise is a [result]; a method of a stateful object
    is an [M S A], a function from the object's state to an outcome and a new
    state, so the state survives an exception. Integers are [Z], with the
    widths of the struct formats checked where the code packs them. A float is
    its IEEE bit pattern. A str is the string of its UTF-8 bytes. Exception
    classes are kept, message texts are not. Loops that are not structural
    carry fuel and end in the pseudo exception [Diverges]; theorems show that
    it is never produced.

    ** Files

    - [Prelude.v] exceptions, the two monads and their reasoning rules, bytes,
      little-endian integers and slices.
    - [PyNum.v] Python's struct, float, int(...), float(...), str(...).
    - [Types.v] types.py: column types, schemas, the row codec, the MVCC header.
    - [Disk.v] storage/page.py and storage/disk_manager.py: the data file, its
      durable copy, and its view as a list of pages.
    - [PageStore.v] the interface between the page cache and its clients:
      operations as a class, and their laws as another; [BufferPool.v]
      discharges it, the heap file and the B+-tree are verified against it.
      [HeldStore.v] a store one of whose pages is pinned by somebody else is a
      store again.
    - [BufferPool.v], [BufferPoolProps.v] storage/buffer_pool.py: frames, page
      table, free list, LRU order, pins and dirty flags.
    - [HeapPage.v] storage/heap_file.py, the module functions: the slotted page.
    - [HeapFile.v], [HeapFileProps.v] storage/heap_file.py, class HeapFile. The
      [scan] generator is modelled by the fold its consumer runs; the loop over
      a chain has as much fuel as the file has pages, and [insert] recurses at
      most once, since a new page takes any row that passes the size check.
      [HeapScan.v] a scan whose consumer works on the pool between two rows.
    - [BTree.v] index/btree.py, every method. [BTreeNode.v] the node codec,
      [BTreeRep.v] what a well-formed tree is, [BTreeSearch.v] lookups and range
      scans, [BTreeInsert.v] insertion with splits, and where it goes wrong.
      [BTreeRepair.v] what deletion does to nodes and their separators,
      [BTreeFixup.v] [_fixup_leaf] and [_fixup_internal] on pages,
      [BTreeDelete.v] [delete], the climb to the root and a tree in use: a
      sorted list of entries. The climb is structural in the path.
    - [Json.v] Python's json.dumps and json.loads as wal.py uses them, and the
      indented form of json.dump for catalog.py, with the proof that reading
      inverts both and that it terminates.
    - [Wal.v] wal.py: the log as durable bytes, bytes handed to the operating
      system, and bytes in the file buffer. Reading has one unit of fuel per
      byte, and every record takes at least nine.
    - [Transaction.v] transaction.py: transaction objects, the manager, the
      visibility rule, write conflicts, and what recovery reads off the log.
    - [Ast.v], [Lexer.v], [Parser.v] sql/: the syntax trees, the regular
      expressions of the tokenizer as matchers on characters, and the recursive
      descent as a state monad over the remaining tokens, with eight units of
      fuel per token; [ParserProps.v] shows they are enough, [SqlPrint.v] holds
      a printer that the parser inverts.
    - [PyVal.v], [PyDict.v], [Expr.v] Python's values and their comparisons,
      dicts in insertion order, and expr.py.
    - [Executor.v] executor.py: each operator is a state machine whose state
      holds the suspended generators below it; a plan is a tree of them.
      [ExecutorProps.v] gives plans a meaning on lists of rows and proves that
      running them computes it; [SortProps.v] is ORDER BY.
    - [Catalog.v] catalog.py: DDL over the page store, and the sidecar file.
    - [Planner.v], [PlannerProps.v] planner.py: index pushdown and the plan of a
      SELECT, and what both compute.
    - [TableRep.v] what a table with its indexes is on pages.
    - [Base64.v], [Database.v] database.py: statements, their log records and
      transactions, over any page store; start-up with replay, checkpoint and
      close over the buffer pool. [list(plan)] runs with a fuel argument that
      the query theorems bound. [DatabaseProps.v] what a statement does to the
      transactions, and runs of a whole database that go wrong.
    - [LogRecords.v] the records statements log and what replaying one does.
      [TableWrite.v] writing a row version into heap, indexes and log: the lemmas
      behind [InsertProps.v], [DeleteProps.v], [UpdateProps.v] and
      [CreateIndexProps.v], which say what these statements leave on the pages.
      An insertion adds at most 33 pages to an index (a tree of 2 ^ 32 pages has
      at most 32 levels), which is the bound the theorems assume room for.
      [Lifecycle.v] checkpoint, crash and restart; [Unsynced.v] what an INSERT
      leaves unwritten; [Redo.v] replay of a log over the files of a process
      that died before its pages were written.
    - [Repl.v] repl.py: the layout of results, the loop over input lines and
      [main]; the streams are a list of lines and a list of written texts.

    ** What is shown

    - Codecs: rows, log records, B+-tree nodes and the catalog read back as they
      were written; stamping xmax changes nothing else.
    - Storage: the disk refines a list of pages and so does the buffer pool
      under any sequence of operations; [flush_all] makes exactly the visible
      contents durable; the heap file is a map from row ids to tuples under
      insert, lookup, in-place update and deletion, and a scan lists it; opening
      a file terminates on any contents.
    - Indexes: insertion keeps the tree sorted, balanced, separated and linked
      on every split, lookups and range scans return exactly what is stored,
      and deletion with its borrowing, merging and redistribution keeps the
      tree well-formed when no key fills more than a quarter of a leaf (without
      that bound it can fail, as an example shows). Any sequence of insertions
      and deletions refines the same sequence on a sorted list.
    - SQL: lexing and parsing end on every text, and a printed statement parses
      back to itself; typed expressions evaluate without exceptions.
    - Queries: a SELECT planned and run on pages, through whichever index or
      scan, returns the rows its pipeline on lists of rows gives, and ends. The
      pipeline is the code's: WHERE before JOIN, where the documentation has it
      behind ([documented_order] says when that is the same). WHERE here, in
      UPDATE and in DELETE is the condition the plan tests ([tested_where]): an
      equality of an indexed column with NULL is not tested. Literals compared
      with an indexed column are NULL or of its type.
    - DDL: CREATE TABLE adds an empty well-formed heap, CREATE INDEX a tree with
      an entry for every version in the heap, and the saved catalog always reads
      back as the one in memory.
    - Transactions: the visibility test decides snapshot isolation over the
      history of the manager, is stable while a transaction runs, and the
      conflict check prevents lost updates, in every reachable state.
    - Recovery: a log cut anywhere behind its last fsync is read without error
      and contains every commit; committed transactions are visible after a
      restart, and interrupted ones are not if their BEGIN record survived; with
      the record lost their ids are given away again. Only committed operations
      are replayed.
    - Statements: INSERT, UPDATE and DELETE change exactly the versions they
      should, in the heap, in every index and in the log, and raise on unique
      keys and write conflicts; a statement that raises outside an explicit
      transaction leaves nothing visible for the rest of the process, whatever
      it did before and whatever follows.
    - Restart: after a checkpoint and a crash a database opens with the same
      pages and tables. Over the pages of the last checkpoint, replay does the
      committed changes to heaps again, exactly those and in order, but stamps
      go to whatever row has the logged id by then: the tables come out right
      if stamps name only rows of the checkpoint. So an INSERT committed behind
      a checkpoint into a table without indexes is there and visible even if no
      page was written, and into any table if a checkpoint followed.
      With an index the first does not hold: a replayed index record names the
      row id of the first run, and a root that moved is in the catalog before
      its page is in the file.
    - The shell: a session is the sequence of its statements, and results are
      laid out in columns.
    - Errors and their consequences: what failing calls leave behind, and
      the places where the code does not keep what its documentation says.

    ** Not modelled

    Locks (every operation is one step), message texts, the terminal behind the
    shell's streams, the interpreter's limits on recursion and on the digits of
    integers, bytes that json.loads would detect as UTF-16 or UTF-32, the
    non-ASCII spaces and digits the tokenizer's classes accept, and str.upper on
    non-ASCII letters (only a string literal in the place of a column type can
    hold one).
    What replay leaves in an index is stated nowhere: the records it replays
    name row ids of the first run, so there is no correct entry to compare with.

    ** Plan

    Every operation of the components above is modelled. What could follow is
    breadth within them: replay over a file that an eviction has changed, and
    the heap of a table whose chain a crash has cut. *)
From stdpp Require Import base numbers list gmap strings.
From Stdlib Require Import Strings.Byte.
From Stdlib Require Import ZArith Lia.

Open Scope Z_scope.

(** * Python exceptions and the two error monads *)

(** The exception classes the code raises or lets through. Message texts are
    not kept. [Diverges] is not a Python class: it marks a loop of the model
    that ran out of fuel, and theorems show it is never produced. *)
Inductive exn : Set :=
| StructError
| ValueError
| KeyError
| IndexError
| TypeError
| OverflowError
| RuntimeError
| AttributeError
| UnicodeDecodeError
| BufferPoolFullError
| WriteConflictError
| DuplicateKeyError
| TableAlreadyExistsError
| TableNotFoundError
| ColumnNotFoundError
| AmbiguousColumnError
| LexError
| ParseError
| Diverges.

#[global] Instance exn_eq_dec : EqDecision exn.
Proof. solve_decision. Defined.

(** The outcome of a Python call: a value, or an exception. *)
Inductive result (A : Type) : Type :=
| Ok (a : A)
| Raise (e : exn).
Arguments Ok {A} a.
Arguments Raise {A} e.

#[global] Instance result_ret : MRet result := fun A a => Ok a.
#[global] Instance result_bind : MBind result := fun A B f m =>
  match m with Ok a => f a | Raise e => Raise e end.

#[global] Instance result_eq_dec {A} `{EqDecision A} : EqDecision (result A).
Proof. solve_decision. Defined.

(** [[f(x) for x in l]] *)
Fixpoint result_map {A B} (f : A -> result B) (l : list A) : result (list B) :=
  match l with [] => Ok [] | x :: l' => y ← f x; ys ← result_map f l'; Ok (y :: ys) end.

(** Stateful calls: the state survives an exception, as Python's objects do. *)
Definition M (S A : Type) : Type := S -> result A * S.

#[global] Instance M_ret {S} : MRet (M S) := fun A a s => (Ok a, s).
#[global] Instance M_bind {S} : MBind (M S) := fun A B f m s =>
  match m s with
  | (Ok a, s') => f a s'
  | (Raise e, s') => (Raise e, s')
  end.

Definition raise {S A} (e : exn) : M S A := fun s => (Raise e, s).
Definition gets {S A} (f : S -> A) : M S A := fun s => (Ok (f s), s).
Definition modify {S} (f : S -> S) : M S unit := fun s => (Ok tt, f s).
Definition lift_result {S A} (r : result A) : M S A := fun s => (r, s).

(** [try: body finally: fin] — an exception of [fin] replaces the outcome. *)
Definition try_finally {S A} (body : M S A) (fin : M S unit) : M S A := fun s =>
  let '(r, s1) := body s in
  match fin s1 with
  | (Ok _, s2) => (r, s2)
  | (Raise e, s2) => (Raise e, s2)
  end.

(** Run a call of a component on the part of a larger state it works on. *)
Definition lift_fst {S T A} (m : M S A) : M (S * T) A := fun st =>
  let '(r, s') := m (fst st) in (r, (s', snd st)).

Declare Scope mrel_scope.
Delimit Scope mrel_scope with mrel.
Open Scope mrel_scope.

(** ** Success triples: [runs m s Q] says that [m] returns a value on [s] and
    that value and the final state satisfy [Q]. *)
Definition runs {S A} (m : M S A) (s : S) (Q : A -> S -> Prop) : Prop :=
  exists a s', m s = (Ok a, s') /\ Q a s'.

Lemma runs_ret {S A} (a : A) (s : S) (Q : A -> S -> Prop) : Q a s -> runs (mret a) s Q.
Proof. intros H. exists a, s. split; [reflexivity | exact H]. Qed.

Lemma runs_bind {S A B} (m : M S A) (k : A -> M S B) s (Q : B -> S -> Prop) :
  runs m s (fun a s' => runs (k a) s' Q) -> runs (mbind k m) s Q.
Proof.
  intros (a & s1 & Hm & b & s2 & Hk & HQ). exists b, s2.
  split; [| exact HQ]. unfold mbind, M_bind. rewrite Hm. exact Hk.
Qed.

Lemma runs_mono {S A} (m : M S A) s (P Q : A -> S -> Prop) :
  runs m s P -> (forall a s', P a s' -> Q a s') -> runs m s Q.
Proof. intros (a & s' & Hm & HP) HPQ. exists a, s'. split; [exact Hm | auto]. Qed.

Lemma runs_gets {S A} (f : S -> A) s (Q : A -> S -> Prop) : Q (f s) s -> runs (gets f) s Q.
Proof. intros H. exists (f s), s. split; [reflexivity | exact H]. Qed.

Lemma runs_modify {S} (f : S -> S) s (Q : unit -> S -> Prop) :
  Q tt (f s) -> runs (modify f) s Q.
Proof. intros H. exists tt, (f s). split; [reflexivity | exact H]. Qed.

Lemma runs_lift_result {S A} (r : result A) a s (Q : A -> S -> Prop) :
  r = Ok a -> Q a s -> runs (lift_result r) s Q.
Proof. intros -> H. exists a, s. split; [reflexivity | exact H]. Qed.

Lemma runs_finally {S A} (m : M S A) fin s (Q : A -> S -> Prop) :
  runs m s (fun a s1 => runs fin s1 (fun _ s2 => Q a s2)) -> runs (try_finally m fin) s Q.
Proof.
  intros (a & s1 & Hm & [] & s2 & Hf & HQ). exists a, s2.
  split; [| exact HQ]. unfold try_finally. rewrite Hm, Hf. reflexivity.
Qed.

Lemma runs_lift_fst {S T A} (m : M S A) (s : S) (t : T) (Q : A -> S * T -> Prop) :
  runs m s (fun a s' => Q a (s', t)) -> runs (lift_fst m) (s, t) Q.
Proof.
  intros (a & s' & Hm & HQ). exists a, (s', t).
  split; [| exact HQ]. unfold lift_fst. simpl. rewrite Hm. reflexivity.
Qed.

(** One step of a [runs] goal: expose the head of the program. *)
Ltac rstep :=
  lazymatch goal with
  | |- runs (mbind _ _) _ _ => apply runs_bind
  | |- runs (mret _) _ _ => apply runs_ret
  | |- runs (gets _) _ _ => apply runs_gets
  | |- runs (modify _) _ _ => apply runs_modify
  | |- runs (try_finally _ _) _ _ => apply runs_finally
  | |- runs (lift_fst _) (_, _) _ => apply runs_lift_fst
  end.

(** ** Running a program one step *)

Lemma bind_ok {S A B} (m : M S A) (k : A -> M S B) s a s' :
  m s = (Ok a, s') -> (m ≫= k) s = k a s'.
Proof. intros H. unfold mbind, M_bind. rewrite H. reflexivity. Qed.
Lemma bind_raise {S A B} (m : M S A) (k : A -> M S B) s e s' :
  m s = (Raise e, s') -> (m ≫= k) s = (Raise e, s').
Proof. intros H. unfold mbind, M_bind. rewrite H. reflexivity. Qed.
Lemma bind_gets {S A B} (f : S -> A) (k : A -> M S B) s : (gets f ≫= k) s = k (f s) s.
Proof. reflexivity. Qed.
Lemma bind_modify {S B} (f : S -> S) (k : unit -> M S B) s : (modify f ≫= k) s = k tt (f s).
Proof. reflexivity. Qed.
Lemma bind_mret {S A B} (a : A) (k : A -> M S B) s : (mret a ≫= k) s = k a s.
Proof. reflexivity. Qed.
Lemma bind_lift_ok {S A B} (a : A) (k : A -> M S B) s : (lift_result (Ok a) ≫= k) s = k a s.
Proof. reflexivity. Qed.

Create Rewrite HintDb mstep.
#[export] Hint Rewrite @bind_gets @bind_modify @bind_mret @bind_lift_ok : mstep.

(** Run the deterministic head of a program in the goal. *)
Ltac mstep := repeat (progress (autorewrite with mstep; cbn [negb andb orb fst snd]; cbv beta iota)).

Lemma runs_eq {S A} (m : M S A) s a s' (Q : A -> S -> Prop) : m s = (Ok a, s') -> Q a s' -> runs m s Q.
Proof. intros H HQ. exists a, s'. split; assumption. Qed.

Lemma Ok_inj {A} (a b : A) : Ok a = Ok b -> a = b.
Proof. congruence. Qed.

(** Case analysis on the steps of a successful [result] computation. *)
Ltac inv_ok :=
  repeat match goal with
  | H : (_ ≫= _) = Ok _ |- _ => unfold mbind, result_bind in H
  | H : (if ?b then _ else _) = Ok _ |- _ => destruct b eqn:?; try discriminate H
  | H : match ?m with Ok _ => _ | Raise _ => _ end = Ok _ |- _ =>
      destruct m eqn:?; try discriminate H
  | H : Ok _ = Ok _ |- _ => apply Ok_inj in H; try subst
  | H : Raise _ = Ok _ |- _ => discriminate H
  end.

(** * Bytes and little-endian integers *)

Definition Z_of_byte (b : byte) : Z := Z.of_N (Byte.to_N b).
Definition byte_of_Z (z : Z) : byte :=
  match Byte.of_N (Z.to_N (z mod 256)) with Some b => b | None => x00 end.

#[global] Instance byte_eq_dec : EqDecision byte := Byte.byte_eq_dec.

(** [int.to_bytes(n, "little")] and [int.from_bytes(_, "little")]. *)
Fixpoint le_enc (n : nat) (z : Z) : list byte :=
  match n with
  | O => []
  | S n' => byte_of_Z z :: le_enc n' (z / 256)
  end.
Fixpoint le_dec (bs : list byte) : Z :=
  match bs with
  | [] => 0
  | b :: bs' => Z_of_byte b + 256 * le_dec bs'
  end.

(** [len] as a Python integer. *)
Definition blen {A} (l : list A) : Z := Z.of_nat (length l).

(** [data[a:b]] and [data[a:b] = v] on a bytearray, for non-negative bounds:
    out-of-range bounds are clipped, and the assignment may resize. *)
Definition slice {A} (l : list A) (a b : Z) : list A :=
  take (Z.to_nat (b - a)) (drop (Z.to_nat a) l).
Definition slice_set {A} (l : list A) (a b : Z) (v : list A) : list A :=
  take (Z.to_nat a) l ++ v ++ drop (Z.to_nat (Z.max a b)) l.

Notation "l .[ a : b ]" := (slice l a b)
  (at level 1, a at level 99, b at level 99, left associativity, format "l .[ a  :  b ]") : mrel_scope.

Definition zeros (n : Z) : list byte := replicate (Z.to_nat n) x00.

(** ** Lemmas on bytes *)

Lemma Z_of_byte_bound b : 0 <= Z_of_byte b < 256.
Proof.
  unfold Z_of_byte. pose proof (Byte.to_N_bounded b). lia.
Qed.

Lemma Z_of_byte_of_Z z : Z_of_byte (byte_of_Z z) = z mod 256.
Proof.
  unfold Z_of_byte, byte_of_Z.
  assert (0 <= z mod 256 < 256) as Hb by (apply Z.mod_pos_bound; lia).
  destruct (Byte.of_N (Z.to_N (z mod 256))) as [b|] eqn:E.
  - apply Byte.to_of_N in E. rewrite E. lia.
  - apply Byte.of_N_None_iff in E. lia.
Qed.

Lemma Z_of_byte_inj b1 b2 : Z_of_byte b1 = Z_of_byte b2 -> b1 = b2.
Proof.
  unfold Z_of_byte. intros H. apply N2Z.inj in H.
  pose proof (Byte.of_to_N b1) as E1. pose proof (Byte.of_to_N b2) as E2. congruence.
Qed.

Lemma byte_of_Z_of_byte b : byte_of_Z (Z_of_byte b) = b.
Proof.
  apply Z_of_byte_inj. rewrite Z_of_byte_of_Z. apply Z.mod_small, Z_of_byte_bound.
Qed.

Lemma length_le_enc n z : length (le_enc n z) = n.
Proof. revert z; induction n as [|n IH]; intros z; simpl; [| rewrite IH]; reflexivity. Qed.

Lemma pow256_succ (n : nat) : 256 ^ Z.of_nat (S n) = 256 * 256 ^ Z.of_nat n.
Proof. rewrite Nat2Z.inj_succ. apply Z.pow_succ_r. lia. Qed.

Lemma pow256_pos (n : nat) : 0 < 256 ^ Z.of_nat n.
Proof. apply Z.pow_pos_nonneg; lia. Qed.

Lemma le_dec_enc n z : le_dec (le_enc n z) = z mod 256 ^ Z.of_nat n.
Proof.
  revert z; induction n as [|n IH]; intros z; [simpl; symmetry; apply Z.mod_1_r|].
  cbn [le_enc le_dec]. rewrite IH, Z_of_byte_of_Z, pow256_succ.
  rewrite Z.rem_mul_r by (pose proof (pow256_pos n); lia). reflexivity.
Qed.

Lemma le_dec_enc_small n z : 0 <= z < 256 ^ Z.of_nat n -> le_dec (le_enc n z) = z.
Proof. intros H. rewrite le_dec_enc. apply Z.mod_small. exact H. Qed.

Lemma le_dec_bound bs : 0 <= le_dec bs < 256 ^ Z.of_nat (length bs).
Proof.
  induction bs as [|b bs IH]; [simpl; lia|].
  cbn [le_dec length]. rewrite pow256_succ. pose proof (Z_of_byte_bound b). lia.
Qed.

Lemma le_enc_dec bs : le_enc (length bs) (le_dec bs) = bs.
Proof.
  induction bs as [|b bs IH]; [reflexivity|].
  cbn [le_dec length le_enc]. pose proof (Z_of_byte_bound b). f_equal.
  - apply Z_of_byte_inj. rewrite Z_of_byte_of_Z, Z.mul_comm, Z.mod_add by lia.
    apply Z.mod_small; lia.
  - transitivity (le_enc (length bs) (le_dec bs)); [| exact IH]. f_equal.
    rewrite Z.mul_comm, Z.div_add by lia. rewrite Z.div_small by lia. reflexivity.
Qed.

Arguments le_enc : simpl never.
Arguments le_dec : simpl never.

(** ** Lengths and slices *)

Create HintDb blen.
Create Rewrite HintDb blen.

Lemma blen_nonneg {A} (l : list A) : 0 <= blen l.
Proof. unfold blen. lia. Qed.
Lemma blen_nil {A} : blen (@nil A) = 0.
Proof. reflexivity. Qed.
Lemma blen_cons {A} (x : A) l : blen (x :: l) = 1 + blen l.
Proof. unfold blen. simpl length. lia. Qed.
Lemma blen_app {A} (l k : list A) : blen (l ++ k) = blen l + blen k.
Proof. unfold blen. rewrite length_app. lia. Qed.
Lemma blen_le_enc n z : blen (le_enc n z) = Z.of_nat n.
Proof. unfold blen. rewrite length_le_enc. reflexivity. Qed.
Lemma blen_zeros n : 0 <= n -> blen (zeros n) = n.
Proof. intros H. unfold blen, zeros. rewrite length_replicate. lia. Qed.
Lemma blen_slice {A} (l : list A) a b :
  0 <= a <= b -> b <= blen l -> blen (l.[a : b]) = b - a.
Proof. unfold blen, slice. intros. rewrite length_take, length_drop. lia. Qed.
Lemma blen_slice_set {A} (l v : list A) a b :
  0 <= a <= b -> b <= blen l -> blen v = b - a -> blen (slice_set l a b v) = blen l.
Proof.
  unfold blen, slice_set. intros. rewrite !length_app, length_take, length_drop. lia.
Qed.
Lemma blen_take {A} (l : list A) n : 0 <= n <= blen l -> blen (take (Z.to_nat n) l) = n.
Proof. unfold blen. intros. rewrite length_take. lia. Qed.
Lemma blen_drop {A} (l : list A) n : 0 <= n <= blen l -> blen (drop (Z.to_nat n) l) = blen l - n.
Proof. unfold blen. intros. rewrite length_drop. lia. Qed.

#[export] Hint Rewrite @blen_nil @blen_cons @blen_app blen_le_enc : blen.
#[export] Hint Rewrite blen_zeros @blen_slice @blen_slice_set @blen_take @blen_drop
  using (autorewrite with blen; lia) : blen.
#[export] Hint Resolve @blen_nonneg : blen.

(** Lengths: rewrite every [blen] and finish with [lia]. *)
Ltac blen := autorewrite with blen in *; try lia.

Lemma slice_all {A} (l : list A) : l.[0 : blen l] = l.
Proof. unfold slice, blen. rewrite drop_0, take_ge; [reflexivity | lia]. Qed.

Lemma slice_slice_set_eq {A} (l v : list A) a b :
  0 <= a <= b -> b <= blen l -> blen v = b - a -> (slice_set l a b v).[a : b] = v.
Proof.
  unfold slice, slice_set, blen. intros.
  rewrite drop_app_ge by (rewrite length_take; lia).
  rewrite length_take.
  replace (Z.to_nat a - Z.to_nat a `min` length l)%nat with 0%nat by lia.
  rewrite drop_0, take_app_le by lia. apply take_ge. lia.
Qed.

Lemma slice_slice_set_ne {A} (l v : list A) a b c d :
  0 <= a <= b -> b <= blen l -> blen v = b - a ->
  0 <= c -> d <= a \/ b <= c ->
  (slice_set l a b v).[c : d] = l.[c : d].
Proof.
  intros Hab Hb Hv Hc Hd. apply list_eq. intros i. unfold slice, slice_set, blen in *.
  destruct (decide (i < Z.to_nat (d - c))%nat) as [Hi|Hi].
  2: { rewrite !lookup_take_ge by lia. reflexivity. }
  rewrite !lookup_take_lt, !lookup_drop by lia.
  destruct Hd as [Hd|Hd].
  - rewrite lookup_app_l by (rewrite length_take; lia).
    apply lookup_take_lt. lia.
  - rewrite lookup_app_r by (rewrite length_take; lia). rewrite length_take.
    rewrite lookup_app_r by lia. rewrite lookup_drop. f_equal. lia.
Qed.

Lemma slice_app_l {A} (l k : list A) a b : 0 <= a -> b <= blen l -> (l ++ k).[a : b] = l.[a : b].
Proof.
  unfold slice, blen. intros. apply list_eq. intros i.
  destruct (decide (i < Z.to_nat (b - a))%nat) as [Hi|Hi].
  2: { rewrite !lookup_take_ge by lia. reflexivity. }
  rewrite !lookup_take_lt, !lookup_drop by lia.
  apply lookup_app_l. lia.
Qed.

Lemma slice_app_r {A} (l k : list A) a b :
  blen l <= a -> (l ++ k).[a : b] = k.[a - blen l : b - blen l].
Proof.
  unfold slice, blen. intros. rewrite drop_app_ge by lia. f_equal; [lia|]. f_equal. lia.
Qed.

Lemma slice_slice {A} (l : list A) a b c d :
  0 <= a -> 0 <= c -> a + d <= b -> (l.[a : b]).[c : d] = l.[a + c : a + d].
Proof.
  unfold slice. intros. rewrite skipn_firstn_comm, take_take, drop_drop.
  f_equal; [lia|]. f_equal. lia.
Qed.

(** * Filtering *)

Lemma filter_none {A} (P : A -> Prop) `{!forall x, Decision (P x)} l : Forall (fun x => ~ P x) l -> filter P l = [].
Proof. induction 1 as [|x l Hx _ IH]; [done|]. by rewrite filter_cons_False. Qed.
Lemma filter_all {A} (P : A -> Prop) `{!forall x, Decision (P x)} l : Forall P l -> filter P l = l.
Proof. induction 1 as [|x l Hx _ IH]; [done|]. rewrite filter_cons_True by done. by f_equal. Qed.
Lemma filter_ext {A} (P Q : A -> Prop) `{!forall x, Decision (P x)} `{!forall x, Decision (Q x)} l :
  Forall (fun x => P x <-> Q x) l -> filter P l = filter Q l.
Proof. induction 1 as [|x l Hx _ IH]; [done|]. rewrite !filter_cons, IH. repeat case_decide; tauto. Qed.
Lemma filter_middle {A} (P : A -> Prop) `{!forall x, Decision (P x)} a b c :
  Forall (fun x => ~ P x) a -> Forall P b -> Forall (fun x => ~ P x) c -> filter P (a ++ b ++ c) = b.
Proof. intros Ha Hb Hc. by rewrite !filter_app, (filter_none P a), (filter_all P b), (filter_none P c), app_nil_r. Qed.
