(* ===== verification/PyNum.v ===== *)
(** Python's [float], [int(...)], [float(...)], [str(...)] and [struct] as the
    engine uses them. A [float] object is its IEEE-754 binary64 bit pattern
    (what [struct.pack("<d", _)] stores); arithmetic goes through the standard
    library's executable [spec_float]. A [str] object is the byte sequence of
    its UTF-8 encoding, so [s.encode("utf-8")] is the identity and Python's
    code-point order is the byte order. *)
From stdpp Require Import base numbers list strings pretty.
From Stdlib Require Import ZArith Lia SpecFloat Strings.Byte Strings.Ascii Strings.String.
From S2P Require Import Prelude.

Local Open Scope string_scope.
Local Open Scope Z_scope.

(** * The [struct] module: little-endian fields *)

Definition pack_u (w : nat) (v : Z) : result (list byte) :=
  if (0 <=? v) && (v <? 256 ^ Z.of_nat w) then Ok (le_enc w v) else Raise StructError.

Definition pack_q (v : Z) : result (list byte) :=
  if (- 2 ^ 63 <=? v) && (v <? 2 ^ 63) then Ok (le_enc 8 v) else Raise StructError.

Definition unpack_u (w : nat) (data : list byte) (offset : Z) : result Z :=
  if offset + Z.of_nat w <=? blen data
  then Ok (le_dec (data.[offset : offset + Z.of_nat w]))
  else Raise StructError.

(** Two's complement reading of an unsigned 64-bit pattern. *)
Definition to_signed64 (u : Z) : Z := if u <? 2 ^ 63 then u else u - 2 ^ 64.

Definition unpack_q (data : list byte) (offset : Z) : result Z :=
  u ← unpack_u 8 data offset; Ok (to_signed64 u).

(** Where [pack_into]/[unpack_from] access a buffer of [n] bytes: a negative
    offset counts from the end, and the [size] bytes must be inside. *)
Definition struct_offset (n offset size : Z) : result Z :=
  if offset <? 0
  then if (0 <? offset + size) || (offset + n <? 0) then Raise StructError else Ok (offset + n)
  else if offset + size <=? n then Ok offset else Raise StructError.

Definition pack_into (data : list byte) (offset : Z) (bs : list byte) : result (list byte) :=
  off ← struct_offset (blen data) offset (blen bs);
  Ok (slice_set data off (off + blen bs) bs).

(** * Floats *)

Definition float_decode (bits : Z) : spec_float :=
  let s := Z.testbit bits 63 in
  let e := Z.land (Z.shiftr bits 52) 2047 in
  let m := Z.land bits (2 ^ 52 - 1) in
  if e =? 2047 then (if m =? 0 then S754_infinity s else S754_nan)
  else if e =? 0 then
    match m with Zpos p => S754_finite s p (-1074) | _ => S754_zero s end
  else match m + 2 ^ 52 with Zpos p => S754_finite s p (e - 1075) | _ => S754_nan end.

Definition sign_bit (s : bool) : Z := if s then 2 ^ 63 else 0.

Definition float_encode (f : spec_float) : Z :=
  match f with
  | S754_zero s => sign_bit s
  | S754_infinity s => sign_bit s + 2047 * 2 ^ 52
  | S754_nan => 2047 * 2 ^ 52 + 2 ^ 51
  | S754_finite s m e =>
      if Zpos m <? 2 ^ 52 then sign_bit s + Zpos m
      else sign_bit s + (e + 1075) * 2 ^ 52 + (Zpos m - 2 ^ 52)
  end.

(** Correctly rounded [n * 10 ^ k]. *)
Definition sf_of_Z (n : Z) : spec_float :=
  match n with
  | Z0 => S754_zero false
  | Zpos p => S754_finite false p 0
  | Zneg p => S754_finite true p 0
  end.
Definition float_of_decimal (n k : Z) : spec_float :=
  if 0 <=? k then binary_normalize 53 1024 (n * 10 ^ k) 0 false
  else SFdiv 53 1024 (sf_of_Z n) (sf_of_Z (10 ^ (- k))).

Definition float_of_Z (n : Z) : result Z :=
  match binary_normalize 53 1024 n 0 false with
  | S754_infinity _ => Raise OverflowError
  | f => Ok (float_encode f)
  end.

Definition int_of_float (bits : Z) : result Z :=
  match float_decode bits with
  | S754_zero _ => Ok 0
  | S754_infinity _ => Raise OverflowError
  | S754_nan => Raise ValueError
  | S754_finite s m e =>
      let a := if 0 <=? e then Zpos m * 2 ^ e else Zpos m / 2 ^ (- e) in
      Ok (if s then - a else a)
  end.

Definition float_add (x y : Z) : Z := float_encode (SFadd 53 1024 (float_decode x) (float_decode y)).
Definition float_div (x y : Z) : Z := float_encode (SFdiv 53 1024 (float_decode x) (float_decode y)).
Definition float_neg (x : Z) : Z := Z.lxor x (2 ^ 63).

(** Exact comparison of numbers: Python compares an int with a float by value. *)
Definition num_compare (x y : spec_float) : option comparison :=
  match x, y with
  | S754_finite sx mx ex, S754_finite sy my ey =>
      let e := Z.min ex ey in
      let v (s : bool) (m : positive) (ex' : Z) := (if s then Zneg m else Zpos m) * 2 ^ (ex' - e) in
      Some (v sx mx ex ?= v sy my ey)
  | _, _ => SFcompare x y
  end.

(** * Text and numbers *)

Definition is_digit (c : Ascii.ascii) : bool :=
  let n := Ascii.nat_of_ascii c in (48 <=? n)%nat && (n <=? 57)%nat.
Definition digit_val (c : Ascii.ascii) : Z := Z.of_nat (Ascii.nat_of_ascii c) - 48.
(** ASCII members of [str.isspace]. *)
Definition is_space (c : Ascii.ascii) : bool :=
  let n := Ascii.nat_of_ascii c in
  ((9 <=? n)%nat && (n <=? 13)%nat) || ((28 <=? n)%nat && (n <=? 32)%nat).
Definition to_lower (c : Ascii.ascii) : Ascii.ascii :=
  let n := Ascii.nat_of_ascii c in
  if (65 <=? n)%nat && (n <=? 90)%nat then Ascii.ascii_of_nat (n + 32) else c.

Definition chars := list Ascii.ascii.

Fixpoint lstrip (l : chars) : chars :=
  match l with c :: l' => if is_space c then lstrip l' else l | [] => [] end.
Definition strip (l : chars) : chars := reverse (lstrip (reverse (lstrip l))).

(** Digits with single underscores between them: value, count, rest. *)
Fixpoint scan_digits (l : chars) (acc : Z) (cnt : Z) (after_digit : bool) : Z * Z * chars :=
  match l with
  | c :: l' =>
      if is_digit c then scan_digits l' (acc * 10 + digit_val c) (cnt + 1) true
      else if after_digit && Ascii.eqb c "_"%char
      then match l' with
           | d :: _ => if is_digit d then scan_digits l' acc cnt false else (acc, cnt, l)
           | [] => (acc, cnt, l)
           end
      else (acc, cnt, l)
  | [] => (acc, cnt, [])
  end.

Definition scan_sign (l : chars) : bool * chars :=
  match l with
  | "-"%char :: l' => (true, l')
  | "+"%char :: l' => (false, l')
  | _ => (false, l)
  end.

Definition int_of_str (s : string) : result Z :=
  let '(neg, l) := scan_sign (strip (String.list_ascii_of_string s)) in
  match scan_digits l 0 0 false with
  | (v, cnt, []) => if 0 <? cnt then Ok (if neg then - v else v) else Raise ValueError
  | _ => Raise ValueError
  end.

Definition scan_exponent (l : chars) : option Z :=
  match l with
  | [] => Some 0
  | c :: l' =>
      if Ascii.eqb (to_lower c) "e"%char then
        let '(neg, l2) := scan_sign l' in
        match scan_digits l2 0 0 false with
        | (v, cnt, []) => if 0 <? cnt then Some (if neg then - v else v) else None
        | _ => None
        end
      else None
  end.

Definition float_of_str (s : string) : result Z :=
  let '(neg, l) := scan_sign (strip (String.list_ascii_of_string s)) in
  let signed b := if neg : bool then float_neg b else b in
  let word := String.string_of_list_ascii (to_lower <$> l) in
  if (word =? "inf")%string || (word =? "infinity")%string
  then Ok (signed (float_encode (S754_infinity false)))
  else if (word =? "nan")%string then Ok (signed (float_encode S754_nan))
  else
    let '(ip, ic, l1) := scan_digits l 0 0 false in
    let '(fp, fc, l2) :=
      match l1 with
      | "."%char :: l' => scan_digits l' ip 0 false
      | _ => (ip, 0, l1)
      end in
    if 0 <? ic + fc then
      match scan_exponent l2 with
      | Some ex => Ok (signed (float_encode (float_of_decimal fp (ex - fc))))
      | None => Raise ValueError
      end
    else Raise ValueError.

(** [repr] of a float: the shortest digit string that reads back as the same
    float, the closest one of that length. [decimal_point] is the exponent
    [p] of [0.d1d2... * 10 ^ p]. *)
Definition round_half_even (n d : Z) : Z :=
  let q := n / d in let r := n mod d in
  match 2 * r ?= d with
  | Lt => q
  | Gt => q + 1
  | Eq => if Z.even q then q else q + 1
  end.

(** [round (m * 2 ^ e / 10 ^ k)]. *)
Definition scaled_round (m e k : Z) : Z :=
  let num := m * (if 0 <=? e then 2 ^ e else 1) * (if 0 <=? k then 1 else 10 ^ (- k)) in
  let den := (if 0 <=? e then 1 else 2 ^ (- e)) * (if 0 <=? k then 10 ^ k else 1) in
  round_half_even num den.

(** The decimal exponent [p] with [10 ^ (p-1) <= m * 2 ^ e < 10 ^ p]. *)
Definition pow10_le (m e p : Z) : bool :=
  m * (if 0 <=? e then 2 ^ e else 1) * (if 0 <=? p then 1 else 10 ^ (- p)) <?
  (if 0 <=? e then 1 else 2 ^ (- e)) * (if 0 <=? p then 10 ^ p else 1).
Fixpoint decimal_point (fuel : nat) (m e p : Z) : Z :=
  match fuel with
  | O => p
  | S fuel' =>
      if pow10_le m e (p - 1) then decimal_point fuel' m e (p - 1)
      else if pow10_le m e p then p else decimal_point fuel' m e (p + 1)
  end.

Fixpoint shortest_digits (fuel : nat) (n : Z) (m e p : Z) : Z * Z :=
  let k := p - n in
  let d := scaled_round m e k in
  match fuel with
  | O => (d, k)
  | S fuel' =>
      if float_encode (float_of_decimal d k) =?
         float_encode (binary_normalize 53 1024 m e false)
      then (d, k) else shortest_digits fuel' (n + 1) m e p
  end.

Fixpoint drop_zeros (fuel : nat) (d k : Z) : Z * Z :=
  match fuel with
  | O => (d, k)
  | S fuel' => if (d mod 10 =? 0) && negb (d =? 0) then drop_zeros fuel' (d / 10) (k + 1) else (d, k)
  end.

Definition pad (n : Z) : string := String.string_of_list_ascii (replicate (Z.to_nat n) "0"%char).

Definition repr_finite (m e : Z) : string :=
  let start := (Z.log2 m + e) * 3 / 10 in
  let p := decimal_point 400 m e start in
  let '(d, k) := shortest_digits 17 1 m e p in
  let '(d, k) := drop_zeros 20 d k in
  let ds := pretty d in
  let nd := Z.of_nat (String.length ds) in
  let pt := nd + k in
  if (-4 <? pt) && (pt <=? 16) then
    if nd <=? pt then ds +:+ pad (pt - nd) +:+ ".0"
    else if 0 <? pt
    then String.substring 0 (Z.to_nat pt) ds +:+ "." +:+
         String.substring (Z.to_nat pt) (Z.to_nat (nd - pt)) ds
    else "0." +:+ pad (- pt) +:+ ds
  else
    let ex := pt - 1 in
    let body := String.substring 0 1 ds +:+
      (if 1 <? nd then "." +:+ String.substring 1 (Z.to_nat (nd - 1)) ds else "") in
    body +:+ "e" +:+ (if ex <? 0 then "-" else "+") +:+
    (if Z.abs ex <? 10 then "0" else "") +:+ pretty (Z.abs ex).

Definition str_of_float (bits : Z) : string :=
  match float_decode bits with
  | S754_zero s => if s then "-0.0" else "0.0"
  | S754_infinity s => if s then "-inf" else "inf"
  | S754_nan => "nan"
  | S754_finite s m e => (if s then "-" else "") +:+ repr_finite (Zpos m) e
  end.

Example float_parse_ex : float_of_str "0.1" = Ok 0x3FB999999999999A.
Proof. vm_compute. reflexivity. Qed.
Example float_parse_ex2 : float_of_str " -2.5e3 " = Ok 0xC0A3880000000000.
Proof. vm_compute. reflexivity. Qed.
Example float_repr_ex :
  (str_of_float <$> [0x3FB999999999999A; 0xC0A3880000000000; 0x3FF0000000000000;
     0x4341C37937E08000; 0x3EE4F8B588E368F1; 0x3FD5555555555555; 0x7FEFFFFFFFFFFFFF; 1]) =
  ["0.1"; "-2500.0"; "1.0"; "1e+16"; "1e-05"; "0.3333333333333333";
   "1.7976931348623157e+308"; "5e-324"].
Proof. vm_compute. reflexivity. Qed.
Example int_parse_ex :
  int_of_str "  -1_000 " = Ok (-1000) /\ int_of_str "1__0" = Raise ValueError.
Proof. vm_compute. split; reflexivity. Qed.

(** * Lemmas on [struct] *)

Lemma pack_u_Ok w v bs : pack_u w v = Ok bs -> 0 <= v < 256 ^ Z.of_nat w /\ bs = le_enc w v.
Proof.
  unfold pack_u. destruct ((0 <=? v) && (v <? 256 ^ Z.of_nat w)) eqn:E; [| discriminate].
  apply andb_prop in E as [E1 E2]. intros [= <-]. split; [lia | reflexivity].
Qed.

Lemma pack_u_in_range w v : 0 <= v < 256 ^ Z.of_nat w -> pack_u w v = Ok (le_enc w v).
Proof.
  intros H. unfold pack_u.
  replace ((0 <=? v) && (v <? 256 ^ Z.of_nat w)) with true; [reflexivity|].
  symmetry. apply andb_true_intro. rewrite Z.leb_le, Z.ltb_lt. lia.
Qed.

Lemma pack_q_Ok v bs : pack_q v = Ok bs -> - 2 ^ 63 <= v < 2 ^ 63 /\ bs = le_enc 8 v.
Proof.
  unfold pack_q. destruct ((- 2 ^ 63 <=? v) && (v <? 2 ^ 63)) eqn:E; [| discriminate].
  apply andb_prop in E as [E1 E2]. intros [= <-]. split; [lia | reflexivity].
Qed.

Lemma pack_q_in_range v : - 2 ^ 63 <= v < 2 ^ 63 -> pack_q v = Ok (le_enc 8 v).
Proof.
  intros H. unfold pack_q.
  replace ((- 2 ^ 63 <=? v) && (v <? 2 ^ 63)) with true; [reflexivity|].
  symmetry. apply andb_true_intro. rewrite Z.leb_le, Z.ltb_lt. lia.
Qed.

Lemma unpack_u_slice w data off bs :
  blen bs = Z.of_nat w -> off + Z.of_nat w <= blen data ->
  data.[off : off + Z.of_nat w] = bs -> unpack_u w data off = Ok (le_dec bs).
Proof.
  intros Hbs Hlen <-. unfold unpack_u.
  replace (off + Z.of_nat w <=? blen data) with true by lia. reflexivity.
Qed.

Lemma unpack_u_enc w data off v :
  0 <= v < 256 ^ Z.of_nat w -> off + Z.of_nat w <= blen data ->
  data.[off : off + Z.of_nat w] = le_enc w v -> unpack_u w data off = Ok v.
Proof.
  intros Hv Hlen Hs. rewrite (unpack_u_slice w data off (le_enc w v)); [| blen | done | done].
  rewrite le_dec_enc_small by done. reflexivity.
Qed.

(** A field read back from the middle of a buffer. *)
Lemma unpack_u_app w pre v post :
  0 <= v < 256 ^ Z.of_nat w -> unpack_u w (pre ++ le_enc w v ++ post) (blen pre) = Ok v.
Proof.
  intros Hv. apply unpack_u_enc; [done | blen; pose proof (blen_nonneg post); lia |].
  rewrite slice_app_r by lia. rewrite slice_app_l by (blen; lia).
  replace (blen pre - blen pre) with 0 by lia.
  replace (blen pre + Z.of_nat w - blen pre) with (blen (le_enc w v)) by (blen; lia).
  apply slice_all.
Qed.

Lemma to_signed64_mod v : - 2 ^ 63 <= v < 2 ^ 63 -> to_signed64 (v mod 2 ^ 64) = v.
Proof.
  intros H. unfold to_signed64. destruct (Z.leb_spec 0 v).
  - rewrite Z.mod_small by lia. destruct (Z.ltb_spec v (2 ^ 63)); lia.
  - replace (v mod 2 ^ 64) with (v + 2 ^ 64)
      by (rewrite <- (Z_mod_plus_full v 1 (2 ^ 64)), Z.mod_small; lia).
    destruct (Z.ltb_spec (v + 2 ^ 64) (2 ^ 63)); lia.
Qed.

Lemma unpack_q_app pre v post :
  - 2 ^ 63 <= v < 2 ^ 63 -> unpack_q (pre ++ le_enc 8 v ++ post) (blen pre) = Ok v.
Proof.
  intros Hv. unfold unpack_q.
  rewrite (unpack_u_slice 8 _ (blen pre) (le_enc 8 v)).
  - unfold mbind, result_bind. rewrite le_dec_enc. change (256 ^ Z.of_nat 8) with (2 ^ 64).
    rewrite to_signed64_mod by done. reflexivity.
  - blen.
  - blen. pose proof (blen_nonneg post). lia.
  - rewrite slice_app_r by lia. rewrite slice_app_l by (blen; lia).
    replace (blen pre - blen pre) with 0 by lia.
    replace (blen pre + Z.of_nat 8 - blen pre) with (blen (le_enc 8 v)) by (blen; lia).
    apply slice_all.
Qed.

Lemma struct_offset_ok n off size : 0 <= off -> off + size <= n -> struct_offset n off size = Ok off.
Proof.
  intros H1 H2. unfold struct_offset. replace (off <? 0) with false by lia.
  by replace (off + size <=? n) with true by lia.
Qed.

Lemma pack_into_in_range data off bs :
  0 <= off -> off + blen bs <= blen data -> pack_into data off bs = Ok (slice_set data off (off + blen bs) bs).
Proof. intros H0 H. unfold pack_into. rewrite struct_offset_ok by done. done. Qed.

Lemma unpack_u_unchanged w data data' off :
  blen data = blen data' ->
  data.[off : off + Z.of_nat w] = data'.[off : off + Z.of_nat w] ->
  unpack_u w data off = unpack_u w data' off.
Proof. intros Hl Hs. unfold unpack_u. rewrite Hl, Hs. reflexivity. Qed.
