(* ===== verification/Types.v ===== *)
(** Column types, schemas, the row codec and the MVCC tuple header
    ([src/minirel/types.py]). *)
From stdpp Require Import base numbers list strings pretty.
From Stdlib Require Import ZArith Lia SpecFloat Strings.Byte.
From S2P Require Import Prelude PyNum.

Local Open Scope Z_scope.

(** * Definitions *)

Definition INFINITY_TXN : Z := 0xFFFFFFFF.

Inductive ColumnType : Set := INT | FLOAT | TEXT | BOOL.

#[global] Instance ColumnType_eq_dec : EqDecision ColumnType.
Proof. solve_decision. Defined.

Record Column : Set := mkColumn { col_name : string; col_type : ColumnType }.

Record Schema : Set := mkSchema { columns : list Column }.

(** The Python values a cell can hold. *)
Inductive value : Set :=
| VNone
| VBool (b : bool)
| VInt (z : Z)
| VFloat (bits : Z)
| VStr (s : string).

#[global] Instance value_eq_dec : EqDecision value.
Proof. solve_decision. Defined.

Fixpoint index_of_from (cols : list Column) (name : string) (i : Z) : result Z :=
  match cols with
  | [] => Raise KeyError
  | c :: cols' => if (col_name c =? name)%string then Ok i else index_of_from cols' name (i + 1)
  end.
Definition index_of (sch : Schema) (name : string) : result Z :=
  index_of_from (columns sch) name 0.

Definition column (sch : Schema) (name : string) : result Column :=
  i ← index_of sch name;
  match columns sch !! Z.to_nat i with Some c => Ok c | None => Raise IndexError end.

Definition names (sch : Schema) : list string := col_name <$> columns sch.

(** ** Python's [bool], [int], [float] and [str] on a cell value *)

Definition truthy (v : value) : bool :=
  match v with
  | VNone => false
  | VBool b => b
  | VInt z => negb (z =? 0)
  | VFloat bits => match float_decode bits with S754_zero _ => false | _ => true end
  | VStr s => negb (s =? "")%string
  end.

Definition py_int (v : value) : result Z :=
  match v with
  | VNone => Raise TypeError
  | VBool b => Ok (if b then 1 else 0)
  | VInt z => Ok z
  | VFloat bits => int_of_float bits
  | VStr s => int_of_str s
  end.

Definition py_float (v : value) : result Z :=
  match v with
  | VNone => Raise TypeError
  | VBool b => float_of_Z (if b then 1 else 0)
  | VInt z => float_of_Z z
  | VFloat bits => Ok bits
  | VStr s => float_of_str s
  end.

Definition py_str (v : value) : string :=
  match v with
  | VNone => "None"
  | VBool b => if b then "True" else "False"
  | VInt z => pretty z
  | VFloat bits => str_of_float bits
  | VStr s => s
  end.

(** ** UTF-8: well-formed byte sequences (Unicode table 3-7) *)

Definition in_range (b : byte) (lo hi : Z) : bool :=
  (lo <=? Z_of_byte b) && (Z_of_byte b <=? hi).

Fixpoint utf8_valid (bs : list byte) : bool :=
  match bs with
  | [] => true
  | b0 :: r0 =>
      if in_range b0 0 0x7F then utf8_valid r0
      else match r0 with
      | [] => false
      | b1 :: r1 =>
          if in_range b0 0xC2 0xDF then in_range b1 0x80 0xBF && utf8_valid r1
          else match r1 with
          | [] => false
          | b2 :: r2 =>
              if in_range b0 0xE0 0xEF then
                (if in_range b0 0xE0 0xE0 then in_range b1 0xA0 0xBF
                 else if in_range b0 0xED 0xED then in_range b1 0x80 0x9F
                 else in_range b1 0x80 0xBF) && in_range b2 0x80 0xBF && utf8_valid r2
              else match r2 with
              | [] => false
              | b3 :: r3 =>
                  in_range b0 0xF0 0xF4 &&
                  (if in_range b0 0xF0 0xF0 then in_range b1 0x90 0xBF
                   else if in_range b0 0xF4 0xF4 then in_range b1 0x80 0x8F
                   else in_range b1 0x80 0xBF) &&
                  in_range b2 0x80 0xBF && in_range b3 0x80 0xBF && utf8_valid r3
              end
          end
      end
  end.

Definition str_encode (s : string) : list byte := String.list_byte_of_string s.
Definition str_decode (bs : list byte) : result string :=
  if utf8_valid bs then Ok (String.string_of_list_byte bs) else Raise UnicodeDecodeError.

(** ** One value *)

Definition encode_value (v : value) (ty : ColumnType) : result (list byte) :=
  match ty with
  | INT => z ← py_int v; pack_q z
  | FLOAT => f ← py_float v; Ok (le_enc 8 f)
  | BOOL => pack_u 1 (if truthy v then 1 else 0)
  | TEXT =>
      let raw := str_encode (py_str v) in
      if 0xFFFF <? blen raw then Raise ValueError
      else h ← pack_u 2 (blen raw); Ok (h ++ raw)
  end.

Definition decode_value (data : list byte) (offset : Z) (ty : ColumnType) : result (value * Z) :=
  match ty with
  | INT => z ← unpack_q data offset; Ok (VInt z, 8)
  | FLOAT => f ← unpack_u 8 data offset; Ok (VFloat f, 8)
  | BOOL => b ← unpack_u 1 data offset; Ok (VBool (negb (b =? 0)), 1)
  | TEXT =>
      len ← unpack_u 2 data offset;
      let start := offset + 2 in
      text ← str_decode (data.[start : start + len]);
      Ok (VStr text, 2 + len)
  end.

(** ** Rows *)

Fixpoint encode_values (vs : list value) (cols : list Column) : result (list byte) :=
  match vs, cols with
  | v :: vs', c :: cols' =>
      b ← encode_value v (col_type c); bs ← encode_values vs' cols'; Ok (b ++ bs)
  | _, _ => Ok []
  end.

Definition encode_row (vs : list value) (sch : Schema) : result (list byte) :=
  if blen vs =? blen (columns sch) then encode_values vs (columns sch) else Raise ValueError.

Fixpoint decode_columns (data : list byte) (cols : list Column) (offset : Z) : result (list value) :=
  match cols with
  | [] => Ok []
  | c :: cols' =>
      r ← decode_value data offset (col_type c);
      vs ← decode_columns data cols' (offset + snd r);
      Ok (fst r :: vs)
  end.

Definition decode_row (data : list byte) (sch : Schema) : result (list value) :=
  decode_columns data (columns sch) 0.

(** ** The MVCC header *)

Definition MVCC_HEADER_SIZE : Z := 8.

Definition pack_tuple (xmin xmax : Z) (row_payload : list byte) : result (list byte) :=
  a ← pack_u 4 xmin; b ← pack_u 4 xmax; Ok (a ++ b ++ row_payload).

Definition unpack_tuple_header (data : list byte) : result (Z * Z) :=
  if 8 <=? blen data then
    xmin ← unpack_u 4 data 0; xmax ← unpack_u 4 data 4; Ok (xmin, xmax)
  else Raise StructError.

Definition tuple_payload (data : list byte) : list byte := drop (Z.to_nat MVCC_HEADER_SIZE) data.

Definition with_xmax (data : list byte) (xmax : Z) : result (list byte) :=
  h ← unpack_tuple_header data; pack_tuple (fst h) xmax (tuple_payload data).

(** ** What a column stores: the value converted to the column's type *)

Definition stored_value (v : value) (ty : ColumnType) : result value :=
  match ty with
  | INT => z ← py_int v; Ok (VInt z)
  | FLOAT => f ← py_float v; Ok (VFloat f)
  | BOOL => Ok (VBool (truthy v))
  | TEXT => Ok (VStr (py_str v))
  end.

Fixpoint stored_values (vs : list value) (cols : list Column) : result (list value) :=
  match vs, cols with
  | v :: vs', c :: cols' =>
      w ← stored_value v (col_type c); ws ← stored_values vs' cols'; Ok (w :: ws)
  | _, _ => Ok []
  end.

(** A Python float is a 64-bit pattern and a Python [str] encodes to UTF-8. *)
Definition py_value_ok (v : value) (ty : ColumnType) : Prop :=
  match ty with
  | FLOAT => forall f, py_float v = Ok f -> 0 <= f < 2 ^ 64
  | TEXT => utf8_valid (str_encode (py_str v)) = true
  | _ => True
  end.

(** A value already in the form its column stores. *)
Definition conforms (v : value) (ty : ColumnType) : Prop :=
  match v, ty with
  | VInt z, INT => - 2 ^ 63 <= z < 2 ^ 63
  | VFloat f, FLOAT => 0 <= f < 2 ^ 64
  | VBool _, BOOL => True
  | VStr s, TEXT => utf8_valid (str_encode s) = true /\ blen (str_encode s) <= 0xFFFF
  | _, _ => False
  end.

(** * Theorems *)

Lemma str_decode_encode s : utf8_valid (str_encode s) = true -> str_decode (str_encode s) = Ok s.
Proof.
  intros H. unfold str_decode. rewrite H. unfold str_encode.
  rewrite String.string_of_list_byte_of_string. reflexivity.
Qed.

Lemma slice_app_mid {A} (pre l post : list A) : (pre ++ l ++ post).[blen pre : blen pre + blen l] = l.
Proof.
  rewrite slice_app_r by lia. rewrite slice_app_l by lia.
  replace (blen pre - blen pre) with 0 by lia.
  replace (blen pre + blen l - blen pre) with (blen l) by lia. apply slice_all.
Qed.

Lemma decode_encode_value v ty b :
  encode_value v ty = Ok b -> py_value_ok v ty ->
  exists w, stored_value v ty = Ok w /\
    forall pre post, decode_value (pre ++ b ++ post) (blen pre) ty = Ok (w, blen b).
Proof.
  intros He Hok. destruct ty; unfold encode_value in He; cbn [stored_value py_value_ok] in *.
  - inv_ok. exists (VInt a). split; [reflexivity|]. intros pre post.
    apply pack_q_Ok in He as [Hr ->]. unfold decode_value.
    rewrite unpack_q_app by done. reflexivity.
  - inv_ok. exists (VFloat a). split; [reflexivity|]. intros pre post.
    unfold decode_value. rewrite unpack_u_app by (apply Hok; reflexivity). reflexivity.
  - exists (VStr (py_str v)). split; [reflexivity|]. intros pre post.
    inv_ok. apply pack_u_Ok in Heqr as [Hr ->].
    unfold decode_value. rewrite <- app_assoc, unpack_u_app by done. unfold mbind, result_bind.
    replace (pre ++ le_enc 2 (blen (str_encode (py_str v))) ++ str_encode (py_str v) ++ post)
      with ((pre ++ le_enc 2 (blen (str_encode (py_str v)))) ++ str_encode (py_str v) ++ post)
      by (rewrite <- app_assoc; reflexivity).
    replace (blen pre + 2) with (blen (pre ++ le_enc 2 (blen (str_encode (py_str v))))) by blen.
    rewrite slice_app_mid, str_decode_encode by done. do 2 f_equal. blen.
  - exists (VBool (truthy v)). split; [reflexivity|]. intros pre post.
    apply pack_u_Ok in He as [Hr ->]. unfold decode_value.
    rewrite unpack_u_app by done. unfold mbind, result_bind. destruct (truthy v); reflexivity.
Qed.

Lemma decode_encode_columns vs cols bs pre post :
  length vs = length cols ->
  encode_values vs cols = Ok bs -> Forall2 (fun v c => py_value_ok v (col_type c)) vs cols ->
  exists ws, stored_values vs cols = Ok ws /\
    decode_columns (pre ++ bs ++ post) cols (blen pre) = Ok ws.
Proof.
  intros Hlen He Hok. revert bs pre He Hlen. induction Hok as [|v c vs cols Hv Hvs IH].
  - intros bs pre _ _. exists []. split; reflexivity.
  - intros bs pre He Hlen. simpl in He. inv_ok.
    destruct (decode_encode_value _ _ _ Heqr Hv) as (w & Hw & Hd).
    destruct (IH _ (pre ++ a) eq_refl) as (ws & Hws & Hdc); [simpl in Hlen; lia|].
    exists (w :: ws). simpl. rewrite Hw, Hws. split; [reflexivity|].
    rewrite <- app_assoc, Hd. unfold mbind, result_bind. cbn [fst snd].
    replace (blen pre + blen a) with (blen (pre ++ a)) by blen.
    rewrite <- !app_assoc in Hdc. rewrite Hdc. reflexivity.
Qed.

Lemma encode_row_Ok vs sch bs :
  encode_row vs sch = Ok bs -> length vs = length (columns sch) /\ encode_values vs (columns sch) = Ok bs.
Proof.
  unfold encode_row. destruct (Z.eqb_spec (blen vs) (blen (columns sch))); [| discriminate].
  unfold blen in *. split; [lia | done].
Qed.

(** A row that [encode_row] accepts reads back through [decode_row] as the
    same values, each converted to its column's type as Python's [int],
    [float], [str] and truth value convert it. *)
Theorem decode_encode_row vs sch bs :
  encode_row vs sch = Ok bs ->
  Forall2 (fun v c => py_value_ok v (col_type c)) vs (columns sch) ->
  exists ws, stored_values vs (columns sch) = Ok ws /\ decode_row bs sch = Ok ws.
Proof.
  intros He Hok. apply encode_row_Ok in He as [Hlen He].
  destruct (decode_encode_columns _ _ _ [] [] Hlen He Hok) as (ws & Hs & Hd).
  exists ws. split; [exact Hs|]. rewrite app_nil_r in Hd. exact Hd.
Qed.

Definition example_schema : Schema :=
  mkSchema [mkColumn "id" INT; mkColumn "name" TEXT; mkColumn "price" FLOAT; mkColumn "ok" BOOL].
Definition example_row : list value := [VInt (-7); VStr "bolt"; VInt 2; VStr ""].

Lemma decode_encode_row_witness :
  exists bs, encode_row example_row example_schema = Ok bs /\
    exists ws, stored_values example_row (columns example_schema) = Ok ws /\
      decode_row bs example_schema = Ok ws.
Proof.
  eexists. split; [vm_compute; reflexivity|].
  eapply (decode_encode_row example_row example_schema); [vm_compute; reflexivity|].
  cbn [columns example_schema example_row].
  repeat apply List.Forall2_cons; try apply List.Forall2_nil; try reflexivity; try exact I.
  intros f Hf. vm_compute in Hf. injection Hf as <-. lia.
Defined.

Lemma conforms_py_value_ok v ty : conforms v ty -> py_value_ok v ty.
Proof.
  destruct v, ty; cbn [conforms py_value_ok]; try (intros Hf; exact I || contradiction Hf).
  - intros H f Hf. apply Ok_inj in Hf as <-. exact H.
  - intros [H _]. exact H.
Qed.

Lemma conforms_stored v ty : conforms v ty -> stored_value v ty = Ok v.
Proof. destruct v, ty; intros H; first [contradiction H | reflexivity]. Qed.

Lemma conforms_encodes v ty : conforms v ty -> exists b, encode_value v ty = Ok b.
Proof.
  destruct v, ty; cbn [conforms]; intros H; try contradiction H; cbn [encode_value py_int py_float py_str truthy].
  - destruct b; eexists; reflexivity.
  - eexists. apply (pack_q_in_range z H).
  - eexists. reflexivity.
  - destruct H as [_ H]. rewrite (proj2 (Z.ltb_ge _ _)) by lia.
    rewrite pack_u_in_range; [eexists; reflexivity|].
    change (256 ^ Z.of_nat 2) with 65536. pose proof (blen_nonneg (str_encode s)). lia.
Qed.

Lemma stored_values_conforms vs cols :
  Forall2 (fun v c => conforms v (col_type c)) vs cols -> stored_values vs cols = Ok vs.
Proof.
  induction 1 as [|v c vs cols Hv _ IH]; [reflexivity|].
  simpl. rewrite (conforms_stored _ _ Hv), IH. reflexivity.
Qed.

Lemma encode_values_conforms vs cols :
  Forall2 (fun v c => conforms v (col_type c)) vs cols -> exists bs, encode_values vs cols = Ok bs.
Proof.
  induction 1 as [|v c vs cols Hv _ [bs IH]]; [eexists; reflexivity|].
  destruct (conforms_encodes _ _ Hv) as [b Hb]. simpl. rewrite Hb, IH. eexists; reflexivity.
Qed.

(** C28: every row whose values already have their columns' types and ranges is
    accepted by [encode_row], and [decode_row] returns exactly that row. *)
Theorem row_roundtrip vs sch :
  Forall2 (fun v c => conforms v (col_type c)) vs (columns sch) ->
  exists bs, encode_row vs sch = Ok bs /\ decode_row bs sch = Ok vs.
Proof.
  intros H. pose proof (Forall2_length _ _ _ H) as Hlen.
  destruct (encode_values_conforms _ _ H) as [bs Hbs]. exists bs.
  assert (encode_row vs sch = Ok bs) as He
    by (unfold encode_row, blen; rewrite Hlen, Z.eqb_refl; exact Hbs).
  split; [exact He|].
  destruct (decode_encode_columns vs (columns sch) bs [] [] Hlen Hbs) as (ws & Hs & Hd).
  { eapply Forall2_impl; [exact H|]. intros. by apply conforms_py_value_ok. }
  rewrite (stored_values_conforms _ _ H) in Hs. injection Hs as <-.
  rewrite app_nil_r in Hd. exact Hd.
Qed.

Lemma row_roundtrip_witness :
  exists bs, encode_row [VInt 1; VStr "nail"; VFloat 0; VBool true] example_schema = Ok bs /\
    decode_row bs example_schema = Ok [VInt 1; VStr "nail"; VFloat 0; VBool true].
Proof. apply row_roundtrip. repeat constructor; vm_compute; congruence. Defined.

(** ** The tuple header *)

Lemma pack_tuple_Ok xmin xmax p t :
  pack_tuple xmin xmax p = Ok t ->
  0 <= xmin < 2 ^ 32 /\ 0 <= xmax < 2 ^ 32 /\ t = le_enc 4 xmin ++ le_enc 4 xmax ++ p.
Proof.
  unfold pack_tuple. intros H. inv_ok.
  apply pack_u_Ok in Heqr as [? ->]. apply pack_u_Ok in Heqr0 as [? ->]. done.
Qed.

Lemma pack_tuple_in_range xmin xmax p :
  0 <= xmin < 2 ^ 32 -> 0 <= xmax < 2 ^ 32 ->
  pack_tuple xmin xmax p = Ok (le_enc 4 xmin ++ le_enc 4 xmax ++ p).
Proof. intros. unfold pack_tuple. rewrite !pack_u_in_range by done. reflexivity. Qed.

Lemma unpack_pack_tuple xmin xmax p t :
  pack_tuple xmin xmax p = Ok t ->
  unpack_tuple_header t = Ok (xmin, xmax) /\ tuple_payload t = p /\
  blen t = MVCC_HEADER_SIZE + blen p.
Proof.
  intros H. apply pack_tuple_Ok in H as (Hmin & Hmax & ->). pose proof (blen_nonneg p).
  unfold unpack_tuple_header, MVCC_HEADER_SIZE. split_and!.
  - replace (8 <=? blen (le_enc 4 xmin ++ le_enc 4 xmax ++ p)) with true
      by (symmetry; apply Z.leb_le; blen).
    pose proof (unpack_u_app 4 [] xmin (le_enc 4 xmax ++ p) Hmin) as E1. rewrite app_nil_l in E1.
    change (blen []) with 0 in E1. rewrite E1. unfold mbind, result_bind.
    pose proof (unpack_u_app 4 (le_enc 4 xmin) xmax p Hmax) as E2.
    rewrite blen_le_enc in E2. change (Z.of_nat 4) with 4 in E2. rewrite E2. reflexivity.
  - reflexivity.
  - blen.
Qed.

Lemma tuple_split t : 8 <= blen t ->
  exists xmin xmax, unpack_tuple_header t = Ok (xmin, xmax) /\
    pack_tuple xmin xmax (tuple_payload t) = Ok t.
Proof.
  intros Hl. unfold blen in Hl.
  destruct t as [|a0 [|a1 [|a2 [|a3 [|b0 [|b1 [|b2 [|b3 p]]]]]]]]; simpl in Hl; try lia.
  exists (le_dec [a0; a1; a2; a3]), (le_dec [b0; b1; b2; b3]).
  pose proof (le_dec_bound [a0; a1; a2; a3]) as Ha.
  pose proof (le_dec_bound [b0; b1; b2; b3]) as Hb.
  set (t := a0 :: a1 :: a2 :: a3 :: b0 :: b1 :: b2 :: b3 :: p).
  assert (pack_tuple (le_dec [a0; a1; a2; a3]) (le_dec [b0; b1; b2; b3]) p = Ok t) as Hp.
  { rewrite pack_tuple_in_range by done.
    rewrite (le_enc_dec [a0; a1; a2; a3] : le_enc 4 _ = _).
    rewrite (le_enc_dec [b0; b1; b2; b3] : le_enc 4 _ = _). reflexivity. }
  split; [apply (unpack_pack_tuple _ _ p), Hp | exact Hp].
Qed.

(** Stamping [xmax] on any stored tuple (8 bytes or more) gives a tuple of
    the same length with the same [xmin] and payload and the new [xmax], so it
    can be written back in place. *)
Theorem with_xmax_spec t xmax :
  8 <= blen t -> 0 <= xmax < 2 ^ 32 ->
  exists t' xmin old, with_xmax t xmax = Ok t' /\
    unpack_tuple_header t = Ok (xmin, old) /\
    unpack_tuple_header t' = Ok (xmin, xmax) /\
    tuple_payload t' = tuple_payload t /\ blen t' = blen t.
Proof.
  intros Hl Hx. destruct (tuple_split t Hl) as (xmin & old & Hu & Hp).
  pose proof (pack_tuple_Ok _ _ _ _ Hp) as (Hmin & Hold & _).
  pose proof (pack_tuple_in_range xmin xmax (tuple_payload t) Hmin Hx) as Hp'.
  eexists _, xmin, old. unfold with_xmax. rewrite Hu. split; [exact Hp'|].
  destruct (unpack_pack_tuple _ _ _ _ Hp') as (H1 & H2 & H3).
  destruct (unpack_pack_tuple _ _ _ _ Hp) as (_ & _ & H4).
  split_and!; [reflexivity | exact H1 | exact H2 | lia].
Qed.

Lemma with_xmax_spec_witness :
  exists t' xmin old, with_xmax (zeros 11) 9 = Ok t' /\
    unpack_tuple_header (zeros 11) = Ok (xmin, old) /\
    unpack_tuple_header t' = Ok (xmin, 9) /\
    tuple_payload t' = tuple_payload (zeros 11) /\ blen t' = blen (zeros 11).
Proof. apply with_xmax_spec; [vm_compute; congruence | lia]. Defined.
