(* ===== verification/PyVal.v ===== *)
(** Python's comparison operators on the values a cell, a key or an expression
    can have. Numbers (booleans included) compare by value, whatever their
    types; strings compare by code points, which is the order of their UTF-8
    bytes; anything else can be tested for equality only. *)
From stdpp Require Import base numbers list strings.
From Stdlib Require Import ZArith Lia SpecFloat Strings.Byte Sorting.Sorted.
From S2P Require Import Prelude PyNum Types.

Local Open Scope Z_scope.

(** * Definitions *)

Definition num_of (v : value) : option spec_float :=
  match v with
  | VBool b => Some (sf_of_Z (if b then 1 else 0))
  | VInt z => Some (sf_of_Z z)
  | VFloat bits => Some (float_decode bits)
  | VNone | VStr _ => None
  end.

(** [None]: the operands are unordered (a NaN); an exception: no order at all. *)
Definition py_compare (a b : value) : result (option comparison) :=
  match num_of a, num_of b with
  | Some x, Some y => Ok (num_compare x y)
  | _, _ => match a, b with
            | VStr s, VStr t => Ok (Some (String.compare s t))
            | _, _ => Raise TypeError
            end
  end.

Definition py_lt (a b : value) : result bool :=
  c ← py_compare a b; Ok (match c with Some Lt => true | _ => false end).
Definition py_le (a b : value) : result bool :=
  c ← py_compare a b; Ok (match c with Some Lt | Some Eq => true | _ => false end).
Definition py_gt (a b : value) : result bool :=
  c ← py_compare a b; Ok (match c with Some Gt => true | _ => false end).
Definition py_ge (a b : value) : result bool :=
  c ← py_compare a b; Ok (match c with Some Gt | Some Eq => true | _ => false end).

Definition py_eq (a b : value) : bool :=
  match num_of a, num_of b with
  | Some x, Some y => match num_compare x y with Some Eq => true | _ => false end
  | _, _ => match a, b with
            | VStr s, VStr t => (s =? t)%string
            | VNone, VNone => true
            | _, _ => false
            end
  end.

(** ** The [bisect] module *)

(** [while lo < hi], with [x < a[mid]] or [a[mid] < x] as the test. *)
Fixpoint bisect_right_from (fuel : nat) (a : list value) (x : value) (lo hi : Z) : result Z :=
  match fuel with
  | O => Raise Diverges
  | S fuel' =>
      if lo <? hi then
        let mid := (lo + hi) / 2 in
        match a !! Z.to_nat mid with
        | None => Raise IndexError
        | Some y => b ← py_lt x y;
            if b : bool then bisect_right_from fuel' a x lo mid else bisect_right_from fuel' a x (mid + 1) hi
        end
      else Ok lo
  end.
Definition bisect_right (a : list value) (x : value) : result Z :=
  bisect_right_from (S (length a)) a x 0 (blen a).

Fixpoint bisect_left_from (fuel : nat) (a : list value) (x : value) (lo hi : Z) : result Z :=
  match fuel with
  | O => Raise Diverges
  | S fuel' =>
      if lo <? hi then
        let mid := (lo + hi) / 2 in
        match a !! Z.to_nat mid with
        | None => Raise IndexError
        | Some y => b ← py_lt y x;
            if b : bool then bisect_left_from fuel' a x (mid + 1) hi else bisect_left_from fuel' a x lo mid
        end
      else Ok lo
  end.
Definition bisect_left (a : list value) (x : value) : result Z :=
  bisect_left_from (S (length a)) a x 0 (blen a).

(** * Keys: values of one ordered type *)

Inductive same_kind : value -> value -> Prop :=
| sk_int a b : same_kind (VInt a) (VInt b)
| sk_str s t : same_kind (VStr s) (VStr t).

(** A total order on all values that is Python's on values of one key type. *)
Definition krank (a : value) : Z :=
  match a with VNone => 0 | VBool false => 1 | VBool true => 2 | VInt _ => 3 | VFloat _ => 4 | VStr _ => 5 end.
Definition kcmp (a b : value) : comparison :=
  match a, b with
  | VInt x, VInt y => x ?= y
  | VFloat x, VFloat y => x ?= y
  | VStr s, VStr t => String.compare s t
  | _, _ => krank a ?= krank b
  end.

Lemma num_compare_Z a b : num_compare (sf_of_Z a) (sf_of_Z b) = Some (a ?= b).
Proof.
  destruct a as [|p|p], b as [|q|q]; try done; cbn -[Z.mul Z.pow Z.compare];
    rewrite ?Z.sub_0_r; change (2 ^ 0) with 1; rewrite ?Z.mul_1_r; done.
Qed.

Lemma py_compare_kind a b : same_kind a b -> py_compare a b = Ok (Some (kcmp a b)).
Proof. destruct 1; cbn [py_compare num_of kcmp]; [by rewrite num_compare_Z | done]. Qed.

Lemma py_lt_kind a b : same_kind a b -> py_lt a b = Ok (match kcmp a b with Lt => true | _ => false end).
Proof. intros H. unfold py_lt. rewrite py_compare_kind by done. reflexivity. Qed.

Lemma py_gt_kind a b : same_kind a b -> py_gt a b = Ok (match kcmp a b with Gt => true | _ => false end).
Proof. intros H. unfold py_gt. rewrite py_compare_kind by done. reflexivity. Qed.

Lemma ascii_compare_trans a b c o : Ascii.compare a b = o -> Ascii.compare b c = o -> Ascii.compare a c = o.
Proof.
  unfold Ascii.compare. destruct o.
  - rewrite !N.compare_eq_iff. congruence.
  - rewrite !N.compare_lt_iff. lia.
  - rewrite !N.compare_gt_iff. lia.
Qed.

Lemma string_compare_trans s t u o : String.compare s t = o -> String.compare t u = o -> String.compare s u = o.
Proof.
  revert t u. induction s as [|a s IH]; intros [|b t] [|c u]; cbn [String.compare]; try (intros; congruence).
  destruct (Ascii.compare a b) eqn:E1, (Ascii.compare b c) eqn:E2; intros H1 H2; subst; try discriminate;
    try (apply Ascii.compare_eq_iff in E1; subst); try (apply Ascii.compare_eq_iff in E2; subst);
    rewrite ?E1, ?E2; try done.
  - replace (Ascii.compare c c) with Eq by (unfold Ascii.compare; by rewrite N.compare_refl). eauto.
  - by rewrite (ascii_compare_trans _ _ _ _ E1 E2).
  - by rewrite (ascii_compare_trans _ _ _ _ E1 E2).
Qed.

Lemma kcmp_eq a b : kcmp a b = Eq <-> a = b.
Proof.
  destruct a as [|[]|x|x|s], b as [|[]|y|y|u]; cbn [kcmp krank]; rewrite ?Z.compare_eq_iff;
    try (split; (congruence || lia)).
  split; [by intros ->%String.compare_eq_iff|]. intros [= ->]. induction u as [|c u IH]; [done|].
  cbn [String.compare]. unfold Ascii.compare. by rewrite N.compare_refl.
Qed.

Lemma kcmp_refl a : kcmp a a = Eq.
Proof. by apply kcmp_eq. Qed.

Lemma kcmp_antisym a b : kcmp b a = CompOpp (kcmp a b).
Proof.
  destruct a as [|[]|x|x|s], b as [|[]|y|y|u]; cbn [kcmp krank]; apply Z.compare_antisym || apply String.compare_antisym.
Qed.

Lemma kcmp_trans a b c o : kcmp a b = o -> kcmp b c = o -> kcmp a c = o.
Proof.
  destruct a as [|[]|x|x|s], b as [|[]|y|y|u], c as [|[]|z|z|w]; cbn [kcmp krank];
    try (destruct o; rewrite ?Z.compare_eq_iff, ?Z.compare_lt_iff, ?Z.compare_gt_iff; lia).
  apply string_compare_trans.
Qed.

Lemma same_kind_sym a b : same_kind a b -> same_kind b a.
Proof. destruct 1; constructor. Qed.
Lemma same_kind_trans a b c : same_kind a b -> same_kind b c -> same_kind a c.
Proof. destruct 1; intros H; inversion H; constructor. Qed.

Definition klt (a b : value) : Prop := kcmp a b = Lt.
Definition kle (a b : value) : Prop := kcmp a b <> Gt.

Lemma klt_irrefl a : ~ klt a a.
Proof. unfold klt. by rewrite kcmp_refl. Qed.
Lemma klt_trans a b c : klt a b -> klt b c -> klt a c.
Proof. apply kcmp_trans. Qed.
Lemma kle_cases a b : kle a b <-> klt a b \/ a = b.
Proof. unfold kle, klt. rewrite <- kcmp_eq. destruct (kcmp a b); intuition congruence. Qed.
Lemma kle_refl a : kle a a.
Proof. apply kle_cases. auto. Qed.
Lemma klt_kle a b : klt a b -> kle a b.
Proof. intros. apply kle_cases. auto. Qed.
Lemma kle_klt a b c : kle a b -> klt b c -> klt a c.
Proof. intros [H| ->]%kle_cases ?; [by eapply klt_trans | done]. Qed.
Lemma klt_kle_trans a b c : klt a b -> kle b c -> klt a c.
Proof. intros ? [H| ->]%kle_cases; [by eapply klt_trans | done]. Qed.
Lemma kle_trans a b c : kle a b -> kle b c -> kle a c.
Proof. intros H [H'| ->]%kle_cases; [| done]. apply klt_kle. by eapply kle_klt. Qed.
Lemma klt_or_kle a b : klt a b \/ kle b a.
Proof. unfold klt, kle. rewrite (kcmp_antisym a b). destruct (kcmp a b); cbn; auto; by right. Qed.
Lemma klt_not_kle a b : klt a b -> ~ kle b a.
Proof. unfold klt, kle. rewrite (kcmp_antisym a b). intros ->. auto. Qed.

(** All values of one list are keys of the kind of [x]. *)
Definition kinds (x : value) (a : list value) : Prop := Forall (fun y => same_kind x y) a.
Definition ksorted (a : list value) : Prop := StronglySorted kle a.

(** Where [x] belongs in a sorted list: behind, or in front of, its equals. *)
Fixpoint upper (x : value) (a : list value) : nat :=
  match a with y :: a' => match kcmp x y with Lt => 0 | _ => S (upper x a') end | [] => 0 end.
Fixpoint lower (x : value) (a : list value) : nat :=
  match a with y :: a' => match kcmp y x with Lt => S (lower x a') | _ => 0 end | [] => 0 end.

Lemma upper_le x a : (upper x a <= length a)%nat.
Proof. induction a as [|y a IH]; cbn [upper length]; [done|]. case_match; lia. Qed.
Lemma lower_le x a : (lower x a <= length a)%nat.
Proof. induction a as [|y a IH]; cbn [lower length]; [done|]. case_match; lia. Qed.

Lemma upper_spec x a i y : ksorted a -> a !! i = Some y -> kcmp x y = Lt <-> (upper x a <= i)%nat.
Proof.
  revert i. induction a as [|z a IH]; intros i Hs Hi; [done|].
  inversion Hs as [|? ? Hs' Hall]; subst. cbn [upper].
  destruct i as [|i]; cbn in Hi.
  - injection Hi as ->. destruct (kcmp x y); split; (done || lia).
  - destruct (kcmp x z) eqn:E; [rewrite (IH i) by done; lia | | rewrite (IH i) by done; lia].
    split; [lia|]. intros _. apply (klt_kle_trans _ z _ E). by eapply Forall_lookup_1 in Hall.
Qed.

Lemma lower_spec x a i y : ksorted a -> a !! i = Some y -> kcmp y x = Lt <-> (i < lower x a)%nat.
Proof.
  revert i. induction a as [|z a IH]; intros i Hs Hi; [done|].
  inversion Hs as [|? ? Hs' Hall]; subst. cbn [lower].
  destruct i as [|i]; cbn in Hi.
  - injection Hi as ->. destruct (kcmp y x); split; (done || lia).
  - assert (kcmp z x <> Lt -> kcmp y x <> Lt) as Hno.
    { intros Hzx Hyx. apply Hzx. eapply Forall_lookup_1 in Hall; [| exact Hi]. by apply (kle_klt _ y). }
    destruct (kcmp z x) eqn:E; [split; [intros H; exfalso; by apply Hno | lia] | rewrite (IH i) by done; lia |
      split; [intros H; exfalso; by apply Hno | lia]].
Qed.

Lemma bisect_right_from_ok x a : kinds x a -> ksorted a -> forall fuel lo hi,
  0 <= lo <= hi -> hi <= blen a -> lo <= Z.of_nat (upper x a) <= hi -> hi - lo < Z.of_nat fuel ->
  bisect_right_from fuel a x lo hi = Ok (Z.of_nat (upper x a)).
Proof.
  intros Hk Hs. induction fuel as [|fuel IH]; intros lo hi Hlo Hhi Hu Hf; [lia|]. cbn [bisect_right_from].
  destruct (Z.ltb_spec lo hi) as [Hlt|Hge]; [| f_equal; lia].
  assert (lo <= (lo + hi) / 2 < hi) as Hm by (Z.to_euclidean_division_equations; lia). set (mid := (lo + hi) / 2) in *.
  destruct (a !! Z.to_nat mid) as [y|] eqn:Ey; [| apply lookup_ge_None in Ey; unfold blen in Hhi; lia].
  assert (same_kind x y) as Hxy by (eapply Forall_lookup_1 in Hk; eauto).
  rewrite py_lt_kind by done. cbn [mbind result_bind]. pose proof (upper_spec x a _ y Hs Ey) as Hsp.
  destruct (kcmp x y); (apply IH; [lia | lia | | lia]); split; try lia.
  - destruct (Z_le_gt_dec (Z.of_nat (upper x a)) mid); [| lia]. assert (upper x a <= Z.to_nat mid)%nat as H%Hsp by lia. done.
  - assert (upper x a <= Z.to_nat mid)%nat as H by (by apply Hsp). lia.
  - destruct (Z_le_gt_dec (Z.of_nat (upper x a)) mid); [| lia]. assert (upper x a <= Z.to_nat mid)%nat as H%Hsp by lia. done.
Qed.

Lemma bisect_right_ok x a : kinds x a -> ksorted a -> bisect_right a x = Ok (Z.of_nat (upper x a)).
Proof.
  intros Hk Hs. pose proof (upper_le x a). unfold bisect_right.
  apply bisect_right_from_ok; try done; unfold blen; lia.
Qed.

Lemma bisect_left_from_ok x a : kinds x a -> ksorted a -> forall fuel lo hi,
  0 <= lo <= hi -> hi <= blen a -> lo <= Z.of_nat (lower x a) <= hi -> hi - lo < Z.of_nat fuel ->
  bisect_left_from fuel a x lo hi = Ok (Z.of_nat (lower x a)).
Proof.
  intros Hk Hs. induction fuel as [|fuel IH]; intros lo hi Hlo Hhi Hu Hf; [lia|]. cbn [bisect_left_from].
  destruct (Z.ltb_spec lo hi) as [Hlt|Hge]; [| f_equal; lia].
  assert (lo <= (lo + hi) / 2 < hi) as Hm by (Z.to_euclidean_division_equations; lia). set (mid := (lo + hi) / 2) in *.
  destruct (a !! Z.to_nat mid) as [y|] eqn:Ey; [| apply lookup_ge_None in Ey; unfold blen in Hhi; lia].
  assert (same_kind x y) as Hxy by (eapply Forall_lookup_1 in Hk; eauto).
  rewrite py_lt_kind by (by apply same_kind_sym). cbn [mbind result_bind].
  pose proof (lower_spec x a _ y Hs Ey) as Hsp.
  destruct (kcmp y x); (apply IH; [lia | lia | | lia]); split; try lia.
  - destruct (Z_le_gt_dec (Z.of_nat (lower x a)) mid); [lia|]. assert (Z.to_nat mid < lower x a)%nat as H%Hsp by lia. done.
  - assert (Z.to_nat mid < lower x a)%nat as H by (by apply Hsp). lia.
  - destruct (Z_le_gt_dec (Z.of_nat (lower x a)) mid); [lia|]. assert (Z.to_nat mid < lower x a)%nat as H%Hsp by lia. done.
Qed.

Lemma bisect_left_ok x a : kinds x a -> ksorted a -> bisect_left a x = Ok (Z.of_nat (lower x a)).
Proof.
  intros Hk Hs. pose proof (lower_le x a). unfold bisect_left.
  apply bisect_left_from_ok; try done; unfold blen; lia.
Qed.

Lemma py_eq_kind a b : same_kind a b -> py_eq a b = bool_decide (a = b).
Proof.
  intros H. destruct H as [x y|s t]; cbn [py_eq num_of].
  - rewrite num_compare_Z. destruct (Z.compare_spec x y) as [->| |]; symmetry;
      [by apply bool_decide_eq_true_2 | apply bool_decide_eq_false_2 | apply bool_decide_eq_false_2]; intros [=]; lia.
  - destruct (String.eqb_spec s t) as [->|Hne]; symmetry;
      [by apply bool_decide_eq_true_2 | apply bool_decide_eq_false_2; congruence].
Qed.

Lemma upper_take x a : Forall (fun y => kle y x) (take (upper x a) a).
Proof.
  induction a as [|y a IH]; cbn [upper]; [done|]. destruct (kcmp x y) eqn:E; cbn [take]; constructor; try done;
    unfold kle; rewrite (kcmp_antisym x y), E; done.
Qed.
Lemma upper_drop x a : ksorted a -> Forall (klt x) (drop (upper x a) a).
Proof.
  induction 1 as [|y a Hs IH Hall]; cbn [upper]; [done|]. destruct (kcmp x y) eqn:E; cbn [drop]; try done.
  constructor; [done|]. eapply Forall_impl; [exact Hall|]. intros z Hz. by apply (klt_kle_trans _ y).
Qed.
Lemma lower_take x a : Forall (fun y => klt y x) (take (lower x a) a).
Proof.
  induction a as [|y a IH]; cbn [lower]; [done|]. destruct (kcmp y x) eqn:E; cbn [take]; constructor; done.
Qed.
Lemma lower_drop x a : ksorted a -> Forall (kle x) (drop (lower x a) a).
Proof.
  induction 1 as [|y a Hs IH Hall]; cbn [lower]; [done|].
  assert (kle x y -> Forall (kle x) (y :: a)) as Hc.
  { intros H. constructor; [done|]. eapply Forall_impl; [exact Hall|]. intros z. by apply kle_trans. }
  unfold kle in Hc at 1. rewrite (kcmp_antisym y x) in Hc. destruct (kcmp y x); cbn [drop]; try done; by apply Hc.
Qed.
Lemma lower_le_upper x a : (lower x a <= upper x a)%nat.
Proof.
  induction a as [|y a IH]; cbn [upper lower]; [done|]. rewrite (kcmp_antisym y x). destruct (kcmp y x); cbn; lia.
Qed.

Lemma ksorted_app a b : ksorted (a ++ b) <-> ksorted a /\ ksorted b /\ (forall x y, x ∈ a -> y ∈ b -> kle x y).
Proof.
  induction a as [|z a IH]; cbn [app].
  - split; [intros H; split_and!; [constructor | done | intros x y H'; by apply not_elem_of_nil in H'] | by intros (_ & H & _)].
  - split.
    + inversion 1 as [|? ? Hs Hall]; subst. apply Forall_app in Hall as [H1 H2]. apply IH in Hs as (Ha & Hb & Hab).
      split_and!; [by constructor | done |]. intros x y [->|Hx]%elem_of_cons Hy; [| by apply Hab].
      rewrite Forall_forall in H2. by apply H2.
    + intros (Ha & Hb & Hab). inversion Ha as [|? ? Hs Hall]; subst. constructor.
      * apply IH. split_and!; [done | done |]. intros x y Hx Hy. apply Hab; [by right | done].
      * apply Forall_app. split; [done|]. apply Forall_forall. intros y Hy. apply Hab; [left | done].
Qed.

(** Putting a key behind its equals keeps the list sorted. *)
Lemma ksorted_insert x a : ksorted a -> ksorted (take (upper x a) a ++ x :: drop (upper x a) a).
Proof.
  intros Hs. pose proof (upper_take x a) as Ht. pose proof (upper_drop x a Hs) as Hd.
  rewrite <- (take_drop (upper x a) a) in Hs. apply ksorted_app in Hs as (H1 & H2 & H12).
  rewrite Forall_forall in Ht, Hd. apply ksorted_app. split_and!; [done | |].
  - constructor; [done|]. apply Forall_forall. intros y Hy. by apply klt_kle, Hd.
  - intros y z Hy [->|Hz]%elem_of_cons; [by apply Ht | by apply H12].
Qed.

#[global] Instance klt_dec : RelDecision klt.
Proof. intros a b. unfold klt, Decision. destruct (kcmp a b); by (left + right). Defined.
#[global] Instance kle_dec : RelDecision kle.
Proof. intros a b. unfold kle, Decision. destruct (kcmp a b); by (left + (right; intros H; apply H)). Defined.
