(* ===== verification/Disk.v ===== *)
(** Page constants and row identifiers ([src/minirel/storage/page.py]) and the
    disk manager ([src/minirel/storage/disk_manager.py]): fixed-size page I/O
    on one file. The file handle is the file's bytes as the process sees them;
    [dm_synced] is what the last [fsync] made durable. The lock is not
    modelled (one thread). *)
From stdpp Require Import base numbers list gmap.
From Stdlib Require Import ZArith Lia Strings.Byte.
From S2P Require Import Prelude.

Local Open Scope Z_scope.

(** * Pages *)

Definition PAGE_SIZE : Z := 4096.
Definition INVALID_PAGE_ID : Z := 0xFFFFFFFF.

Inductive PageType : Set := FREE | HEAP | BTREE_INTERNAL | BTREE_LEAF.
Definition PageType_code (t : PageType) : Z :=
  match t with FREE => 0 | HEAP => 1 | BTREE_INTERNAL => 2 | BTREE_LEAF => 3 end.
Definition PageType_of (z : Z) : result PageType :=
  match z with
  | 0 => Ok FREE | 1 => Ok HEAP | 2 => Ok BTREE_INTERNAL | 3 => Ok BTREE_LEAF
  | _ => Raise ValueError
  end.

Record RID : Set := mkRID { page_id : Z; slot_id : Z }.
#[global] Instance RID_eq_dec : EqDecision RID.
Proof. solve_decision. Defined.
#[global] Instance RID_countable : Countable RID.
Proof.
  apply (inj_countable' (fun r => (page_id r, slot_id r)) (fun p => mkRID p.1 p.2)).
  by intros [].
Qed.

(** * The disk manager *)

Record DiskManager : Type := mkDisk {
  dm_file : list byte;
  dm_synced : list byte;
  dm_open : bool;
  dm_num_pages : Z }.

(** [DiskManager.__init__]: the file's bytes, or nothing when the path does not
    exist (it is then created empty). *)
Definition dm_init (existing : option (list byte)) : DiskManager :=
  let f := default [] existing in
  {| dm_file := f; dm_synced := f; dm_open := true; dm_num_pages := blen f / PAGE_SIZE |}.

(** [seek(offset); write(bs)]: a gap past the end of the file reads as zeros. *)
Definition file_write (f : list byte) (offset : Z) (bs : list byte) : list byte :=
  slice_set (f ++ zeros (offset - blen f)) offset (offset + blen bs) bs.

Definition set_file (f : list byte) (d : DiskManager) : DiskManager :=
  {| dm_file := f; dm_synced := dm_synced d; dm_open := dm_open d; dm_num_pages := dm_num_pages d |}.
Definition set_num_pages (n : Z) (d : DiskManager) : DiskManager :=
  {| dm_file := dm_file d; dm_synced := dm_synced d; dm_open := dm_open d; dm_num_pages := n |}.

(** Every operation on a closed handle raises [ValueError]; a negative offset
    cannot be sought. *)
Definition file_op (offset : Z) : M DiskManager unit :=
  open ← gets dm_open;
  if open && (0 <=? offset) then mret tt else raise ValueError.

Definition allocate_page : M DiskManager Z :=
  page_id ← gets dm_num_pages;
  file_op (page_id * PAGE_SIZE);;
  f ← gets dm_file;
  modify (set_file (file_write f (page_id * PAGE_SIZE) (zeros PAGE_SIZE)));;
  modify (set_num_pages (page_id + 1));;
  mret page_id.

Definition read_page (page_id : Z) : M DiskManager (list byte) :=
  n ← gets dm_num_pages;
  if n <=? page_id then raise ValueError else
  file_op (page_id * PAGE_SIZE);;
  f ← gets dm_file;
  let data := f.[page_id * PAGE_SIZE : page_id * PAGE_SIZE + PAGE_SIZE] in
  mret (if blen data <? PAGE_SIZE then data ++ zeros (PAGE_SIZE - blen data) else data).

Definition write_page (page_id : Z) (data : list byte) : M DiskManager unit :=
  if negb (blen data =? PAGE_SIZE) then raise ValueError else
  file_op (page_id * PAGE_SIZE);;
  f ← gets dm_file;
  modify (set_file (file_write f (page_id * PAGE_SIZE) data)).

Definition dm_fsync : M DiskManager unit :=
  file_op 0;;
  modify (fun d => {| dm_file := dm_file d; dm_synced := dm_file d; dm_open := dm_open d;
                      dm_num_pages := dm_num_pages d |}).

Definition dm_close : M DiskManager unit :=
  modify (fun d => {| dm_file := dm_file d; dm_synced := dm_synced d; dm_open := false;
                      dm_num_pages := dm_num_pages d |}).

(** ** The abstract disk: the list of its pages *)

Definition page_at (f : list byte) (i : Z) : list byte :=
  f.[i * PAGE_SIZE : i * PAGE_SIZE + PAGE_SIZE].
Definition disk_pages (d : DiskManager) : list (list byte) :=
  (fun i => page_at (dm_file d) (Z.of_nat i)) <$> seq 0 (Z.to_nat (dm_num_pages d)).

Record dm_wf (d : DiskManager) : Prop := {
  dwf_open : dm_open d = true;
  dwf_pages : 0 <= dm_num_pages d;
  dwf_size : dm_num_pages d * PAGE_SIZE <= blen (dm_file d) < (dm_num_pages d + 1) * PAGE_SIZE }.

(** * Theorems *)

Lemma blen_file_write f off bs :
  0 <= off -> blen (file_write f off bs) = Z.max (blen f) (off + blen bs).
Proof.
  intros H. unfold file_write, slice_set, blen, zeros.
  rewrite !length_app, length_take, length_drop, length_app, length_replicate. lia.
Qed.

Lemma file_write_in_range f off bs :
  off <= blen f -> file_write f off bs = slice_set f off (off + blen bs) bs.
Proof.
  intros H. unfold file_write, zeros. replace (Z.to_nat (off - blen f)) with 0%nat by lia.
  simpl. rewrite app_nil_r. reflexivity.
Qed.

Lemma page_at_write_eq f i bs :
  0 <= i -> i * PAGE_SIZE <= blen f -> blen bs = PAGE_SIZE ->
  page_at (file_write f (i * PAGE_SIZE) bs) i = bs.
Proof.
  intros Hi Hf Hb. unfold page_at, PAGE_SIZE in *. rewrite file_write_in_range by lia.
  rewrite Hb. unfold slice, slice_set, blen in *.
  rewrite drop_app_ge by (rewrite length_take; lia). rewrite length_take.
  replace (Z.to_nat (i * 4096) - Z.to_nat (i * 4096) `min` length f)%nat with 0%nat by lia.
  rewrite drop_0, take_app_le by lia. apply take_ge. lia.
Qed.

Lemma page_at_write_ne f i j bs :
  0 <= i -> 0 <= j -> i <> j -> j * PAGE_SIZE + PAGE_SIZE <= blen f ->
  i * PAGE_SIZE <= blen f -> blen bs = PAGE_SIZE ->
  page_at (file_write f (i * PAGE_SIZE) bs) j = page_at f j.
Proof.
  intros Hi Hj Hne Hf Hif Hb. unfold page_at, PAGE_SIZE in *. rewrite file_write_in_range by lia.
  rewrite Hb. apply list_eq. intros k. unfold slice, slice_set, blen in *.
  destruct (decide (k < Z.to_nat (j * 4096 + 4096 - j * 4096))%nat) as [Hk|Hk].
  2: { rewrite !lookup_take_ge by lia. reflexivity. }
  rewrite !lookup_take_lt, !lookup_drop by lia.
  destruct (decide (j < i)) as [Hji|Hji].
  - rewrite lookup_app_l by (rewrite length_take; lia). apply lookup_take_lt. lia.
  - rewrite lookup_app_r by (rewrite length_take; lia). rewrite length_take.
    rewrite lookup_app_r by lia. rewrite lookup_drop. f_equal. lia.
Qed.

Lemma blen_page_at f i : 0 <= i -> i * PAGE_SIZE + PAGE_SIZE <= blen f -> blen (page_at f i) = PAGE_SIZE.
Proof. intros. unfold page_at, PAGE_SIZE in *. rewrite blen_slice by lia. lia. Qed.

Lemma blen_zero_page : blen (zeros PAGE_SIZE) = PAGE_SIZE.
Proof. apply blen_zeros. unfold PAGE_SIZE. lia. Qed.

Lemma disk_pages_lookup d (i : nat) :
  disk_pages d !! i =
    if decide (Z.of_nat i < dm_num_pages d) then Some (page_at (dm_file d) (Z.of_nat i)) else None.
Proof.
  unfold disk_pages. rewrite list_lookup_fmap. case_decide as H.
  - rewrite lookup_seq_lt by lia. reflexivity.
  - rewrite lookup_seq_ge by lia. reflexivity.
Qed.

Lemma length_disk_pages d : length (disk_pages d) = Z.to_nat (dm_num_pages d).
Proof. unfold disk_pages. rewrite length_fmap, length_seq. reflexivity. Qed.

Lemma file_op_open d off : dm_open d = true -> 0 <= off -> file_op off d = (Ok tt, d).
Proof.
  intros Ho H. unfold file_op, gets, mbind, M_bind. rewrite Ho.
  replace (0 <=? off) with true by lia. reflexivity.
Qed.

Lemma dm_wf_page_size d i : dm_wf d -> 0 <= i < dm_num_pages d ->
  i * PAGE_SIZE + PAGE_SIZE <= blen (dm_file d).
Proof. intros [_ _ Hs] Hi. unfold PAGE_SIZE in *. lia. Qed.

Lemma dm_init_wf f : dm_wf (dm_init f).
Proof.
  unfold dm_init. set (b := default [] f). pose proof (blen_nonneg b).
  split; simpl; unfold PAGE_SIZE; [done | apply Z.div_pos; lia |].
  pose proof (Z.mul_div_le (blen b) 4096). pose proof (Z.mod_pos_bound (blen b) 4096 ltac:(lia)).
  pose proof (Z.div_mod (blen b) 4096 ltac:(lia)). lia.
Qed.

Lemma read_page_eq d i : dm_wf d -> 0 <= i < dm_num_pages d ->
  read_page i d = (Ok (page_at (dm_file d) i), d).
Proof.
  intros Hwf Hi. pose proof (dm_wf_page_size d i Hwf Hi) as Hsz.
  unfold read_page. mstep. replace (dm_num_pages d <=? i) with false by lia. mstep.
  rewrite (bind_ok _ _ _ tt d) by (apply file_op_open; [apply Hwf | unfold PAGE_SIZE; lia]). mstep.
  change ((dm_file d).[i * PAGE_SIZE : i * PAGE_SIZE + PAGE_SIZE]) with (page_at (dm_file d) i).
  rewrite blen_page_at by lia. rewrite Z.ltb_irrefl. reflexivity.
Qed.

Lemma write_page_eq d i bs : dm_open d = true -> 0 <= i -> blen bs = PAGE_SIZE ->
  write_page i bs d = (Ok tt, set_file (file_write (dm_file d) (i * PAGE_SIZE) bs) d).
Proof.
  intros Ho Hi Hb. unfold write_page. rewrite Hb, Z.eqb_refl. mstep.
  rewrite (bind_ok _ _ _ tt d) by (apply file_op_open; [done | unfold PAGE_SIZE; lia]). reflexivity.
Qed.

Lemma allocate_page_eq d : dm_wf d ->
  allocate_page d = (Ok (dm_num_pages d),
    set_num_pages (dm_num_pages d + 1)
      (set_file (file_write (dm_file d) (dm_num_pages d * PAGE_SIZE) (zeros PAGE_SIZE)) d)).
Proof.
  intros Hwf. unfold allocate_page. mstep. destruct Hwf as [Ho Hp _].
  rewrite (bind_ok _ _ _ tt d) by (apply file_op_open; [done | unfold PAGE_SIZE; lia]). reflexivity.
Qed.

Lemma allocate_page_wf d : dm_wf d -> dm_wf (snd (allocate_page d)).
Proof.
  intros Hwf. rewrite allocate_page_eq by done. destruct Hwf as [Ho Hp Hs]. split; simpl; [done | lia |].
  rewrite blen_file_write by (unfold PAGE_SIZE; lia).
  rewrite blen_zeros by (unfold PAGE_SIZE; lia). unfold PAGE_SIZE in *. lia.
Qed.

Lemma write_page_wf d i bs : dm_wf d -> 0 <= i < dm_num_pages d -> blen bs = PAGE_SIZE -> dm_wf (snd (write_page i bs d)).
Proof.
  intros Hwf Hi Hb. destruct Hwf as [Ho Hp Hs]. rewrite write_page_eq by (done || lia). split; simpl; [done..|].
  rewrite blen_file_write by (unfold PAGE_SIZE; lia). unfold PAGE_SIZE in *. lia.
Qed.

(** On a well-formed disk, [read_page], [write_page] and [allocate_page]
    implement lookup, update and append of an all-zero page on the list of
    pages, return without an exception, and keep the disk well formed. *)
Theorem disk_refines_page_list d i bs :
  dm_wf d -> 0 <= i < dm_num_pages d -> blen bs = PAGE_SIZE ->
  (exists data, read_page i d = (Ok data, d) /\ disk_pages d !! Z.to_nat i = Some data) /\
  (exists d', write_page i bs d = (Ok tt, d') /\ dm_wf d' /\
     disk_pages d' = <[Z.to_nat i := bs]> (disk_pages d)) /\
  (exists d', allocate_page d = (Ok (Z.of_nat (length (disk_pages d))), d') /\ dm_wf d' /\
     disk_pages d' = disk_pages d ++ [zeros PAGE_SIZE]).
Proof.
  intros Hwf Hi Hb. pose proof Hwf as [Ho Hp Hs].
  assert (forall j, 0 <= j < dm_num_pages d -> j * PAGE_SIZE + PAGE_SIZE <= blen (dm_file d)) as Hin
    by (intros; by apply dm_wf_page_size).
  split_and!.
  - eexists. split; [by apply read_page_eq|]. rewrite disk_pages_lookup, Z2Nat.id by lia.
    case_decide; [reflexivity | lia].
  - eexists. split; [apply write_page_eq; (done || lia)|].
    split; [pose proof (write_page_wf d i bs Hwf) as W; rewrite write_page_eq in W by (done || lia); apply W; (done || lia)|].
    apply list_eq. intros j. rewrite disk_pages_lookup. simpl.
    destruct (decide (j = Z.to_nat i)) as [->|Hne].
    + rewrite list_lookup_insert_eq by (rewrite length_disk_pages; lia).
      rewrite Z2Nat.id by lia. case_decide; [| lia].
      rewrite page_at_write_eq by (try done; try lia; pose proof (Hin i); unfold PAGE_SIZE in *; lia).
      reflexivity.
    + rewrite list_lookup_insert_ne by done. rewrite disk_pages_lookup. case_decide; [| reflexivity].
      rewrite page_at_write_ne; [reflexivity | lia | lia | lia | apply Hin; lia | | done].
      pose proof (Hin i). unfold PAGE_SIZE in *. lia.
  - eexists. split; [rewrite length_disk_pages, Z2Nat.id by lia; by apply allocate_page_eq|].
    split; [pose proof (allocate_page_wf d Hwf) as W; rewrite allocate_page_eq in W by done; exact W|].
    apply list_eq. intros j. rewrite disk_pages_lookup. simpl.
    destruct (decide (j < length (disk_pages d))%nat) as [Hj|Hj].
    + rewrite lookup_app_l by done. rewrite disk_pages_lookup. rewrite length_disk_pages in Hj.
      do 2 (case_decide; [| lia]).
      rewrite page_at_write_ne; [reflexivity | lia | lia | lia | apply Hin; lia | unfold PAGE_SIZE in *; lia |].
      unfold PAGE_SIZE. rewrite blen_zeros; lia.
    + rewrite lookup_app_r by lia. rewrite length_disk_pages in *. case_decide as Hd.
      * replace (Z.of_nat j) with (dm_num_pages d) by lia.
        rewrite page_at_write_eq; [| lia | lia | unfold PAGE_SIZE; rewrite blen_zeros; lia].
        replace (j - Z.to_nat (dm_num_pages d))%nat with 0%nat by lia. reflexivity.
      * rewrite lookup_ge_None_2; [reflexivity | simpl; lia].
Qed.

Lemma disk_refines_page_list_witness :
  let d := dm_init (Some (zeros 10000)) in
  (exists data, read_page 1 d = (Ok data, d) /\ disk_pages d !! 1%nat = Some data) /\
  (exists d', write_page 1 (zeros PAGE_SIZE) d = (Ok tt, d') /\ dm_wf d' /\
     disk_pages d' = <[1%nat := zeros PAGE_SIZE]> (disk_pages d)) /\
  (exists d', allocate_page d = (Ok (Z.of_nat (length (disk_pages d))), d') /\ dm_wf d' /\
     disk_pages d' = disk_pages d ++ [zeros PAGE_SIZE]).
Proof.
  intros d. apply (disk_refines_page_list d 1 (zeros PAGE_SIZE)).
  - apply dm_init_wf.
  - vm_compute. split; congruence.
  - vm_compute. reflexivity.
Defined.
