(* ===== verification/PageStore.v ===== *)
(** The interface between the page cache and its clients (the heap file and
    the B+-tree): pinned access to pages by page id, and what the cache
    promises about it. The clients' theorems are proved against
    [PageStoreSpec], or against [PageStoreCore] when they only unpin what is
    pinned; [BufferPool.v] discharges both. A store one of whose pages is held
    by somebody else is again a [PageStoreCore] (section [held]). *)
From stdpp Require Import base numbers list gmap.
From Stdlib Require Import ZArith Lia Strings.Byte.
From S2P Require Import Prelude Disk.

Local Open Scope Z_scope.

(** * Operations *)

(** [S] is the store's state and [H] a reference to a page's bytearray, valid
    while the page is pinned. *)
Class PageStore (S H : Type) : Type := {
  ps_fetch : Z -> M S H;
  ps_new : M S (Z * H);
  ps_unpin : Z -> bool -> M S unit;
  ps_flush : Z -> M S unit;
  ps_get : H -> M S (list byte);
  ps_set : H -> list byte -> M S unit;
  ps_count : S -> Z }.

(** Pin counts, by page; a page without an entry is not pinned. *)
Definition pin_inc (p : Z) (m : gmap Z Z) : gmap Z Z := <[p := default 0 (m !! p) + 1]> m.
Definition pin_dec (p : Z) (m : gmap Z Z) : gmap Z Z :=
  match m !! p with
  | Some n => if n =? 1 then delete p m else <[p := n - 1]> m
  | None => m
  end.

(** * Laws *)

Class PageStoreCore (S H : Type) `{PageStore S H} : Type := {
  ps_inv : S -> Prop;
  (** the current contents of every page, cached or not *)
  ps_view : S -> gmap Z (list byte);
  ps_pins : S -> gmap Z Z;
  (** how many pages can be pinned at the same time *)
  ps_cap : S -> Z;
  (** the reference is the bytearray of that (pinned) page *)
  ps_holds : S -> H -> Z -> Prop;
  (** no change of the page is waiting for a [dirty] mark *)
  ps_clean : S -> Z -> Prop;

  ps_view_dom s p : ps_inv s -> is_Some (ps_view s !! p) <-> 0 <= p < ps_count s;
  ps_view_size s p d : ps_inv s -> ps_view s !! p = Some d -> blen d = PAGE_SIZE;
  ps_pins_pos s p n : ps_inv s -> ps_pins s !! p = Some n -> 0 < n;
  ps_pins_dom s p : ps_inv s -> is_Some (ps_pins s !! p) -> is_Some (ps_view s !! p);
  ps_unpinned_clean s p : ps_inv s -> ps_pins s !! p = None -> ps_clean s p;

  ps_fetch_ok s p :
    ps_inv s -> is_Some (ps_view s !! p) ->
    is_Some (ps_pins s !! p) \/ Z.of_nat (size (ps_pins s)) < ps_cap s ->
    runs (ps_fetch p) s (fun h s' =>
      ps_inv s' /\ ps_view s' = ps_view s /\ ps_pins s' = pin_inc p (ps_pins s) /\
      ps_cap s' = ps_cap s /\ ps_count s' = ps_count s /\ ps_holds s' h p /\
      (forall h' q, ps_holds s h' q -> ps_holds s' h' q) /\
      (forall q, ps_clean s q -> ps_clean s' q));
  ps_fetch_missing s p :
    ps_inv s -> ps_view s !! p = None -> Z.of_nat (size (ps_pins s)) < ps_cap s ->
    exists s', ps_fetch p s = (Raise ValueError, s');
  ps_new_ok s :
    ps_inv s -> Z.of_nat (size (ps_pins s)) < ps_cap s ->
    runs ps_new s (fun r s' =>
      fst r = ps_count s /\ ps_view s !! fst r = None /\
      ps_inv s' /\ ps_view s' = <[fst r := zeros PAGE_SIZE]> (ps_view s) /\
      ps_pins s' = pin_inc (fst r) (ps_pins s) /\
      ps_cap s' = ps_cap s /\ ps_count s' = ps_count s + 1 /\ ps_holds s' (snd r) (fst r) /\
      (forall h' q, ps_holds s h' q -> ps_holds s' h' q) /\
      (forall q, ps_clean s q -> ps_clean s' q));
  ps_get_ok s h p :
    ps_inv s -> ps_holds s h p ->
    exists d, ps_get h s = (Ok d, s) /\ ps_view s !! p = Some d;
  ps_set_ok s h p d :
    ps_inv s -> ps_holds s h p -> blen d = PAGE_SIZE ->
    runs (ps_set h d) s (fun _ s' =>
      ps_inv s' /\ ps_view s' = <[p := d]> (ps_view s) /\ ps_pins s' = ps_pins s /\
      ps_cap s' = ps_cap s /\ ps_count s' = ps_count s /\
      (forall h' q, ps_holds s h' q -> ps_holds s' h' q) /\
      (forall q, q <> p -> ps_clean s q -> ps_clean s' q));
  ps_unpin_pinned s p dirty :
    ps_inv s -> is_Some (ps_pins s !! p) -> dirty = true \/ ps_clean s p ->
    runs (ps_unpin p dirty) s (fun _ s' =>
      ps_inv s' /\ ps_view s' = ps_view s /\ ps_pins s' = pin_dec p (ps_pins s) /\
      ps_cap s' = ps_cap s /\ ps_count s' = ps_count s /\
      (forall h' q, is_Some (ps_pins s' !! q) -> ps_holds s h' q -> ps_holds s' h' q) /\
      (forall q, ps_clean s q -> ps_clean s' q));
  ps_unpin_clean s p dirty :
    ps_inv s -> dirty = true \/ ps_clean s p -> runs (ps_unpin p dirty) s (fun _ s' => ps_clean s' p);
  ps_flush_ok s p :
    ps_inv s ->
    runs (ps_flush p) s (fun _ s' =>
      ps_inv s' /\ ps_view s' = ps_view s /\ ps_pins s' = ps_pins s /\
      ps_cap s' = ps_cap s /\ ps_count s' = ps_count s /\
      (forall h' q, ps_holds s h' q -> ps_holds s' h' q) /\
      (forall q, ps_clean s q -> ps_clean s' q)) }.

(** Unpinning a page that is not pinned is allowed too. *)
Class PageStoreSpec (S H : Type) `{PageStore S H} : Type := {
  ps_core :: PageStoreCore S H;
  ps_unpin_ok s p dirty :
    ps_inv s -> dirty = true \/ ps_clean s p ->
    runs (ps_unpin p dirty) s (fun _ s' =>
      ps_inv s' /\ ps_view s' = ps_view s /\ ps_pins s' = pin_dec p (ps_pins s) /\
      ps_cap s' = ps_cap s /\ ps_count s' = ps_count s /\
      (forall h' q, is_Some (ps_pins s' !! q) -> ps_holds s h' q -> ps_holds s' h' q) /\
      (forall q, ps_clean s q -> ps_clean s' q)) }.

(** In-place mutation of a page's bytearray: [f] may raise, and then nothing
    is written. *)
Definition ps_update {S H} `{PageStore S H} (h : H) (f : list byte -> result (list byte)) : M S unit :=
  d ← ps_get h; d' ← lift_result (f d); ps_set h d'.

(** Nothing a client can observe of the store changed. *)
Definition keeps {S H} `{PageStoreCore S H} (s s' : S) : Prop :=
  ps_inv s' /\ ps_view s' = ps_view s /\ ps_pins s' = ps_pins s /\
  ps_cap s' = ps_cap s /\ ps_count s' = ps_count s.

(** * Pin arithmetic *)

Lemma pin_dec_inc p m : (forall n, m !! p = Some n -> 0 < n) -> pin_dec p (pin_inc p m) = m.
Proof.
  intros Hpos. unfold pin_dec, pin_inc. rewrite lookup_insert_eq.
  destruct (m !! p) as [n|] eqn:E; simpl.
  - specialize (Hpos n eq_refl). destruct (Z.eqb_spec (n + 1) 1); [lia|].
    rewrite insert_insert_eq. replace (n + 1 - 1) with n by lia. by apply insert_id.
  - rewrite delete_insert_eq. by apply delete_id.
Qed.

Lemma pin_dec_None p m : m !! p = None -> pin_dec p m = m.
Proof. intros H. unfold pin_dec. rewrite H. reflexivity. Qed.

Lemma pin_inc_lookup p q m :
  pin_inc p m !! q = if decide (p = q) then Some (default 0 (m !! p) + 1) else m !! q.
Proof. unfold pin_inc. rewrite lookup_insert. by case_decide. Qed.

Lemma pin_inc_pinned p m : is_Some (pin_inc p m !! p).
Proof. rewrite pin_inc_lookup, decide_True by done. eauto. Qed.

(** The page just fetched, or created, is pinned. *)
Ltac pinned := repeat match goal with E : ?f ?a = _ |- is_Some (?f ?a !! _) => rewrite E end; apply pin_inc_pinned.

Lemma pin_dec_lookup_ne p q m : p <> q -> pin_dec p m !! q = m !! q.
Proof.
  intros Hne. unfold pin_dec. destruct (m !! p); [| done]. destruct (_ =? 1).
  - by apply lookup_delete_ne.
  - by apply lookup_insert_ne.
Qed.

Lemma pin_inc_dec_comm p q m : p <> q -> pin_dec p (pin_inc q m) = pin_inc q (pin_dec p m).
Proof.
  intros Hne. unfold pin_dec, pin_inc. rewrite lookup_insert_ne by done.
  destruct (m !! p) as [n|] eqn:E; [| done]. destruct (n =? 1).
  - rewrite lookup_delete_ne by done. by rewrite delete_insert_ne.
  - rewrite lookup_insert_ne by done. by rewrite insert_insert_ne.
Qed.

Lemma size_pin_inc p m : (size (pin_inc p m) <= S (size m))%nat.
Proof.
  unfold pin_inc. destruct (m !! p) eqn:E.
  - rewrite map_size_insert_Some by eauto. lia.
  - rewrite map_size_insert_None by done. lia.
Qed.

(** * Programs over a page store *)

Section client.
Context {S H : Type} `{PageStoreCore S H}.

Lemma keeps_refl s : ps_inv s -> keeps s s.
Proof. by intros. Qed.

Lemma keeps_trans s1 s2 s3 : keeps s1 s2 -> keeps s2 s3 -> keeps s1 s3.
Proof. unfold keeps. intros (A1 & A2 & A3 & A4 & A5) (B1 & B2 & B3 & B4 & B5). split_and!; congruence. Qed.

Lemma ps_update_ok s h p d f d' :
  ps_inv s -> ps_holds s h p -> ps_view s !! p = Some d -> f d = Ok d' -> blen d' = PAGE_SIZE ->
  runs (ps_update h f) s (fun _ s' =>
    ps_inv s' /\ ps_view s' = <[p := d']> (ps_view s) /\ ps_pins s' = ps_pins s /\
    ps_cap s' = ps_cap s /\ ps_count s' = ps_count s /\
    (forall h' q, ps_holds s h' q -> ps_holds s' h' q) /\
    (forall q, q <> p -> ps_clean s q -> ps_clean s' q)).
Proof.
  intros Hinv Hh Hd Hf Hs. destruct (ps_get_ok s h p Hinv Hh) as (d0 & Hg & Hd0).
  rewrite Hd in Hd0. injection Hd0 as <-. unfold ps_update. rstep.
  apply (runs_eq _ _ _ _ _ Hg). rstep. rewrite Hf. apply (runs_eq _ _ d' s); [done|].
  by apply ps_set_ok.
Qed.

Lemma pins_dec_inc s p : ps_inv s -> pin_dec p (pin_inc p (ps_pins s)) = ps_pins s.
Proof. intros Hinv. apply pin_dec_inc. intros n Hn. by apply (ps_pins_pos s p n). Qed.

(** A page is fetched, used without being changed, and unpinned: whatever the
    middle part returns, the store is as before. *)
Lemma read_only_ok {A} p d (body : H -> M S A) s (Q : A -> Prop) :
  ps_inv s -> ps_view s !! p = Some d -> Z.of_nat (size (ps_pins s)) < ps_cap s -> ps_clean s p ->
  (forall h s1, ps_get h s1 = (Ok d, s1) -> runs (body h) s1 (fun a s2 => Q a /\ s2 = s1)) ->
  runs (h ← ps_fetch p; try_finally (body h) (ps_unpin p false)) s (fun a s' => Q a /\ keeps s s').
Proof.
  intros Hinv Hd Hcap Hcl Hbody. rstep. eapply runs_mono; [apply ps_fetch_ok; eauto|].
  intros h s1 (I1 & V1 & P1 & C1 & N1 & Ho & _ & CL1). rstep.
  destruct (ps_get_ok s1 h p I1 Ho) as (d0 & Hg & Hd0). rewrite V1, Hd in Hd0. injection Hd0 as <-.
  eapply runs_mono; [by apply Hbody|]. intros a s2 [HQ ->].
  eapply runs_mono; [apply ps_unpin_pinned; [done | pinned | right; auto]|].
  intros _ s3 (I3 & V3 & P3 & C3 & N3 & _ & _). split; [done|]. unfold keeps.
  rewrite P3, P1, (pins_dec_inc s p Hinv). split_and!; congruence.
Qed.

(** The same without [try]: fetch, read something off the bytes, unpin, go on. *)
Lemma peek_ok {A B} p d (f : list byte -> result B) x (k : B -> M S A) s (Q : A -> S -> Prop) :
  ps_inv s -> ps_view s !! p = Some d -> Z.of_nat (size (ps_pins s)) < ps_cap s -> ps_clean s p ->
  f d = Ok x -> (forall s', keeps s s' -> runs (k x) s' Q) ->
  runs (h ← ps_fetch p; d ← ps_get h; y ← lift_result (f d); ps_unpin p false;; k y) s Q.
Proof.
  intros Hinv Hd Hcap Hcl Hf Hk. rstep. eapply runs_mono; [apply ps_fetch_ok; eauto|].
  intros h s1 (I1 & V1 & P1 & C1 & N1 & Ho & _ & CL1). rstep.
  destruct (ps_get_ok s1 h p I1 Ho) as (d0 & Hg & Hd0). rewrite V1, Hd in Hd0. injection Hd0 as <-.
  apply (runs_eq _ _ _ _ _ Hg). rstep. rewrite Hf. apply (runs_eq _ _ x s1); [done|]. rstep.
  eapply runs_mono; [apply ps_unpin_pinned; [done | pinned | right; auto]|].
  intros _ s3 (I3 & V3 & P3 & C3 & N3 & _ & _). apply Hk. unfold keeps.
  rewrite P3, P1, (pins_dec_inc s p Hinv). split_and!; congruence.
Qed.

(** A pinned page can be changed: fetch, change, unpin as dirty. *)
Lemma holds_dom s h p : ps_inv s -> ps_holds s h p -> exists d, ps_view s !! p = Some d.
Proof. intros Hinv Hh. destruct (ps_get_ok s h p Hinv Hh) as (d & _ & Hd). eauto. Qed.

(** The pages [ps] are not pinned, and [k] more pages can be. *)
Definition room (s : S) (ps : list Z) (k : Z) : Prop :=
  ps_inv s /\ Z.of_nat (size (ps_pins s)) + k <= ps_cap s /\ forall q, q ∈ ps -> ps_pins s !! q = None.

Lemma room_keeps s s' ps k : room s ps k -> keeps s s' -> room s' ps k.
Proof. intros (Hi & Hc & Hp) (I & _ & P & C & _). split_and!; [done | by rewrite P, C | by rewrite P]. Qed.

Lemma room_sub s ps ps' k k' : room s ps k -> (forall q, q ∈ ps' -> q ∈ ps) -> k' <= k -> room s ps' k'.
Proof. intros (Hi & Hc & Hp) Hsub Hk. split_and!; [done | lia | auto]. Qed.

Lemma room_clean s ps k q : room s ps k -> q ∈ ps -> ps_clean s q.
Proof. intros (Hi & _ & Hp) Hq. apply ps_unpinned_clean; auto. Qed.

Lemma room_size s ps k : room s ps k -> 1 <= k -> Z.of_nat (size (ps_pins s)) < ps_cap s.
Proof. intros (_ & Hc & _) Hk. lia. Qed.

(** Fetch a page of such a list to read it: unpinned again, the store is as
    before. *)
Lemma fetch_read {A} p d (k : H -> M S A) s ps n (Q : A -> S -> Prop) :
  room s ps n -> 1 <= n -> p ∈ ps -> ps_view s !! p = Some d ->
  (forall h s1, ps_get h s1 = (Ok d, s1) -> runs (ps_unpin p false) s1 (fun _ s2 => keeps s s2) -> runs (k h) s1 Q) ->
  runs (h ← ps_fetch p; k h) s Q.
Proof.
  intros Hr Hn Hp Hd Hk. destruct Hr as (Hinv & Hcap & Hun). rstep.
  eapply runs_mono; [apply ps_fetch_ok; [done | eauto | right; lia]|].
  intros h s1 (I1 & V1 & P1 & C1 & N1 & Ho & _ & CL1).
  destruct (ps_get_ok s1 h p I1 Ho) as (d0 & Hg & Hd0). rewrite V1, Hd in Hd0. injection Hd0 as <-.
  apply (Hk h s1 Hg). eapply runs_mono; [apply ps_unpin_pinned; [done | pinned | right; apply CL1, ps_unpinned_clean; auto]|].
  intros _ s3 (I3 & V3 & P3 & C3 & N3 & _ & _). unfold keeps.
  rewrite P3, P1, (pins_dec_inc s p Hinv). split_and!; congruence.
Qed.

(** The pages [ps] exist, so there are no more of them than the store has. *)
Lemma pages_count s ps : ps_inv s -> NoDup ps -> (forall p, p ∈ ps -> is_Some (ps_view s !! p)) ->
  (length ps <= Z.to_nat (ps_count s))%nat.
Proof.
  intros Hinv Hnd Hps. rewrite <- (length_seqZ 0 (ps_count s)). apply submseteq_length, NoDup_submseteq; [done|].
  intros p Hp. apply elem_of_seqZ. apply Hps, ps_view_dom in Hp; [lia | done].
Qed.

(** Nothing pinned, and two pages can be. *)
Record idle (s : S) : Prop := {
  id_inv : ps_inv s;
  id_pins : ps_pins s = ∅;
  id_cap : 2 <= ps_cap s }.
Lemma idle_room s ps k : idle s -> k <= 2 -> room s ps k.
Proof. intros [Hi Hp Hc] Hk. split_and!; [done | rewrite Hp, map_size_empty; lia | intros q _; by rewrite Hp, lookup_empty]. Qed.
Lemma idle_keeps s s' : idle s -> keeps s s' -> idle s'.
Proof. intros [Hi Hp Hc] (I & _ & P & C & _). split; [done | congruence | lia]. Qed.
End client.
