(* ===== verification/HeldStore.v ===== *)
(** A page store one of whose pages is pinned by somebody else, as the heap scan
    holds its page while the consumer of a row works on the store: seen without
    that pin it is again a page store, with room for one page less. What is
    proved of any store holds of it, and the reference stays valid. *)
From stdpp Require Import base numbers list gmap.
From Stdlib Require Import ZArith Lia Strings.Byte.
From S2P Require Import Prelude Disk PageStore.

Local Open Scope Z_scope.

(** * Pin arithmetic *)

Lemma pin_dec_pos p m : (forall q n, m !! q = Some n -> 0 < n) -> forall q n, pin_dec p m !! q = Some n -> 0 < n.
Proof.
  intros Hm q n. unfold pin_dec. destruct (m !! p) as [k|] eqn:E; [| apply Hm]. specialize (Hm p k E) as Hk.
  destruct (Z.eqb_spec k 1).
  - intros [_ Hq]%lookup_delete_Some. by eapply Hm.
  - rewrite lookup_insert. case_decide; [intros [= <-]; lia | apply Hm].
Qed.
Lemma pin_dec_some p q m : is_Some (pin_dec p m !! q) -> is_Some (m !! q).
Proof.
  unfold pin_dec. destruct (m !! p) as [k|] eqn:E; [| done]. destruct (k =? 1).
  - intros [x [_ Hq]%lookup_delete_Some]. eauto.
  - rewrite lookup_insert. case_decide; [intros _; subst; eauto | done].
Qed.
Lemma pin_dec_comm p q m : pin_dec p (pin_dec q m) = pin_dec q (pin_dec p m).
Proof.
  destruct (decide (p = q)) as [->|Hne]; [done|]. unfold pin_dec at 1 3. rewrite !pin_dec_lookup_ne by done.
  unfold pin_dec. destruct (m !! p) as [a|] eqn:Ea, (m !! q) as [b|] eqn:Eb; try done.
  - destruct (a =? 1), (b =? 1); [apply delete_delete | by rewrite delete_insert_ne | by rewrite delete_insert_ne | by apply insert_insert_ne].
Qed.
Lemma pin_inc_dec p m n : m !! p = Some n -> 0 < n -> pin_inc p (pin_dec p m) = m.
Proof.
  intros E Hn. unfold pin_dec, pin_inc. rewrite E. destruct (Z.eqb_spec n 1) as [->|].
  - rewrite lookup_delete_eq, insert_delete_eq. cbn. by apply insert_id.
  - rewrite lookup_insert_eq. cbn [default id]. rewrite insert_insert_eq. replace (n - 1 + 1) with n by lia. by apply insert_id.
Qed.
Lemma size_pin_dec p m : (size m <= size (pin_dec p m) + 1)%nat.
Proof.
  unfold pin_dec. destruct (m !! p) as [k|] eqn:E; [| lia]. destruct (k =? 1).
  - rewrite map_size_delete_Some by eauto. lia.
  - rewrite map_size_insert_Some by eauto. lia.
Qed.

(** * The store without the pin *)

Section held.
Context {S H : Type} {store : PageStore S H} {core : PageStoreCore S H} (h0 : H) (p0 : Z).

Definition others (s : S) : gmap Z Z := pin_dec p0 (ps_pins s).
Record held_inv (s : S) : Prop := {
  hi_inv : ps_inv s;
  hi_holds : ps_holds s h0 p0;
  hi_pinned : is_Some (ps_pins s !! p0);
  hi_clean : others s !! p0 = None -> ps_clean s p0 }.
Definition held_holds (s : S) (h : H) (p : Z) : Prop := ps_holds s h p /\ is_Some (others s !! p).

Lemma others_inc p s s' : held_inv s -> ps_pins s' = pin_inc p (ps_pins s) -> others s' = pin_inc p (others s).
Proof using Type.
  intros [Hi _ [n Hn] _] E. unfold others. rewrite E. pose proof (ps_pins_pos s p0 n Hi Hn) as Hpos.
  destruct (decide (p0 = p)) as [<-|Hne]; [| by apply pin_inc_dec_comm].
  rewrite (pin_inc_dec p0 _ n) by done. by apply pins_dec_inc.
Qed.

(** Calls that pin a page [p], or leave the pins alone. *)
Lemma held_pin p s s' : held_inv s -> ps_inv s' -> ps_pins s' = pin_inc p (ps_pins s) ->
  (forall h q, ps_holds s h q -> ps_holds s' h q) -> (forall q, ps_clean s q -> ps_clean s' q) ->
  held_inv s' /\ forall h q, held_holds s h q -> held_holds s' h q.
Proof using Type.
  intros Hs Hi' P Hh Hc. pose proof (others_inc p s s' Hs P) as Eo. destruct Hs as [Hi Ho [n Hn] Hcl]. split.
  - split; [done | auto | rewrite P, pin_inc_lookup; case_decide; eauto |]. rewrite Eo, pin_inc_lookup. case_decide; [done | auto].
  - intros h q [H1 [k H2]]. split; [auto|]. rewrite Eo, pin_inc_lookup. case_decide; eauto.
Qed.
Lemma held_still s s' : held_inv s -> ps_inv s' -> ps_pins s' = ps_pins s ->
  (forall h q, ps_holds s h q -> ps_holds s' h q) -> (others s !! p0 = None -> ps_clean s' p0) ->
  held_inv s' /\ forall h q, held_holds s h q -> held_holds s' h q.
Proof using Type.
  intros [Hi Ho Hp Hcl] Hi' P Hh Hc. assert (others s' = others s) as Eo by (unfold others; by rewrite P). split.
  - split; [done | auto | by rewrite P | by rewrite Eo].
  - intros h q [H1 H2]. split; [auto | by rewrite Eo].
Qed.

Lemma held_room s : held_inv s -> Z.of_nat (size (others s)) < ps_cap s - 1 -> Z.of_nat (size (ps_pins s)) < ps_cap s.
Proof using Type. intros _ Hc. pose proof (size_pin_dec p0 (ps_pins s)). unfold others in Hc. lia. Qed.

Program Definition held_store : PageStoreCore S H := {|
  ps_inv := held_inv; ps_view := ps_view; ps_pins := others; ps_cap s := ps_cap s - 1;
  ps_holds := held_holds; ps_clean := ps_clean |}.
Next Obligation. intros s p Hs. apply ps_view_dom, Hs. Qed.
Next Obligation. intros s p d Hs. apply ps_view_size, Hs. Qed.
Next Obligation. intros s p n Hs. apply pin_dec_pos. intros q k. apply ps_pins_pos, Hs. Qed.
Next Obligation. intros s p Hs Hp. apply ps_pins_dom; [apply Hs | by eapply pin_dec_some]. Qed.
Next Obligation.
  intros s p Hs Hp. destruct (decide (p = p0)) as [->|Hne]; [by apply (hi_clean s Hs)|].
  apply ps_unpinned_clean; [apply Hs|]. unfold others in Hp. by rewrite pin_dec_lookup_ne in Hp.
Qed.
Next Obligation.
  intros s p Hs Hv Hc. eapply runs_mono; [apply ps_fetch_ok; [apply Hs | done |]|].
  { destruct Hc as [Hc|Hc]; [left; by eapply pin_dec_some | right; by apply held_room]. }
  intros h s' (I & V & P & C & N & Ho & Hh & Hcl). destruct (held_pin p s s' Hs I P Hh Hcl) as [Hs' Hh'].
  split_and!; try done; [by apply others_inc | lia |]. split; [done|]. rewrite (others_inc p s s') by done. apply pin_inc_pinned.
Qed.
Next Obligation. intros s p Hs Hv Hc. apply ps_fetch_missing; [apply Hs | done | by apply held_room]. Qed.
Next Obligation.
  intros s Hs Hc. eapply runs_mono; [apply ps_new_ok; [apply Hs | by apply held_room]|].
  intros [p h] s' (E & Hf & I & V & P & C & N & Ho & Hh & Hcl). cbn [fst snd] in *. destruct (held_pin p s s' Hs I P Hh Hcl) as [Hs' Hh'].
  split_and!; try done; [by apply others_inc | lia |]. split; [done|]. rewrite (others_inc p s s') by done. apply pin_inc_pinned.
Qed.
Next Obligation. intros s h p Hs [Hh _]. apply ps_get_ok; [apply Hs | done]. Qed.
Next Obligation.
  intros s h p d Hs [Hh Hp] Hd. eapply runs_mono; [apply (ps_set_ok s h p d); [apply Hs | done | done]|].
  intros [] s' (I & V & P & C & N & Hh' & Hcl). destruct (held_still s s' Hs I P Hh') as [Hs' Hh2].
  { intros Hn. destruct (decide (p0 = p)) as [<-|Hne]; [rewrite Hn in Hp; by destruct Hp|]. apply Hcl; [done|]. by apply (hi_clean s Hs). }
  split_and!; try done; [unfold others; by rewrite P | lia].
Qed.
Next Obligation.
  intros s p dirty Hs Hp Hd. destruct (ps_unpin_clean s p dirty (hi_inv s Hs) Hd) as ([] & s0 & E0 & Hclean).
  destruct (ps_unpin_pinned s p dirty (hi_inv s Hs) (pin_dec_some _ _ _ Hp) Hd) as ([] & s' & E & I & V & P & C & N & Hh & Hcl).
  rewrite E in E0. injection E0 as <-. apply (runs_eq _ _ _ _ _ E).
  assert (others s' = pin_dec p (others s)) as Eo by (unfold others; by rewrite P, pin_dec_comm).
  assert (is_Some (ps_pins s' !! p0)) as Hp0.
  { rewrite P. destruct (decide (p = p0)) as [->|Hne]; [exact Hp|]. rewrite pin_dec_lookup_ne by done. apply Hs. }
  split_and!; try done; [| lia |].
  - split; [done | apply Hh; [done | apply Hs] | done |]. rewrite Eo. intros Hn. destruct (decide (p = p0)) as [->|Hne]; [done|].
    apply Hcl, (hi_clean s Hs). by rewrite pin_dec_lookup_ne in Hn.
  - intros h' q Hq [Ho _]. split; [| done]. apply Hh; [by eapply pin_dec_some | done].
Qed.
Next Obligation. intros s p dirty Hs Hd. apply ps_unpin_clean; [apply Hs | done]. Qed.
Next Obligation.
  intros s p Hs. eapply runs_mono; [apply ps_flush_ok, Hs|]. intros [] s' (I & V & P & C & N & Hh & Hcl).
  destruct (held_still s s' Hs I P Hh) as [Hs' Hh2]; [intros Hn; by apply Hcl, (hi_clean s Hs)|].
  split_and!; try done; [unfold others; by rewrite P | lia].
Qed.

(** A page fetched while nothing is pinned: the others see a store without pins. *)
Lemma held_fetched s s' : ps_inv s -> ps_pins s = ∅ -> ps_inv s' -> ps_pins s' = pin_inc p0 (ps_pins s) -> ps_holds s' h0 p0 -> ps_clean s' p0 ->
  held_inv s' /\ others s' = ∅.
Proof using Type.
  intros Hi E Hi' P Hh Hc. assert (others s' = ∅) as Eo by (unfold others; rewrite P, E; by apply (pin_dec_inc p0 ∅)).
  split; [| done]. split; [done | done | rewrite P; apply pin_inc_pinned | done].
Qed.
End held.
