(* ===== verification/BufferPool.v ===== *)
(** The buffer pool ([src/minirel/storage/buffer_pool.py]): a fixed set of
    frames caching disk pages, with pin counts, dirty flags and LRU eviction.
    A page's bytearray is named by the index of the frame that owns it; the
    clients use it only between the fetch and the matching unpin, while the
    frame cannot be given to another page. [bp_lru] lists the unpinned frames,
    least recently unpinned first. *)
From stdpp Require Import base numbers list gmap.
From Stdlib Require Import ZArith Lia Strings.Byte.
From S2P Require Import Prelude Disk PageStore.

Local Open Scope Z_scope.

(** * Definitions *)

Record Frame : Type := mkFrame {
  fr_page_id : option Z;
  fr_data : list byte;
  fr_pin_count : Z;
  fr_dirty : bool }.

Definition new_frame : Frame := mkFrame None (zeros PAGE_SIZE) 0 false.

Record BufferPoolManager : Type := mkPool {
  bp_disk : DiskManager;
  bp_pool_size : Z;
  bp_frames : list Frame;
  bp_page_table : gmap Z nat;
  bp_free_frames : list nat;
  bp_lru : list nat;
  bp_disk_reads : Z;
  bp_disk_writes : Z;
  bp_cache_hits : Z }.

Definition bp_init (d : DiskManager) (pool_size : Z) : BufferPoolManager :=
  {| bp_disk := d; bp_pool_size := pool_size;
     bp_frames := replicate (Z.to_nat pool_size) new_frame;
     bp_page_table := ∅; bp_free_frames := seq 0 (Z.to_nat pool_size); bp_lru := [];
     bp_disk_reads := 0; bp_disk_writes := 0; bp_cache_hits := 0 |}.

(** ** Field updates *)

Definition set_disk d s := mkPool d (bp_pool_size s) (bp_frames s) (bp_page_table s)
  (bp_free_frames s) (bp_lru s) (bp_disk_reads s) (bp_disk_writes s) (bp_cache_hits s).
Definition set_frames fs s := mkPool (bp_disk s) (bp_pool_size s) fs (bp_page_table s)
  (bp_free_frames s) (bp_lru s) (bp_disk_reads s) (bp_disk_writes s) (bp_cache_hits s).
Definition set_table t s := mkPool (bp_disk s) (bp_pool_size s) (bp_frames s) t
  (bp_free_frames s) (bp_lru s) (bp_disk_reads s) (bp_disk_writes s) (bp_cache_hits s).
Definition set_free l s := mkPool (bp_disk s) (bp_pool_size s) (bp_frames s) (bp_page_table s)
  l (bp_lru s) (bp_disk_reads s) (bp_disk_writes s) (bp_cache_hits s).
Definition set_lru l s := mkPool (bp_disk s) (bp_pool_size s) (bp_frames s) (bp_page_table s)
  (bp_free_frames s) l (bp_disk_reads s) (bp_disk_writes s) (bp_cache_hits s).
Definition add_read s := mkPool (bp_disk s) (bp_pool_size s) (bp_frames s) (bp_page_table s)
  (bp_free_frames s) (bp_lru s) (bp_disk_reads s + 1) (bp_disk_writes s) (bp_cache_hits s).
Definition add_write s := mkPool (bp_disk s) (bp_pool_size s) (bp_frames s) (bp_page_table s)
  (bp_free_frames s) (bp_lru s) (bp_disk_reads s) (bp_disk_writes s + 1) (bp_cache_hits s).
Definition add_hit s := mkPool (bp_disk s) (bp_pool_size s) (bp_frames s) (bp_page_table s)
  (bp_free_frames s) (bp_lru s) (bp_disk_reads s) (bp_disk_writes s) (bp_cache_hits s + 1).

(** A call of the pool's disk manager. *)
Definition on_disk {A} (m : M DiskManager A) : M BufferPoolManager A := fun s =>
  let '(r, d) := m (bp_disk s) in (r, set_disk d s).

(** [self._frames[frame_idx]], and an assignment to its fields. *)
Definition get_frame (i : nat) : M BufferPoolManager Frame :=
  fs ← gets bp_frames;
  match fs !! i with Some f => mret f | None => raise IndexError end.
Definition put_frame (i : nat) (f : Frame) : M BufferPoolManager unit :=
  modify (fun s => set_frames (<[i := f]> (bp_frames s)) s).

(** ** Internal helpers *)

(** [frame.page_id] used as a number, as a dict key: an empty frame has [None]. *)
Definition frame_page (f : Frame) (e : exn) : M BufferPoolManager Z :=
  match fr_page_id f with Some p => mret p | None => raise e end.

Definition evict_one : M BufferPoolManager nat :=
  free ← gets bp_free_frames;
  match last free with
  | Some i => modify (set_free (take (pred (length free)) free));; mret i
  | None =>
      lru ← gets bp_lru;
      match lru with
      | [] => raise BufferPoolFullError
      | frame_idx :: lru' =>
          modify (set_lru lru');;
          frame ← get_frame frame_idx;
          (if fr_dirty frame
           then p ← frame_page frame TypeError;
                on_disk (write_page p (fr_data frame));; modify add_write
           else mret tt);;
          p ← frame_page frame KeyError;
          table ← gets bp_page_table;
          match table !! p with
          | Some _ => modify (set_table (delete p table));; mret frame_idx
          | None => raise KeyError
          end
      end
  end.

Definition pin (frame_idx : nat) : M BufferPoolManager unit :=
  f ← get_frame frame_idx;
  put_frame frame_idx (mkFrame (fr_page_id f) (fr_data f) (fr_pin_count f + 1) (fr_dirty f));;
  modify (fun s => set_lru (filter (fun j => j <> frame_idx) (bp_lru s)) s).

(** [self._page_table[page_id] = frame_idx] *)
Definition enter_table (page_id : Z) (frame_idx : nat) : M BufferPoolManager unit :=
  modify (fun s => set_table (<[page_id := frame_idx]> (bp_page_table s)) s).

(** ** Public API *)

Definition fetch_page (page_id : Z) : M BufferPoolManager nat :=
  table ← gets bp_page_table;
  match table !! page_id with
  | Some frame_idx => modify add_hit;; pin frame_idx;; mret frame_idx
  | None =>
      frame_idx ← evict_one;
      get_frame frame_idx;;
      data ← on_disk (read_page page_id);
      modify add_read;;
      put_frame frame_idx (mkFrame (Some page_id) data 0 false);;
      enter_table page_id frame_idx;;
      pin frame_idx;;
      mret frame_idx
  end.

Definition new_page : M BufferPoolManager (Z * nat) :=
  page_id ← on_disk allocate_page;
  frame_idx ← evict_one;
  get_frame frame_idx;;
  put_frame frame_idx (mkFrame (Some page_id) (zeros PAGE_SIZE) 0 false);;
  enter_table page_id frame_idx;;
  pin frame_idx;;
  mret (page_id, frame_idx).

(** [self._lru[frame_idx] = None]: a key already present keeps its place. *)
Definition lru_add (l : list nat) (i : nat) : list nat := if decide (i ∈ l) then l else l ++ [i].

Definition unpin_page (page_id : Z) (dirty : bool) : M BufferPoolManager unit :=
  table ← gets bp_page_table;
  match table !! page_id with
  | None => mret tt
  | Some frame_idx =>
      f ← get_frame frame_idx;
      let n := if 0 <? fr_pin_count f then fr_pin_count f - 1 else fr_pin_count f in
      put_frame frame_idx (mkFrame (fr_page_id f) (fr_data f) n (fr_dirty f || dirty));;
      if n =? 0 then modify (fun s => set_lru (lru_add (bp_lru s) frame_idx) s) else mret tt
  end.

Definition flush_page (page_id : Z) : M BufferPoolManager unit :=
  table ← gets bp_page_table;
  match table !! page_id with
  | None => mret tt
  | Some frame_idx =>
      f ← get_frame frame_idx;
      if fr_dirty f then
        on_disk (write_page page_id (fr_data f));;
        modify add_write;;
        put_frame frame_idx (mkFrame (fr_page_id f) (fr_data f) (fr_pin_count f) false)
      else mret tt
  end.

Fixpoint flush_pages (ps : list Z) : M BufferPoolManager unit :=
  match ps with [] => mret tt | p :: ps' => flush_page p;; flush_pages ps' end.

Definition flush_all : M BufferPoolManager unit :=
  table ← gets bp_page_table;
  flush_pages (fst <$> map_to_list table);;
  on_disk dm_fsync.

(** Reading and mutating the bytearray of a frame. *)
Definition frame_bytes (i : nat) : M BufferPoolManager (list byte) :=
  f ← get_frame i; mret (fr_data f).
Definition set_frame_bytes (i : nat) (d : list byte) : M BufferPoolManager unit :=
  f ← get_frame i;
  put_frame i (mkFrame (fr_page_id f) d (fr_pin_count f) (fr_dirty f)).

#[global] Instance buffer_pool_store : PageStore BufferPoolManager nat := {
  ps_fetch := fetch_page;
  ps_new := new_page;
  ps_unpin := unpin_page;
  ps_flush := flush_page;
  ps_get := frame_bytes;
  ps_set := set_frame_bytes;
  ps_count := fun s => dm_num_pages (bp_disk s) }.

(** ** Invariant and abstraction *)

(** Frame [i] holds page [p] of a disk of [n] pages. *)
Record frame_ok (n : Z) (fs : list Frame) (lru : list nat) (p : Z) (i : nat) (f : Frame) : Prop := {
  fok_frame : fs !! i = Some f;
  fok_page : fr_page_id f = Some p;
  fok_size : blen (fr_data f) = PAGE_SIZE;
  fok_range : 0 <= p < n;
  fok_pin : 0 <= fr_pin_count f;
  fok_lru : i ∈ lru <-> fr_pin_count f = 0 }.

(** The frame's contents reach the disk: they are marked, or already there. *)
Definition frame_clean (file : list byte) (p : Z) (f : Frame) : Prop :=
  fr_dirty f = true \/ fr_data f = page_at file p.

Record pool_inv (d : DiskManager) (fs : list Frame) (t : gmap Z nat) (free lru : list nat) : Prop := {
  inv_disk : dm_wf d;
  inv_free : NoDup free;
  inv_free_frame i : i ∈ free -> (i < length fs)%nat /\ forall p, t !! p <> Some i;
  inv_table p i : t !! p = Some i -> exists f, frame_ok (dm_num_pages d) fs lru p i f;
  inv_lru : NoDup lru;
  inv_lru_frame i : i ∈ lru -> exists p, t !! p = Some i;
  inv_clean p i f : t !! p = Some i -> fs !! i = Some f ->
    fr_pin_count f = 0 -> frame_clean (dm_file d) p f }.

Definition bp_inv (s : BufferPoolManager) : Prop :=
  pool_inv (bp_disk s) (bp_frames s) (bp_page_table s) (bp_free_frames s) (bp_lru s).

(** The contents of page [p]: its frame's when resident, else the disk's. *)
Definition bp_content (s : BufferPoolManager) (p : Z) : list byte :=
  match bp_page_table s !! p with
  | Some i => match bp_frames s !! i with Some f => fr_data f | None => [] end
  | None => page_at (dm_file (bp_disk s)) p
  end.

Definition zmap {A} (f : Z -> A) (n : Z) : gmap Z A :=
  list_to_map ((fun i => (i, f i)) <$> seqZ 0 n).

Definition bp_view (s : BufferPoolManager) : gmap Z (list byte) :=
  zmap (bp_content s) (dm_num_pages (bp_disk s)).

Definition frame_pins (fs : list Frame) (i : nat) : option Z :=
  match fs !! i with
  | Some f => if 0 <? fr_pin_count f then Some (fr_pin_count f) else None
  | None => None
  end.
Definition bp_pins (s : BufferPoolManager) : gmap Z Z := omap (frame_pins (bp_frames s)) (bp_page_table s).

(** Frames the pool can still use: the free ones and the ones holding a page. *)
Definition bp_cap (s : BufferPoolManager) : Z :=
  Z.of_nat (length (bp_free_frames s)) + Z.of_nat (size (bp_page_table s)).

Definition bp_holds (s : BufferPoolManager) (i : nat) (p : Z) : Prop :=
  bp_page_table s !! p = Some i /\ is_Some (bp_pins s !! p).

Definition bp_clean (s : BufferPoolManager) (p : Z) : Prop :=
  forall i f, bp_page_table s !! p = Some i -> bp_frames s !! i = Some f ->
  frame_clean (dm_file (bp_disk s)) p f.

(** * Lemmas *)

Lemma lookup_zmap {A} (f : Z -> A) n p :
  zmap f n !! p = if decide (0 <= p < n) then Some (f p) else None.
Proof.
  unfold zmap. case_decide as H.
  - apply elem_of_list_to_map.
    + rewrite <- list_fmap_compose. simpl. rewrite list_fmap_id. apply NoDup_seqZ.
    + apply list_elem_of_fmap. exists p. split; [done|]. apply elem_of_seqZ. lia.
  - apply not_elem_of_list_to_map. rewrite <- list_fmap_compose. simpl. rewrite list_fmap_id.
    intros Hin. apply elem_of_seqZ in Hin. lia.
Qed.

Lemma pool_table_inj d fs t free lru p q i :
  pool_inv d fs t free lru -> t !! p = Some i -> t !! q = Some i -> p = q.
Proof.
  intros Hinv Hp Hq. destruct (inv_table _ _ _ _ _ Hinv p i Hp) as [f Hf].
  destruct (inv_table _ _ _ _ _ Hinv q i Hq) as [g Hg]. destruct Hf, Hg. congruence.
Qed.

Lemma frame_pins_pos fs i n : frame_pins fs i = Some n -> 0 < n.
Proof.
  unfold frame_pins. destruct (fs !! i) as [f|]; [| done].
  destruct (Z.ltb_spec 0 (fr_pin_count f)); congruence.
Qed.

Lemma bp_pins_lookup s p :
  bp_pins s !! p = match bp_page_table s !! p with Some i => frame_pins (bp_frames s) i | None => None end.
Proof. unfold bp_pins. rewrite lookup_omap. by destruct (bp_page_table s !! p). Qed.

Lemma pool_unpinned_in_lru d fs t free lru p i :
  pool_inv d fs t free lru -> t !! p = Some i -> frame_pins fs i = None -> i ∈ lru.
Proof.
  intros Hinv Hp Hn. destruct (inv_table _ _ _ _ _ Hinv p i Hp) as [f [Hf _ _ _ Hpin Hl]].
  apply Hl. unfold frame_pins in Hn. rewrite Hf in Hn.
  destruct (Z.ltb_spec 0 (fr_pin_count f)); [done | lia].
Qed.

(** When fewer pages are pinned than frames are usable, a frame can be had. *)
Lemma bp_evictable s :
  bp_inv s -> Z.of_nat (size (bp_pins s)) < bp_cap s -> bp_free_frames s <> [] \/ bp_lru s <> [].
Proof.
  intros Hinv Hlt. destruct (bp_free_frames s) as [|x l] eqn:Ef; [| by left].
  destruct (bp_lru s) as [|y l'] eqn:El; [| by right]. exfalso.
  assert (dom (bp_pins s) = dom (bp_page_table s)) as Hd.
  { apply set_eq. intros p. rewrite !elem_of_dom, bp_pins_lookup.
    destruct (bp_page_table s !! p) as [i|] eqn:Ep; [| done].
    split; [by eauto|]. intros _. destruct (frame_pins (bp_frames s) i) eqn:Ei; [by eauto|].
    apply (pool_unpinned_in_lru _ _ _ _ _ _ _ Hinv Ep) in Ei. rewrite El in Ei.
    by apply not_elem_of_nil in Ei. }
  unfold bp_cap in Hlt. rewrite Ef, <- (size_dom (bp_page_table s)), <- Hd, size_dom in Hlt.
  simpl in Hlt. lia.
Qed.

(** ** Changing one resident frame *)

Definition upd (s : BufferPoolManager) (i : nat) (f : Frame) (lru : list nat) : BufferPoolManager :=
  set_lru lru (set_frames (<[i := f]> (bp_frames s)) s).

Section one_frame.
Context (s : BufferPoolManager) (p : Z) (i : nat) (f f' : Frame) (lru' : list nat).
Context (Hinv : bp_inv s) (Hp : bp_page_table s !! p = Some i) (Hi : bp_frames s !! i = Some f).
Context (Hpage : fr_page_id f' = fr_page_id f) (Hsize : blen (fr_data f') = PAGE_SIZE).
Context (Hpin : 0 <= fr_pin_count f') (Hnd : NoDup lru').
Context (Hlru : forall j, j <> i -> j ∈ lru' <-> j ∈ bp_lru s) (Hlru_i : i ∈ lru' <-> fr_pin_count f' = 0).
Context (Hcl : fr_pin_count f' = 0 -> frame_clean (dm_file (bp_disk s)) p f').

Lemma upd_other q j : q <> p -> bp_page_table s !! q = Some j -> j <> i.
Proof using Hinv Hp.
  intros Hne Hq ->. apply Hne. symmetry. by apply (pool_table_inj _ _ _ _ _ _ _ _ Hinv Hp).
Qed.

Lemma upd_inv : bp_inv (upd s i f' lru').
Proof using Type*.
  assert (i < length (bp_frames s))%nat as Hlt by (by apply lookup_lt_Some in Hi).
  destruct (inv_table _ _ _ _ _ Hinv p i Hp) as [g Hg].
  assert (g = f) as -> by (destruct Hg; congruence).
  constructor; simpl.
  - apply Hinv.
  - apply Hinv.
  - intros j Hj. rewrite length_insert. by apply Hinv.
  - intros q j Hq. destruct (decide (q = p)) as [->|Hne].
    + assert (j = i) as -> by congruence. exists f'. destruct Hg.
      constructor; try done; [by apply list_lookup_insert_eq | congruence].
    + pose proof (upd_other q j Hne Hq) as Hji.
      destruct (inv_table _ _ _ _ _ Hinv q j Hq) as [k []]. exists k. constructor; try done.
      * by rewrite list_lookup_insert_ne.
      * by rewrite Hlru.
  - done.
  - intros j Hj. destruct (decide (j = i)) as [->|Hne]; [by exists p|].
    apply Hinv. by apply Hlru.
  - intros q j k Hq Hk Hz. destruct (decide (q = p)) as [->|Hne].
    + assert (j = i) as -> by congruence. rewrite list_lookup_insert_eq in Hk by done.
      injection Hk as <-. by apply Hcl.
    + pose proof (upd_other q j Hne Hq) as Hji. rewrite list_lookup_insert_ne in Hk by done.
      by apply (inv_clean _ _ _ _ _ Hinv q j k).
Qed.

Lemma upd_view : bp_view (upd s i f' lru') = <[p := fr_data f']> (bp_view s).
Proof using Hinv Hp Hi.
  assert (i < length (bp_frames s))%nat as Hlt by (by apply lookup_lt_Some in Hi).
  apply map_eq. intros q. unfold bp_view. rewrite lookup_insert, !lookup_zmap. simpl.
  destruct (inv_table _ _ _ _ _ Hinv p i Hp) as [g []].
  unfold bp_content. simpl. destruct (decide (p = q)) as [<-|Hne].
  - rewrite Hp, list_lookup_insert_eq by done. by case_decide.
  - destruct (bp_page_table s !! q) as [j|] eqn:Hq; [| done].
    rewrite list_lookup_insert_ne by (intros <-; by apply (upd_other q i)). done.
Qed.

Lemma upd_pins :
  bp_pins (upd s i f' lru') =
    if 0 <? fr_pin_count f' then <[p := fr_pin_count f']> (bp_pins s) else delete p (bp_pins s).
Proof using Hinv Hp Hi.
  assert (i < length (bp_frames s))%nat as Hlt by (by apply lookup_lt_Some in Hi).
  apply map_eq. intros q. rewrite bp_pins_lookup. simpl.
  destruct (decide (q = p)) as [->|Hne].
  - rewrite Hp. unfold frame_pins. rewrite list_lookup_insert_eq by done.
    destruct (0 <? fr_pin_count f'); by simplify_map_eq.
  - transitivity (bp_pins s !! q).
    + rewrite bp_pins_lookup. destruct (bp_page_table s !! q) as [j|] eqn:Hq; [| done].
      unfold frame_pins. rewrite list_lookup_insert_ne; [done|].
      intros <-. by apply (upd_other q i).
    + destruct (0 <? fr_pin_count f'); by simplify_map_eq.
Qed.

Lemma upd_clean q : (q <> p -> bp_clean s q) -> (q = p -> frame_clean (dm_file (bp_disk s)) p f') ->
  bp_clean (upd s i f' lru') q.
Proof using Hinv Hp Hi.
  assert (i < length (bp_frames s))%nat as Hlt by (by apply lookup_lt_Some in Hi).
  intros Hc Hcp j k Hq Hk. simpl in *. destruct (decide (q = p)) as [->|Hne].
  - assert (j = i) as -> by congruence. rewrite list_lookup_insert_eq in Hk by done.
    injection Hk as <-. by apply Hcp.
  - rewrite list_lookup_insert_ne in Hk by (intros <-; by apply (upd_other q i)). by apply (Hc Hne j k).
Qed.
End one_frame.

Lemma get_frame_ok s i f : bp_frames s !! i = Some f -> get_frame i s = (Ok f, s).
Proof. intros H. unfold get_frame. mstep. rewrite H. reflexivity. Qed.

(** ** Pinning a resident page *)

Lemma pin_eq s i f : bp_frames s !! i = Some f ->
  pin i s = (Ok tt, upd s i (mkFrame (fr_page_id f) (fr_data f) (fr_pin_count f + 1) (fr_dirty f))
                      (filter (fun j => j <> i) (bp_lru s))).
Proof.
  intros H. unfold pin. rewrite (bind_ok _ _ _ f s) by (by apply get_frame_ok). reflexivity.
Qed.

Lemma pinned_lookup s p i f : bp_page_table s !! p = Some i -> bp_frames s !! i = Some f ->
  0 <= fr_pin_count f -> default 0 (bp_pins s !! p) = fr_pin_count f.
Proof.
  intros Hp Hi Hpin. rewrite bp_pins_lookup, Hp. unfold frame_pins. rewrite Hi.
  destruct (Z.ltb_spec 0 (fr_pin_count f)); simpl; lia.
Qed.

Lemma bp_holds_mono s s' :
  (forall p, is_Some (bp_pins s' !! p) -> is_Some (bp_pins s !! p) ->
     bp_page_table s' !! p = bp_page_table s !! p) ->
  forall i q, is_Some (bp_pins s' !! q) -> bp_holds s i q -> bp_holds s' i q.
Proof. intros Ht i q Hq [H1 H2]. split; [| done]. by rewrite Ht. Qed.

Lemma pin_inc_is_Some p q m : is_Some (m !! q) -> is_Some (pin_inc p m !! q).
Proof. intros H. rewrite pin_inc_lookup. by case_decide; [eauto|]. Qed.

(** What a successful fetch promises, [s'] being the state after it. *)
Definition fetched (s : BufferPoolManager) (p : Z) (i : nat) (s' : BufferPoolManager) : Prop :=
  bp_inv s' /\ bp_view s' = bp_view s /\ bp_pins s' = pin_inc p (bp_pins s) /\
  bp_cap s' = bp_cap s /\ dm_num_pages (bp_disk s') = dm_num_pages (bp_disk s) /\ bp_holds s' i p /\
  (forall h' q, bp_holds s h' q -> bp_holds s' h' q) /\
  (forall q, bp_clean s q -> bp_clean s' q).

Lemma fetch_hit_ok s p i :
  bp_inv s -> bp_page_table s !! p = Some i -> runs (fetch_page p) s (fetched s p).
Proof.
  intros Hinv Hp. destruct (inv_table _ _ _ _ _ Hinv p i Hp) as [f [Hf Hpg Hsz Hr Hpin Hl]].
  set (f' := mkFrame (fr_page_id f) (fr_data f) (fr_pin_count f + 1) (fr_dirty f)).
  set (s0 := add_hit s). set (s' := upd s0 i f' (filter (fun j => j <> i) (bp_lru s))).
  apply (runs_eq _ _ i s').
  { unfold fetch_page. mstep. rewrite Hp. mstep.
    rewrite (bind_ok _ _ _ _ _ (pin_eq s0 i f Hf)). reflexivity. }
  assert (bp_inv s') as Hinv'.
  { apply (upd_inv s0 p i f f'); try done.
    - simpl. lia.
    - apply NoDup_filter, Hinv.
    - intros j Hj. rewrite list_elem_of_filter. naive_solver.
    - rewrite list_elem_of_filter. simpl. split; [naive_solver | lia].
    - simpl. lia. }
  assert (bp_pins s' = pin_inc p (bp_pins s)) as Hpins.
  { pose proof (upd_pins s0 p i f f' (filter (fun j => j <> i) (bp_lru s)) Hinv Hp Hf) as E.
    fold s' in E. rewrite E. simpl. replace (0 <? fr_pin_count f + 1) with true by lia.
    unfold pin_inc. rewrite (pinned_lookup s p i f) by done. reflexivity. }
  unfold fetched. split_and!; try done.
  - pose proof (upd_view s0 p i f f' (filter (fun j => j <> i) (bp_lru s)) Hinv Hp Hf) as E.
    fold s' in E. rewrite E. apply insert_id. change (bp_view s0) with (bp_view s).
    unfold bp_view. rewrite lookup_zmap, decide_True by done.
    unfold bp_content. rewrite Hp, Hf. reflexivity.
  - split; [done|]. rewrite Hpins, pin_inc_lookup, decide_True by done. eauto.
  - intros h q Hh. eapply (bp_holds_mono s); [done | | done].
    rewrite Hpins. apply pin_inc_is_Some, Hh.
  - intros q Hc. eapply (upd_clean s0); [done | done | done | done |].
    intros ->. destruct (Hc i f Hp Hf); [by left | by right].
Qed.

(** ** Eviction *)

(** Frame [i] was taken from the pool: no list and no page refers to it. *)
Definition evicted (s : BufferPoolManager) (i : nat) (s' : BufferPoolManager) : Prop :=
  bp_inv s' /\ (i < length (bp_frames s'))%nat /\
  (i ∉ bp_free_frames s') /\ (forall p, bp_page_table s' !! p <> Some i) /\
  bp_view s' = bp_view s /\ bp_pins s' = bp_pins s /\ bp_cap s' = bp_cap s - 1 /\
  dm_num_pages (bp_disk s') = dm_num_pages (bp_disk s) /\
  (forall q, bp_page_table s !! q = None -> bp_page_table s' !! q = None) /\
  (forall q, is_Some (bp_pins s !! q) -> bp_page_table s' !! q = bp_page_table s !! q) /\
  (forall q, bp_page_table s' !! q = None -> 0 <= q < dm_num_pages (bp_disk s) ->
     page_at (dm_file (bp_disk s')) q = bp_content s q) /\
  (forall q, bp_clean s q -> bp_clean s' q).

Lemma evict_free_ok s x free :
  bp_inv s -> bp_free_frames s = free ++ [x] -> runs evict_one s (evicted s).
Proof.
  intros Hinv Hf. apply (runs_eq _ _ x (set_free free s)).
  { unfold evict_one. mstep. rewrite Hf, last_snoc. mstep.
    rewrite length_app. simpl. replace (pred (length free + 1)) with (length free) by lia.
    rewrite take_app_length. reflexivity. }
  pose proof (inv_free _ _ _ _ _ Hinv) as Hnd. rewrite Hf in Hnd.
  apply NoDup_app in Hnd as (Hnd & Hx & _).
  destruct (inv_free_frame _ _ _ _ _ Hinv x) as [Hlt Hnot]; [rewrite Hf; set_solver|].
  unfold evicted. simpl. split_and!; try done.
  - destruct Hinv. constructor; simpl; try done. intros j Hj. apply inv_free_frame0. rewrite Hf. set_solver.
  - intros Hin. apply (Hx x Hin). set_solver.
  - unfold bp_cap. rewrite Hf. simpl. rewrite length_app. simpl. lia.
  - intros q Hq _. unfold bp_content. by rewrite Hq.
Qed.

(** The disk after a frame's page was written back if dirty. *)
Definition written_back (d : DiskManager) (p : Z) (f : Frame) : DiskManager :=
  if fr_dirty f then set_file (file_write (dm_file d) (p * PAGE_SIZE) (fr_data f)) d else d.

Section write_back.
Context (d : DiskManager) (p : Z) (f : Frame).
Context (Hd : dm_wf d) (Hp : 0 <= p < dm_num_pages d) (Hsz : blen (fr_data f) = PAGE_SIZE).

Lemma written_back_wf : dm_wf (written_back d p f).
Proof using Type*.
  unfold written_back. destruct (fr_dirty f); [| done].
  pose proof (write_page_wf d p (fr_data f) Hd) as W.
  rewrite write_page_eq in W by (done || lia || apply Hd). apply W; (done || lia).
Qed.

Lemma written_back_pages : dm_num_pages (written_back d p f) = dm_num_pages d.
Proof using Type. unfold written_back. by destruct (fr_dirty f). Qed.

Lemma written_back_ne q : q <> p -> 0 <= q < dm_num_pages d ->
  page_at (dm_file (written_back d p f)) q = page_at (dm_file d) q.
Proof using Type*.
  intros Hne Hq. unfold written_back. destruct (fr_dirty f); [| done]. simpl.
  pose proof (dm_wf_page_size d p Hd Hp). pose proof (dm_wf_page_size d q Hd Hq).
  apply page_at_write_ne; try done; unfold PAGE_SIZE in *; lia.
Qed.

Lemma written_back_eq : frame_clean (dm_file d) p f ->
  page_at (dm_file (written_back d p f)) p = fr_data f.
Proof using Type*.
  intros Hc. unfold written_back. destruct (fr_dirty f) eqn:E.
  - simpl. pose proof (dm_wf_page_size d p Hd Hp).
    apply page_at_write_eq; try done; unfold PAGE_SIZE in *; lia.
  - destruct Hc; congruence.
Qed.
End write_back.

Lemma evict_lru_eq s p i f lru :
  bp_inv s -> bp_free_frames s = [] -> bp_lru s = i :: lru ->
  bp_page_table s !! p = Some i -> frame_ok (dm_num_pages (bp_disk s)) (bp_frames s) (bp_lru s) p i f ->
  exists s', evict_one s = (Ok i, s') /\ bp_disk s' = written_back (bp_disk s) p f /\
    bp_frames s' = bp_frames s /\ bp_page_table s' = delete p (bp_page_table s) /\
    bp_free_frames s' = [] /\ bp_lru s' = lru.
Proof.
  intros Hinv Hfree Hlru Ht [Hf Hpg Hsz Hr _ _].
  unfold evict_one. mstep. rewrite Hfree. change (last (@nil nat)) with (@None nat). mstep. rewrite Hlru. mstep.
  set (s1 := set_lru lru s). unfold written_back.
  rewrite (bind_ok _ _ _ _ _ (get_frame_ok s1 i f Hf)). mstep.
  unfold frame_page. rewrite Hpg. destruct (fr_dirty f).
  - eexists. split.
    + erewrite bind_ok; [| mstep; erewrite bind_ok; [reflexivity|];
        unfold on_disk; rewrite write_page_eq by (done || lia || apply Hinv); reflexivity].
      mstep. change (bp_page_table _) with (bp_page_table s). rewrite Ht. reflexivity.
    + done.
  - eexists. split.
    + mstep. change (bp_page_table s1) with (bp_page_table s). rewrite Ht. reflexivity.
    + done.
Qed.

Lemma evict_lru_ok s i lru :
  bp_inv s -> bp_free_frames s = [] -> bp_lru s = i :: lru -> runs evict_one s (evicted s).
Proof.
  intros Hinv Hfree Hlru.
  destruct (inv_lru_frame _ _ _ _ _ Hinv i) as [p Ht]; [rewrite Hlru; set_solver|].
  destruct (inv_table _ _ _ _ _ Hinv p i Ht) as [f Hfok].
  destruct (evict_lru_eq s p i f lru Hinv Hfree Hlru Ht Hfok) as (s' & He & Hd & Hfs & Htb & Hfr & Hl).
  apply (runs_eq _ _ i s' _ He). destruct Hfok as [Hf Hpg Hsz Hr Hpin Hil].
  pose proof (inv_disk _ _ _ _ _ Hinv) as Hwf.
  assert (fr_pin_count f = 0) as Hz by (apply Hil; rewrite Hlru; set_solver).
  pose proof (inv_clean _ _ _ _ _ Hinv p i f Ht Hf Hz) as Hc.
  assert (forall q j, q <> p -> bp_page_table s !! q = Some j -> j <> i) as Hne
    by (intros; by eapply upd_other).
  pose proof (inv_lru _ _ _ _ _ Hinv) as Hnd. rewrite Hlru in Hnd. apply NoDup_cons in Hnd as [Hni Hnd].
  assert (forall q, 0 <= q < dm_num_pages (bp_disk s) -> q <> p ->
    page_at (dm_file (bp_disk s')) q = page_at (dm_file (bp_disk s)) q) as Hpa
    by (intros; rewrite Hd; by apply written_back_ne).
  unfold evicted. rewrite Hd, written_back_pages, Hfs, Htb, Hfr, <- Hd. split_and!.
  - unfold bp_inv. rewrite Hfs, Htb, Hfr, Hl. constructor.
    + rewrite Hd. by apply written_back_wf.
    + constructor.
    + intros j Hj. by apply not_elem_of_nil in Hj.
    + intros q j [Hqp Hq]%lookup_delete_Some. destruct (inv_table _ _ _ _ _ Hinv q j Hq) as [g []].
      exists g. constructor; try done; [rewrite Hd, written_back_pages; done|].
      rewrite <- fok_lru0, Hlru. pose proof (Hne q j). set_solver.
    + done.
    + intros j Hj. destruct (inv_lru_frame _ _ _ _ _ Hinv j) as [q Hq]; [rewrite Hlru; set_solver|].
      exists q. rewrite lookup_delete_ne; [done|]. intros ->. congruence.
    + intros q j g [Hqp Hq]%lookup_delete_Some Hg Hgz.
      pose proof (inv_table _ _ _ _ _ Hinv q j Hq) as [g' []].
      destruct (inv_clean _ _ _ _ _ Hinv q j g Hq Hg Hgz) as [?|Hpq]; [by left|].
      right. rewrite Hpa; done.
  - by apply lookup_lt_Some in Hf.
  - set_solver.
  - intros q [Hqp Hq]%lookup_delete_Some. by apply (Hne q i).
  - apply map_eq. intros q. unfold bp_view. rewrite !lookup_zmap, Hd, written_back_pages.
    case_decide; [| done]. f_equal. unfold bp_content. rewrite Hfs, Htb.
    destruct (decide (q = p)) as [->|Hqp].
    + rewrite lookup_delete_eq, Ht, Hf, Hd. by apply written_back_eq.
    + rewrite lookup_delete_ne by done. destruct (bp_page_table s !! q); [done|]. by apply Hpa.
  - apply map_eq. intros q. rewrite !bp_pins_lookup, Hfs, Htb.
    destruct (decide (q = p)) as [->|Hqp]; [| by rewrite lookup_delete_ne].
    rewrite lookup_delete_eq, Ht. unfold frame_pins. rewrite Hf, Hz. done.
  - unfold bp_cap. rewrite Hfr, Htb, Hfree, map_size_delete_Some by eauto.
    assert (0 < size (bp_page_table s))%nat; [| simpl; lia].
    destruct (size (bp_page_table s)) eqn:E; [| lia].
    apply map_size_empty_inv in E. rewrite E in Ht. by rewrite lookup_empty in Ht.
  - done.
  - intros q Hq. by rewrite lookup_delete_None; right.
  - intros q Hq. rewrite lookup_delete_ne; [done|]. intros <-.
    rewrite bp_pins_lookup, Ht in Hq. unfold frame_pins in Hq. rewrite Hf, Hz in Hq.
    simpl in Hq. by destruct Hq.
  - intros q Hq Hr'. unfold bp_content. destruct (decide (q = p)) as [->|Hqp].
    + rewrite Ht, Hf, Hd. by apply written_back_eq.
    + rewrite lookup_delete_ne in Hq by done. rewrite Hq. by apply Hpa.
  - intros q Hq j g Hj Hg. rewrite Htb in Hj. apply lookup_delete_Some in Hj as [Hqp Hj].
    rewrite Hfs in Hg. destruct (inv_table _ _ _ _ _ Hinv q j Hj) as [g' []].
    destruct (Hq j g Hj Hg); [by left | right]. rewrite Hpa; done.
Qed.

Lemma evict_one_ok s :
  bp_inv s -> Z.of_nat (size (bp_pins s)) < bp_cap s -> runs evict_one s (evicted s).
Proof.
  intros Hinv Hlt. destruct (bp_evictable s Hinv Hlt) as [Hne|Hne].
  - destruct (exists_last Hne) as (free & x & Hf). by apply (evict_free_ok s x free).
  - destruct (last (bp_free_frames s)) as [x|] eqn:E.
    + apply last_Some in E as [free Hf]. by apply (evict_free_ok s x free).
    + apply last_None in E. destruct (bp_lru s) as [|i lru] eqn:El; [done|].
      by apply (evict_lru_ok s i lru).
Qed.

(** ** Loading a page into an evicted frame *)

Definition loaded (s : BufferPoolManager) (p : Z) (i : nat) (d : list byte) : BufferPoolManager :=
  set_lru (filter (fun j => j <> i) (bp_lru s))
    (set_frames (<[i := mkFrame (Some p) d 1 false]> (bp_frames s))
      (set_table (<[p := i]> (bp_page_table s)) s)).

Section load.
Context (s : BufferPoolManager) (p : Z) (i : nat) (d : list byte).
Context (Hinv : bp_inv s) (Hlt : (i < length (bp_frames s))%nat) (Hfree : i ∉ bp_free_frames s).
Context (Hloose : forall q, bp_page_table s !! q <> Some i) (Hnone : bp_page_table s !! p = None).
Context (Hr : 0 <= p < dm_num_pages (bp_disk s)) (Hd : d = page_at (dm_file (bp_disk s)) p).

Lemma load_eq {A} (k : unit -> M BufferPoolManager A) :
  (put_frame i (mkFrame (Some p) d 0 false) ≫= fun _ => enter_table p i ≫= fun _ => pin i ≫= k) s =
  k tt (loaded s p i d).
Proof using Hlt.
  unfold put_frame, enter_table. mstep.
  erewrite bind_ok; [| apply (pin_eq _ i (mkFrame (Some p) d 0 false)); simpl;
                       by apply list_lookup_insert_eq].
  f_equal. unfold upd, loaded, set_lru, set_frames, set_table. simpl. f_equal.
  apply list_insert_insert_eq.
Qed.

Lemma load_inv : bp_inv (loaded s p i d).
Proof using Type*.
  pose proof (inv_disk _ _ _ _ _ Hinv) as Hwf. constructor; simpl.
  - done.
  - apply Hinv.
  - intros j Hj. rewrite length_insert. destruct (inv_free_frame _ _ _ _ _ Hinv j Hj) as [Hj1 Hj2].
    split; [done|]. intros q [[-> ->]|[_ Hq]]%lookup_insert_Some; [done | by apply (Hj2 q)].
  - intros q j [[<- <-]|[Hqp Hq]]%lookup_insert_Some.
    + exists (mkFrame (Some p) d 1 false). constructor; simpl; try done.
      * by apply list_lookup_insert_eq.
      * rewrite Hd. apply blen_page_at; [lia|]. by apply dm_wf_page_size.
      * rewrite list_elem_of_filter. naive_solver.
    + assert (j <> i) as Hji by (intros ->; by apply (Hloose q)).
      destruct (inv_table _ _ _ _ _ Hinv q j Hq) as [g []]. exists g. constructor; try done.
      * by rewrite list_lookup_insert_ne.
      * rewrite list_elem_of_filter. naive_solver.
  - apply NoDup_filter, Hinv.
  - intros j [Hj1 Hj]%list_elem_of_filter. destruct (inv_lru_frame _ _ _ _ _ Hinv j Hj) as [q Hq].
    exists q. rewrite lookup_insert_ne; [done|]. intros ->. congruence.
  - intros q j g [[<- <-]|[Hqp Hq]]%lookup_insert_Some Hg Hz.
    + rewrite list_lookup_insert_eq in Hg by done. injection Hg as <-. simpl in Hz. lia.
    + rewrite list_lookup_insert_ne in Hg by (intros ->; by apply (Hloose q)).
      by apply (inv_clean _ _ _ _ _ Hinv q j g).
Qed.

Lemma load_view : bp_view (loaded s p i d) = bp_view s.
Proof using Type*.
  apply map_eq. intros q. unfold bp_view. rewrite !lookup_zmap. simpl.
  case_decide; [| done]. f_equal. unfold bp_content. simpl.
  destruct (decide (q = p)) as [->|Hne].
  - rewrite lookup_insert_eq, list_lookup_insert_eq, Hnone by done. done.
  - rewrite lookup_insert_ne by done. destruct (bp_page_table s !! q) as [j|] eqn:Hq; [| done].
    rewrite list_lookup_insert_ne; [done|]. intros <-. by apply (Hloose q).
Qed.

Lemma load_pins : bp_pins (loaded s p i d) = pin_inc p (bp_pins s).
Proof using Type*.
  apply map_eq. intros q. rewrite pin_inc_lookup, !bp_pins_lookup, Hnone. simpl.
  destruct (decide (p = q)) as [<-|Hne].
  - rewrite lookup_insert_eq. unfold frame_pins. rewrite list_lookup_insert_eq by done. done.
  - rewrite lookup_insert_ne by done. destruct (bp_page_table s !! q) as [j|] eqn:Hq; [| done].
    unfold frame_pins. rewrite list_lookup_insert_ne; [done|]. intros <-. by apply (Hloose q).
Qed.

Lemma load_cap : bp_cap (loaded s p i d) = bp_cap s + 1.
Proof using Hnone. clear Hlt. unfold bp_cap. simpl. rewrite map_size_insert_None by done. lia. Qed.

Lemma load_clean q : bp_clean s q -> bp_clean (loaded s p i d) q.
Proof using Type*.
  intros Hc j g Hj Hg. simpl in *. apply lookup_insert_Some in Hj as [[<- <-]|[Hqp Hj]].
  - rewrite list_lookup_insert_eq in Hg by done. injection Hg as <-. by right.
  - rewrite list_lookup_insert_ne in Hg by (intros <-; by apply (Hloose q)). by apply (Hc j g).
Qed.

Lemma load_holds j q : bp_holds s j q -> bp_holds (loaded s p i d) j q.
Proof using Type*.
  intros [Ht Hq]. split.
  - simpl. rewrite lookup_insert_ne; [done|]. intros ->. congruence.
  - rewrite load_pins. by apply pin_inc_is_Some.
Qed.
End load.

Lemma bp_view_range s p : is_Some (bp_view s !! p) <-> 0 <= p < dm_num_pages (bp_disk s).
Proof.
  unfold bp_view. rewrite lookup_zmap. case_decide; split; naive_solver.
Qed.

(** The laws of a successful fetch and of a new page compose from eviction and load. *)
Lemma evicted_load s p i s' d :
  evicted s i s' -> bp_page_table s' !! p = None -> 0 <= p < dm_num_pages (bp_disk s) ->
  d = page_at (dm_file (bp_disk s')) p -> fetched s p i (loaded s' p i d).
Proof.
  intros (Hinv & Hlt & Hfree & Hloose & Hv & Hpins & Hcap & Hn & Ht0 & Htp & Hpa & Hc) Hnone Hr Hd.
  rewrite <- Hn in Hr. unfold fetched. split_and!.
  - by apply load_inv.
  - by rewrite load_view.
  - by rewrite load_pins, Hpins.
  - rewrite load_cap by done. lia.
  - done.
  - split; [simpl; apply lookup_insert_eq|]. rewrite load_pins by done.
    rewrite pin_inc_lookup, decide_True by done. eauto.
  - intros h q [Hq1 Hq2]. apply load_holds; try done. split; [by rewrite Htp | by rewrite Hpins].
  - intros q Hq. apply load_clean; auto.
Qed.

Lemma fetched_add_read s p i s' : fetched s p i s' -> fetched s p i (add_read s').
Proof. done. Qed.

Lemma fetch_page_ok s p :
  bp_inv s -> is_Some (bp_view s !! p) ->
  is_Some (bp_pins s !! p) \/ Z.of_nat (size (bp_pins s)) < bp_cap s ->
  runs (fetch_page p) s (fetched s p).
Proof.
  intros Hinv Hr%bp_view_range Hcap. destruct (bp_page_table s !! p) as [i|] eqn:Ht.
  { by apply (fetch_hit_ok s p i). }
  destruct Hcap as [[n Hp]|Hcap]; [rewrite bp_pins_lookup, Ht in Hp; done|].
  unfold fetch_page. rstep. rstep. rewrite Ht. rstep. eapply runs_mono; [by apply evict_one_ok|].
  intros i s' Hev. pose proof Hev as (Hinv' & Hlt & Hfree & Hloose & _ & _ & _ & Hn & Ht0 & _).
  destruct (lookup_lt_is_Some_2 _ _ Hlt) as [f Hf].
  apply (runs_eq _ _ i (loaded (add_read s') p i (page_at (dm_file (bp_disk s')) p))).
  - rewrite (bind_ok _ _ _ _ _ (get_frame_ok s' i f Hf)).
    rewrite (bind_ok _ _ _ (page_at (dm_file (bp_disk s')) p) s').
    2: { unfold on_disk. rewrite read_page_eq by (apply Hinv' || lia). by destruct s'. }
    mstep. rewrite load_eq by done. reflexivity.
  - change (loaded (add_read s') p i (page_at (dm_file (bp_disk s')) p))
      with (add_read (loaded s' p i (page_at (dm_file (bp_disk s')) p))).
    apply fetched_add_read, evicted_load; auto.
Qed.

(** ** A new page *)

Definition grown (d : DiskManager) : DiskManager := snd (allocate_page d).

Section grow.
Context (s : BufferPoolManager) (Hinv : bp_inv s).
Let n := dm_num_pages (bp_disk s).
Let s1 := set_disk (grown (bp_disk s)) s.

Lemma grown_pages : dm_num_pages (grown (bp_disk s)) = n + 1.
Proof using Hinv. unfold grown. rewrite allocate_page_eq by apply Hinv. done. Qed.

Lemma grown_page_at q : 0 <= q < n -> page_at (dm_file (grown (bp_disk s))) q = page_at (dm_file (bp_disk s)) q.
Proof using Hinv.
  intros Hq. pose proof (inv_disk _ _ _ _ _ Hinv) as Hwf. unfold grown.
  rewrite allocate_page_eq by done. simpl. fold n. pose proof (dwf_size _ Hwf). fold n in H.
  pose proof (dm_wf_page_size _ q Hwf Hq).
  apply page_at_write_ne; try lia. apply blen_zero_page.
Qed.

Lemma grown_page_new : page_at (dm_file (grown (bp_disk s))) n = zeros PAGE_SIZE.
Proof using Hinv.
  pose proof (inv_disk _ _ _ _ _ Hinv) as Hwf. unfold grown.
  rewrite allocate_page_eq by done. simpl.
  apply page_at_write_eq; [apply Hwf | apply Hwf | by apply blen_zero_page].
Qed.

Lemma table_new : bp_page_table s !! n = None.
Proof using Hinv.
  destruct (bp_page_table s !! n) as [i|] eqn:E; [| done].
  destruct (inv_table _ _ _ _ _ Hinv n i E) as [f []]. unfold n in *. lia.
Qed.

Lemma table_old q i : bp_page_table s !! q = Some i -> 0 <= q < n.
Proof using Hinv. intros Hq. by destruct (inv_table _ _ _ _ _ Hinv q i Hq) as [f []]. Qed.

Lemma grow_inv : bp_inv s1.
Proof using Hinv.
  destruct Hinv as [Hd Hf Hff Ht Hl Hlf Hc]. constructor; simpl; try done.
  - by apply allocate_page_wf.
  - intros q i Hq. destruct (Ht q i Hq) as [f []]. exists f. constructor; try done.
    rewrite grown_pages. unfold n. lia.
  - intros q i f Hq Hi Hz. destruct (Hc q i f Hq Hi Hz) as [?|Hp]; [by left | right].
    rewrite grown_page_at; [done | by eapply table_old].
Qed.

Lemma grow_view : bp_view s1 = <[n := zeros PAGE_SIZE]> (bp_view s).
Proof using Hinv.
  apply map_eq. intros q. unfold bp_view. rewrite lookup_insert, !lookup_zmap. simpl.
  rewrite grown_pages. pose proof (dwf_pages _ (inv_disk _ _ _ _ _ Hinv)) as Hn. fold n in Hn.
  unfold bp_content. simpl. fold n. destruct (decide (n = q)) as [<-|Hne].
  - rewrite decide_True, table_new, grown_page_new by lia. done.
  - case_decide; case_decide; try done; try lia.
    destruct (bp_page_table s !! q); [done|]. by rewrite grown_page_at.
Qed.

Lemma grow_clean q : bp_clean s q -> bp_clean s1 q.
Proof using Hinv.
  intros Hq i f Hi Hf. simpl in *. destruct (Hq i f Hi Hf); [by left | right].
  rewrite grown_page_at; [done | by eapply table_old].
Qed.
End grow.

Lemma new_page_ok s :
  bp_inv s -> Z.of_nat (size (bp_pins s)) < bp_cap s ->
  runs new_page s (fun r s' =>
    fst r = dm_num_pages (bp_disk s) /\ bp_view s !! fst r = None /\
    bp_inv s' /\ bp_view s' = <[fst r := zeros PAGE_SIZE]> (bp_view s) /\
    bp_pins s' = pin_inc (fst r) (bp_pins s) /\
    bp_cap s' = bp_cap s /\ dm_num_pages (bp_disk s') = dm_num_pages (bp_disk s) + 1 /\
    bp_holds s' (snd r) (fst r) /\
    (forall h' q, bp_holds s h' q -> bp_holds s' h' q) /\
    (forall q, bp_clean s q -> bp_clean s' q)).
Proof.
  intros Hinv Hcap. set (n := dm_num_pages (bp_disk s)).
  set (s1 := set_disk (grown (bp_disk s)) s).
  assert (on_disk allocate_page s = (Ok n, s1)) as Ha.
  { unfold on_disk, s1, grown. rewrite allocate_page_eq by apply Hinv. done. }
  pose proof (dwf_pages _ (inv_disk _ _ _ _ _ Hinv)) as Hn. fold n in Hn.
  unfold new_page. rstep. apply (runs_eq _ _ n s1 _ Ha). rstep.
  eapply runs_mono; [apply evict_one_ok; [by apply grow_inv | done]|].
  intros i s2 Hev. pose proof Hev as (Hinv2 & Hlt & Hfree & Hloose & _ & _ & _ & Hn2 & Ht0 & _ & Hpa & _).
  destruct (lookup_lt_is_Some_2 _ _ Hlt) as [f Hf].
  assert (bp_page_table s2 !! n = None) as Hnone by (apply Ht0; exact (table_new s Hinv)).
  assert (zeros PAGE_SIZE = page_at (dm_file (bp_disk s2)) n) as Hz.
  { rewrite Hpa; [| done | simpl; rewrite grown_pages by done; unfold n in *; lia].
    unfold bp_content. simpl. unfold n. rewrite (table_new s Hinv). symmetry. by apply grown_page_new. }
  assert (fetched s1 n i (loaded s2 n i (zeros PAGE_SIZE))) as
    (F1 & F2 & F3 & F4 & F5 & F6 & F7 & F8).
  { apply evicted_load; [done | done | simpl; rewrite grown_pages by done; unfold n in *; lia | done]. }
  apply (runs_eq _ _ (n, i) (loaded s2 n i (zeros PAGE_SIZE))).
  { rewrite (bind_ok _ _ _ _ _ (get_frame_ok s2 i f Hf)). rewrite load_eq by done. reflexivity. }
  simpl fst. simpl snd. split_and!; try done.
  - destruct (bp_view s !! n) eqn:E; [| done].
    assert (is_Some (bp_view s !! n)) as Hs by eauto. apply bp_view_range in Hs. unfold n in Hs. lia.
  - rewrite F2. by apply grow_view.
  - rewrite F5. simpl. by rewrite grown_pages.
  - intros q Hq. apply F8. by apply grow_clean.
Qed.

(** ** Unpin, flush, and access to the bytes *)

Lemma NoDup_lru_add l i : NoDup l -> NoDup (lru_add l i).
Proof.
  intros H. unfold lru_add. case_decide; [done|]. apply NoDup_app. split_and!; [done | set_solver |].
  apply NoDup_singleton.
Qed.
Lemma elem_of_lru_add l i j : j ∈ lru_add l i <-> j = i \/ j ∈ l.
Proof. unfold lru_add. case_decide; set_solver. Qed.

Lemma put_same_view s p i f f' lru' :
  bp_inv s -> bp_page_table s !! p = Some i -> bp_frames s !! i = Some f ->
  fr_data f' = fr_data f -> bp_view (upd s i f' lru') = bp_view s.
Proof.
  intros Hinv Hp Hi Hd. rewrite (upd_view s p i f) by done. apply insert_id.
  destruct (inv_table _ _ _ _ _ Hinv p i Hp) as [g []].
  unfold bp_view. rewrite lookup_zmap, decide_True by done.
  unfold bp_content. by rewrite Hp, Hi, Hd.
Qed.

Lemma unpin_page_ok s p dirty :
  bp_inv s -> dirty = true \/ bp_clean s p ->
  runs (unpin_page p dirty) s (fun _ s' =>
    bp_inv s' /\ bp_view s' = bp_view s /\ bp_pins s' = pin_dec p (bp_pins s) /\
    bp_cap s' = bp_cap s /\ dm_num_pages (bp_disk s') = dm_num_pages (bp_disk s) /\
    (forall h' q, is_Some (bp_pins s' !! q) -> bp_holds s h' q -> bp_holds s' h' q) /\
    (forall q, bp_clean s q -> bp_clean s' q)).
Proof.
  intros Hinv Hdc. destruct (bp_page_table s !! p) as [i|] eqn:Ht.
  2: { apply (runs_eq _ _ tt s); [unfold unpin_page; mstep; rewrite Ht; done|].
       split_and!; try done. rewrite pin_dec_None; [done|]. by rewrite bp_pins_lookup, Ht. }
  destruct (inv_table _ _ _ _ _ Hinv p i Ht) as [f [Hf Hpg Hsz Hr Hpin Hl]].
  set (n := if 0 <? fr_pin_count f then fr_pin_count f - 1 else fr_pin_count f).
  set (f' := mkFrame (fr_page_id f) (fr_data f) n (fr_dirty f || dirty)).
  set (lru' := if n =? 0 then lru_add (bp_lru s) i else bp_lru s).
  assert (0 <= n) as Hn by (unfold n; destruct (Z.ltb_spec 0 (fr_pin_count f)); lia).
  apply (runs_eq _ _ tt (upd s i f' lru')).
  { unfold unpin_page. mstep. rewrite Ht, (bind_ok _ _ _ _ _ (get_frame_ok s i f Hf)).
    unfold put_frame. mstep. fold n. unfold lru'. destruct (n =? 0); [done|].
    unfold upd, set_lru, set_frames. done. }
  assert (bp_clean s p -> frame_clean (dm_file (bp_disk s)) p f') as Hfc.
  { intros Hc. destruct (Hc i f Ht Hf) as [Hd|Hd]; [left; simpl; by rewrite Hd | by right]. }
  assert (frame_clean (dm_file (bp_disk s)) p f') as Hcl.
  { destruct Hdc as [->|Hc]; [left; simpl; apply orb_true_r | auto]. }
  assert (i ∈ bp_lru s -> n = 0) as Hz by (intros Hi; apply Hl in Hi; unfold n; rewrite Hi; done).
  assert (bp_pins (upd s i f' lru') = pin_dec p (bp_pins s)) as Hpins.
  { rewrite (upd_pins s p i f) by done. simpl. unfold pin_dec. rewrite bp_pins_lookup, Ht.
    unfold frame_pins. rewrite Hf. unfold n.
    destruct (Z.ltb_spec 0 (fr_pin_count f)) as [H0|H0].
    - destruct (Z.eqb_spec (fr_pin_count f) 1) as [H1|H1].
      + replace (0 <? fr_pin_count f - 1) with false by lia. done.
      + replace (0 <? fr_pin_count f - 1) with true by lia. done.
    - replace (0 <? fr_pin_count f) with false by lia. apply delete_id.
      rewrite bp_pins_lookup, Ht. unfold frame_pins. rewrite Hf.
      replace (0 <? fr_pin_count f) with false by lia. done. }
  split_and!; try done.
  - apply (upd_inv s p i f); try done.
    + unfold lru'. destruct (n =? 0); [apply NoDup_lru_add|]; apply Hinv.
    + intros j Hj. unfold lru'. destruct (n =? 0); [rewrite elem_of_lru_add; naive_solver | done].
    + unfold lru'. simpl. destruct (Z.eqb_spec n 0); [rewrite elem_of_lru_add; naive_solver | naive_solver].
  - by apply (put_same_view s p i f).
  - apply bp_holds_mono. done.
  - intros q Hq. apply (upd_clean s p i f); [done | done | done | done |]. intros ->. auto.
Qed.

Lemma unpin_page_clean s p dirty : bp_inv s -> dirty = true \/ bp_clean s p -> runs (unpin_page p dirty) s (fun _ s' => bp_clean s' p).
Proof.
  intros Hinv Hdc. destruct dirty.
  2: { destruct Hdc as [|Hc]; [done|]. eapply runs_mono; [by apply unpin_page_ok; [| right]|].
       intros [] s' (_ & _ & _ & _ & _ & _ & Hk). auto. }
  destruct (bp_page_table s !! p) as [i|] eqn:Ht.
  2: { apply (runs_eq _ _ tt s); [unfold unpin_page; mstep; by rewrite Ht|]. intros j f Hj. congruence. }
  destruct (inv_table _ _ _ _ _ Hinv p i Ht) as [f [Hf _ _ _ _ _]]. unfold unpin_page. rstep. rstep. rewrite Ht. rstep.
  apply (runs_eq _ _ _ _ _ (get_frame_ok s i f Hf)). unfold put_frame. rstep. rstep.
  assert (forall s', bp_page_table s' = bp_page_table s -> bp_frames s' = <[i := mkFrame (fr_page_id f) (fr_data f)
    (if 0 <? fr_pin_count f then fr_pin_count f - 1 else fr_pin_count f) (fr_dirty f || true)]> (bp_frames s) -> bp_clean s' p) as Hfin.
  { intros s' Et Ef j g Hj Hg. rewrite Et, Ht in Hj. injection Hj as <-. rewrite Ef, list_lookup_insert_eq in Hg by (by eapply lookup_lt_Some).
    injection Hg as <-. left. apply orb_true_r. }
  destruct (_ =? 0); rstep; by apply Hfin.
Qed.

Lemma frame_bytes_ok s i p : bp_inv s -> bp_holds s i p ->
  exists d, frame_bytes i s = (Ok d, s) /\ bp_view s !! p = Some d.
Proof.
  intros Hinv [Ht _]. destruct (inv_table _ _ _ _ _ Hinv p i Ht) as [f []]. exists (fr_data f). split.
  - unfold frame_bytes. by rewrite (bind_ok _ _ _ _ _ (get_frame_ok s i f fok_frame0)).
  - unfold bp_view. rewrite lookup_zmap, decide_True by done. unfold bp_content. by rewrite Ht, fok_frame0.
Qed.

Lemma set_frame_bytes_ok s i p d : bp_inv s -> bp_holds s i p -> blen d = PAGE_SIZE ->
  runs (set_frame_bytes i d) s (fun _ s' =>
    bp_inv s' /\ bp_view s' = <[p := d]> (bp_view s) /\ bp_pins s' = bp_pins s /\
    bp_cap s' = bp_cap s /\ dm_num_pages (bp_disk s') = dm_num_pages (bp_disk s) /\
    (forall h' q, bp_holds s h' q -> bp_holds s' h' q) /\
    (forall q, q <> p -> bp_clean s q -> bp_clean s' q)).
Proof.
  intros Hinv [Ht [k Hk]] Hd. destruct (inv_table _ _ _ _ _ Hinv p i Ht) as [f [Hf Hpg Hsz Hr Hpin Hl]].
  set (f' := mkFrame (fr_page_id f) d (fr_pin_count f) (fr_dirty f)).
  rewrite bp_pins_lookup, Ht in Hk. pose proof (frame_pins_pos _ _ _ Hk) as Hk0.
  unfold frame_pins in Hk. rewrite Hf in Hk.
  destruct (Z.ltb_spec 0 (fr_pin_count f)) as [H0|]; [| done].
  apply (runs_eq _ _ tt (upd s i f' (bp_lru s))).
  { unfold set_frame_bytes. rewrite (bind_ok _ _ _ _ _ (get_frame_ok s i f Hf)). by destruct s. }
  assert (bp_pins (upd s i f' (bp_lru s)) = bp_pins s) as Hpins.
  { rewrite (upd_pins s p i f) by done. simpl. replace (0 <? fr_pin_count f) with true by lia.
    apply insert_id. rewrite bp_pins_lookup, Ht. unfold frame_pins. rewrite Hf.
    replace (0 <? fr_pin_count f) with true by lia. done. }
  split_and!; try done.
  - apply (upd_inv s p i f); try done; [apply Hinv | simpl; lia].
  - by apply (upd_view s p i f).
  - intros h q Hh. eapply (bp_holds_mono s); [done | | done]. rewrite Hpins. apply Hh.
  - intros q Hne Hq. apply (upd_clean s p i f); try done.
Qed.

Definition flushed_frame (f : Frame) : Frame :=
  mkFrame (fr_page_id f) (fr_data f) (fr_pin_count f) false.

Lemma flush_page_eq s p i f :
  bp_inv s -> bp_page_table s !! p = Some i -> bp_frames s !! i = Some f -> fr_dirty f = true ->
  flush_page p s =
    (Ok tt, upd (add_write (set_disk (written_back (bp_disk s) p f) s)) i (flushed_frame f) (bp_lru s)).
Proof.
  intros Hinv Ht Hf Hd. destruct (inv_table _ _ _ _ _ Hinv p i Ht) as [g []].
  assert (g = f) as -> by congruence.
  unfold flush_page. mstep. rewrite Ht, (bind_ok _ _ _ _ _ (get_frame_ok s i f Hf)), Hd.
  unfold written_back. rewrite Hd.
  rewrite (bind_ok _ _ _ tt (set_disk (set_file (file_write (dm_file (bp_disk s)) (p * PAGE_SIZE) (fr_data f)) (bp_disk s)) s)).
  2: { unfold on_disk. rewrite write_page_eq by (done || lia || apply Hinv). done. }
  mstep. reflexivity.
Qed.

(** Writing a resident dirty page back keeps the invariant and the contents. *)
Lemma write_back_inv s p i f :
  bp_inv s -> bp_page_table s !! p = Some i -> bp_frames s !! i = Some f ->
  bp_inv (set_disk (written_back (bp_disk s) p f) s).
Proof.
  intros Hinv Ht Hf. pose proof (inv_table _ _ _ _ _ Hinv p i Ht) as [g Hg].
  assert (g = f) as -> by (destruct Hg; congruence). destruct Hg as [_ _ Hsz Hr _ _].
  destruct Hinv as [Hd H1 H2 H3 H4 H5 H6]. constructor; simpl; try done.
  - by apply written_back_wf.
  - intros q j Hq. destruct (H3 q j Hq) as [k []]. exists k. constructor; try done.
    by rewrite written_back_pages.
  - intros q j k Hq Hk Hz. destruct (H3 q j Hq) as [k' []]. assert (k' = k) as -> by congruence.
    destruct (H6 q j k Hq Hk Hz) as [Hdk|Hp]; [by left|]. destruct (decide (q = p)) as [->|Hne].
    + assert (k = f) as -> by congruence. right. rewrite written_back_eq; [done.. | by right].
    + right. rewrite written_back_ne; done.
Qed.

Lemma flush_page_ok s p :
  bp_inv s ->
  runs (flush_page p) s (fun _ s' =>
    bp_inv s' /\ bp_view s' = bp_view s /\ bp_pins s' = bp_pins s /\
    bp_cap s' = bp_cap s /\ dm_num_pages (bp_disk s') = dm_num_pages (bp_disk s) /\
    bp_page_table s' = bp_page_table s /\
    (forall q, bp_clean s q -> bp_clean s' q) /\
    (forall q, bp_page_table s !! q <> None -> q = p \/ page_at (dm_file (bp_disk s)) q = bp_content s q ->
       bp_clean s q -> page_at (dm_file (bp_disk s')) q = bp_content s q)).
Proof.
  intros Hinv. destruct (bp_page_table s !! p) as [i|] eqn:Ht.
  2: { apply (runs_eq _ _ tt s); [unfold flush_page; mstep; rewrite Ht; done|].
       split_and!; try done. intros q Hq [->|?]; done. }
  destruct (inv_table _ _ _ _ _ Hinv p i Ht) as [f [Hf Hpg Hsz Hr Hpin Hl]].
  destruct (fr_dirty f) eqn:Hd.
  2: { apply (runs_eq _ _ tt s).
       { unfold flush_page. mstep. by rewrite Ht, (bind_ok _ _ _ _ _ (get_frame_ok s i f Hf)), Hd. }
       split_and!; try done. intros q Hq [->|?] Hc; [| done].
       unfold bp_content. rewrite Ht, Hf. destruct (Hc i f Ht Hf); congruence. }
  eapply runs_eq; [by apply flush_page_eq|].
  set (s1 := add_write (set_disk (written_back (bp_disk s) p f) s)).
  assert (bp_inv s1) as Hinv1 by (by apply (write_back_inv s p i f)).
  assert (page_at (dm_file (written_back (bp_disk s) p f)) p = fr_data f) as Hw
    by (apply written_back_eq; [apply Hinv | done | done | by left]).
  assert (forall q, q <> p -> 0 <= q < dm_num_pages (bp_disk s) ->
    page_at (dm_file (written_back (bp_disk s) p f)) q = page_at (dm_file (bp_disk s)) q) as Hne
    by (intros; apply written_back_ne; [apply Hinv | done..]).
  split_and!.
  - apply (upd_inv s1 p i f); try done; [apply Hinv1 | intros _; right; simpl; by rewrite Hw].
  - rewrite (put_same_view s1 p i f) by done. apply map_eq. intros q. unfold bp_view.
    rewrite !lookup_zmap. simpl. rewrite written_back_pages. case_decide; [| done]. f_equal.
    unfold bp_content. simpl. destruct (bp_page_table s !! q) eqn:Hq; [done|].
    apply Hne; [intros ->; congruence | done].
  - rewrite (upd_pins s1 p i f) by done. simpl. change (bp_pins s1) with (bp_pins s).
    destruct (Z.ltb_spec 0 (fr_pin_count f)).
    + apply insert_id. rewrite bp_pins_lookup, Ht. unfold frame_pins. rewrite Hf.
      by replace (0 <? fr_pin_count f) with true by lia.
    + apply delete_id. rewrite bp_pins_lookup, Ht. unfold frame_pins. rewrite Hf.
      by replace (0 <? fr_pin_count f) with false by lia.
  - done.
  - simpl. by rewrite written_back_pages.
  - done.
  - intros q Hq. apply (upd_clean s1 p i f); [done.. | |].
    + intros Hqp j k Hj Hk. simpl in *. destruct (inv_table _ _ _ _ _ Hinv q j Hj) as [k' []].
      destruct (Hq j k Hj Hk); [by left | right]. rewrite Hne; done.
    + intros ->. right. simpl. by rewrite Hw.
  - intros q Hq Hor Hc. simpl. destruct (decide (q = p)) as [->|Hqp].
    + rewrite Hw. unfold bp_content. by rewrite Ht, Hf.
    + destruct Hor as [?|Hor]; [done|]. destruct (bp_page_table s !! q) as [j|] eqn:Hj; [| done].
      destruct (inv_table _ _ _ _ _ Hinv q j Hj) as [k' []]. rewrite Hne by done. done.
Qed.

Lemma fetch_page_missing s p :
  bp_inv s -> bp_view s !! p = None -> Z.of_nat (size (bp_pins s)) < bp_cap s ->
  exists s', fetch_page p s = (Raise ValueError, s').
Proof.
  intros Hinv Hv Hcap.
  assert (~ (0 <= p < dm_num_pages (bp_disk s))) as Hp
    by (intros Hr%bp_view_range; rewrite Hv in Hr; by destruct Hr).
  destruct (evict_one_ok s Hinv Hcap) as (i & s1 & He & Hinv1 & Hlt & _ & _ & _ & _ & _ & Hn & _).
  destruct (lookup_lt_is_Some_2 _ _ Hlt) as [f Hf]. exists s1.
  unfold fetch_page. mstep. destruct (bp_page_table s !! p) as [j|] eqn:Ht.
  { destruct (inv_table _ _ _ _ _ Hinv p j Ht) as [g []]. lia. }
  rewrite (bind_ok _ _ _ _ _ He), (bind_ok _ _ _ _ _ (get_frame_ok s1 i f Hf)).
  apply bind_raise. unfold on_disk, read_page. mstep.
  destruct (Z.leb_spec (dm_num_pages (bp_disk s1)) p) as [Hle|Hgt]; [by destruct s1|].
  rewrite (bind_raise _ _ _ ValueError (bp_disk s1)); [by destruct s1|].
  unfold file_op. mstep. destruct Hinv1 as [[Ho _ _] _ _ _ _ _ _]. rewrite Ho. simpl andb.
  by replace (0 <=? p * PAGE_SIZE) with false by (unfold PAGE_SIZE; lia).
Qed.

Lemma bp_unpinned_clean s p : bp_inv s -> bp_pins s !! p = None -> bp_clean s p.
Proof.
  intros Hinv Hp i f Ht Hf. rewrite bp_pins_lookup, Ht in Hp.
  destruct (inv_table _ _ _ _ _ Hinv p i Ht) as [g []]. assert (g = f) as -> by congruence.
  apply (inv_clean _ _ _ _ _ Hinv p i f Ht Hf). apply fok_lru0.
  by apply (pool_unpinned_in_lru _ _ _ _ _ _ _ Hinv Ht).
Qed.

(** The pool implements the page store the clients are verified against. *)
#[local] Program Instance buffer_pool_core : PageStoreCore BufferPoolManager nat := {
  ps_inv := bp_inv; ps_view := bp_view; ps_pins := bp_pins; ps_cap := bp_cap;
  ps_holds := bp_holds; ps_clean := bp_clean }.
Next Obligation. intros s p _. apply bp_view_range. Qed.
Next Obligation.
  intros s p d Hinv Hd. assert (0 <= p < dm_num_pages (bp_disk s)) as Hr by (apply bp_view_range; eauto).
  unfold bp_view in Hd. rewrite lookup_zmap, decide_True in Hd by done. injection Hd as <-.
  unfold bp_content. destruct (bp_page_table s !! p) as [i|] eqn:Ht.
  - destruct (inv_table _ _ _ _ _ Hinv p i Ht) as [f []]. by rewrite fok_frame0.
  - apply blen_page_at; [lia|]. apply dm_wf_page_size; [apply Hinv | done].
Qed.
Next Obligation.
  intros s p n _ Hp. rewrite bp_pins_lookup in Hp.
  destruct (bp_page_table s !! p); [by eapply frame_pins_pos | done].
Qed.
Next Obligation.
  intros s p Hinv [n Hp]. apply bp_view_range. rewrite bp_pins_lookup in Hp.
  destruct (bp_page_table s !! p) as [i|] eqn:Ht; [| done]. by destruct (inv_table _ _ _ _ _ Hinv p i Ht) as [f []].
Qed.
Next Obligation. apply bp_unpinned_clean. Qed.
Next Obligation. apply fetch_page_ok. Qed.
Next Obligation. apply fetch_page_missing. Qed.
Next Obligation. apply new_page_ok. Qed.
Next Obligation. apply frame_bytes_ok. Qed.
Next Obligation. apply set_frame_bytes_ok. Qed.
Next Obligation. intros s p dirty Hinv _. by apply unpin_page_ok. Qed.
Next Obligation. apply unpin_page_clean. Qed.
Next Obligation.
  intros s p Hinv. eapply runs_mono; [by apply flush_page_ok|].
  intros _ s' (H1 & H2 & H3 & H4 & H5 & H6 & H7 & _). split_and!; try done.
  intros h q Hh. eapply (bp_holds_mono s); [by rewrite H6 | | done]. rewrite H3. apply Hh.
Qed.

#[global] Instance buffer_pool_spec : PageStoreSpec BufferPoolManager nat := {
  ps_core := buffer_pool_core; ps_unpin_ok := unpin_page_ok }.

Lemma bp_init_inv d n : dm_wf d -> bp_inv (bp_init d n).
Proof.
  intros Hd. constructor; simpl; try done.
  - apply NoDup_seq.
  - intros i Hi. rewrite length_replicate. apply elem_of_seq in Hi. split; [lia|].
    intros p. rewrite lookup_empty. done.
  - constructor.
  - intros i Hi. by apply not_elem_of_nil in Hi.
Qed.

Lemma bp_init_facts d n : 0 <= n ->
  bp_pins (bp_init d n) = ∅ /\ bp_cap (bp_init d n) = n.
Proof.
  intros Hn. split; [apply omap_empty|]. unfold bp_cap. simpl. rewrite length_seq, map_size_empty. lia.
Qed.

(** A pool over a file made of whole pages shows these pages. *)
Lemma page_at_concat ds (i : nat) d : Forall (fun d => blen d = PAGE_SIZE) ds -> ds !! i = Some d ->
  page_at (concat ds) (Z.of_nat i) = d.
Proof.
  intros Hds. revert i. induction Hds as [|d0 ds Hd0 _ IH]; intros i Hi; [done|]. cbn [concat]. unfold page_at in *.
  destruct i as [|i]; cbn in Hi.
  - injection Hi as ->. rewrite slice_app_l by (unfold PAGE_SIZE in *; lia). change (Z.of_nat 0 * PAGE_SIZE) with 0.
    change (0 + PAGE_SIZE) with PAGE_SIZE. rewrite <- Hd0. apply slice_all.
  - rewrite slice_app_r by (unfold PAGE_SIZE in *; lia). rewrite Hd0, <- (IH i Hi). f_equal; unfold PAGE_SIZE; lia.
Qed.

Lemma blen_concat ds : Forall (fun d : list byte => blen d = PAGE_SIZE) ds -> blen (concat ds) = blen ds * PAGE_SIZE.
Proof. induction 1 as [|d ds Hd _ IH]; [done|]. cbn [concat]. rewrite blen_app, blen_cons, IH, Hd. lia. Qed.

Lemma bp_init_view ds n (i : nat) : Forall (fun d => blen d = PAGE_SIZE) ds ->
  let s := bp_init (dm_init (Some (concat ds))) n in
  dm_num_pages (bp_disk s) = blen ds /\ bp_view s !! Z.of_nat i = ds !! i.
Proof.
  intros Hds s. assert (dm_num_pages (bp_disk s) = blen ds) as Hn.
  { unfold s. cbn [bp_disk bp_init dm_init dm_num_pages default id]. rewrite blen_concat by done. by rewrite Z.div_mul. }
  split; [done|]. unfold bp_view. rewrite lookup_zmap, Hn. destruct (ds !! i) as [d|] eqn:E.
  - rewrite decide_True by (apply lookup_lt_Some in E; unfold blen; lia). f_equal. by apply page_at_concat.
  - apply lookup_ge_None in E. rewrite decide_False; [done|]. unfold blen. lia.
Qed.
