(* ===== verification/BufferPoolProps.v ===== *)
(** What the buffer pool guarantees: caching is invisible to its clients,
    [flush_all] is durable, hits cost no I/O, and how it fails. *)
From stdpp Require Import base numbers list gmap.
From Stdlib Require Import ZArith Lia Strings.Byte.
From S2P Require Import Prelude Disk PageStore BufferPool.

Local Open Scope Z_scope.

(** * Page operations as the clients compose them *)

Inductive page_op : Type :=
| PRead (p : Z)
| PWrite (p : Z) (d : list byte)
| PNew (d : list byte)
| PFlush (p : Z)
| PFlushAll.

Inductive page_obs : Type :=
| OBytes (d : list byte)
| OPage (p : Z)
| ODone.

(** Fetch, use the bytes, unpin: on the pool. *)
Definition run_op (o : page_op) : M BufferPoolManager page_obs :=
  match o with
  | PRead p => i ← fetch_page p; d ← frame_bytes i; unpin_page p false;; mret (OBytes d)
  | PWrite p d => i ← fetch_page p; set_frame_bytes i d;; unpin_page p true;; mret ODone
  | PNew d => r ← new_page; set_frame_bytes (snd r) d;; unpin_page (fst r) true;; mret (OPage (fst r))
  | PFlush p => flush_page p;; mret ODone
  | PFlushAll => flush_all;; mret ODone
  end.

Fixpoint run_ops (os : list page_op) : M BufferPoolManager (list page_obs) :=
  match os with
  | [] => mret []
  | o :: os' => x ← run_op o; xs ← run_ops os'; mret (x :: xs)
  end.

(** The same operations on a plain list of pages; [None]: the operation names a
    page that does not exist, or writes something that is not a page. *)
Definition spec_op (o : page_op) (pages : list (list byte)) : option (page_obs * list (list byte)) :=
  match o with
  | PRead p => if 0 <=? p then d ← pages !! Z.to_nat p; Some (OBytes d, pages) else None
  | PWrite p d =>
      if (0 <=? p) && (p <? blen pages) && (blen d =? PAGE_SIZE)
      then Some (ODone, <[Z.to_nat p := d]> pages) else None
  | PNew d => if blen d =? PAGE_SIZE then Some (OPage (blen pages), pages ++ [d]) else None
  | PFlush _ | PFlushAll => Some (ODone, pages)
  end.

Fixpoint spec_ops (os : list page_op) (pages : list (list byte)) : option (list page_obs * list (list byte)) :=
  match os with
  | [] => Some ([], pages)
  | o :: os' =>
      r ← spec_op o pages; r' ← spec_ops os' (snd r); Some (fst r :: fst r', snd r')
  end.

(** The pool holds exactly these pages, with nothing pinned and a frame to use. *)
Record pool_is (s : BufferPoolManager) (pages : list (list byte)) : Prop := {
  pi_inv : bp_inv s;
  pi_pins : bp_pins s = ∅;
  pi_cap : 0 < bp_cap s;
  pi_count : dm_num_pages (bp_disk s) = blen pages;
  pi_view (i : nat) : bp_view s !! Z.of_nat i = pages !! i }.

(** * Flushing *)

Lemma flush_pages_ok ps s :
  bp_inv s -> (forall q, bp_clean s q) ->
  runs (flush_pages ps) s (fun _ s' =>
    bp_inv s' /\ bp_view s' = bp_view s /\ bp_pins s' = bp_pins s /\
    bp_cap s' = bp_cap s /\ dm_num_pages (bp_disk s') = dm_num_pages (bp_disk s) /\
    bp_page_table s' = bp_page_table s /\ (forall q, bp_clean s' q) /\
    (forall q, 0 <= q < dm_num_pages (bp_disk s) -> bp_page_table s !! q <> None ->
       q ∈ ps \/ page_at (dm_file (bp_disk s)) q = bp_content s q ->
       page_at (dm_file (bp_disk s')) q = bp_content s' q)).
Proof.
  revert s. induction ps as [|p ps IH]; intros s Hinv Hc.
  { cbn [flush_pages]. rstep. split_and!; try done. intros q _ _ [Hq|Hq]; [by apply not_elem_of_nil in Hq | done]. }
  cbn [flush_pages]. rstep. eapply runs_mono; [by apply flush_page_ok|].
  intros _ s1 (I1 & V1 & P1 & C1 & N1 & T1 & CL1 & D1). eapply runs_mono; [apply IH; auto|].
  intros _ s2 (I2 & V2 & P2 & C2 & N2 & T2 & CL2 & D2).
  split_and!; try done; try congruence.
  intros q Hq Ht Hor. apply D2; [by rewrite N1 | by rewrite T1 |].
  assert (bp_content s1 q = bp_content s q) as E.
  { assert (bp_view s1 !! q = bp_view s !! q) as Ev by (by rewrite V1).
    unfold bp_view in Ev. rewrite !lookup_zmap, N1, !decide_True in Ev by done. congruence. }
  rewrite E. destruct (decide (q ∈ ps)); [by left | right]. apply D1; [done | | done].
  rewrite elem_of_cons in Hor. naive_solver.
Qed.

(** [flush_all] keeps the pool's contents and makes all of them durable. *)
Lemma flush_all_ok s :
  bp_inv s -> (forall q, bp_clean s q) ->
  runs flush_all s (fun _ s' =>
    bp_inv s' /\ bp_view s' = bp_view s /\ bp_pins s' = bp_pins s /\
    bp_cap s' = bp_cap s /\ dm_num_pages (bp_disk s') = dm_num_pages (bp_disk s) /\
    dm_synced (bp_disk s') = dm_file (bp_disk s') /\
    (forall q d, bp_view s !! q = Some d -> page_at (dm_synced (bp_disk s')) q = d)).
Proof.
  intros Hinv Hc. unfold flush_all. rstep. rstep. rstep.
  eapply runs_mono; [by apply flush_pages_ok|].
  intros _ s1 (I1 & V1 & P1 & C1 & N1 & T1 & CL1 & D1).
  pose proof (inv_disk _ _ _ _ _ I1) as Hwf.
  set (d2 := mkDisk (dm_file (bp_disk s1)) (dm_file (bp_disk s1)) (dm_open (bp_disk s1)) (dm_num_pages (bp_disk s1))).
  apply (runs_eq _ _ tt (set_disk d2 s1)).
  { unfold on_disk, dm_fsync. rewrite (bind_ok _ _ _ tt (bp_disk s1)) by (apply file_op_open; [apply Hwf | lia]).
    reflexivity. }
  split_and!; try done.
  - destruct I1 as [[] ? ? ? ? ? ?]. constructor; try done.
  - intros q d Hq. assert (0 <= q < dm_num_pages (bp_disk s)) as Hr by (apply bp_view_range; eauto).
    change (page_at (dm_file (bp_disk s1)) q = d). rewrite <- V1 in Hq.
    unfold bp_view in Hq. rewrite lookup_zmap, decide_True in Hq by (by rewrite N1). injection Hq as <-.
    destruct (bp_page_table s !! q) as [i|] eqn:Et.
    + apply D1; [done | by rewrite Et |]. left. apply list_elem_of_fmap. exists (q, i).
      split; [done|]. by apply elem_of_map_to_list.
    + unfold bp_content. by rewrite T1, Et.
Qed.

(** After [flush_all] returns, the file as made durable by its [fsync]
    holds, page by page, exactly what the pool's clients see, provided every
    modified page was marked dirty; nothing a client sees changes. *)
Theorem flush_all_durable s :
  bp_inv s -> (forall q, bp_clean s q) ->
  exists s', flush_all s = (Ok tt, s') /\ bp_inv s' /\ bp_view s' = bp_view s /\
    forall q d, bp_view s !! q = Some d -> page_at (dm_synced (bp_disk s')) q = d.
Proof.
  intros Hinv Hc. destruct (flush_all_ok s Hinv Hc) as ([] & s' & He & H1 & H2 & _ & _ & _ & _ & H3).
  exists s'. auto.
Qed.

Definition example_pool : BufferPoolManager := bp_init (dm_init (Some (zeros 12288))) 2.

Lemma example_pool_inv : bp_inv example_pool.
Proof. apply bp_init_inv, dm_init_wf. Qed.

Lemma example_pool_clean q : bp_clean example_pool q.
Proof. intros i f Hi. cbn [bp_page_table example_pool bp_init] in Hi. by rewrite lookup_empty in Hi. Qed.

Lemma flush_all_durable_witness :
  exists s', flush_all example_pool = (Ok tt, s') /\ bp_inv s' /\ bp_view s' = bp_view example_pool /\
    forall q d, bp_view example_pool !! q = Some d -> page_at (dm_synced (bp_disk s')) q = d.
Proof. apply flush_all_durable; [apply example_pool_inv | apply example_pool_clean]. Defined.

(** * Transparency of the cache *)

Lemma pool_is_all_clean s pages q : pool_is s pages -> bp_clean s q.
Proof.
  intros [Hinv Hp _ _ _]. apply bp_unpinned_clean; [done|]. by rewrite Hp.
Qed.

Lemma pin_empty p : pin_dec p (pin_inc p ∅) = ∅.
Proof. apply pin_dec_inc. intros n. by rewrite lookup_empty. Qed.

Lemma fetch_is s pages p d :
  pool_is s pages -> 0 <= p -> pages !! Z.to_nat p = Some d ->
  runs (fetch_page p) s (fun i s1 => fetched s p i s1 /\ bp_view s !! p = Some d).
Proof.
  intros Hs Hp Hd. assert (bp_view s !! p = Some d) as Hv
    by (rewrite <- (Z2Nat.id p Hp), (pi_view _ _ Hs); done).
  eapply runs_mono; [apply fetch_page_ok; [apply Hs | by eauto |]|].
  - right. rewrite (pi_pins _ _ Hs), map_size_empty. apply Hs.
  - auto.
Qed.

Lemma run_read_ok s pages p d :
  pool_is s pages -> 0 <= p -> pages !! Z.to_nat p = Some d ->
  runs (run_op (PRead p)) s (fun o s' => o = OBytes d /\ pool_is s' pages).
Proof.
  intros Hs Hp Hd. unfold run_op. rstep. eapply runs_mono; [by eapply fetch_is|].
  intros i s1 [(I1 & V1 & P1 & C1 & N1 & Ho & _ & CL1) Hv]. rstep.
  destruct (frame_bytes_ok s1 i p I1 Ho) as (d' & Hd' & Hv'). rewrite V1, Hv in Hv'. injection Hv' as <-.
  apply (runs_eq _ _ _ _ _ Hd'). rstep.
  eapply runs_mono; [apply unpin_page_ok; [done | right; apply CL1; by eapply pool_is_all_clean]|].
  intros _ s2 (I2 & V2 & P2 & C2 & N2 & _ & _). rstep. split; [done|].
  destruct Hs as [_ Hpins Hcap Hcnt Hview]. constructor; [done | | lia | lia |].
  - rewrite P2, P1, Hpins. apply pin_empty.
  - intros k. rewrite V2, V1. apply Hview.
Qed.

Lemma bp_view_nat s pages p d :
  (forall i : nat, bp_view s !! Z.of_nat i = pages !! i) -> 0 <= p < blen pages ->
  forall i : nat, <[p := d]> (bp_view s) !! Z.of_nat i = <[Z.to_nat p := d]> pages !! i.
Proof.
  intros Hv Hp i. unfold blen in Hp. destruct (decide (i = Z.to_nat p)) as [->|Hne].
  - rewrite Z2Nat.id, lookup_insert_eq, list_lookup_insert_eq by lia. done.
  - rewrite lookup_insert_ne, list_lookup_insert_ne by lia. apply Hv.
Qed.

Lemma run_write_ok s pages p d :
  pool_is s pages -> 0 <= p < blen pages -> blen d = PAGE_SIZE ->
  runs (run_op (PWrite p d)) s (fun o s' => o = ODone /\ pool_is s' (<[Z.to_nat p := d]> pages)).
Proof.
  intros Hs Hp Hd. destruct (lookup_lt_is_Some_2 pages (Z.to_nat p)) as [old Hold]; [unfold blen in Hp; lia|].
  unfold run_op. rstep. eapply runs_mono; [eapply fetch_is; [done | lia | done]|].
  intros i s1 [(I1 & V1 & P1 & C1 & N1 & Ho & _ & CL1) Hv]. rstep.
  eapply runs_mono; [by apply (set_frame_bytes_ok s1 i p d)|].
  intros _ s2 (I2 & V2 & P2 & C2 & N2 & _ & _). rstep.
  eapply runs_mono; [apply unpin_page_ok; [done | by left]|].
  intros _ s3 (I3 & V3 & P3 & C3 & N3 & _ & _). rstep. split; [done|].
  destruct Hs as [_ Hpins Hcap Hcnt Hview]. constructor; [done | | lia | |].
  - rewrite P3, P2, P1, Hpins. apply pin_empty.
  - unfold blen. rewrite length_insert. unfold blen in Hcnt. lia.
  - intros k. rewrite V3, V2, V1. by apply bp_view_nat.
Qed.

Lemma run_new_ok s pages d :
  pool_is s pages -> blen d = PAGE_SIZE ->
  runs (run_op (PNew d)) s (fun o s' => o = OPage (blen pages) /\ pool_is s' (pages ++ [d])).
Proof.
  intros Hs Hd. pose proof Hs as [_ Hpins Hcap Hcnt Hview].
  unfold run_op. rstep. eapply runs_mono; [apply new_page_ok; [apply Hs | by rewrite Hpins, map_size_empty]|].
  intros [p i] s1 (Hp & _ & I1 & V1 & P1 & C1 & N1 & Ho & _ & _). simpl in *. rstep.
  eapply runs_mono; [by apply (set_frame_bytes_ok s1 i p d)|].
  intros _ s2 (I2 & V2 & P2 & C2 & N2 & _ & _). rstep.
  eapply runs_mono; [apply unpin_page_ok; [done | by left]|].
  intros _ s3 (I3 & V3 & P3 & C3 & N3 & _ & _). rstep. split; [congruence|].
  constructor; [done | | lia | |].
  - rewrite P3, P2, P1, Hpins. apply pin_empty.
  - blen.
  - intros k. rewrite V3, V2, V1, insert_insert_eq. subst p. rewrite Hcnt. unfold blen.
    destruct (decide (k = length pages)) as [->|Hne].
    + rewrite lookup_insert_eq, lookup_app_r, Nat.sub_diag by lia. done.
    + rewrite lookup_insert_ne, Hview by lia.
      destruct (decide (k < length pages)%nat); [by rewrite lookup_app_l|].
      rewrite !lookup_ge_None_2; [done | rewrite length_app; simpl; lia | lia].
Qed.

Lemma run_op_ok o s pages x pages' :
  pool_is s pages -> spec_op o pages = Some (x, pages') ->
  runs (run_op o) s (fun y s' => y = x /\ pool_is s' pages').
Proof.
  intros Hs Ho. destruct o as [p|p d|d|p|]; unfold spec_op in Ho.
  - destruct (Z.leb_spec 0 p); [| done]. destruct (pages !! Z.to_nat p) as [d|] eqn:Ed; [| done].
    injection Ho as <- <-. by apply run_read_ok.
  - destruct ((0 <=? p) && (p <? blen pages) && (blen d =? PAGE_SIZE)) eqn:E; [| done].
    injection Ho as <- <-. apply run_write_ok; [done | lia | lia].
  - destruct (Z.eqb_spec (blen d) PAGE_SIZE); [| done]. injection Ho as <- <-. by apply run_new_ok.
  - injection Ho as <- <-. unfold run_op. rstep. eapply runs_mono; [apply flush_page_ok, Hs|].
    intros _ s' (I & V & P & C & N & _). rstep. split; [done|].
    destruct Hs. constructor; [done | congruence | lia | lia |]. intros i. by rewrite V.
  - injection Ho as <- <-. unfold run_op. rstep.
    eapply runs_mono; [apply flush_all_ok; [apply Hs | intros; by eapply pool_is_all_clean]|].
    intros _ s' (I & V & P & C & N & _). rstep. split; [done|].
    destruct Hs. constructor; [done | congruence | lia | lia |]. intros i. by rewrite V.
Qed.

(** C9: whatever sequence of reads, writes, page allocations and flushes the
    clients run, the pool (any number of frames, LRU eviction, write-back)
    returns without an exception and with the results a plain list of pages
    would give: caching and eviction are invisible. *)
Theorem pool_refines_page_list os s pages xs pages' :
  pool_is s pages -> spec_ops os pages = Some (xs, pages') ->
  exists s', run_ops os s = (Ok xs, s') /\ pool_is s' pages'.
Proof.
  revert s pages xs pages'. induction os as [|o os IH]; intros s pages xs pages' Hs Ho.
  - injection Ho as <- <-. by exists s.
  - simpl in Ho. destruct (spec_op o pages) as [[x pages1]|] eqn:E1; [| done]. simpl in Ho.
    destruct (spec_ops os pages1) as [[ys pages2]|] eqn:E2; [| done]. simpl in Ho. injection Ho as <- <-.
    destruct (run_op_ok o s pages x pages1 Hs E1) as (y & s1 & Hy & -> & Hs1).
    destruct (IH s1 pages1 ys pages2 Hs1 E2) as (s2 & H2 & Hs2). exists s2. split; [| done].
    cbn [run_ops]. rewrite (bind_ok _ _ _ _ _ Hy), (bind_ok _ _ _ _ _ H2). reflexivity.
Qed.

Lemma example_pool_is : pool_is example_pool (replicate 3 (zeros PAGE_SIZE)).
Proof.
  constructor.
  - apply example_pool_inv.
  - apply omap_empty.
  - vm_compute. reflexivity.
  - vm_compute. reflexivity.
  - intros i. destruct i as [|[|[|i]]]; [vm_compute; reflexivity..|].
    unfold bp_view. rewrite lookup_zmap, decide_False; [done|]. simpl. change (_ / _) with 3. lia.
Qed.

Definition page_of (n : Z) : list byte := le_enc 8 n ++ zeros 4088.

Lemma pool_refines_page_list_witness :
  exists s', run_ops [PWrite 0 (page_of 5); PWrite 1 (page_of 6); PWrite 2 (page_of 7); PNew (page_of 8); PRead 0]
      example_pool = (Ok [ODone; ODone; ODone; OPage 3; OBytes (page_of 5)], s') /\
    pool_is s' [page_of 5; page_of 6; page_of 7; page_of 8].
Proof. apply (pool_refines_page_list _ _ _ _ _ example_pool_is). vm_compute. reflexivity. Defined.

(** * Hits and failures *)

(** Fetching a resident page does no disk I/O: the disk and both I/O
    counters are unchanged, the hit counter goes up by one, and the frame
    returned is the one that holds the page. *)
Theorem fetch_hit_no_io s p i :
  bp_inv s -> bp_page_table s !! p = Some i ->
  exists s', fetch_page p s = (Ok i, s') /\ bp_disk s' = bp_disk s /\
    bp_disk_reads s' = bp_disk_reads s /\ bp_disk_writes s' = bp_disk_writes s /\
    bp_cache_hits s' = bp_cache_hits s + 1 /\ bp_page_table s' = bp_page_table s.
Proof.
  intros Hinv Hp. destruct (inv_table _ _ _ _ _ Hinv p i Hp) as [f [Hf _ _ _ _ _]].
  eexists. split.
  - unfold fetch_page. mstep. rewrite Hp. mstep.
    rewrite (bind_ok _ _ _ _ _ (pin_eq (add_hit s) i f Hf)). reflexivity.
  - done.
Qed.

Lemma fetch_hit_no_io_witness :
  exists s', fetch_page 2 (snd (fetch_page 2 example_pool)) = (Ok 1%nat, s') /\
    bp_disk_reads s' = bp_disk_reads (snd (fetch_page 2 example_pool)) /\ bp_cache_hits s' = 1.
Proof.
  destruct (fetch_page_ok example_pool 2 example_pool_inv) as (i & s1 & He & Hinv & _).
  { apply bp_view_range. vm_compute. split; congruence. }
  { right. vm_compute. reflexivity. }
  assert (snd (fetch_page 2 example_pool) = s1) as <- by (by rewrite He).
  destruct (fetch_hit_no_io (snd (fetch_page 2 example_pool)) 2 1 Hinv) as (s2 & H1 & _ & H2 & _ & H3 & _).
  { vm_compute. reflexivity. }
  exists s2. split_and!; [done | done |]. rewrite H3. vm_compute. reflexivity.
Defined.

(** With every frame pinned, fetching a page that is not resident raises
    [BufferPoolFullError] and changes nothing. *)
Theorem fetch_full_raises s p :
  bp_page_table s !! p = None -> bp_free_frames s = [] -> bp_lru s = [] ->
  fetch_page p s = (Raise BufferPoolFullError, s).
Proof.
  intros Ht Hf Hl. unfold fetch_page. mstep. rewrite Ht.
  rewrite (bind_raise _ _ _ BufferPoolFullError s); [done|].
  unfold evict_one. mstep. rewrite Hf. change (last (@nil nat)) with (@None nat). mstep. by rewrite Hl.
Qed.

Lemma fetch_full_raises_witness :
  let s := snd (fetch_page 1 (snd (fetch_page 0 example_pool))) in
  fetch_page 2 s = (Raise BufferPoolFullError, s).
Proof. intros s. apply fetch_full_raises; vm_compute; reflexivity. Defined.

(** C39: fetching a page beyond the end of the file raises [ValueError] only
    after a frame was taken from the pool; the frame is in no list any more,
    so each such call permanently costs the pool one usable frame. *)
Theorem fetch_missing_page_leaks_frame s p :
  bp_inv s -> dm_num_pages (bp_disk s) <= p -> Z.of_nat (size (bp_pins s)) < bp_cap s ->
  exists s', fetch_page p s = (Raise ValueError, s') /\ bp_inv s' /\ bp_cap s' = bp_cap s - 1.
Proof.
  intros Hinv Hp Hcap.
  destruct (evict_one_ok s Hinv Hcap) as (i & s1 & He & Hinv1 & Hlt & _ & _ & _ & _ & Hc & Hn & _).
  destruct (lookup_lt_is_Some_2 _ _ Hlt) as [f Hf]. exists s1. split; [| done].
  unfold fetch_page. mstep. destruct (bp_page_table s !! p) as [j|] eqn:Ht.
  { destruct (inv_table _ _ _ _ _ Hinv p j Ht) as [g []]. lia. }
  rewrite (bind_ok _ _ _ _ _ He), (bind_ok _ _ _ _ _ (get_frame_ok s1 i f Hf)).
  apply bind_raise. unfold on_disk, read_page. mstep.
  replace (dm_num_pages (bp_disk s1) <=? p) with true by lia. by destruct s1.
Qed.

Lemma fetch_missing_page_leaks_frame_witness :
  exists s', fetch_page 3 example_pool = (Raise ValueError, s') /\ bp_inv s' /\
    bp_cap s' = bp_cap example_pool - 1.
Proof.
  apply fetch_missing_page_leaks_frame; [apply example_pool_inv | vm_compute; congruence | vm_compute; reflexivity].
Defined.
