(* ===== verification/HeapPage.v ===== *)
(** The slotted heap page ([src/minirel/storage/heap_file.py], the module-level
    functions): header, slot directory, tuple bytes; and the invariant that
    keeps live tuples disjoint. *)
From stdpp Require Import base numbers list gmap.
From Stdlib Require Import ZArith Lia Strings.Byte.
From S2P Require Import Prelude PyNum Disk.

Local Open Scope Z_scope.

(** * Definitions *)

Definition HEADER_SIZE : Z := 9.
Definition SLOT_SIZE : Z := 4.
Definition DELETED : Z := 0xFFFF.

(** An unsigned little-endian field of a buffer. *)
Definition field (w : Z) (d : list byte) (off : Z) : Z := le_dec (d.[off : off + w]).

(** [struct.Struct("<BHHI").unpack_from(data, 0)] *)
Definition read_header (d : list byte) : result (Z * Z * Z * Z) :=
  if HEADER_SIZE <=? blen d
  then Ok (field 1 d 0, field 2 d 1, field 2 d 3, field 4 d 5)
  else Raise StructError.

Definition write_header (page_type num_slots free_ptr next_page : Z) (d : list byte) : result (list byte) :=
  a ← pack_u 1 page_type; b ← pack_u 2 num_slots; c ← pack_u 2 free_ptr; e ← pack_u 4 next_page;
  pack_into d 0 (a ++ b ++ c ++ e).

Definition slot_offset (index : Z) : Z := HEADER_SIZE + index * SLOT_SIZE.

Definition read_slot (d : list byte) (index : Z) : result (Z * Z) :=
  off ← struct_offset (blen d) (slot_offset index) SLOT_SIZE;
  Ok (field 2 d off, field 2 d (off + 2)).

Definition write_slot (index offset length : Z) (d : list byte) : result (list byte) :=
  a ← pack_u 2 offset; b ← pack_u 2 length;
  pack_into d (slot_offset index) (a ++ b).

Definition init_heap_page (d : list byte) : result (list byte) :=
  write_header (PageType_code HEAP) 0 PAGE_SIZE INVALID_PAGE_ID d.

(** ** What a page holds *)

(** The bytes of slot [i]; [None] when it is out of range or deleted. *)
Definition slot_tuple (d : list byte) (n i : Z) : option (list byte) :=
  if (0 <=? i) && (i <? n) then
    let o := field 2 d (slot_offset i) in
    let l := field 2 d (slot_offset i + 2) in
    if l =? DELETED then None else Some (d.[o : o + l])
  else None.

(** Slot [i] names a live tuple at [o], of [l] bytes. *)
Definition live (d : list byte) (n i o l : Z) : Prop :=
  0 <= i < n /\ o = field 2 d (slot_offset i) /\ l = field 2 d (slot_offset i + 2) /\ l <> DELETED.

(** A well-formed page: [n] slots, tuples at [f] and above, next page [nx]. *)
Record hp_wf (d : list byte) (n f nx : Z) : Prop := {
  hw_size : blen d = PAGE_SIZE;
  hw_num : field 2 d 1 = n;
  hw_free : field 2 d 3 = f;
  hw_next : field 4 d 5 = nx;
  hw_dir : slot_offset n <= f <= PAGE_SIZE;
  hw_live i o l : live d n i o l -> f <= o /\ o + l <= PAGE_SIZE;
  hw_disjoint i j o l o' l' : live d n i o l -> live d n j o' l' -> i <> j ->
    o + l <= o' \/ o' + l' <= o }.

(** * Fields of a modified buffer *)

Lemma field_bound w d off : 0 <= w -> 0 <= off -> off + w <= blen d -> 0 <= field w d off < 256 ^ w.
Proof.
  intros Hw Ho Hb. unfold field. pose proof (le_dec_bound (d.[off : off + w])) as H.
  pose proof (blen_slice d off (off + w) ltac:(lia) Hb) as E. unfold blen in E. rewrite E in H.
  replace (off + w - off) with w in H by lia. exact H.
Qed.

Lemma field_set_ne w d off a b v :
  0 <= a <= b -> b <= blen d -> blen v = b - a -> 0 <= off -> off + w <= a \/ b <= off ->
  field w (slice_set d a b v) off = field w d off.
Proof. intros. unfold field. by rewrite slice_slice_set_ne. Qed.

Lemma field_set_in (w : nat) d off a b pre x post :
  0 <= a <= b -> b <= blen d -> off = a + blen pre ->
  b - a = blen (pre ++ le_enc w x ++ post) -> 0 <= x < 256 ^ Z.of_nat w ->
  field (Z.of_nat w) (slice_set d a b (pre ++ le_enc w x ++ post)) off = x.
Proof.
  intros Hab Hb -> Hlen Hx. unfold field. set (v := pre ++ le_enc w x ++ post) in *.
  pose proof (blen_nonneg pre). pose proof (blen_nonneg post).
  assert (blen v = blen pre + Z.of_nat w + blen post) as Hv by (unfold v; blen).
  replace (a + blen pre + Z.of_nat w) with (a + (blen pre + Z.of_nat w)) by lia.
  rewrite <- (slice_slice _ a b (blen pre) (blen pre + Z.of_nat w)) by lia.
  rewrite slice_slice_set_eq by lia. unfold v.
  pose proof (slice_app_r pre (le_enc w x ++ post) (blen pre) (blen pre + Z.of_nat w)) as E.
  rewrite E, slice_app_l by (blen; lia).
  replace (blen pre - blen pre) with 0 by lia.
  replace (blen pre + Z.of_nat w - blen pre) with (blen (le_enc w x)) by blen.
  rewrite slice_all. by apply le_dec_enc_small.
Qed.

Lemma slot_offset_pos i : 0 <= i -> HEADER_SIZE <= slot_offset i.
Proof. unfold slot_offset, HEADER_SIZE, SLOT_SIZE. lia. Qed.

(** Arithmetic on page offsets. *)
Ltac off := unfold slot_offset, HEADER_SIZE, SLOT_SIZE, PAGE_SIZE, DELETED, INVALID_PAGE_ID in *; try lia.

Lemma read_header_ok d n f nx : hp_wf d n f nx -> read_header d = Ok (field 1 d 0, n, f, nx).
Proof.
  intros [Hs <- <- <- _ _ _]. unfold read_header. rewrite Hs. reflexivity.
Qed.

Lemma read_slot_ok d i : blen d = PAGE_SIZE -> 0 <= i -> slot_offset i + SLOT_SIZE <= PAGE_SIZE ->
  read_slot d i = Ok (field 2 d (slot_offset i), field 2 d (slot_offset i + 2)).
Proof.
  intros Hs H0 Hi. unfold read_slot. rewrite Hs, struct_offset_ok; [done | off | done].
Qed.

Lemma hp_slot_in_page d n f nx i : hp_wf d n f nx -> i < n -> slot_offset i + SLOT_SIZE <= PAGE_SIZE.
Proof. intros [_ _ _ _ Hd _ _] Hi. off. Qed.

(** ** Writing the header *)

Definition header_bytes (t n f nx : Z) : list byte := le_enc 1 t ++ le_enc 2 n ++ le_enc 2 f ++ le_enc 4 nx.
Definition with_header (t n f nx : Z) (d : list byte) : list byte := slice_set d 0 9 (header_bytes t n f nx).

Lemma write_header_ok t n f nx d :
  blen d = PAGE_SIZE -> 0 <= t < 256 -> 0 <= n < 65536 -> 0 <= f < 65536 -> 0 <= nx < 2 ^ 32 ->
  write_header t n f nx d = Ok (with_header t n f nx d).
Proof.
  intros Hs Ht Hn Hf Hx. unfold write_header.
  rewrite !pack_u_in_range by done. unfold mbind, result_bind.
  rewrite pack_into_in_range; [| off | blen; off].
  unfold with_header, header_bytes. repeat f_equal.
Qed.

Lemma blen_header t n f nx : blen (header_bytes t n f nx) = 9.
Proof. unfold header_bytes. blen. Qed.

Lemma blen_with_header t n f nx d : blen d = PAGE_SIZE -> blen (with_header t n f nx d) = PAGE_SIZE.
Proof.
  intros Hs. unfold with_header. rewrite blen_slice_set; [done | off | off | by rewrite blen_header].
Qed.

Lemma with_header_fields t n f nx d :
  blen d = PAGE_SIZE -> 0 <= t < 256 -> 0 <= n < 65536 -> 0 <= f < 65536 -> 0 <= nx < 2 ^ 32 ->
  field 1 (with_header t n f nx d) 0 = t /\ field 2 (with_header t n f nx d) 1 = n /\
  field 2 (with_header t n f nx d) 3 = f /\ field 4 (with_header t n f nx d) 5 = nx.
Proof.
  intros Hs Ht Hn Hf Hx. unfold with_header, header_bytes. split_and!.
  - apply (field_set_in 1 d 0 0 9 []); [off | off | done | blen | done].
  - apply (field_set_in 2 d 1 0 9 (le_enc 1 t)); [off | off | blen | blen | done].
  - rewrite (app_assoc (le_enc 1 t)).
    apply (field_set_in 2 d 3 0 9 (le_enc 1 t ++ le_enc 2 n)); [off | off | blen | blen | done].
  - rewrite (app_assoc (le_enc 1 t)), (app_assoc _ (le_enc 2 f)).
    rewrite <- (app_nil_r (le_enc 4 nx)).
    apply (field_set_in 4 d 5 0 9 ((le_enc 1 t ++ le_enc 2 n) ++ le_enc 2 f) nx []); [off | off | blen | blen | done].
Qed.

Lemma with_header_slice t n f nx d a b :
  blen d = PAGE_SIZE -> 9 <= a -> (with_header t n f nx d).[a : b] = d.[a : b].
Proof.
  intros Hs Ha. unfold with_header. apply slice_slice_set_ne; [lia | off | by rewrite blen_header | lia | lia].
Qed.

(** ** Writing a slot *)

Definition with_slot (i o l : Z) (d : list byte) : list byte :=
  slice_set d (slot_offset i) (slot_offset i + 4) (le_enc 2 o ++ le_enc 2 l).

Lemma write_slot_ok i o l d :
  blen d = PAGE_SIZE -> 0 <= i -> slot_offset i + SLOT_SIZE <= PAGE_SIZE ->
  0 <= o < 65536 -> 0 <= l < 65536 -> write_slot i o l d = Ok (with_slot i o l d).
Proof.
  intros Hs Hi Hb Ho Hl. unfold write_slot. rewrite !pack_u_in_range by done.
  unfold mbind, result_bind. rewrite pack_into_in_range; [| off | blen; off].
  unfold with_slot. repeat f_equal.
Qed.

Section slot.
Context (i o l : Z) (d : list byte).
Context (Hs : blen d = PAGE_SIZE) (Hi : 0 <= i) (Hb : slot_offset i + SLOT_SIZE <= PAGE_SIZE).

Lemma blen_with_slot : blen (with_slot i o l d) = PAGE_SIZE.
Proof using Type*.
  unfold with_slot. rewrite blen_slice_set; [done | off | off | blen].
Qed.

Lemma with_slot_same : 0 <= o < 65536 -> 0 <= l < 65536 ->
  field 2 (with_slot i o l d) (slot_offset i) = o /\ field 2 (with_slot i o l d) (slot_offset i + 2) = l.
Proof using Type*.
  intros Ho Hl. unfold with_slot. split.
  - apply (field_set_in 2 d _ (slot_offset i) (slot_offset i + 4) []); [off | off | blen | blen | done].
  - rewrite <- (app_nil_r (le_enc 2 l)).
    apply (field_set_in 2 d _ (slot_offset i) (slot_offset i + 4) (le_enc 2 o) l []); [off | off | blen | blen | done].
Qed.

Lemma with_slot_slice a b : 0 <= a -> b <= slot_offset i \/ slot_offset i + 4 <= a ->
  (with_slot i o l d).[a : b] = d.[a : b].
Proof using Type*.
  intros Ha Hd. unfold with_slot. apply slice_slice_set_ne; [off | off | blen | done | done].
Qed.

Lemma with_slot_field w a : 0 <= a -> a + w <= slot_offset i \/ slot_offset i + 4 <= a ->
  field w (with_slot i o l d) a = field w d a.
Proof using Type*. intros. unfold field. by rewrite with_slot_slice. Qed.
End slot.

(** * The page operations of the heap file *)

(** [insert]: the row's bytes below the free pointer, then its slot, then the header. *)
Definition placed (d : list byte) (n' f nx idx : Z) (row : list byte) : list byte :=
  with_header 1 n' (f - blen row) nx
    (with_slot idx (f - blen row) (blen row) (slice_set d (f - blen row) f row)).

Section place.
Context (d : list byte) (n f nx idx : Z) (row : list byte).
Context (Hwf : hp_wf d n f nx) (Hidx : 0 <= idx <= n) (Hnx : 0 <= nx < 2 ^ 32).
Let n' := Z.max n (idx + 1).
Let f' := f - blen row.
Context (Hfit : slot_offset n' <= f').
Context (Hdead : idx < n -> field 2 d (slot_offset idx + 2) = DELETED).

Lemma place_bounds : 0 <= n < 65536 /\ 0 <= n' < 65536 /\ 0 <= f' /\ f <= 4096 /\ 0 <= blen row < DELETED /\
  slot_offset idx + SLOT_SIZE <= f'.
Proof using All.
  destruct Hwf as [_ _ _ _ Hd _ _]. pose proof (blen_nonneg row). unfold f', n' in *. off.
Qed.

Let d1 := slice_set d f' f row.

Lemma place_d1_size : blen d1 = PAGE_SIZE.
Proof using All.
  pose proof place_bounds. destruct Hwf as [Hs _ _ _ Hd _ _]. unfold d1.
  rewrite blen_slice_set; [done | off | off | unfold f'; lia].
Qed.

Lemma place_d1_slice a b : 0 <= a -> b <= f' \/ f <= a -> d1.[a : b] = d.[a : b].
Proof using All.
  intros Ha Hab. pose proof place_bounds. destruct Hwf as [Hs _ _ _ Hd _ _]. unfold d1.
  apply slice_slice_set_ne; try done; [off | off | unfold f'; lia].
Qed.

Lemma place_steps :
  write_slot idx f' (blen row) d1 = Ok (with_slot idx f' (blen row) d1) /\
  write_header (PageType_code HEAP) n' f' nx (with_slot idx f' (blen row) d1) = Ok (placed d n' f nx idx row).
Proof using All.
  pose proof place_bounds as (B1 & B2 & B3 & B4 & B5 & B6). pose proof place_d1_size as Hs. split.
  - apply write_slot_ok; try done; off.
  - apply write_header_ok; try done; [| off]. apply blen_with_slot; [done | lia | off].
Qed.

Lemma placed_size : blen (placed d n' f nx idx row) = PAGE_SIZE.
Proof using All.
  pose proof place_bounds as (B1 & B2 & B3 & B4 & B5 & B6). unfold placed.
  apply blen_with_header. apply blen_with_slot; [exact place_d1_size | lia | off].
Qed.

(** Bytes outside the header, slot [idx] and the row are those of the old page. *)
Lemma placed_slice a b :
  9 <= a -> b <= slot_offset idx \/ slot_offset idx + 4 <= a -> b <= f' \/ f <= a ->
  (placed d n' f nx idx row).[a : b] = d.[a : b].
Proof using All.
  intros Ha H1 H2. pose proof place_bounds as (B1 & B2 & B3 & B4 & B5 & B6). unfold placed.
  rewrite with_header_slice by (done || (apply blen_with_slot; [exact place_d1_size | lia | off])).
  rewrite with_slot_slice by (done || exact place_d1_size || lia || off).
  by apply place_d1_slice; [lia|].
Qed.

Lemma placed_slot_other j : 0 <= j < n' -> j <> idx ->
  field 2 (placed d n' f nx idx row) (slot_offset j) = field 2 d (slot_offset j) /\
  field 2 (placed d n' f nx idx row) (slot_offset j + 2) = field 2 d (slot_offset j + 2).
Proof using All.
  intros Hj Hne. pose proof place_bounds as (B1 & B2 & B3 & B4 & B5 & B6).
  split; unfold field; rewrite placed_slice; off.
Qed.

Lemma placed_slot_idx :
  field 2 (placed d n' f nx idx row) (slot_offset idx) = f' /\
  field 2 (placed d n' f nx idx row) (slot_offset idx + 2) = blen row.
Proof using All.
  pose proof place_bounds as (B1 & B2 & B3 & B4 & B5 & B6). unfold placed.
  assert (blen (with_slot idx f' (blen row) d1) = PAGE_SIZE) as Hs
    by (apply blen_with_slot; [exact place_d1_size | lia | off]).
  destruct (with_slot_same idx f' (blen row) d1 place_d1_size) as [E1 E2]; [lia | off | off | off |].
  split.
  - etransitivity; [| exact E1]. unfold field. f_equal. apply with_header_slice; [done | off].
  - etransitivity; [| exact E2]. unfold field. f_equal. apply with_header_slice; [done | off].
Qed.

Lemma placed_live j o l : live (placed d n' f nx idx row) n' j o l ->
  (j = idx /\ o = f' /\ l = blen row) \/ (j <> idx /\ live d n j o l).
Proof using All.
  intros (Hj & Ho & Hl & Hd). destruct (decide (j = idx)) as [->|Hne].
  - destruct placed_slot_idx as [E1 E2]. left. split_and!; congruence.
  - destruct (placed_slot_other j Hj Hne) as [E1 E2]. right. split; [done|].
    unfold live. rewrite <- E1, <- E2. split_and!; try done; unfold n' in Hj; lia.
Qed.

Lemma placed_wf : hp_wf (placed d n' f nx idx row) n' f' nx.
Proof using All.
  pose proof place_bounds as (B1 & B2 & B3 & B4 & B5 & B6).
  destruct (with_header_fields 1 n' f' nx (with_slot idx f' (blen row) d1)) as (_ & E1 & E2 & E3);
    [apply blen_with_slot; [exact place_d1_size | lia | off] | lia | lia | lia | done |].
  constructor; try done.
  - exact placed_size.
  - off.
  - intros j o l Hl. destruct (placed_live j o l Hl) as [(-> & -> & ->)|[_ Hd]].
    + unfold f' in *. off.
    + pose proof (hw_live _ _ _ _ Hwf _ _ _ Hd). lia.
  - intros i j o l o' l' Hi Hj Hne.
    destruct (placed_live i o l Hi) as [(-> & -> & ->)|[_ Hi']],
             (placed_live j o' l' Hj) as [(-> & -> & ->)|[_ Hj']]; try done.
    + pose proof (hw_live _ _ _ _ Hwf _ _ _ Hj'). unfold f'. lia.
    + pose proof (hw_live _ _ _ _ Hwf _ _ _ Hi'). unfold f'. lia.
    + by apply (hw_disjoint _ _ _ _ Hwf i j o l o' l').
Qed.

Lemma placed_tuple j :
  slot_tuple (placed d n' f nx idx row) n' j = if decide (j = idx) then Some row else slot_tuple d n j.
Proof using All.
  pose proof place_bounds as (B1 & B2 & B3 & B4 & B5 & B6). unfold slot_tuple. case_decide as Hj.
  - subst j. replace ((0 <=? idx) && (idx <? n')) with true by (unfold n'; lia).
    destruct placed_slot_idx as [-> ->]. destruct (Z.eqb_spec (blen row) DELETED); [off|]. f_equal.
    unfold placed. rewrite with_header_slice
      by ((apply blen_with_slot; [exact place_d1_size | lia | off]) || off).
    rewrite with_slot_slice by (exact place_d1_size || lia || off).
    replace (f' + blen row) with f by (unfold f'; lia).
    apply slice_slice_set_eq; [off | rewrite (hw_size _ _ _ _ Hwf); off | unfold f'; lia].
  - destruct (decide (0 <= j < n')) as [Hr|Hr].
    + replace ((0 <=? j) && (j <? n')) with true by lia.
      replace ((0 <=? j) && (j <? n)) with true by (unfold n' in *; lia).
      destruct (placed_slot_other j Hr Hj) as [-> ->].
      destruct (Z.eqb_spec (field 2 d (slot_offset j + 2)) DELETED) as [|Hnd]; [done|]. f_equal.
      assert (live d n j (field 2 d (slot_offset j)) (field 2 d (slot_offset j + 2))) as Hl
        by (split_and!; try done; unfold n' in *; lia).
      pose proof (hw_live _ _ _ _ Hwf _ _ _ Hl). apply placed_slice; off.
    + replace ((0 <=? j) && (j <? n')) with false by lia.
      by replace ((0 <=? j) && (j <? n)) with false by (unfold n' in *; lia).
Qed.
End place.

(** [update_in_place]: the bytes of one live tuple. *)
Section overwrite.
Context (d : list byte) (n f nx i o l : Z) (new : list byte).
Context (Hwf : hp_wf d n f nx) (Hl : live d n i o l) (Hnew : blen new = l).
Let d' := slice_set d o (o + l) new.

Lemma overwrite_bounds : 0 <= l /\ slot_offset n <= o /\ o + l <= PAGE_SIZE.
Proof using All.
  pose proof (hw_live _ _ _ _ Hwf _ _ _ Hl). pose proof (hw_dir _ _ _ _ Hwf). pose proof (blen_nonneg new). lia.
Qed.

Lemma overwrite_size : blen d' = PAGE_SIZE.
Proof using All.
  pose proof overwrite_bounds. destruct Hl as (Hi & _). unfold d'.
  rewrite blen_slice_set; [apply Hwf | off | rewrite (hw_size _ _ _ _ Hwf); lia | lia].
Qed.

Lemma overwrite_field w a : 0 <= a -> a + w <= slot_offset n -> field w d' a = field w d a.
Proof using All.
  intros Ha Hw. pose proof overwrite_bounds. destruct Hl as (Hi & _). unfold d'.
  apply field_set_ne; [off | rewrite (hw_size _ _ _ _ Hwf); lia | lia | done | lia].
Qed.

Lemma overwrite_slot j : 0 <= j < n -> field 2 d' (slot_offset j) = field 2 d (slot_offset j) /\
  field 2 d' (slot_offset j + 2) = field 2 d (slot_offset j + 2).
Proof using All. intros Hj. split; apply overwrite_field; off. Qed.

Lemma overwrite_live j a b : live d' n j a b <-> live d n j a b.
Proof using All.
  unfold live. split; intros (Hj & H); destruct (overwrite_slot j Hj) as [E1 E2]; rewrite ?E1, ?E2 in *; done.
Qed.

Lemma overwrite_wf : hp_wf d' n f nx.
Proof using All.
  pose proof Hwf as [Hs Hn Hf Hx Hd Hlv Hdj]. destruct Hl as (Hi & _). constructor.
  - exact overwrite_size.
  - rewrite overwrite_field; off.
  - rewrite overwrite_field; off.
  - rewrite overwrite_field; off.
  - done.
  - intros j a b Hj. apply Hlv with j. by apply overwrite_live.
  - intros j k a b a' b' Hj Hk. apply Hdj; by apply overwrite_live.
Qed.

Lemma overwrite_tuple j : slot_tuple d' n j = if decide (j = i) then Some new else slot_tuple d n j.
Proof using All.
  pose proof overwrite_bounds as (B1 & B2 & B3). pose proof Hl as (Hi & Eo & El & Hnd).
  unfold slot_tuple. destruct (decide (0 <= j < n)) as [Hj|Hj].
  - replace ((0 <=? j) && (j <? n)) with true by lia.
    destruct (overwrite_slot j Hj) as [-> ->]. case_decide as E.
    + subst j. rewrite <- Eo, <- El. destruct (Z.eqb_spec l DELETED); [done|]. f_equal.
      apply slice_slice_set_eq; [off | rewrite (hw_size _ _ _ _ Hwf); lia | lia].
    + destruct (Z.eqb_spec (field 2 d (slot_offset j + 2)) DELETED) as [|Hjd]; [done|]. f_equal.
      assert (live d n j (field 2 d (slot_offset j)) (field 2 d (slot_offset j + 2))) as Hlj by done.
      pose proof (hw_disjoint _ _ _ _ Hwf _ _ _ _ _ _ Hl Hlj ltac:(congruence)).
      pose proof (hw_live _ _ _ _ Hwf _ _ _ Hlj). pose proof (hw_dir _ _ _ _ Hwf).
      apply slice_slice_set_ne; [off | rewrite (hw_size _ _ _ _ Hwf); lia | lia | off | lia].
  - replace ((0 <=? j) && (j <? n)) with false by lia. by rewrite decide_False by lia.
Qed.
End overwrite.

(** [delete]: the slot's length becomes the sentinel. *)
Section kill.
Context (d : list byte) (n f nx i : Z) (Hwf : hp_wf d n f nx) (Hi : 0 <= i < n).
Let d' := with_slot i 0 DELETED d.

Lemma kill_ok : write_slot i 0 DELETED d = Ok d'.
Proof using All.
  pose proof (hp_slot_in_page _ _ _ _ i Hwf ltac:(lia)).
  apply write_slot_ok; [apply Hwf | lia | done | lia | off].
Qed.

Lemma kill_field w a : 0 <= a -> a + w <= slot_offset i \/ slot_offset i + 4 <= a -> field w d' a = field w d a.
Proof using All.
  intros. pose proof (hp_slot_in_page _ _ _ _ i Hwf ltac:(lia)).
  apply with_slot_field; try done; [apply Hwf | lia].
Qed.

Lemma kill_slot : field 2 d' (slot_offset i + 2) = DELETED.
Proof using All.
  pose proof (hp_slot_in_page _ _ _ _ i Hwf ltac:(lia)).
  apply with_slot_same; try done; [apply Hwf | lia].
Qed.

Lemma kill_live j a b : live d' n j a b <-> j <> i /\ live d n j a b.
Proof using All.
  unfold live. split.
  - intros (Hj & -> & -> & Hd). destruct (decide (j = i)) as [->|Hne]; [by rewrite kill_slot in Hd|].
    rewrite !kill_field in * by off. done.
  - intros (Hne & Hj & -> & -> & Hd). rewrite !kill_field by off. done.
Qed.

Lemma kill_wf : hp_wf d' n f nx.
Proof using All.
  pose proof Hwf as [Hs Hn Hf Hx Hd Hlv Hdj].
  pose proof (hp_slot_in_page _ _ _ _ i Hwf ltac:(lia)). constructor.
  - apply blen_with_slot; [done | lia | done].
  - rewrite kill_field; off.
  - rewrite kill_field; off.
  - rewrite kill_field; off.
  - done.
  - intros j a b [_ Hj]%kill_live. by apply Hlv with j.
  - intros j k a b a' b' [_ Hj]%kill_live [_ Hk]%kill_live. by apply Hdj.
Qed.

Lemma kill_tuple j : slot_tuple d' n j = if decide (j = i) then None else slot_tuple d n j.
Proof using All.
  unfold slot_tuple. destruct (decide (0 <= j < n)) as [Hj|Hj].
  - replace ((0 <=? j) && (j <? n)) with true by lia. case_decide as E.
    + subst j. rewrite kill_slot. done.
    + rewrite !kill_field by off.
      destruct (Z.eqb_spec (field 2 d (slot_offset j + 2)) DELETED) as [|Hjd]; [done|]. f_equal.
      assert (live d n j (field 2 d (slot_offset j)) (field 2 d (slot_offset j + 2))) as Hlj by done.
      pose proof (hw_live _ _ _ _ Hwf _ _ _ Hlj). pose proof (hw_dir _ _ _ _ Hwf).
      pose proof (hp_slot_in_page _ _ _ _ i Hwf ltac:(lia)).
      apply with_slot_slice; [apply Hwf | lia | done | off | off].
  - replace ((0 <=? j) && (j <? n)) with false by lia. by case_decide.
Qed.
End kill.

(** A freshly formatted page is empty. *)
Lemma init_heap_page_ok d : blen d = PAGE_SIZE ->
  exists d', init_heap_page d = Ok d' /\ hp_wf d' 0 PAGE_SIZE INVALID_PAGE_ID.
Proof.
  intros Hs. exists (with_header 1 0 PAGE_SIZE INVALID_PAGE_ID d).
  split; [apply write_header_ok; done|].
  destruct (with_header_fields 1 0 PAGE_SIZE INVALID_PAGE_ID d) as (_ & E1 & E2 & E3); try done.
  constructor; try done.
  - by apply blen_with_header.
  - intros i o l (Hi & _). lia.
  - intros i j o l o' l' (Hi & _). lia.
Qed.

(** Relinking a page changes its next pointer only. *)
Lemma relink_ok d n f nx nx' : hp_wf d n f nx -> 0 <= nx' < 2 ^ 32 ->
  exists d', write_header (PageType_code HEAP) n f nx' d = Ok d' /\ hp_wf d' n f nx' /\
    forall j, slot_tuple d' n j = slot_tuple d n j.
Proof.
  intros Hwf Hx. pose proof Hwf as [Hs Hn Hf Hnx Hd Hlv Hdj].
  pose proof (field_bound 2 d 1 ltac:(lia) ltac:(lia) ltac:(off)) as Bn. rewrite Hn in Bn.
  pose proof (field_bound 2 d 3 ltac:(lia) ltac:(lia) ltac:(off)) as Bf. rewrite Hf in Bf.
  change (256 ^ 2) with 65536 in *.
  exists (with_header 1 n f nx' d). split; [apply write_header_ok; done|].
  destruct (with_header_fields 1 n f nx' d) as (_ & E1 & E2 & E3); try done.
  assert (forall w a, 9 <= a -> field w (with_header 1 n f nx' d) a = field w d a) as Ef
    by (intros; unfold field; f_equal; by apply with_header_slice).
  assert (forall j o l, live (with_header 1 n f nx' d) n j o l <-> live d n j o l) as El.
  { intros j o l. unfold live. split; intros (Hj & H); rewrite !Ef in * by off; done. }
  split.
  - constructor; try done.
    + by apply blen_with_header.
    + intros j o l Hj. apply Hlv with j. by apply El.
    + intros i j o l o' l' Hi Hj. apply Hdj; by apply El.
  - intros j. unfold slot_tuple. destruct (decide (0 <= j < n)) as [Hj|Hj].
    + replace ((0 <=? j) && (j <? n)) with true by lia. rewrite !Ef by off.
      destruct (Z.eqb_spec (field 2 d (slot_offset j + 2)) DELETED) as [|Hjd]; [done|]. f_equal.
      assert (live d n j (field 2 d (slot_offset j)) (field 2 d (slot_offset j + 2))) as Hlj by done.
      pose proof (Hlv _ _ _ Hlj). apply with_header_slice; [done | off].
    + by replace ((0 <=? j) && (j <? n)) with false by lia.
Qed.
