(* ===== verification/HeapFile.v ===== *)
(** The heap file ([src/minirel/storage/heap_file.py], class [HeapFile]): a
    chain of slotted pages over a page store. A HeapFile object is its two
    page ids; the operations that change them run on the store together with
    the object, the others on the store alone. A [scan] generator is modelled
    by the fold its consumer runs: [body] is executed at each [yield], with the
    page still pinned. Loops carry fuel: one unit per page of the file. *)
From stdpp Require Import base numbers list gmap.
From Stdlib Require Import ZArith Lia Strings.Byte.
From S2P Require Import Prelude PyNum Disk PageStore HeapPage.

Local Open Scope Z_scope.

(** * Definitions *)

Record HeapFile : Set := mkHeap { first_page_id : Z; last_page_id : Z }.

Section heap.
Context {S H : Type} `{PageStore S H}.

Fixpoint find_last_page_from (fuel : nat) (page_id : Z) (seen : gset Z) : M S Z :=
  match fuel with
  | O => raise Diverges
  | Datatypes.S fuel' =>
      data ← ps_fetch page_id;
      d ← ps_get data;
      hdr ← lift_result (read_header d);
      ps_unpin page_id false;;
      let next_page := snd hdr in
      if next_page =? INVALID_PAGE_ID then mret page_id
      else if bool_decide (next_page ∈ seen) then raise ValueError
      else find_last_page_from fuel' next_page ({[next_page]} ∪ seen)
  end.

Definition find_last_page (first : Z) : M S Z :=
  n ← gets ps_count;
  find_last_page_from (Z.to_nat n + 2) first {[first]}.

Definition heap_init (first : option Z) : M S HeapFile :=
  first_page_id ←
    match first with
    | Some p => mret p
    | None =>
        r ← ps_new;
        ps_update (snd r) init_heap_page;;
        ps_unpin (fst r) true;;
        mret (fst r)
    end;
  last ← find_last_page first_page_id;
  mret (mkHeap first_page_id last).

(** The first deleted slot of [range(i, i + k)], if any. *)
Fixpoint find_deleted (d : list byte) (i : Z) (k : nat) : result (option Z) :=
  match k with
  | O => Ok None
  | Datatypes.S k' =>
      slot ← read_slot d i;
      if snd slot =? DELETED then Ok (Some i) else find_deleted d (i + 1) k'
  end.

Fixpoint heap_insert_from (fuel : nat) (row : list byte) : M (S * HeapFile) RID :=
  match fuel with
  | O => raise Diverges
  | Datatypes.S fuel' =>
      let length := blen row in
      if PAGE_SIZE <? HEADER_SIZE + SLOT_SIZE + length then raise ValueError else
      page_id ← gets (fun st => last_page_id (snd st));
      data ← lift_fst (ps_fetch page_id);
      try_finally
        (d ← lift_fst (ps_get data);
         hdr ← lift_result (read_header d);
         let '(_, num_slots, free_ptr, next_page) := hdr in
         reuse_index ← lift_result (find_deleted d 0 (Z.to_nat num_slots));
         let needed_slot_bytes := match reuse_index with Some _ => 0 | None => SLOT_SIZE end in
         let available := free_ptr - slot_offset num_slots - needed_slot_bytes in
         if available <? length then
           new ← lift_fst ps_new;
           lift_fst (ps_update (snd new) init_heap_page);;
           lift_fst (ps_unpin (fst new) true);;
           lift_fst (ps_update data (write_header (PageType_code HEAP) num_slots free_ptr (fst new)));;
           lift_fst (ps_unpin page_id true);;
           modify (fun st => (fst st, mkHeap (first_page_id (snd st)) (fst new)));;
           heap_insert_from fuel' row
         else
           let new_free_ptr := free_ptr - length in
           lift_fst (ps_update data (fun d => Ok (slice_set d new_free_ptr (new_free_ptr + length) row)));;
           let index := match reuse_index with Some i => i | None => num_slots end in
           lift_fst (ps_update data (write_slot index new_free_ptr length));;
           let new_num_slots := match reuse_index with Some _ => num_slots | None => num_slots + 1 end in
           lift_fst (ps_update data (write_header (PageType_code HEAP) new_num_slots new_free_ptr next_page));;
           mret (mkRID page_id index))
        (lift_fst (ps_unpin page_id true))
  end.

(** A new page takes any row that passes the size check: two rounds are enough. *)
Definition heap_insert (row : list byte) : M (S * HeapFile) RID := heap_insert_from 2 row.

Definition heap_get (rid : RID) : M S (option (list byte)) :=
  data ← ps_fetch (page_id rid);
  try_finally
    (d ← ps_get data;
     hdr ← lift_result (read_header d);
     let '(_, num_slots, _, _) := hdr in
     if num_slots <=? slot_id rid then mret None else
     slot ← lift_result (read_slot d (slot_id rid));
     if snd slot =? DELETED then mret None
     else mret (Some (d.[fst slot : fst slot + snd slot])))
    (ps_unpin (page_id rid) false).

Definition update_in_place (rid : RID) (new_bytes : list byte) : M S bool :=
  data ← ps_fetch (page_id rid);
  try_finally
    (d ← ps_get data;
     hdr ← lift_result (read_header d);
     let '(_, num_slots, _, _) := hdr in
     if num_slots <=? slot_id rid then mret false else
     slot ← lift_result (read_slot d (slot_id rid));
     if (snd slot =? DELETED) || negb (snd slot =? blen new_bytes) then mret false
     else
       ps_update data (fun d => Ok (slice_set d (fst slot) (fst slot + snd slot) new_bytes));;
       mret true)
    (ps_unpin (page_id rid) true).

Definition heap_delete (rid : RID) : M S bool :=
  data ← ps_fetch (page_id rid);
  try_finally
    (d ← ps_get data;
     hdr ← lift_result (read_header d);
     let '(_, num_slots, _, _) := hdr in
     if num_slots <=? slot_id rid then mret false else
     slot ← lift_result (read_slot d (slot_id rid));
     if snd slot =? DELETED then mret false
     else ps_update data (write_slot (slot_id rid) 0 DELETED);; mret true)
    (ps_unpin (page_id rid) true).

Section scan.
Context {A : Type} (body : A -> RID -> list byte -> M S A).

Fixpoint scan_slots (data : H) (page_id i : Z) (k : nat) (acc : A) : M S A :=
  match k with
  | O => mret acc
  | Datatypes.S k' =>
      d ← ps_get data;
      slot ← lift_result (read_slot d i);
      acc' ← (if snd slot =? DELETED then mret acc
              else body acc (mkRID page_id i) (d.[fst slot : fst slot + snd slot]));
      scan_slots data page_id (i + 1) k' acc'
  end.

Fixpoint scan_pages (fuel : nat) (page_id : Z) (acc : A) : M S A :=
  if page_id =? INVALID_PAGE_ID then mret acc else
  match fuel with
  | O => raise Diverges
  | Datatypes.S fuel' =>
      data ← ps_fetch page_id;
      d ← ps_get data;
      hdr ← lift_result (read_header d);
      let '(_, num_slots, _, next_page) := hdr in
      acc' ← scan_slots data page_id 0 (Z.to_nat num_slots) acc;
      ps_unpin page_id false;;
      scan_pages fuel' next_page acc'
  end.

Definition scan_fold (hf : HeapFile) (acc : A) : M S A :=
  n ← gets ps_count; scan_pages (Z.to_nat n) (first_page_id hf) acc.
End scan.

(** [list(heap.scan())] *)
Definition heap_scan (hf : HeapFile) : M S (list (RID * list byte)) :=
  scan_fold (fun acc rid raw => mret (acc ++ [(rid, raw)])) hf [].

End heap.

(** ** The heap a view of the store represents *)

(** The pages of a chain, in order; the last one's next pointer is the sentinel. *)
Inductive chain (v : gmap Z (list byte)) : list Z -> Prop :=
| chain_last p d n f :
    v !! p = Some d -> hp_wf d n f INVALID_PAGE_ID -> chain v [p]
| chain_link p q ps d n f :
    v !! p = Some d -> hp_wf d n f q -> chain v (q :: ps) -> chain v (p :: q :: ps).

Record heap_ok (v : gmap Z (list byte)) (hf : HeapFile) (ps : list Z) : Prop := {
  ho_chain : chain v ps;
  ho_nodup : NoDup ps;
  ho_ids : INVALID_PAGE_ID ∉ ps;
  ho_first : head ps = Some (first_page_id hf);
  ho_last : last ps = Some (last_page_id hf) }.

(** The tuple stored under a row id. *)
Definition heap_tuple (v : gmap Z (list byte)) (ps : list Z) (rid : RID) : option (list byte) :=
  if bool_decide (page_id rid ∈ ps) then
    d ← v !! page_id rid; slot_tuple d (field 2 d 1) (slot_id rid)
  else None.

(** All live tuples, in scan order. *)
Fixpoint slot_rows (d : list byte) (p i : Z) (k : nat) : list (RID * list byte) :=
  match k with
  | O => []
  | Datatypes.S k' =>
      match slot_tuple d (field 2 d 1) i with
      | Some t => (mkRID p i, t) :: slot_rows d p (i + 1) k'
      | None => slot_rows d p (i + 1) k'
      end
  end.
Definition page_rows (v : gmap Z (list byte)) (p : Z) : list (RID * list byte) :=
  match v !! p with Some d => slot_rows d p 0 (Z.to_nat (field 2 d 1)) | None => [] end.
Definition heap_rows (v : gmap Z (list byte)) (ps : list Z) : list (RID * list byte) :=
  ps ≫= page_rows v.
