(* ===== verification/HeapFileProps.v ===== *)
(** What the heap file guarantees, over any page store that satisfies
    [PageStoreSpec] and hence over the buffer pool. *)
From stdpp Require Import base numbers list gmap.
From Stdlib Require Import ZArith Lia Strings.Byte.
From S2P Require Import Prelude PyNum Disk PageStore BufferPool HeapPage HeapFile.

Local Open Scope Z_scope.

(** * Chains *)

Lemma chain_in v ps p : chain v ps -> p ∈ ps -> exists d n f nx, v !! p = Some d /\ hp_wf d n f nx.
Proof.
  induction 1; intros Hp.
  - apply list_elem_of_singleton in Hp as ->. eauto 6.
  - apply elem_of_cons in Hp as [->|Hp]; [eauto 6 | auto].
Qed.

Lemma chain_map v v' ps :
  (forall p d n f nx, p ∈ ps -> v !! p = Some d -> hp_wf d n f nx ->
     exists d' n' f', v' !! p = Some d' /\ hp_wf d' n' f' nx) ->
  chain v ps -> chain v' ps.
Proof.
  intros Hv Hc. induction Hc as [p d n f Hd Hw | p q ps d n f Hd Hw Hc IH].
  - destruct (Hv p d n f _ ltac:(set_solver) Hd Hw) as (d' & n' & f' & H1 & H2). by econstructor.
  - destruct (Hv p d n f _ ltac:(set_solver) Hd Hw) as (d' & n' & f' & H1 & H2).
    eapply chain_link; eauto. apply IH. intros. eapply Hv; eauto. set_solver.
Qed.

(** Linking a new page behind the last one. *)
Lemma chain_extend v v' ps p q d n f dq nq fq :
  chain v (ps ++ [p]) -> (forall r, r ∈ ps -> v' !! r = v !! r) ->
  v' !! p = Some d -> hp_wf d n f q ->
  v' !! q = Some dq -> hp_wf dq nq fq INVALID_PAGE_ID -> chain v' (ps ++ [p; q]).
Proof.
  intros Hc Hv Hp Hwp Hq Hwq. induction ps as [|a ps IH]; simpl in *.
  - eapply chain_link; eauto. by econstructor.
  - destruct (ps ++ [p]) as [|b l] eqn:E; [by destruct ps|].
    inversion Hc as [|? ? ? da na fa Ha Hwa Hc']; subst.
    assert (chain v' (ps ++ [p; q])) as Hc2 by (apply IH; [done | set_solver]).
    assert (exists l', ps ++ [p; q] = b :: l') as [l' El].
    { destruct ps as [|c ps]; simpl in E; injection E as -> E; simpl; eauto. }
    rewrite El in *. eapply chain_link; [rewrite Hv by set_solver; exact Ha | exact Hwa | exact Hc2].
Qed.

Lemma hp_wf_unique d n f nx n' f' nx' : hp_wf d n f nx -> hp_wf d n' f' nx' -> n = n' /\ f = f' /\ nx = nx'.
Proof. intros [] []. split_and!; congruence. Qed.

Lemma hp_next_range d n f nx : hp_wf d n f nx -> 0 <= nx < 2 ^ 32.
Proof.
  intros [Hs _ _ <- _ _ _]. pose proof (field_bound 4 d 5 ltac:(lia) ltac:(lia) ltac:(off)) as B. exact B.
Qed.

Lemma hp_num_range d n f nx : hp_wf d n f nx -> 0 <= n.
Proof.
  intros [Hs <- _ _ _ _ _]. pose proof (field_bound 2 d 1 ltac:(lia) ltac:(lia) ltac:(off)). lia.
Qed.

(** * The search for a deleted slot *)

Lemma find_deleted_spec d n f nx : hp_wf d n f nx ->
  forall k i, 0 <= i -> i + Z.of_nat k = n ->
  exists r, find_deleted d i k = Ok r /\
    match r with
    | Some j => i <= j < n /\ field 2 d (slot_offset j + 2) = DELETED
    | None => forall j, i <= j < n -> field 2 d (slot_offset j + 2) <> DELETED
    end.
Proof.
  intros Hwf. induction k as [|k IH]; intros i Hi Hk.
  - exists None. split; [done|]. intros j Hj. lia.
  - cbn [find_deleted].
    rewrite (read_slot_ok d i) by (apply Hwf || lia || (eapply hp_slot_in_page; [done | lia])).
    unfold mbind, result_bind. cbn [snd].
    destruct (Z.eqb_spec (field 2 d (slot_offset i + 2)) DELETED) as [E|E].
    + exists (Some i). split; [done|]. split; [lia | done].
    + destruct (IH (i + 1)) as (r & Hr & Hspec); [lia | lia |]. exists r. split; [done|].
      destruct r as [j|]; [intuition lia|]. intros j Hj. destruct (decide (j = i)) as [->|Hne]; [done|].
      apply Hspec. lia.
Qed.

Lemma slot_tuple_deleted d n i : field 2 d (slot_offset i + 2) = DELETED -> slot_tuple d n i = None.
Proof. intros H. unfold slot_tuple. rewrite H, Z.eqb_refl. by destruct (_ && _). Qed.

Lemma slot_tuple_out d n i : n <= i -> slot_tuple d n i = None.
Proof. intros H. unfold slot_tuple. by replace ((0 <=? i) && (i <? n)) with false by lia. Qed.

(** * Changing one page of a heap *)

Lemma heap_tuple_at v ps p i d n f nx : p ∈ ps -> v !! p = Some d -> hp_wf d n f nx ->
  heap_tuple v ps (mkRID p i) = slot_tuple d n i.
Proof.
  intros Hp Hd Hwf. unfold heap_tuple. cbn [page_id slot_id]. rewrite bool_decide_eq_true_2 by done.
  rewrite Hd. cbn. by rewrite (hw_num _ _ _ _ Hwf).
Qed.

Lemma heap_tuple_page v v' ps ps' r : v' !! page_id r = v !! page_id r -> (page_id r ∈ ps' <-> page_id r ∈ ps) ->
  heap_tuple v' ps' r = heap_tuple v ps r.
Proof. intros Hv Hp. unfold heap_tuple. by rewrite Hv, (bool_decide_ext _ _ Hp). Qed.

Section change.
Context (v : gmap Z (list byte)) (hf : HeapFile) (ps : list Z) (Hok : heap_ok v hf ps).
Context (p : Z) (d : list byte) (n f nx : Z) (Hp : p ∈ ps) (Hd : v !! p = Some d) (Hwf : hp_wf d n f nx).
Context (d' : list byte) (n' f' : Z) (Hwf' : hp_wf d' n' f' nx).

Lemma change_ok : heap_ok (<[p := d']> v) hf ps.
Proof using All.
  destruct Hok as [Hc ? ? ? ?]. constructor; try done. eapply chain_map; [| exact Hc].
  intros q dq nq fq nxq Hq Hdq Hwq. destruct (decide (p = q)) as [<-|Hne].
  - rewrite Hd in Hdq. injection Hdq as <-. destruct (hp_wf_unique _ _ _ _ _ _ _ Hwf Hwq) as (_ & _ & <-).
    exists d', n', f'. by rewrite lookup_insert_eq.
  - exists dq, nq, fq. by rewrite lookup_insert_ne.
Qed.

Lemma change_tuple i x :
  (forall j, slot_tuple d' n' j = if decide (j = i) then x else slot_tuple d n j) ->
  forall r, heap_tuple (<[p := d']> v) ps r = if decide (r = mkRID p i) then x else heap_tuple v ps r.
Proof using All.
  intros Hx [q j]. destruct (decide (p = q)) as [<-|Hne].
  - rewrite (heap_tuple_at _ _ p j d' n' f' nx), Hx; [| done | by rewrite lookup_insert_eq | done].
    rewrite (heap_tuple_at v ps p j d n f nx) by done. case_decide as E1; case_decide as E2; naive_solver.
  - rewrite decide_False by naive_solver. apply heap_tuple_page; [by apply lookup_insert_ne | done].
Qed.
End change.

Lemma chain_last_wf v ps p : chain v (ps ++ [p]) ->
  exists d n f, v !! p = Some d /\ hp_wf d n f INVALID_PAGE_ID.
Proof.
  induction ps as [|a ps IH]; intros Hc; inversion Hc as [? d n f Hd Hw | ? b l ? ? ? ? ? Hc']; subst; eauto.
  - by destruct ps.
  - match goal with E : _ = ps ++ [p] |- _ => rewrite E in Hc' end. auto.
Qed.

Lemma heap_ok_last v hf ps : heap_ok v hf ps ->
  exists ps0 d n f, ps = ps0 ++ [last_page_id hf] /\ v !! last_page_id hf = Some d /\ hp_wf d n f INVALID_PAGE_ID.
Proof.
  intros [Hc _ _ _ Hl]. apply last_Some in Hl as [ps0 ->].
  destruct (chain_last_wf _ _ _ Hc) as (d & n & f & Hd & Hwf). by exists ps0, d, n, f.
Qed.

(** The last page is relinked to a new, empty one. *)
Section extend.
Context (v v' : gmap Z (list byte)) (hf : HeapFile) (ps : list Z) (Hok : heap_ok v hf ps).
Context (q : Z) (d d' dq : list byte) (n f : Z).
Let p := last_page_id hf.
Context (Hd : v !! p = Some d) (Hwf : hp_wf d n f INVALID_PAGE_ID) (Hwf' : hp_wf d' n f q).
Context (Hsame : forall j, slot_tuple d' n j = slot_tuple d n j).
Context (Hq : q ∉ ps) (Hqi : q <> INVALID_PAGE_ID) (Hwq : hp_wf dq 0 PAGE_SIZE INVALID_PAGE_ID).
Context (Hv : v' = <[p := d']> (<[q := dq]> v)).

Lemma extend_ok : heap_ok v' (mkHeap (first_page_id hf) q) (ps ++ [q]).
Proof using All.
  destruct (heap_ok_last _ _ _ Hok) as (ps0 & _ & _ & _ & Eps & _). fold p in Eps.
  destruct Hok as [Hc Hnd Hids Hf Hl]. constructor.
  - rewrite Eps in *. rewrite <- (app_assoc ps0 [p] [q]).
    eapply (chain_extend v v' ps0 p q d' n f dq 0 PAGE_SIZE); try done.
    + intros r Hr. rewrite Hv. apply NoDup_app in Hnd as (_ & Hnd & _).
      rewrite !lookup_insert_ne; [done | set_solver | set_solver].
    + rewrite Hv. apply lookup_insert_eq.
    + rewrite Hv. rewrite lookup_insert_ne by set_solver. apply lookup_insert_eq.
  - apply NoDup_app. split_and!; [done | set_solver | apply NoDup_singleton].
  - set_solver.
  - by destruct ps.
  - by rewrite last_snoc.
Qed.

Lemma extend_tuple r : heap_tuple v' (ps ++ [q]) r = heap_tuple v ps r.
Proof using All.
  destruct (heap_ok_last _ _ _ Hok) as (ps0 & _ & _ & _ & Eps & _). fold p in Eps.
  assert (p ∈ ps) as Hp by set_solver. assert (p <> q) as Hpq by (intros ->; done).
  destruct r as [a j]. destruct (decide (a = p)) as [->|Hap].
  - rewrite (heap_tuple_at v' _ p j d' n f q), (heap_tuple_at v _ p j d n f INVALID_PAGE_ID); try done.
    + set_solver.
    + rewrite Hv. apply lookup_insert_eq.
  - destruct (decide (a = q)) as [->|Haq].
    + rewrite (heap_tuple_at v' _ q j dq 0 PAGE_SIZE INVALID_PAGE_ID); try done; [| set_solver |].
      * unfold heap_tuple. cbn [page_id]. rewrite bool_decide_eq_false_2 by done.
        unfold slot_tuple. by replace ((0 <=? j) && (j <? 0)) with false by lia.
      * rewrite Hv. rewrite lookup_insert_ne by done. apply lookup_insert_eq.
    + apply heap_tuple_page; cbn [page_id]; [| set_solver]. rewrite Hv. by rewrite !lookup_insert_ne by done.
Qed.
End extend.

Lemma chain_length {S H : Type} {store : PageStore S H} {core : PageStoreCore S H} (s : S) ps : ps_inv s -> chain (ps_view s) ps -> NoDup ps -> (length ps <= Z.to_nat (ps_count s))%nat.
Proof.
  intros Hinv Hc Hnd.
  assert (list_to_set ps ⊆ (list_to_set (seqZ 0 (ps_count s)) : gset Z)) as Hsub.
  { intros p Hp%elem_of_list_to_set. destruct (chain_in _ _ p Hc Hp) as (d & _ & _ & _ & Hd & _).
    apply elem_of_list_to_set, elem_of_seqZ. assert (0 <= p < ps_count s) by (apply ps_view_dom; eauto). lia. }
  apply subseteq_size in Hsub. rewrite !size_list_to_set in Hsub by (done || apply NoDup_seqZ).
  rewrite length_seqZ in Hsub. lia.
Qed.

Section props.
Context {S H : Type} {store : PageStore S H} {spec : PageStoreSpec S H}.

(** * Finding the last page *)

Lemma find_last_page_from_ok fuel p ps seen s :
  room s (p :: ps) 1 -> chain (ps_view s) (p :: ps) -> NoDup (p :: ps) -> INVALID_PAGE_ID ∉ p :: ps ->
  (forall q, q ∈ ps -> q ∉ seen) -> (length ps < fuel)%nat ->
  runs (find_last_page_from fuel p seen) s (fun r s' => last (p :: ps) = Some r /\ keeps s s').
Proof.
  revert p ps seen s. induction fuel as [|fuel IH]; intros p ps seen s Hr Hc Hnd Hids Hseen Hlen; [lia|].
  destruct (chain_in _ _ p Hc ltac:(set_solver)) as (d & n & f & nx & Hd & Hwf).
  cbn [find_last_page_from]. eapply peek_ok; [apply Hr | exact Hd | by eapply room_size |
    eapply room_clean; [done | set_solver] | by apply (read_header_ok d n f nx) |].
  intros s1 Hk. cbn [snd]. pose proof (room_keeps _ _ _ _ Hr Hk) as Hr1.
  inversion Hc as [p' d' n' f' Hd' Hw' | p' q ps' d' n' f' Hd' Hw' Hc']; subst; simplify_eq.
  - destruct (hp_wf_unique _ _ _ _ _ _ _ Hwf Hw') as (_ & _ & ->). rewrite Z.eqb_refl. by rstep.
  - destruct (hp_wf_unique _ _ _ _ _ _ _ Hwf Hw') as (_ & _ & ->).
    destruct (Z.eqb_spec q INVALID_PAGE_ID) as [->|Hq]; [set_solver|].
    rewrite bool_decide_eq_false_2 by (apply Hseen; set_solver).
    apply NoDup_cons in Hnd as [Hp Hnd].
    eapply runs_mono; [apply (IH q ps')|].
    + eapply room_sub; [exact Hr1 | set_solver | lia].
    + destruct Hk as (_ & V & _). by rewrite V.
    + done.
    + set_solver.
    + intros r Hrin. apply NoDup_cons in Hnd as [Hqn _]. pose proof (Hseen r ltac:(set_solver)). set_solver.
    + simpl in Hlen. lia.
    + intros r s2 [Hl Hk2]. split; [by rewrite last_cons_cons | by eapply keeps_trans].
Qed.

(** Every page of a chain is a page of the file, so a chain is no longer than it. *)
(** Opening a table's heap on a well-formed chain of any length finds its
    last page, whatever pages are cached, and changes nothing. *)
Theorem heap_open_ok s p ps :
  room s (p :: ps) 1 -> chain (ps_view s) (p :: ps) -> NoDup (p :: ps) -> INVALID_PAGE_ID ∉ p :: ps ->
  exists hf s', heap_init (Some p) s = (Ok hf, s') /\ heap_ok (ps_view s') hf (p :: ps) /\ keeps s s'.
Proof.
  intros Hr Hc Hnd Hids.
  assert (runs (heap_init (Some p)) s (fun hf s' => heap_ok (ps_view s') hf (p :: ps) /\ keeps s s')) as
    (hf & s' & He & Hq).
  { unfold heap_init. rstep. cbv iota. rstep. rstep. unfold find_last_page. rstep. rstep.
    eapply runs_mono; [apply (find_last_page_from_ok _ p ps)|]; try done.
    - intros q Hq ->%elem_of_singleton. by apply NoDup_cons in Hnd as [Hn _].
    - pose proof (chain_length s (p :: ps) ltac:(apply Hr) Hc Hnd). simpl in *. lia.
    - intros r s' [Hl Hk]. rstep. split; [| done]. destruct Hk as (_ & V & _). rewrite V.
      constructor; try done. }
  eauto.
Qed.

(** ** Termination on any contents *)

(** A page that exists, whatever it contains, or one that does not. *)
Lemma find_last_page_from_returns fuel p seen s :
  room s [] 1 -> (forall q, ps_clean s q) -> p ∈ seen ->
  (forall q, q ∈ seen -> q = p \/ 0 <= q < ps_count s) ->
  (Z.to_nat (ps_count s) + 2 <= fuel + size seen)%nat ->
  (exists r s', find_last_page_from fuel p seen s = (Ok r, s')) \/
  (exists s', find_last_page_from fuel p seen s = (Raise ValueError, s')).
Proof.
  revert p seen s. induction fuel as [|fuel IH]; intros p seen s Hr Hcl Hp Hseen Hfuel.
  { exfalso. assert (seen ⊆ {[p]} ∪ (list_to_set (seqZ 0 (ps_count s)) : gset Z)) as Hsub.
    { intros q Hq. apply elem_of_union. destruct (Hseen q Hq) as [->|Hq']; [left; set_solver | right].
      apply elem_of_list_to_set, elem_of_seqZ. lia. }
    apply subseteq_size in Hsub. rewrite size_union_alt, size_singleton in Hsub.
    pose proof (subseteq_size (list_to_set (seqZ 0 (ps_count s)) ∖ {[p]}) (list_to_set (seqZ 0 (ps_count s)) : gset Z)
      ltac:(set_solver)) as H2.
    rewrite (size_list_to_set (seqZ 0 (ps_count s))), length_seqZ in H2 by apply NoDup_seqZ. lia. }
  pose proof Hr as (Hinv & _ & _). pose proof (room_size _ _ _ Hr ltac:(lia)) as Hcap.
  cbn [find_last_page_from]. destruct (ps_view s !! p) as [d|] eqn:Hd.
  2: { right. destruct (ps_fetch_missing s p Hinv Hd Hcap) as [s' E]. exists s'. by rewrite (bind_raise _ _ _ _ _ E). }
  destruct (ps_fetch_ok s p Hinv ltac:(eauto) ltac:(auto)) as (h & s1 & E1 & I1 & V1 & P1 & C1 & N1 & Ho & _ & CL1).
  rewrite (bind_ok _ _ _ _ _ E1). destruct (ps_get_ok s1 h p I1 Ho) as (d0 & Hg & Hd0).
  rewrite V1, Hd in Hd0. injection Hd0 as <-. rewrite (bind_ok _ _ _ _ _ Hg).
  unfold read_header. rewrite (ps_view_size s p d Hinv Hd). change (HEADER_SIZE <=? PAGE_SIZE) with true. cbv iota.
  rewrite bind_lift_ok. destruct (ps_unpin_ok s1 p false I1 ltac:(auto)) as ([] & s2 & E2 & I2 & V2 & P2 & C2 & N2 & _ & CL2).
  rewrite (bind_ok _ _ _ _ _ E2). cbn [snd].
  destruct (_ =? INVALID_PAGE_ID); [left; by eexists _, _|].
  case_bool_decide as Hin; [right; by eexists|].
  assert (0 <= p < ps_count s) as Hpr by (apply ps_view_dom; eauto).
  apply IH.
  - split_and!; [done | | intros q Hq; by apply not_elem_of_nil in Hq].
    rewrite P2, P1, C2, C1, pins_dec_inc by done. lia.
  - auto.
  - set_solver.
  - intros q [->%elem_of_singleton|Hq]%elem_of_union; [by left | right].
    destruct (Hseen q Hq) as [->|]; lia.
  - rewrite N2, N1, size_union, size_singleton by set_solver. lia.
Qed.

(** C30: opening a heap terminates on any contents of the data file, corrupt or
    never initialised pages included: it returns, or raises ValueError for a
    chain that cycles or leaves the file. *)
Theorem heap_open_terminates s p :
  room s [] 1 -> (forall q, ps_clean s q) ->
  (exists hf s', heap_init (Some p) s = (Ok hf, s')) \/ (exists s', heap_init (Some p) s = (Raise ValueError, s')).
Proof.
  intros Hr Hcl. unfold heap_init. rewrite bind_mret. unfold find_last_page.
  destruct (find_last_page_from_returns (Z.to_nat (ps_count s) + 2) p {[p]} s) as [(r & s' & E)|(s' & E)];
    try done; [set_solver | set_solver | lia | left | right].
  - exists (mkHeap p r), s'. erewrite bind_ok; [reflexivity |]. by rewrite bind_gets.
  - exists s'. erewrite bind_raise; [reflexivity |]. by rewrite bind_gets.
Qed.

(** Creating a heap allocates one page and leaves an empty, well-formed
    heap in it; no other page changes. *)
Theorem heap_create_ok s :
  room s [] 1 -> ps_count s < INVALID_PAGE_ID ->
  exists hf s', heap_init None s = (Ok hf, s') /\ heap_ok (ps_view s') hf [ps_count s] /\
    heap_rows (ps_view s') [ps_count s] = [] /\ ps_inv s' /\ ps_pins s' = ps_pins s /\ ps_cap s' = ps_cap s /\
    (forall q, q <> ps_count s -> ps_view s' !! q = ps_view s !! q) /\ ps_count s' = ps_count s + 1.
Proof.
  intros (Hinv & Hcap & _) Hcount. set (q := ps_count s) in *.
  assert (ps_pins s !! q = None) as Hun.
  { apply eq_None_not_Some. intros Hs. apply ps_pins_dom in Hs; [| done]. apply ps_view_dom in Hs; [unfold q in *; lia | done]. }
  unfold heap_init. apply (runs_bind _ _ s (fun hf s' => _)). cbv iota. rstep.
  eapply runs_mono; [apply ps_new_ok; [done | lia]|].
  intros [q' h'] s2 (Eq & _ & I2 & V2 & P2 & C2 & N2 & Hh2 & _). cbn [fst snd] in *. subst q'. fold q in V2, P2, N2, Hh2.
  destruct (init_heap_page_ok (zeros PAGE_SIZE) eq_refl) as (dq & Edq & Hwq).
  rstep. eapply runs_mono; [eapply (ps_update_ok s2 h' q); [done | done | by rewrite V2, lookup_insert_eq |
    exact Edq | apply Hwq]|].
  intros _ s3 (I3 & V3 & P3 & C3 & N3 & H3 & _). rstep. fold q.
  eapply runs_mono; [apply ps_unpin_ok; auto|]. intros _ s4 (I4 & V4 & P4 & C4 & N4 & H4 & _).
  assert (ps_pins s4 = ps_pins s) as P4' by (by rewrite P4, P3, P2, pins_dec_inc).
  assert (ps_view s4 = <[q := dq]> (ps_view s)) as V4' by (by rewrite V4, V3, V2, insert_insert_eq).
  assert (chain (ps_view s4) [q]) as Hc by (econstructor; [rewrite V4'; apply lookup_insert_eq | exact Hwq]).
  rstep. rstep. unfold find_last_page. rstep. rstep.
  eapply runs_mono; [apply (find_last_page_from_ok _ q [] _ s4)|].
  - split_and!; [done | rewrite P4'; lia | intros r ->%list_elem_of_singleton; by rewrite P4'].
  - done.
  - apply NoDup_singleton.
  - intros E%list_elem_of_singleton. lia.
  - set_solver.
  - simpl. lia.
  - intros r s5 [[= <-] (I5 & V5 & P5 & C5 & N5)]. rstep. rewrite V5. split_and!; try done; try congruence.
    + constructor; try done; [apply NoDup_singleton | intros E%list_elem_of_singleton; lia].
    + unfold heap_rows. cbn. rewrite app_nil_r. unfold page_rows. rewrite V4', lookup_insert_eq.
      by rewrite (hw_num _ _ _ _ Hwq).
    + intros x Hx. rewrite V4'. by apply lookup_insert_ne.
Qed.

(** * Insertion *)

Definition slot_bytes (r : option Z) : Z := match r with Some _ => 0 | None => SLOT_SIZE end.

(** The slot that is used: a deleted one, or a new one behind the directory. *)
Lemma reuse_fits d n f r (row : list byte) :
  0 <= n -> (forall i, r = Some i -> 0 <= i < n /\ field 2 d (slot_offset i + 2) = DELETED) ->
  blen row <= f - slot_offset n - slot_bytes r ->
  0 <= default n r <= n /\ slot_offset (Z.max n (default n r + 1)) <= f - blen row /\
  (default n r < n -> field 2 d (slot_offset (default n r) + 2) = DELETED).
Proof.
  intros Hn Hdel Hfit. destruct r as [i|]; cbn [default id slot_bytes] in *;
    [destruct (Hdel i eq_refl)|]; split_and!; auto; try lia; off.
Qed.

(** What [insert] leaves behind apart from the pages it wrote. *)
Definition unchanged_but (s s' : S) : Prop :=
  ps_inv s' /\ ps_pins s' = ps_pins s /\ ps_cap s' = ps_cap s.

(** The last page has room: one page is changed. *)
Lemma insert_fit_ok fuel row s hf d n f nx r :
  ps_inv s -> Z.of_nat (size (ps_pins s)) < ps_cap s ->
  ps_view s !! last_page_id hf = Some d -> hp_wf d n f nx ->
  find_deleted d 0 (Z.to_nat n) = Ok r -> HEADER_SIZE + SLOT_SIZE + blen row <= PAGE_SIZE ->
  (forall i, r = Some i -> 0 <= i < n /\ field 2 d (slot_offset i + 2) = DELETED) ->
  blen row <= f - slot_offset n - slot_bytes r ->
  runs (heap_insert_from (Datatypes.S fuel) row) (s, hf) (fun rid st =>
    rid = mkRID (last_page_id hf) (default n r) /\ snd st = hf /\ unchanged_but s (fst st) /\
    ps_count (fst st) = ps_count s /\
    ps_view (fst st) = <[last_page_id hf := placed d (Z.max n (default n r + 1)) f nx (default n r) row]> (ps_view s)).
Proof.
  intros Hinv Hcap Hd Hwf Hr Hsz Hdel Hfit. set (p := last_page_id hf) in *. set (idx := default n r).
  pose proof (hp_num_range _ _ _ _ Hwf) as Hn. pose proof (hp_next_range _ _ _ _ Hwf) as Hnx.
  destruct (reuse_fits d n f r row Hn Hdel Hfit) as (Hidx & Hroom & Hdead). fold idx in Hidx, Hroom, Hdead.
  pose proof (place_bounds d n f nx idx row Hwf Hidx Hnx Hroom Hdead) as (B1 & B2 & B3 & B4 & B5 & B6).
  pose proof (place_steps d n f nx idx row Hwf Hidx Hnx Hroom Hdead) as (Es & Eh).
  pose proof (place_d1_size d n f nx idx row Hwf Hidx Hnx Hroom Hdead) as Hs1.
  pose proof (placed_size d n f nx idx row Hwf Hidx Hnx Hroom Hdead) as Hs3.
  cbn [heap_insert_from]. replace (PAGE_SIZE <? HEADER_SIZE + SLOT_SIZE + blen row) with false by lia.
  rstep. rstep. cbn [snd]. fold p. rstep. rstep. eapply runs_mono; [apply ps_fetch_ok; eauto|].
  intros h s1 (I1 & V1 & P1 & C1 & N1 & H1 & _ & _). rstep. rstep. rstep.
  destruct (ps_get_ok s1 h p I1 H1) as (d0 & Hg & Hd0). rewrite V1, Hd in Hd0. injection Hd0 as <-.
  apply (runs_eq _ _ _ _ _ Hg). rstep. eapply runs_lift_result; [by apply read_header_ok|]. cbv beta iota.
  rstep. eapply runs_lift_result; [exact Hr|]. cbv beta zeta. fold (slot_bytes r).
  replace (f - slot_offset n - slot_bytes r <? blen row) with false by lia.
  replace (match r with Some i => i | None => n end) with idx by (unfold idx; by destruct r).
  replace (match r with Some _ => n | None => n + 1 end) with (Z.max n (idx + 1))
    by (unfold idx; destruct r as [i|]; [destruct (Hdel i eq_refl)|]; cbn [default id]; lia).
  rstep. rstep. replace (f - blen row + blen row) with f by lia.
  eapply runs_mono; [eapply (ps_update_ok s1 h p d); try done; by rewrite V1|].
  intros _ s2 (I2 & V2 & P2 & C2 & N2 & H2 & _). rstep. rstep.
  eapply runs_mono; [eapply (ps_update_ok s2 h p); [done | by apply H2 | by rewrite V2, lookup_insert_eq |
    exact Es | apply blen_with_slot; [done | lia | off]]|].
  intros _ s3 (I3 & V3 & P3 & C3 & N3 & H3 & _). rstep. rstep.
  eapply runs_mono; [eapply (ps_update_ok s3 h p); [done | by apply H3, H2 | by rewrite V3, lookup_insert_eq |
    exact Eh | done]|].
  intros _ s4 (I4 & V4 & P4 & C4 & N4 & H4 & _). rstep. rstep.
  eapply runs_mono; [apply ps_unpin_ok; auto|].
  intros _ s5 (I5 & V5 & P5 & C5 & N5 & _). cbn [fst snd]. unfold unchanged_but.
  rewrite P5, P4, P3, P2, P1, pins_dec_inc by done. split_and!; try done; try congruence.
  rewrite V5, V4, V3, V2, V1. by rewrite !insert_insert_eq.
Qed.

(** The last page is full: a new page is linked behind it, and the insertion
    starts over there. The old page is unpinned twice. *)
Lemma insert_full_ok fuel row s hf d n f r (Q : RID -> S * HeapFile -> Prop) :
  let p := last_page_id hf in let q := ps_count s in
  ps_inv s -> Z.of_nat (size (ps_pins s)) + 2 <= ps_cap s ->
  ps_view s !! p = Some d -> hp_wf d n f INVALID_PAGE_ID ->
  find_deleted d 0 (Z.to_nat n) = Ok r -> HEADER_SIZE + SLOT_SIZE + blen row <= PAGE_SIZE ->
  f - slot_offset n - slot_bytes r < blen row -> q < INVALID_PAGE_ID ->
  (forall s' dq d', unchanged_but s s' -> ps_count s' = ps_count s + 1 ->
     hp_wf dq 0 PAGE_SIZE INVALID_PAGE_ID -> hp_wf d' n f q ->
     (forall j, slot_tuple d' n j = slot_tuple d n j) ->
     ps_view s' = <[p := d']> (<[q := dq]> (ps_view s)) ->
     runs (heap_insert_from fuel row) (s', mkHeap (first_page_id hf) q) (fun rid st =>
       ps_inv (fst st) /\
       forall s2, ps_inv s2 -> ps_view s2 = ps_view (fst st) -> ps_pins s2 = pin_dec p (ps_pins (fst st)) ->
         ps_cap s2 = ps_cap (fst st) -> Q rid (s2, snd st))) ->
  runs (heap_insert_from (Datatypes.S fuel) row) (s, hf) Q.
Proof.
  intros p q Hinv Hcap Hd Hwf Hr Hsz Hfull Hq Hk.
  assert (0 <= p < q) as Hpq by (apply ps_view_dom; eauto).
  cbn [heap_insert_from]. replace (PAGE_SIZE <? HEADER_SIZE + SLOT_SIZE + blen row) with false by lia.
  rstep. rstep. cbn [snd]. fold p. rstep. rstep. eapply runs_mono; [apply ps_fetch_ok; eauto; right; lia|].
  intros h s1 (I1 & V1 & P1 & C1 & N1 & H1 & _ & _). rstep. rstep. rstep.
  destruct (ps_get_ok s1 h p I1 H1) as (d0 & Hg & Hd0). rewrite V1, Hd in Hd0. injection Hd0 as <-.
  apply (runs_eq _ _ _ _ _ Hg). rstep. eapply runs_lift_result; [by apply read_header_ok|]. cbv beta iota.
  rstep. eapply runs_lift_result; [exact Hr|]. cbv beta zeta. fold (slot_bytes r).
  replace (f - slot_offset n - slot_bytes r <? blen row) with true by lia.
  rstep. rstep. eapply runs_mono; [apply ps_new_ok; [done|]|].
  { rewrite P1, C1. pose proof (size_pin_inc p (ps_pins s)). lia. }
  intros [q' h'] s2 (Eq & _ & I2 & V2 & P2 & C2 & N2 & Hh2 & H2 & _). cbn [fst snd] in *. subst q'.
  rewrite N1 in *. fold q in V2, P2, Hh2.
  destruct (init_heap_page_ok (zeros PAGE_SIZE) eq_refl) as (dq & Edq & Hwq).
  rstep. rstep. eapply runs_mono; [eapply (ps_update_ok s2 h' q); [done | done | by rewrite V2, lookup_insert_eq |
    exact Edq | apply Hwq]|].
  intros _ s3 (I3 & V3 & P3 & C3 & N3 & H3 & _). rstep. rstep. fold q.
  eapply runs_mono; [apply ps_unpin_ok; auto|]. intros _ s4 (I4 & V4 & P4 & C4 & N4 & H4 & _).
  assert (ps_pins s4 = ps_pins s1) as P4' by (by rewrite P4, P3, P2, pins_dec_inc).
  assert (is_Some (ps_pins s4 !! p)) as Hp4 by (rewrite P4', P1, pin_inc_lookup, decide_True by done; eauto).
  assert (ps_view s4 !! p = Some d) as Hd4.
  { rewrite V4, V3, V2, V1, !lookup_insert_ne by lia. done. }
  destruct (relink_ok d n f INVALID_PAGE_ID q Hwf) as (d' & Ed' & Hwd' & Hsame); [off|].
  rstep. rstep. eapply runs_mono; [eapply (ps_update_ok s4 h p); [done | apply H4; [done|]; auto | exact Hd4 |
    exact Ed' | apply Hwd']|].
  intros _ s5 (I5 & V5 & P5 & C5 & N5 & _). rstep. rstep.
  eapply runs_mono; [apply ps_unpin_ok; auto|]. intros _ s6 (I6 & V6 & P6 & C6 & N6 & _).
  rstep. rstep. cbn [fst snd]. eapply runs_mono; [apply (Hk s6 dq d'); try done|].
  - unfold unchanged_but. rewrite P6, P5, P4', P1, pins_dec_inc by done. split_and!; [done | done | congruence].
  - lia.
  - rewrite V6, V5, V4, V3, V2, V1. by rewrite insert_insert_eq.
  - intros rid [s7 hf7] (I7 & HQ). cbn [fst snd] in *. rstep.
    eapply runs_mono; [apply ps_unpin_ok; auto|]. intros _ s8 (I8 & V8 & P8 & C8 & N8 & _).
    by apply HQ.
Qed.

(** The postcondition of a successful insertion, but for the pins. *)
Definition stored (s : S) (ps : list Z) (row : list byte) (rid : RID) (s' : S) (hf' : HeapFile) (ps' : list Z) : Prop :=
  heap_ok (ps_view s') hf' ps' /\ (ps' = ps \/ ps' = ps ++ [ps_count s]) /\
  heap_tuple (ps_view s) ps rid = None /\
  (forall r, heap_tuple (ps_view s') ps' r = if decide (r = rid) then Some row else heap_tuple (ps_view s) ps r) /\
  (forall q, q ∉ ps' -> ps_view s' !! q = ps_view s !! q).
Definition inserted (s : S) (ps : list Z) (row : list byte) (rid : RID) (s' : S) (hf' : HeapFile) (ps' : list Z) : Prop :=
  stored s ps row rid s' hf' ps' /\ unchanged_but s s'.

Lemma insert_fit_heap fuel row s hf ps d n f r :
  heap_ok (ps_view s) hf ps -> ps_inv s -> Z.of_nat (size (ps_pins s)) < ps_cap s ->
  ps_view s !! last_page_id hf = Some d -> hp_wf d n f INVALID_PAGE_ID ->
  find_deleted d 0 (Z.to_nat n) = Ok r -> HEADER_SIZE + SLOT_SIZE + blen row <= PAGE_SIZE ->
  (forall i, r = Some i -> 0 <= i < n /\ field 2 d (slot_offset i + 2) = DELETED) ->
  blen row <= f - slot_offset n - slot_bytes r ->
  runs (heap_insert_from (Datatypes.S fuel) row) (s, hf) (fun rid st =>
    snd st = hf /\ inserted s ps row rid (fst st) hf ps).
Proof.
  intros Hok Hinv Hcap Hd Hwf Hr Hsz Hdel Hfit. set (p := last_page_id hf) in *. set (idx := default n r).
  pose proof (hp_num_range _ _ _ _ Hwf) as Hn. pose proof (hp_next_range _ _ _ _ Hwf) as Hnx.
  destruct (reuse_fits d n f r row Hn Hdel Hfit) as (Hidx & Hroom & Hdead). fold idx in Hidx, Hroom, Hdead.
  assert (p ∈ ps) as Hp by (destruct (heap_ok_last _ _ _ Hok) as (ps0 & _ & _ & _ & -> & _); set_solver).
  pose proof (placed_wf d n f _ idx row Hwf Hidx Hnx Hroom Hdead) as Hwf'.
  pose proof (placed_tuple d n f _ idx row Hwf Hidx Hnx Hroom Hdead) as Htup.
  eapply runs_mono; [by eapply (insert_fit_ok fuel row s hf d n f _ r)|].
  intros rid [s' hf'] (-> & -> & Hu & _ & Hv). cbn [fst snd] in *. fold p idx in Hv |- *.
  split; [done|]. unfold inserted, stored. rewrite Hv. split_and!.
  - by eapply change_ok.
  - by left.
  - rewrite (heap_tuple_at _ _ p idx d n f INVALID_PAGE_ID) by done.
    destruct (decide (idx < n)); [by apply slot_tuple_deleted, Hdead | apply slot_tuple_out; lia].
  - by eapply change_tuple.
  - intros q Hq. apply lookup_insert_ne. set_solver.
  - done.
Qed.

Lemma last_in v hf ps : heap_ok v hf ps -> last_page_id hf ∈ ps.
Proof. intros Hok. destruct (heap_ok_last _ _ _ Hok) as (ps0 & _ & _ & _ & -> & _). set_solver. Qed.

(** The full branch on a heap, whoever else holds the last page. *)
Lemma insert_full_heap row s hf ps d n f r :
  heap_ok (ps_view s) hf ps -> ps_inv s -> Z.of_nat (size (ps_pins s)) + 2 <= ps_cap s ->
  ps_count s < INVALID_PAGE_ID -> ps_view s !! last_page_id hf = Some d -> hp_wf d n f INVALID_PAGE_ID ->
  find_deleted d 0 (Z.to_nat n) = Ok r -> HEADER_SIZE + SLOT_SIZE + blen row <= PAGE_SIZE ->
  f - slot_offset n - slot_bytes r < blen row ->
  runs (heap_insert row) (s, hf) (fun rid st =>
    stored s ps row rid (fst st) (snd st) (ps ++ [ps_count s]) /\ ps_inv (fst st) /\
    ps_pins (fst st) = pin_dec (last_page_id hf) (ps_pins s) /\ ps_cap (fst st) = ps_cap s).
Proof.
  intros Hok Hinv Hcap Hcount Hd Hwf Hr Hsz Hfull.
  assert (ps_count s ∉ ps) as Hq.
  { intros Hin. destruct (chain_in _ _ _ (ho_chain _ _ _ Hok) Hin) as (dd & _ & _ & _ & Hdd & _).
    assert (0 <= ps_count s < ps_count s) by (apply ps_view_dom; eauto). lia. }
  pose proof (last_in _ _ _ Hok) as Hlast.
  unfold heap_insert. eapply (insert_full_ok 1 row s hf d n f r); try done.
  intros s1 dq d' (I1 & P1 & C1) N1 Hwq Hwd' Hsame V1.
  pose proof (extend_ok _ _ _ _ Hok _ _ _ _ _ _ Hd Hwf Hwd' Hsame Hq ltac:(lia) Hwq V1) as Hok1.
  pose proof (extend_tuple _ _ _ _ Hok _ _ _ _ _ _ Hd Hwf Hwd' Hsame Hq ltac:(lia) Hwq V1) as Htup1.
  assert (ps_view s1 !! ps_count s = Some dq) as Hdq.
  { rewrite V1, lookup_insert_ne by (intros E; apply Hq; by rewrite <- E). apply lookup_insert_eq. }
  eapply runs_mono; [eapply (insert_fit_heap 0 row s1 _ (ps ++ [ps_count s]) dq 0 PAGE_SIZE None); try done|].
  - rewrite P1, C1. lia.
  - off. cbn [slot_bytes]. off.
  - intros rid [s2 hf2] [-> ((Hok2 & _ & Hnone & Htup2 & Hout) & (I2 & P2 & C2))]. cbn [fst snd] in *.
    split; [done|]. intros s3 I3 V3 P3 C3. unfold stored. rewrite V3. split_and!; try done; try congruence.
    + by right.
    + intros x. by rewrite Htup2, Htup1.
    + intros x Hx. rewrite Hout by done. rewrite V1, !lookup_insert_ne; set_solver.
Qed.

Lemma heap_insert_runs s hf ps row :
  heap_ok (ps_view s) hf ps -> room s ps 2 -> ps_count s < INVALID_PAGE_ID ->
  HEADER_SIZE + SLOT_SIZE + blen row <= PAGE_SIZE ->
  runs (heap_insert row) (s, hf) (fun rid st => exists ps', inserted s ps row rid (fst st) (snd st) ps').
Proof.
  intros Hok (Hinv & Hcap & Hpins) Hcount Hsz.
  destruct (heap_ok_last _ _ _ Hok) as (ps0 & d & n & f & Eps & Hd & Hwf).
  pose proof (hp_num_range _ _ _ _ Hwf) as Hn.
  destruct (find_deleted_spec _ _ _ _ Hwf (Z.to_nat n) 0) as (r & Hr & Hrs); [lia | lia |].
  destruct (decide (blen row <= f - slot_offset n - slot_bytes r)) as [Hfit|Hfull].
  - eapply runs_mono; [eapply (insert_fit_heap _ row s hf ps d n f r); try done; [lia|]|].
    + intros i ->. apply Hrs.
    + intros rid [s' hf'] [-> Hi]. by exists ps.
  - eapply runs_mono; [eapply (insert_full_heap row s hf ps d n f r); try done; lia|].
    intros rid [s' hf'] (Hst & I & P & C). cbn [fst snd] in *. exists (ps ++ [ps_count s]). split; [done|].
    rewrite (pin_dec_None _ _ (Hpins _ (last_in _ _ _ Hok))) in P. done.
Qed.

(** C10: inserting a row that fits in a page succeeds on any well-formed heap
    nobody has pinned, whether the last page has room, has a deleted slot to
    reuse, or a new page must be linked: the row gets a row id that named no
    tuple, is then found under it, every other tuple keeps its id and bytes,
    the heap stays well-formed, no other page changes and no page stays pinned. *)
Theorem heap_insert_ok s hf ps row :
  heap_ok (ps_view s) hf ps -> room s ps 2 -> ps_count s < INVALID_PAGE_ID ->
  HEADER_SIZE + SLOT_SIZE + blen row <= PAGE_SIZE ->
  exists rid s' hf' ps', heap_insert row (s, hf) = (Ok rid, (s', hf')) /\ inserted s ps row rid s' hf' ps'.
Proof.
  intros Hok Hr Hcount Hsz. destruct (heap_insert_runs s hf ps row Hok Hr Hcount Hsz) as (rid & [s' hf'] & He & ps' & Hi).
  by exists rid, s', hf', ps'.
Qed.

(** When the last page is full and somebody else holds a pin on it (a scan
    in progress, say), the insertion gives that pin back too: the page is
    unpinned once before the recursive call and once more in [finally]. *)
Theorem insert_drops_foreign_pin s hf ps row d n f r k :
  heap_ok (ps_view s) hf ps -> ps_inv s -> Z.of_nat (size (ps_pins s)) + 2 <= ps_cap s ->
  ps_count s < INVALID_PAGE_ID -> ps_view s !! last_page_id hf = Some d -> hp_wf d n f INVALID_PAGE_ID ->
  find_deleted d 0 (Z.to_nat n) = Ok r -> HEADER_SIZE + SLOT_SIZE + blen row <= PAGE_SIZE ->
  f - slot_offset n - slot_bytes r < blen row -> ps_pins s !! last_page_id hf = Some k ->
  exists rid s' hf', heap_insert row (s, hf) = (Ok rid, (s', hf')) /\
    ps_pins s' !! last_page_id hf = if k =? 1 then None else Some (k - 1).
Proof.
  intros Hok Hinv Hcap Hcount Hd Hwf Hr Hsz Hfull Hk.
  destruct (insert_full_heap row s hf ps d n f r) as (rid & [s' hf'] & He & _ & _ & P & _); try done.
  exists rid, s', hf'. split; [done|]. cbn [fst] in P. rewrite P. unfold pin_dec. rewrite Hk.
  destruct (k =? 1); [apply lookup_delete_eq | apply lookup_insert_eq].
Qed.

(** A row that cannot fit in an empty page is refused before anything is
    read or written. *)
Theorem heap_insert_too_large s hf row :
  PAGE_SIZE < HEADER_SIZE + SLOT_SIZE + blen row -> heap_insert row (s, hf) = (Raise ValueError, (s, hf)).
Proof.
  intros Hsz. unfold heap_insert. cbn [heap_insert_from].
  by replace (PAGE_SIZE <? HEADER_SIZE + SLOT_SIZE + blen row) with true by lia.
Qed.
(** * Access by row id *)

(** Fetch a page, change it to [d'] (or not), unpin it as dirty. *)
Lemma modify_ok {A} p d d' (body : H -> M S A) s (Q : A -> Prop) :
  ps_inv s -> ps_view s !! p = Some d -> Z.of_nat (size (ps_pins s)) < ps_cap s ->
  (forall h s1, ps_inv s1 -> ps_holds s1 h p -> ps_get h s1 = (Ok d, s1) -> ps_view s1 !! p = Some d ->
     runs (body h) s1 (fun a s2 => Q a /\ unchanged_but s1 s2 /\ ps_view s2 = <[p := d']> (ps_view s1))) ->
  runs (h ← ps_fetch p; try_finally (body h) (ps_unpin p true)) s (fun a s' =>
    Q a /\ unchanged_but s s' /\ ps_view s' = <[p := d']> (ps_view s)).
Proof.
  intros Hinv Hd Hcap Hbody. rstep. eapply runs_mono; [apply ps_fetch_ok; eauto|].
  intros h s1 (I1 & V1 & P1 & C1 & N1 & Ho & _ & _). rstep.
  destruct (ps_get_ok s1 h p I1 Ho) as (d0 & Hg & Hd0). rewrite V1, Hd in Hd0. injection Hd0 as <-.
  eapply runs_mono; [apply Hbody; try done; by rewrite V1|]. intros a s2 (HQ & (I2 & P2 & C2) & V2).
  eapply runs_mono; [apply ps_unpin_ok; auto|]. intros _ s3 (I3 & V3 & P3 & C3 & N3 & _ & _).
  split; [done|]. unfold unchanged_but. rewrite P3, P2, P1, (pins_dec_inc s p Hinv).
  split_and!; congruence.
Qed.

Section access.
Context (s : S) (hf : HeapFile) (ps : list Z) (rid : RID).
Context (Hok : heap_ok (ps_view s) hf ps) (Hroom : room s ps 1) (Hp : page_id rid ∈ ps) (Hi : 0 <= slot_id rid).

(** The page of the row id, and its slot if it is in range. *)
Lemma rid_page : exists d n f nx, ps_view s !! page_id rid = Some d /\ hp_wf d n f nx /\
  heap_tuple (ps_view s) ps rid = slot_tuple d n (slot_id rid) /\
  (slot_id rid < n -> read_slot d (slot_id rid) =
     Ok (field 2 d (slot_offset (slot_id rid)), field 2 d (slot_offset (slot_id rid) + 2))).
Proof using All.
  destruct (chain_in _ _ _ (ho_chain _ _ _ Hok) Hp) as (d & n & f & nx & Hd & Hwf).
  exists d, n, f, nx. split_and!; try done.
  - rewrite <- (heap_tuple_at (ps_view s) ps (page_id rid) _ d n f nx) by done. by destruct rid.
  - intros Hlt. apply read_slot_ok; [apply Hwf | done | by eapply hp_slot_in_page].
Qed.

Lemma heap_get_runs : runs (heap_get rid) s (fun t s' => t = heap_tuple (ps_view s) ps rid /\ keeps s s').
Proof using All.
  destruct rid_page as (d & n & f & nx & Hd & Hwf & -> & Hslot). unfold heap_get.
  eapply read_only_ok; [apply Hroom | exact Hd | by eapply room_size | by eapply room_clean |].
  intros h s1 Hg. rstep. apply (runs_eq _ _ _ _ _ Hg). rstep.
  eapply runs_lift_result; [by apply read_header_ok|]. cbv beta iota. unfold slot_tuple.
  destruct (Z.leb_spec n (slot_id rid)) as [Hle|Hlt].
  - rstep. by replace ((0 <=? slot_id rid) && (slot_id rid <? n)) with false by lia.
  - rstep. eapply runs_lift_result; [by apply Hslot|]. cbn [fst snd].
    replace ((0 <=? slot_id rid) && (slot_id rid <? n)) with true by lia.
    destruct (_ =? DELETED); by rstep.
Qed.

Definition can_overwrite (new : list byte) : bool :=
  match heap_tuple (ps_view s) ps rid with Some t => blen t =? blen new | None => false end.

Lemma can_overwrite_spec d n f nx new :
  let o := field 2 d (slot_offset (slot_id rid)) in let l := field 2 d (slot_offset (slot_id rid) + 2) in
  hp_wf d n f nx -> heap_tuple (ps_view s) ps rid = slot_tuple d n (slot_id rid) ->
  can_overwrite new = negb ((n <=? slot_id rid) || ((l =? DELETED) || negb (l =? blen new))) /\
  (can_overwrite new = true -> live d n (slot_id rid) o l /\ blen new = l).
Proof using Hi.
  intros o l Hwf Ht. unfold can_overwrite. rewrite Ht. unfold slot_tuple. fold o l.
  destruct (Z.leb_spec n (slot_id rid)) as [Hle|Hlt].
  - by replace ((0 <=? slot_id rid) && (slot_id rid <? n)) with false by lia.
  - replace ((0 <=? slot_id rid) && (slot_id rid <? n)) with true by lia.
    destruct (Z.eqb_spec l DELETED) as [|Hnd]; [done|].
    assert (live d n (slot_id rid) o l) as Hl by done. pose proof (hw_live _ _ _ _ Hwf _ _ _ Hl).
    pose proof (hw_dir _ _ _ _ Hwf). pose proof (hp_num_range _ _ _ _ Hwf).
    assert (0 <= l) by (unfold l; pose proof (field_bound 2 d (slot_offset (slot_id rid) + 2) ltac:(lia)
      ltac:(off) ltac:(rewrite (hw_size _ _ _ _ Hwf); off)); lia).
    rewrite blen_slice by (rewrite ?(hw_size _ _ _ _ Hwf); off). replace (o + l - o) with l by lia.
    cbn [orb]. rewrite negb_involutive. split; [done|]. intros E%Z.eqb_eq. done.
Qed.

Lemma update_in_place_runs new : runs (update_in_place rid new) s (fun b s' =>
  b = can_overwrite new /\ heap_ok (ps_view s') hf ps /\ unchanged_but s s' /\
  (forall r, heap_tuple (ps_view s') ps r =
     if decide (r = rid /\ b = true) then Some new else heap_tuple (ps_view s) ps r) /\
  (forall q, q <> page_id rid -> ps_view s' !! q = ps_view s !! q)).
Proof using All.
  destruct rid_page as (d & n & f & nx & Hd & Hwf & Ht & Hslot).
  set (o := field 2 d (slot_offset (slot_id rid))) in *.
  set (l := field 2 d (slot_offset (slot_id rid) + 2)) in *.
  pose (d' := if can_overwrite new then slice_set d o (o + l) new else d).
  destruct (can_overwrite_spec d n f nx new Hwf Ht) as [Eb Hlive]. fold o l in Eb, Hlive.
  unfold update_in_place. eapply runs_mono; [eapply (modify_ok (page_id rid) d d' _ s (fun b => b = can_overwrite new));
    [apply Hroom | done | by eapply room_size |]|].
  - intros h s1 I1 Hh Hg Hd1. rstep. apply (runs_eq _ _ _ _ _ Hg). rstep.
    eapply runs_lift_result; [by apply read_header_ok|]. cbv beta iota.
    destruct (Z.leb_spec n (slot_id rid)) as [Hle|Hlt].
    { rstep. unfold d', unchanged_but. rewrite Eb. cbn [orb negb]. by rewrite insert_id by done. }
    rstep. eapply runs_lift_result; [by apply Hslot|]. cbn [fst snd]. cbn [orb] in Eb.
    destruct ((l =? DELETED) || negb (l =? blen new)).
    { rstep. unfold d', unchanged_but. rewrite Eb. cbn [negb]. by rewrite insert_id by done. }
    destruct (Hlive Eb) as [Hl Hnew]. rstep.
    eapply runs_mono; [eapply (ps_update_ok s1 h (page_id rid) d); try done; by eapply overwrite_size|].
    intros _ s2 (I2 & V2 & P2 & C2 & _). rstep. unfold d', unchanged_but. by rewrite Eb.
  - intros b s' (-> & Hu & Hv). rewrite Hv. unfold d'. destruct (can_overwrite new).
    + destruct (Hlive eq_refl) as [Hl Hnew]. split_and!; [done | | done | |].
      * eapply change_ok; [done | done | done | done | by eapply overwrite_wf].
      * intros r. rewrite (change_tuple _ _ _ Hok _ d n f nx Hp Hd Hwf _ n f (overwrite_wf _ _ _ _ _ _ _ _ Hwf Hl Hnew)
          (slot_id rid) (Some new)) by (intros j; by eapply overwrite_tuple).
        destruct rid as [rp ri]; cbn [page_id slot_id]. repeat case_decide; naive_solver.
      * intros q Hq. by apply lookup_insert_ne.
    + rewrite insert_id by done. split_and!; try done. intros r. rewrite decide_False; [done | naive_solver].
Qed.
Lemma heap_delete_runs : runs (heap_delete rid) s (fun b s' =>
  b = bool_decide (is_Some (heap_tuple (ps_view s) ps rid)) /\ heap_ok (ps_view s') hf ps /\ unchanged_but s s' /\
  (forall r, heap_tuple (ps_view s') ps r = if decide (r = rid) then None else heap_tuple (ps_view s) ps r) /\
  (forall q, q <> page_id rid -> ps_view s' !! q = ps_view s !! q)).
Proof using All.
  destruct rid_page as (d & n & f & nx & Hd & Hwf & Ht & Hslot).
  set (b := bool_decide (is_Some (heap_tuple (ps_view s) ps rid))).
  pose (d' := if b then with_slot (slot_id rid) 0 DELETED d else d).
  assert (b = negb ((n <=? slot_id rid) || (field 2 d (slot_offset (slot_id rid) + 2) =? DELETED))) as Eb.
  { unfold b. rewrite Ht. unfold slot_tuple. destruct (Z.leb_spec n (slot_id rid)) as [Hle|Hlt].
    - by replace ((0 <=? slot_id rid) && (slot_id rid <? n)) with false by lia.
    - replace ((0 <=? slot_id rid) && (slot_id rid <? n)) with true by lia. by destruct (_ =? DELETED). }
  unfold heap_delete. eapply runs_mono; [eapply (modify_ok (page_id rid) d d' _ s (fun b' => b' = b));
    [apply Hroom | done | by eapply room_size |]|].
  - intros h s1 I1 Hh Hg Hd1. rstep. apply (runs_eq _ _ _ _ _ Hg). rstep.
    eapply runs_lift_result; [by apply read_header_ok|]. cbv beta iota.
    destruct (Z.leb_spec n (slot_id rid)) as [Hle|Hlt].
    { rstep. unfold d', unchanged_but. rewrite Eb. cbn [orb negb]. by rewrite insert_id by done. }
    rstep. eapply runs_lift_result; [by apply Hslot|]. cbn [fst snd]. cbn [orb] in Eb.
    destruct (_ =? DELETED).
    { rstep. unfold d', unchanged_but. rewrite Eb. cbn [negb]. by rewrite insert_id by done. }
    rstep. eapply runs_mono; [eapply (ps_update_ok s1 h (page_id rid) d); try done;
      [by eapply kill_ok | by eapply (kill_wf d n f nx)]|].
    intros _ s2 (I2 & V2 & P2 & C2 & _). rstep. unfold d', unchanged_but. by rewrite Eb.
  - intros b' s' (-> & Hu & Hv). rewrite Hv. unfold d'. destruct b eqn:Hb.
    + assert (0 <= slot_id rid < n) as Hin by (symmetry in Eb; apply negb_true_iff, orb_false_iff in Eb; lia).
      split_and!; [done | | done | |].
      * eapply change_ok; [done | done | done | done | by eapply kill_wf].
      * intros r. rewrite (change_tuple _ _ _ Hok _ d n f nx Hp Hd Hwf _ n f (kill_wf _ _ _ _ _ Hwf Hin)
          (slot_id rid) None) by (intros j; by eapply kill_tuple). by destruct rid.
      * intros q Hq. by apply lookup_insert_ne.
    + rewrite insert_id by done. split_and!; try done. intros r. case_decide as E; [| done]. subst r.
      unfold b in Hb. apply bool_decide_eq_false in Hb. by apply eq_None_not_Some.
Qed.
End access.

(** Looking a row id up returns exactly the tuple stored under it, or
    nothing for a deleted or never used slot of the page; nothing changes. *)
Theorem heap_get_ok s hf ps rid :
  heap_ok (ps_view s) hf ps -> room s ps 1 -> page_id rid ∈ ps -> 0 <= slot_id rid ->
  exists s', heap_get rid s = (Ok (heap_tuple (ps_view s) ps rid), s') /\ keeps s s'.
Proof.
  intros Hok Hr Hp Hi. destruct (heap_get_runs s hf ps rid Hok Hr Hp Hi) as (t & s' & He & -> & Hk). eauto.
Qed.

(** [update_in_place] overwrites a live tuple of the same length and
    answers True; otherwise it answers False and no tuple changes. In both
    cases every other tuple and page is as before and the heap stays well-formed. *)
Theorem update_in_place_ok s hf ps rid new :
  heap_ok (ps_view s) hf ps -> room s ps 1 -> page_id rid ∈ ps -> 0 <= slot_id rid ->
  exists b s', update_in_place rid new s = (Ok b, s') /\ b = can_overwrite s ps rid new /\
    heap_ok (ps_view s') hf ps /\ unchanged_but s s' /\
    (forall r, heap_tuple (ps_view s') ps r =
       if decide (r = rid /\ b = true) then Some new else heap_tuple (ps_view s) ps r) /\
    (forall q, q <> page_id rid -> ps_view s' !! q = ps_view s !! q).
Proof.
  intros Hok Hr Hp Hi. destruct (update_in_place_runs s hf ps rid Hok Hr Hp Hi new) as (b & s' & He & Hq). eauto.
Qed.

(** C29: [delete] answers whether the row id named a tuple; afterwards it names
    none, and every other tuple and page is as before. *)
Theorem heap_delete_ok s hf ps rid :
  heap_ok (ps_view s) hf ps -> room s ps 1 -> page_id rid ∈ ps -> 0 <= slot_id rid ->
  exists b s', heap_delete rid s = (Ok b, s') /\ b = bool_decide (is_Some (heap_tuple (ps_view s) ps rid)) /\
    heap_ok (ps_view s') hf ps /\ unchanged_but s s' /\
    (forall r, heap_tuple (ps_view s') ps r = if decide (r = rid) then None else heap_tuple (ps_view s) ps r) /\
    (forall q, q <> page_id rid -> ps_view s' !! q = ps_view s !! q).
Proof.
  intros Hok Hr Hp Hi. destruct (heap_delete_runs s hf ps rid Hok Hr Hp Hi) as (b & s' & He & Hq). eauto.
Qed.
(** * Scanning *)

Section scan.
Context {A : Type} (body : A -> RID -> list byte -> M S A) (g : A -> RID * list byte -> A).
Context (Hbody : forall acc rid raw, body acc rid raw = mret (g acc (rid, raw))).

Lemma scan_slots_runs h p d n f nx s : ps_get h s = (Ok d, s) -> hp_wf d n f nx ->
  forall k i acc, 0 <= i -> i + Z.of_nat k <= n ->
  scan_slots body h p i k acc s = (Ok (foldl g acc (slot_rows d p i k)), s).
Proof using All.
  intros Hg Hwf. induction k as [|k IH]; intros i acc Hi Hk; [done|].
  cbn [scan_slots slot_rows]. rewrite (bind_ok _ _ _ _ _ Hg).
  rewrite (read_slot_ok d i); [| apply Hwf | done | eapply hp_slot_in_page; [done | lia]].
  rewrite bind_lift_ok. cbn [fst snd]. unfold slot_tuple. rewrite (hw_num _ _ _ _ Hwf).
  replace ((0 <=? i) && (i <? n)) with true by lia.
  destruct (_ =? DELETED).
  - rewrite bind_mret. apply IH; lia.
  - rewrite Hbody, bind_mret, IH by lia. done.
Qed.

Lemma scan_pages_runs fuel p ps acc s :
  room s (p :: ps) 1 -> chain (ps_view s) (p :: ps) -> INVALID_PAGE_ID ∉ p :: ps -> (length ps < fuel)%nat ->
  runs (scan_pages body fuel p acc) s (fun r s' =>
    r = foldl g acc (heap_rows (ps_view s) (p :: ps)) /\ keeps s s').
Proof using All.
  revert p ps acc s. induction fuel as [|fuel IH]; intros p ps acc s Hr Hc Hids Hlen; [lia|].
  destruct (chain_in _ _ p Hc ltac:(set_solver)) as (d & n & f & nx & Hd & Hwf).
  pose proof (hp_num_range _ _ _ _ Hwf) as Hn. pose proof Hr as (Hinv & _ & Hun).
  cbn [scan_pages]. destruct (Z.eqb_spec p INVALID_PAGE_ID) as [->|Hp]; [set_solver|].
  rstep. eapply runs_mono; [apply ps_fetch_ok; [done | eauto | right; by eapply room_size]|].
  intros h s1 (I1 & V1 & P1 & C1 & N1 & Ho & _ & CL1). rstep.
  destruct (ps_get_ok s1 h p I1 Ho) as (d0 & Hg & Hd0). rewrite V1, Hd in Hd0. injection Hd0 as <-.
  apply (runs_eq _ _ _ _ _ Hg). rstep. eapply runs_lift_result; [by apply read_header_ok|]. cbv beta iota.
  rstep. eapply runs_eq; [eapply scan_slots_runs; [done | done | lia | lia]|]. rstep.
  eapply runs_mono; [apply ps_unpin_ok; [done | right; apply CL1; eapply room_clean; [done | set_solver]]|].
  intros _ s2 (I2 & V2 & P2 & C2 & N2 & _).
  assert (keeps s s2) as Hk.
  { unfold keeps. rewrite P2, P1, pins_dec_inc by done. split_and!; congruence. }
  assert (page_rows (ps_view s) p = slot_rows d p 0 (Z.to_nat n)) as Erows
    by (unfold page_rows; by rewrite Hd, (hw_num _ _ _ _ Hwf)).
  unfold heap_rows. rewrite bind_cons, foldl_app, Erows.
  inversion Hc as [p' d' n' f' Hd' Hw' | p' q ps' d' n' f' Hd' Hw' Hc']; subst; simplify_eq;
    destruct (hp_wf_unique _ _ _ _ _ _ _ Hwf Hw') as (_ & _ & ->).
  - destruct fuel; cbn [scan_pages]; rewrite Z.eqb_refl; by rstep.
  - eapply runs_mono; [apply (IH q ps')|].
    + eapply room_sub; [eapply room_keeps; eauto | set_solver | lia].
    + destruct Hk as (_ & -> & _). done.
    + set_solver.
    + simpl in Hlen. lia.
    + intros r s3 [-> Hk3]. split; [| by eapply keeps_trans].
      destruct Hk as (_ & -> & _). done.
Qed.

Lemma scan_fold_runs s hf ps acc : heap_ok (ps_view s) hf ps -> room s ps 1 ->
  runs (scan_fold body hf acc) s (fun r s' => r = foldl g acc (heap_rows (ps_view s) ps) /\ keeps s s').
Proof using All.
  intros Hok Hr. pose proof Hok as [Hc Hnd Hids Hf _].
  pose proof (chain_length s ps ltac:(apply Hr) Hc Hnd) as Hlen.
  destruct ps as [|p ps]; [done|]. cbn in Hf. injection Hf as ->.
  unfold scan_fold. rstep. rstep. apply scan_pages_runs; try done; simpl in Hlen; lia.
Qed.
End scan.

Lemma chain_frame V V' ps : (forall q, q ∈ ps -> V' !! q = V !! q) -> chain V ps -> chain V' ps.
Proof.
  intros Hv Hc. induction Hc as [p d n f Hd Hw|p q ps d n f Hd Hw _ IH].
  - econstructor; [by rewrite Hv by left | done].
  - econstructor; [by rewrite Hv by left | done |]. apply IH. intros x Hx. apply Hv. by right.
Qed.
Lemma heap_ok_frame V V' hf ps : (forall q, q ∈ ps -> V' !! q = V !! q) -> heap_ok V hf ps -> heap_ok V' hf ps.
Proof. intros Hv [Hc ? ? ? ?]. constructor; try done. by eapply chain_frame. Qed.
Lemma heap_tuple_frame V V' ps r : (forall q, q ∈ ps -> V' !! q = V !! q) -> heap_tuple V' ps r = heap_tuple V ps r.
Proof. intros Hv. unfold heap_tuple. case_bool_decide as E; [| done]. by rewrite Hv. Qed.
Lemma heap_rows_frame V V' ps : (forall q, q ∈ ps -> V' !! q = V !! q) -> heap_rows V' ps = heap_rows V ps.
Proof.
  intros Hv. unfold heap_rows. induction ps as [|p ps IH]; [done|]. cbn [mbind list_bind].
  rewrite IH by (intros q Hq; apply Hv; by right). f_equal. unfold page_rows. by rewrite Hv by left.
Qed.

Lemma slot_rows_spec d p n f nx : hp_wf d n f nx -> forall k i rid t, 0 <= i ->
  (rid, t) ∈ slot_rows d p i k <->
  page_id rid = p /\ i <= slot_id rid < i + Z.of_nat k /\ slot_tuple d n (slot_id rid) = Some t.
Proof.
  intros Hwf. induction k as [|k IH]; intros i rid t Hi.
  - cbn [slot_rows]. split; [by intros ?%not_elem_of_nil | lia].
  - cbn [slot_rows]. rewrite (hw_num _ _ _ _ Hwf). destruct rid as [q j]; cbn [page_id slot_id].
    destruct (slot_tuple d n i) as [u|] eqn:E.
    + rewrite elem_of_cons, IH by lia. cbn [page_id slot_id]. split.
      * intros [[= -> -> ->]|(-> & Hj & Ht)]; split_and!; try done; lia.
      * intros (-> & Hj & Ht). destruct (decide (j = i)) as [->|]; [left; congruence | right; split_and!; try done; lia].
    + rewrite IH by lia. cbn [page_id slot_id]. split.
      * intros (-> & Hj & Ht). split_and!; try done; lia.
      * intros (-> & Hj & Ht). destruct (decide (j = i)) as [->|]; [congruence | split_and!; try done; lia].
Qed.

(** Row ids appear once, slots of a page in increasing order. *)
Lemma slot_rows_nodup d p n f nx : hp_wf d n f nx -> forall k i, 0 <= i -> NoDup (slot_rows d p i k).*1.
Proof.
  intros Hwf. induction k as [|k IH]; intros i Hi; cbn [slot_rows]; [constructor|].
  destruct (slot_tuple d (field 2 d 1) i) as [u|]; [| apply IH; lia].
  rewrite fmap_cons. apply NoDup_cons. split; [| apply IH; lia].
  intros ([q t] & Eq & Hin)%list_elem_of_fmap. cbn in Eq. subst q.
  apply (slot_rows_spec d p n f nx Hwf) in Hin as (_ & Hj & _); cbn [slot_id] in *; lia.
Qed.

Lemma page_rows_spec v ps p rid t : chain v ps -> p ∈ ps ->
  (rid, t) ∈ page_rows v p <-> page_id rid = p /\ heap_tuple v ps rid = Some t.
Proof.
  intros Hc Hp. destruct (chain_in _ _ _ Hc Hp) as (d & n & f & nx & Hd & Hwf).
  unfold page_rows. rewrite Hd, (hw_num _ _ _ _ Hwf), (slot_rows_spec _ _ _ _ _ Hwf) by lia.
  destruct rid as [q j]; cbn [page_id slot_id]. split.
  - intros (-> & _ & Ht). by rewrite (heap_tuple_at _ _ p j d n f nx).
  - intros (-> & Ht). rewrite (heap_tuple_at _ _ p j d n f nx) in Ht by done. split_and!; try done.
    + unfold slot_tuple in Ht. destruct (Z.leb_spec 0 j); [lia | done].
    + unfold slot_tuple in Ht. destruct (Z.ltb_spec j n); [lia | by rewrite andb_false_r in Ht].
Qed.

Lemma heap_rows_spec v ps rid t : chain v ps ->
  (rid, t) ∈ heap_rows v ps <-> heap_tuple v ps rid = Some t.
Proof.
  intros Hc. unfold heap_rows. rewrite list_elem_of_bind. split.
  - intros (p & Hin & Hp). by apply (page_rows_spec _ _ _ _ _ Hc Hp) in Hin as [_ ?].
  - intros Ht. assert (page_id rid ∈ ps) as Hp.
    { unfold heap_tuple in Ht. destruct (decide (page_id rid ∈ ps)); [done|].
      by rewrite bool_decide_eq_false_2 in Ht. }
    exists (page_id rid). split; [| done]. by apply (page_rows_spec _ _ _ _ _ Hc Hp).
Qed.

Lemma heap_rows_nodup v ps : chain v ps -> NoDup ps -> NoDup (heap_rows v ps).*1.
Proof.
  intros Hc Hnd. assert (forall l, (forall p, p ∈ l -> p ∈ ps) -> NoDup l -> NoDup (heap_rows v l).*1) as Hall;
    [| by apply Hall].
  intros l. induction l as [|p l IH]; intros Hsub Hl; [constructor|].
  apply NoDup_cons in Hl as [Hpl Hl]. unfold heap_rows. rewrite bind_cons, fmap_app. apply NoDup_app. split_and!.
  - destruct (chain_in _ _ p Hc) as (d & n & f & nx & Hd & Hwf); [apply Hsub; set_solver|].
    unfold page_rows. rewrite Hd. by eapply slot_rows_nodup.
  - intros rid ([r t] & -> & Hin)%list_elem_of_fmap ([r' t'] & Er & Hin')%list_elem_of_fmap. cbn in *. subst r'.
    apply (page_rows_spec _ _ p _ _ Hc) in Hin as [Ep _]; [| apply Hsub; set_solver].
    apply list_elem_of_bind in Hin' as (q & Hin' & Hq).
    apply (page_rows_spec _ _ q _ _ Hc) in Hin' as [Eq _]; [| apply Hsub; set_solver]. congruence.
  - apply IH; [| done]. intros q Hq. apply Hsub. set_solver.
Qed.

(** C27: a scan visits every live tuple exactly once, under its row id, pages in
    chain order and slots in increasing order, and changes nothing. *)
Theorem heap_scan_ok s hf ps :
  heap_ok (ps_view s) hf ps -> room s ps 1 ->
  exists rows s', heap_scan hf s = (Ok rows, s') /\ keeps s s' /\ NoDup rows.*1 /\
    rows = heap_rows (ps_view s) ps /\
    forall rid t, (rid, t) ∈ rows <-> heap_tuple (ps_view s) ps rid = Some t.
Proof.
  intros Hok Hr.
  destruct (scan_fold_runs (fun acc rid raw => mret (acc ++ [(rid, raw)])) (fun acc x => acc ++ [x])
    ltac:(done) s hf ps [] Hok Hr) as (rows & s' & He & Erows & Hk).
  assert (forall l a, foldl (fun (acc : list (RID * list byte)) x => acc ++ [x]) a l = a ++ l) as Hfold.
  { intros l. induction l as [|x l IH]; intros a; cbn; [by rewrite app_nil_r | rewrite IH, <- app_assoc; done]. }
  rewrite Hfold in Erows. cbn in Erows. subst rows. destruct Hok as [Hc Hnd _ _ _].
  exists (heap_rows (ps_view s) ps), s'. split_and!; try done.
  - by apply heap_rows_nodup.
  - intros rid t. by apply heap_rows_spec.
Qed.
End props.

(** * Concrete heaps: one page holding one row, over a buffer pool of three frames *)

Definition empty_page : list byte := with_header 1 0 PAGE_SIZE INVALID_PAGE_ID (zeros PAGE_SIZE).
Definition sample_page (row : list byte) : list byte := placed empty_page 1 PAGE_SIZE INVALID_PAGE_ID 0 row.
Definition sample_pool (row : list byte) : BufferPoolManager := bp_init (dm_init (Some (sample_page row))) 3.
Definition sample_heap : HeapFile := mkHeap 0 0.

Lemma empty_page_wf : hp_wf empty_page 0 PAGE_SIZE INVALID_PAGE_ID.
Proof.
  destruct (init_heap_page_ok (zeros PAGE_SIZE) eq_refl) as (d & E & Hwf).
  unfold init_heap_page in E. rewrite write_header_ok in E by done. apply Ok_inj in E. by subst d.
Qed.

Section sample.
Context (row : list byte) (Hrow : HEADER_SIZE + SLOT_SIZE + blen row <= PAGE_SIZE).
Let s := sample_pool row.

Lemma sample_page_wf : hp_wf (sample_page row) 1 (PAGE_SIZE - blen row) INVALID_PAGE_ID.
Proof using Hrow. apply (placed_wf empty_page 0 PAGE_SIZE INVALID_PAGE_ID 0 row empty_page_wf); try done; off. Qed.

Lemma sample_page_tuple j :
  slot_tuple (sample_page row) 1 j = if decide (j = 0) then Some row else None.
Proof using Hrow.
  unfold sample_page. rewrite (placed_tuple empty_page 0 PAGE_SIZE INVALID_PAGE_ID 0 row empty_page_wf); try done; [| off].
  case_decide; [done|]. unfold slot_tuple. by replace ((0 <=? j) && (j <? 0)) with false by lia.
Qed.

Lemma sample_num_pages : dm_num_pages (dm_init (Some (sample_page row))) = 1.
Proof using Hrow.
  unfold dm_init. cbn [default id dm_num_pages]. by rewrite (hw_size _ _ _ _ sample_page_wf).
Qed.

Lemma sample_view : ps_view s !! 0 = Some (sample_page row).
Proof using Hrow.
  cbn [ps_view ps_core buffer_pool_spec buffer_pool_core]. unfold bp_view.
  rewrite lookup_zmap, decide_True by (unfold s, sample_pool; cbn [bp_disk bp_init]; rewrite sample_num_pages; lia).
  f_equal. change (page_at (sample_page row) 0 = sample_page row). unfold page_at.
  change (0 * PAGE_SIZE) with 0. change (0 + PAGE_SIZE) with PAGE_SIZE.
  rewrite <- (hw_size _ _ _ _ sample_page_wf). apply slice_all.
Qed.

Lemma sample_inv : ps_inv s.
Proof using Type. apply bp_init_inv, dm_init_wf. Qed.

Lemma sample_count : ps_count s = 1.
Proof using Hrow. apply sample_num_pages. Qed.

Lemma sample_ok : heap_ok (ps_view s) sample_heap [0].
Proof using Hrow.
  constructor; try done; [| apply NoDup_singleton | by intros E%list_elem_of_singleton].
  econstructor; [exact sample_view | exact sample_page_wf].
Qed.

Lemma sample_room ps k : k <= 3 -> room s ps k.
Proof using Type.
  intros Hk. destruct (bp_init_facts (dm_init (Some (sample_page row))) 3 ltac:(lia)) as [Hp Hc].
  split_and!; [exact sample_inv | |].
  - cbn [ps_pins ps_cap ps_core buffer_pool_spec buffer_pool_core]. unfold s, sample_pool. rewrite Hp, Hc, map_size_empty. lia.
  - intros q _. cbn [ps_pins ps_core buffer_pool_spec buffer_pool_core]. unfold s, sample_pool. by rewrite Hp.
Qed.

Lemma sample_tuple : heap_tuple (ps_view s) [0] (mkRID 0 0) = Some row.
Proof using Hrow.
  rewrite (heap_tuple_at _ [0] 0 0 _ _ _ _ ltac:(set_solver) sample_view sample_page_wf). by rewrite sample_page_tuple.
Qed.
End sample.

Definition row3 : list byte := [x01; x02; x03].
Definition big_row : list byte := replicate 4083 x07.

Lemma row3_fits : HEADER_SIZE + SLOT_SIZE + blen row3 <= PAGE_SIZE.
Proof. done. Qed.
Lemma big_row_fits : HEADER_SIZE + SLOT_SIZE + blen big_row <= PAGE_SIZE.
Proof. done. Qed.

Lemma heap_open_ok_witness : exists hf s', heap_init (Some 0) (sample_pool row3) = (Ok hf, s') /\
  heap_ok (ps_view s') hf [0] /\ keeps (sample_pool row3) s'.
Proof.
  pose proof (sample_ok row3 row3_fits) as [Hc Hnd Hids _ _].
  apply (heap_open_ok (sample_pool row3) 0 []); [apply sample_room; lia | exact Hc | exact Hnd | exact Hids].
Defined.

Lemma heap_open_terminates_witness :
  (exists hf s', heap_init (Some 7) (sample_pool row3) = (Ok hf, s')) \/
  (exists s', heap_init (Some 7) (sample_pool row3) = (Raise ValueError, s')).
Proof.
  apply heap_open_terminates; [apply sample_room; lia|].
  intros q. apply ps_unpinned_clean; [apply sample_inv|]. apply (sample_room row3 [q] 1); [lia | set_solver].
Defined.

Lemma heap_create_ok_witness :
  exists hf s', heap_init None (sample_pool row3) = (Ok hf, s') /\ heap_ok (ps_view s') hf [1] /\
    heap_rows (ps_view s') [1] = [] /\ ps_inv s' /\ ps_pins s' = ps_pins (sample_pool row3) /\
    ps_cap s' = ps_cap (sample_pool row3) /\
    (forall q, q <> 1 -> ps_view s' !! q = ps_view (sample_pool row3) !! q) /\ ps_count s' = 1 + 1.
Proof.
  pose proof (sample_count row3 row3_fits) as Hn.
  pose proof (heap_create_ok (sample_pool row3) (sample_room row3 [] 1 ltac:(lia)) ltac:(by rewrite Hn)) as W.
  rewrite Hn in W. exact W.
Defined.

(** The second row fits behind the first; it does not when the first fills the page. *)
Lemma heap_insert_ok_witness : exists rid s' hf' ps',
  heap_insert row3 (sample_pool row3, sample_heap) = (Ok rid, (s', hf')) /\
  inserted (sample_pool row3) [0] row3 rid s' hf' ps'.
Proof.
  apply heap_insert_ok; [apply sample_ok, row3_fits | apply sample_room; lia | by rewrite sample_count | done].
Defined.

Definition pinned_pool : BufferPoolManager := snd (fetch_page 0 (sample_pool big_row)).

Lemma pinned_pool_facts : ps_inv pinned_pool /\ ps_view pinned_pool = ps_view (sample_pool big_row) /\
  ps_pins pinned_pool = {[0 := 1]} /\ ps_cap pinned_pool = 3 /\ ps_count pinned_pool = 1.
Proof.
  destruct (sample_room big_row [0] 3 ltac:(lia)) as (Hinv & Hcap & _).
  destruct (ps_fetch_ok (sample_pool big_row) 0) as (h & s1 & E & I & V & P & C & N & _);
    [done | eexists; apply sample_view, big_row_fits | right; lia |].
  change (fetch_page 0 (sample_pool big_row) = (Ok h, s1)) in E. unfold pinned_pool. rewrite E. cbn [snd].
  rewrite P, C, N, (sample_count big_row big_row_fits). by split_and!.
Qed.

Lemma insert_drops_foreign_pin_witness : exists rid s' hf',
  heap_insert row3 (pinned_pool, sample_heap) = (Ok rid, (s', hf')) /\ ps_pins s' !! 0 = None.
Proof.
  destruct pinned_pool_facts as (I & V & P & C & N).
  apply (insert_drops_foreign_pin pinned_pool sample_heap [0] row3 (sample_page big_row) 1 13 None 1).
  - rewrite V. apply sample_ok, big_row_fits.
  - exact I.
  - rewrite P, C, map_size_singleton. lia.
  - by rewrite N.
  - rewrite V. apply sample_view, big_row_fits.
  - apply sample_page_wf, big_row_fits.
  - vm_compute. reflexivity.
  - done.
  - vm_compute. reflexivity.
  - rewrite P. reflexivity.
Defined.

Lemma heap_insert_too_large_witness :
  heap_insert (zeros 4084) (sample_pool row3, sample_heap) = (Raise ValueError, (sample_pool row3, sample_heap)).
Proof. apply heap_insert_too_large. vm_compute. reflexivity. Defined.

Lemma heap_get_ok_witness : exists s',
  heap_get (mkRID 0 0) (sample_pool row3) = (Ok (heap_tuple (ps_view (sample_pool row3)) [0] (mkRID 0 0)), s') /\
  keeps (sample_pool row3) s'.
Proof.
  apply (heap_get_ok _ sample_heap); [apply sample_ok, row3_fits | apply sample_room; lia | set_solver | done].
Defined.

Lemma update_in_place_ok_witness : exists b s',
  update_in_place (mkRID 0 0) [x09; x08; x07] (sample_pool row3) = (Ok b, s') /\
  b = can_overwrite (sample_pool row3) [0] (mkRID 0 0) [x09; x08; x07] /\
  heap_ok (ps_view s') sample_heap [0] /\ unchanged_but (sample_pool row3) s' /\
  (forall r, heap_tuple (ps_view s') [0] r =
     if decide (r = mkRID 0 0 /\ b = true) then Some [x09; x08; x07]
     else heap_tuple (ps_view (sample_pool row3)) [0] r) /\
  (forall q, q <> 0 -> ps_view s' !! q = ps_view (sample_pool row3) !! q).
Proof.
  apply update_in_place_ok; [apply sample_ok, row3_fits | apply sample_room; lia | set_solver | done].
Defined.

Lemma heap_delete_ok_witness : exists b s',
  heap_delete (mkRID 0 0) (sample_pool row3) = (Ok b, s') /\
  b = bool_decide (is_Some (heap_tuple (ps_view (sample_pool row3)) [0] (mkRID 0 0))) /\
  heap_ok (ps_view s') sample_heap [0] /\ unchanged_but (sample_pool row3) s' /\
  (forall r, heap_tuple (ps_view s') [0] r =
     if decide (r = mkRID 0 0) then None else heap_tuple (ps_view (sample_pool row3)) [0] r) /\
  (forall q, q <> 0 -> ps_view s' !! q = ps_view (sample_pool row3) !! q).
Proof.
  apply heap_delete_ok; [apply sample_ok, row3_fits | apply sample_room; lia | set_solver | done].
Defined.

Lemma heap_scan_ok_witness : exists rows s',
  heap_scan sample_heap (sample_pool row3) = (Ok rows, s') /\ keeps (sample_pool row3) s' /\ NoDup rows.*1 /\
  rows = heap_rows (ps_view (sample_pool row3)) [0] /\
  forall rid t, (rid, t) ∈ rows <-> heap_tuple (ps_view (sample_pool row3)) [0] rid = Some t.
Proof. apply heap_scan_ok; [apply sample_ok, row3_fits | apply sample_room; lia]. Defined.

(** The model runs: insert, look up, delete and scan on the pool itself. *)
Example heap_run : fst ((rid ← heap_insert big_row; t ← lift_fst (heap_get rid); b ← lift_fst (heap_delete rid);
  rid2 ← heap_insert row3; rows ← lift_fst (heap_scan (mkHeap 0 1)); mret (rid, bool_decide (t = Some big_row), b, rid2, rows))
  (sample_pool row3, sample_heap)) =
  Ok (mkRID 1 0, true, true, mkRID 2 0, [(mkRID 0 0, row3); (mkRID 2 0, row3)]).
Proof. vm_compute. reflexivity. Qed.
