(* ===== verification/HeapScan.v ===== *)
(** A heap scan whose consumer works on the store between two rows, as the loop of
    CREATE INDEX does: while the generator is suspended its page stays pinned,
    and the consumer runs on the store as [HeldStore.v] sees it. *)
From stdpp Require Import base numbers list gmap.
From Stdlib Require Import ZArith Lia Strings.Byte.
From S2P Require Import Prelude Disk PageStore HeldStore HeapPage HeapFile HeapFileProps.

Local Open Scope Z_scope.

Section scan.
Context {S H : Type} {store : PageStore S H} {core : PageStoreCore S H}.
Context {A : Type} (body : A -> RID -> list byte -> M S A) (ps : list Z) (rows : list (RID * list byte)).

(** What holds after the rows [done], given the accumulator, the contents of the
    store and the number of its pages. *)
Context (R : list (RID * list byte) -> A -> gmap Z (list byte) -> Z -> Prop).

(** The consumer, on any store at rest: it changes no page of the heap. *)
Definition consumes (K : PageStoreCore S H) (s : S) (done new : list (RID * list byte)) (acc : A) (m : M S A) : Prop :=
  runs m s (fun acc' s' => @idle S H store K s' /\ @ps_cap S H store K s' = @ps_cap S H store K s /\ ps_count s <= ps_count s' /\
    (forall q, q ∈ ps -> @ps_view S H store K s' !! q = @ps_view S H store K s !! q) /\
    R (done ++ new) acc' (@ps_view S H store K s') (ps_count s')).
Context (Hbody : forall (K : PageStoreCore S H) s done x todo acc, rows = done ++ x :: todo -> @idle S H store K s ->
  R done acc (@ps_view S H store K s) (ps_count s) -> consumes K s done [x] acc (body acc x.1 x.2)).

Lemma consumes_slots h p d n f nx : p ∈ ps -> hp_wf d n f nx -> forall k i done todo acc s, 0 <= i -> i + Z.of_nat k <= n ->
  rows = done ++ slot_rows d p i k ++ todo -> @idle S H store (held_store h p) s -> ps_view s !! p = Some d ->
  R done acc (ps_view s) (ps_count s) ->
  consumes (held_store h p) s done (slot_rows d p i k) acc (scan_slots body h p i k acc).
Proof using Hbody.
  intros Hp Hwf. induction k as [|k IH]; intros i done todo acc s Hi Hk Erows Hs Hd HR.
  { cbn [scan_slots slot_rows]. unfold consumes. rstep. by rewrite app_nil_r. }
  cbn [scan_slots slot_rows] in *. destruct Hs as [Hinv Hpins Hcap]. destruct (ps_get_ok s h p (hi_inv _ _ _ Hinv) (hi_holds _ _ _ Hinv)) as (d0 & Hg & Hd0).
  rewrite Hd in Hd0. injection Hd0 as <-. unfold consumes. rstep. apply (runs_eq _ _ _ _ _ Hg). rstep.
  eapply runs_lift_result; [apply (read_slot_ok d i); [apply Hwf | done | eapply hp_slot_in_page; [done | lia]]|].
  cbn [fst snd]. unfold slot_tuple in *. rewrite (hw_num _ _ _ _ Hwf) in *. replace ((0 <=? i) && (i <? n)) with true in * by lia.
  destruct (_ =? DELETED); rstep.
  - rstep. apply (IH (i + 1) done todo); try done; lia.
  - cbn [app] in Erows. match type of Erows with _ = _ ++ ?y :: _ => set (x := y) in * end.
    eapply runs_mono; [apply (Hbody (held_store h p) s done x (slot_rows d p (i + 1) k ++ todo) acc); done|].
    intros acc' s' (Hs' & C' & N' & F' & HR').
    eapply runs_mono; [apply (IH (i + 1) (done ++ [x]) todo acc' s'); try done; try lia|].
    + by rewrite <- app_assoc.
    + change (@ps_view S H store (held_store h p)) with (@ps_view S H store core) in F'. by rewrite F'.
    + intros acc2 s2 (Hs2 & C2 & N2 & F2 & HR2). rewrite <- app_assoc in HR2. split_and!; try done; [congruence | lia |]. intros q Hq. by rewrite F2, F'.
Qed.

Lemma consumes_pages fuel : forall p ps1 done acc s, idle s -> 3 <= ps_cap s -> chain (ps_view s) (p :: ps1) -> INVALID_PAGE_ID ∉ p :: ps1 ->
  (forall q, q ∈ p :: ps1 -> q ∈ ps) -> (length ps1 < fuel)%nat -> rows = done ++ heap_rows (ps_view s) (p :: ps1) -> R done acc (ps_view s) (ps_count s) ->
  consumes core s done (heap_rows (ps_view s) (p :: ps1)) acc (scan_pages body fuel p acc).
Proof using Hbody.
  induction fuel as [|fuel IH]; intros p ps1 done acc s Hs Hcap3 Hc Hids Hsub Hlen Erows HR; [lia|].
  destruct (chain_in _ _ p Hc ltac:(set_solver)) as (d & n & f & nx & Hd & Hwf).
  pose proof (hp_num_range _ _ _ _ Hwf) as Hn. pose proof Hs as [Hinv Hpins Hcap].
  unfold consumes. cbn [scan_pages]. destruct (Z.eqb_spec p INVALID_PAGE_ID) as [->|Hp]; [set_solver|].
  rstep. eapply runs_mono; [apply ps_fetch_ok; [done | eauto | right; rewrite Hpins, map_size_empty; lia]|].
  intros h s1 (I1 & V1 & P1 & C1 & N1 & Ho & _ & CL1). rstep.
  destruct (ps_get_ok s1 h p I1 Ho) as (d0 & Hg & Hd0). rewrite V1, Hd in Hd0. injection Hd0 as <-.
  apply (runs_eq _ _ _ _ _ Hg). rstep. eapply runs_lift_result; [by apply read_header_ok|]. cbv beta iota. rstep.
  assert (ps_clean s1 p) as Hcl by (apply CL1, ps_unpinned_clean; [done | by rewrite Hpins, lookup_empty]).
  destruct (held_fetched h p s s1 Hinv Hpins I1 P1 Ho Hcl) as [Hh1 Ho1].
  assert (heap_rows (ps_view s) (p :: ps1) = slot_rows d p 0 (Z.to_nat n) ++ heap_rows (ps_view s) ps1) as Er.
  { unfold heap_rows. rewrite bind_cons. f_equal. unfold page_rows. by rewrite Hd, (hw_num _ _ _ _ Hwf). }
  eapply runs_mono; [eapply (consumes_slots h p d n f nx (Hsub p ltac:(left)) Hwf (Z.to_nat n) 0 done (heap_rows (ps_view s) ps1) acc s1); try lia|].
  { by rewrite <- Er. }
  { split; [exact Hh1 | exact Ho1 |]. change (2 <= ps_cap s1 - 1). lia. }
  { by rewrite V1. }
  { by rewrite V1, N1. }
  intros acc2 s2 ([[I2 _ Hpin2 Hcl2] Ho2 _] & C2 & N2 & F2 & HR2). change (others p s2 = ∅) in Ho2. change (ps_cap s2 - 1 = ps_cap s1 - 1) in C2.
  change (@ps_view S H store (held_store h p)) with (@ps_view S H store core) in F2, HR2. rewrite V1 in F2. rstep.
  eapply runs_mono; [apply ps_unpin_pinned; [done | exact Hpin2 | right; apply Hcl2; by rewrite Ho2]|].
  intros [] s3 (I3 & V3 & P3 & C3 & N3 & _). change (ps_pins s3 = others p s2) in P3. rewrite Ho2 in P3.
  assert (idle s3) as Hs3 by (split; [done | done | lia]).
  assert (forall q, q ∈ ps -> ps_view s3 !! q = ps_view s !! q) as F3 by (intros q Hq; rewrite V3; by apply F2).
  rewrite <- V3, <- N3 in HR2. rewrite Er, app_assoc in *.
  inversion Hc as [p' d' n' f' Hd' Hw' | p' q ps' d' n' f' Hd' Hw' Hc']; subst; simplify_eq;
    destruct (hp_wf_unique _ _ _ _ _ _ _ Hwf Hw') as (_ & _ & ->).
  - change (heap_rows (ps_view s) []) with (@nil (RID * list byte)). rewrite app_nil_r.
    destruct fuel; cbn [scan_pages]; rewrite Z.eqb_refl; rstep; split_and!; try done; lia.
  - assert (forall x, x ∈ q :: ps' -> x ∈ ps) as Hsub' by (intros x Hx; apply Hsub; by right).
    assert (heap_rows (ps_view s3) (q :: ps') = heap_rows (ps_view s) (q :: ps')) as Eh by (apply heap_rows_frame; auto).
    rewrite <- Eh in *. eapply runs_mono; [apply (IH q ps' (done ++ slot_rows d p 0 (Z.to_nat n)) acc2 s3); try done|].
    + lia.
    + eapply chain_frame; [| exact Hc']. auto.
    + set_solver.
    + simpl in Hlen. lia.
    + intros r s4 (Hs4 & C4 & N4 & F4 & HR4). split_and!; try done; [lia | lia |]. intros x Hx. by rewrite F4, F3.
Qed.

Lemma consumes_scan hf s acc : idle s -> 3 <= ps_cap s -> heap_ok (ps_view s) hf ps -> rows = heap_rows (ps_view s) ps ->
  R [] acc (ps_view s) (ps_count s) -> consumes core s [] rows acc (scan_fold body hf acc).
Proof using Hbody.
  intros Hs Hcap Hok Erows HR. pose proof Hok as [Hc Hnd Hids Hf _].
  pose proof (chain_length s ps (id_inv s Hs) Hc Hnd) as Hlen.
  assert (ps = first_page_id hf :: tail ps) as Eps by (destruct ps; [inversion Hc | by injection Hf as <-]).
  pose proof (consumes_pages (Z.to_nat (ps_count s)) (first_page_id hf) (tail ps) [] acc s Hs Hcap) as Hp. rewrite <- Eps in Hp.
  unfold consumes, scan_fold. rstep. rstep. rewrite Erows. apply Hp; try done. rewrite Eps in Hlen. cbn [length] in Hlen. lia.
Qed.
End scan.
