(* ===== verification/BTree.v ===== *)
(** The B+-tree index ([src/minirel/index/btree.py], class [BPlusTree]) over a
    page store. A tree object is a [BPlusTree] record; only its root page id
    ever changes, so the operations that change it run on the store together
    with the record and the others on the store alone. Node writers are
    programs on the page's bytearray: what they wrote before an exception
    stays written. Key sizes are non-negative.

    Loops over pages carry fuel. A descent reads one page per level and the
    store does not change under it, so one that visits more pages than there
    are visits one twice and goes on forever. A [range_scan] generator is
    modelled by the fold its consumer runs, [body] being executed at each
    [yield] (no page is pinned there). *)
From stdpp Require Import base numbers list gmap strings.
From Stdlib Require Import ZArith Lia Strings.Byte.
From S2P Require Import Prelude PyNum Types PyVal Disk PageStore HeapPage.

Local Open Scope Z_scope.

(** * Python lists *)

(** [l[i]]: a negative index counts from the end. *)
Definition py_nth {A} (l : list A) (i : Z) : result A :=
  let j := if i <? 0 then i + blen l else i in
  if j <? 0 then Raise IndexError
  else match l !! Z.to_nat j with Some x => Ok x | None => Raise IndexError end.

(** [l[i] = x], [l.insert(i, x)] and [del l[i]] for [i >= 0]. *)
Definition py_set {A} (l : list A) (i : Z) (x : A) : result (list A) :=
  if i <? blen l then Ok (<[Z.to_nat i := x]> l) else Raise IndexError.
Definition py_insert {A} (l : list A) (i : Z) (x : A) : list A :=
  take (Z.to_nat i) l ++ x :: drop (Z.to_nat i) l.
Definition py_del {A} (l : list A) (i : Z) : result (list A) :=
  if i <? blen l then Ok (take (Z.to_nat i) l ++ drop (S (Z.to_nat i)) l) else Raise IndexError.

(** [l[:k]] and [l[k:]] for [k >= 0]; [l[-k:]] and [del l[-k:]] for [0 < k <= len(l)]. *)
Definition py_take {A} (l : list A) (k : Z) : list A := take (Z.to_nat k) l.
Definition py_drop {A} (l : list A) (k : Z) : list A := drop (Z.to_nat k) l.
Definition py_last_k {A} (l : list A) (k : Z) : list A := py_drop l (blen l - k).
Definition py_del_last_k {A} (l : list A) (k : Z) : list A := py_take l (blen l - k).

(** [l.index(x)] on page ids. *)
Fixpoint py_index_from (l : list Z) (x i : Z) : result Z :=
  match l with
  | [] => Raise ValueError
  | y :: l' => if y =? x then Ok i else py_index_from l' x (i + 1)
  end.
Definition py_index (l : list Z) (x : Z) : result Z := py_index_from l x 0.

(** [l.pop(0)] and [l.pop()] *)
Definition py_pop_first {A} (l : list A) : result (A * list A) :=
  match l with x :: l' => Ok (x, l') | [] => Raise IndexError end.
Definition py_pop {A} (l : list A) : result (A * list A) :=
  x ← py_nth l (-1); Ok (x, take (length l - 1) l).

(** * The tree object *)

Definition LEAF_HEADER : Z := 7.
Definition INTERNAL_HEADER : Z := 3.
Definition CHILD_SIZE : Z := 4.
Definition RID_SIZE : Z := 6.

Record BPlusTree : Set := mkTree {
  key_type : ColumnType;
  key_size : Z;
  bt_unique : bool;
  max_leaf_keys : Z;
  min_leaf_keys : Z;
  max_internal_keys : Z;
  min_internal_keys : Z;
  root_page_id : Z }.

(** The attributes [__init__] computes from the key's type and size. *)
Definition tree_params (key_type : ColumnType) (key_size : Z) (unique : bool) (root : Z) : BPlusTree :=
  let key_size := if bool_decide (key_type = INT) then 8 else key_size in
  let entry := key_size + RID_SIZE in
  let max_leaf := Z.max 4 ((PAGE_SIZE - LEAF_HEADER) / entry) in
  let internal_entry := key_size + CHILD_SIZE in
  let max_internal := Z.max 4 ((PAGE_SIZE - INTERNAL_HEADER - CHILD_SIZE) / internal_entry) in
  {| key_type := key_type; key_size := key_size; bt_unique := unique;
     max_leaf_keys := max_leaf; min_leaf_keys := Z.max 1 (max_leaf / 2);
     max_internal_keys := max_internal; min_internal_keys := Z.max 1 ((max_internal - 1) / 2);
     root_page_id := root |}.

Definition set_root (root : Z) (t : BPlusTree) : BPlusTree :=
  {| key_type := key_type t; key_size := key_size t; bt_unique := bt_unique t;
     max_leaf_keys := max_leaf_keys t; min_leaf_keys := min_leaf_keys t;
     max_internal_keys := max_internal_keys t; min_internal_keys := min_internal_keys t;
     root_page_id := root |}.

(** * Keys *)

Definition encode_key (t : BPlusTree) (key : value) : result (list byte) :=
  match key_type t with
  | INT => z ← py_int key; pack_q z
  | _ =>
      let raw := take (Z.to_nat (key_size t)) (str_encode (py_str key)) in
      Ok (raw ++ zeros (key_size t - blen raw))
  end.

(** [raw.rstrip(b"\x00")] *)
Fixpoint lstrip_nul (bs : list byte) : list byte :=
  match bs with x00 :: bs' => lstrip_nul bs' | _ => bs end.
Definition rstrip_nul (bs : list byte) : list byte := reverse (lstrip_nul (reverse bs)).

Definition decode_key (t : BPlusTree) (raw : list byte) : result value :=
  match key_type t with
  | INT => if blen raw =? 8 then z ← unpack_q raw 0; Ok (VInt z) else Raise StructError
  | _ => s ← str_decode (rstrip_nul raw); Ok (VStr s)
  end.

(** * Nodes *)

Definition node_type (d : list byte) : result PageType :=
  b ← py_nth d 0; PageType_of (Z_of_byte b).

(** Programs on one bytearray. *)
Definition put (f : list byte -> result (list byte)) : M (list byte) unit := fun d =>
  match f d with Ok d' => (Ok tt, d') | Raise e => (Raise e, d) end.
Definition put_byte0 (code : Z) : M (list byte) unit :=
  put (fun d => if 0 <? blen d then Ok (slice_set d 0 1 [byte_of_Z code]) else Raise IndexError).
Definition put_u (w : nat) (offset v : Z) : M (list byte) unit :=
  put (fun d => b ← pack_u w v; pack_into d offset b).

(** [struct.unpack_from("<IH", data, offset)] and [struct.pack_into] of it. *)
Definition read_rid (d : list byte) (offset : Z) : result RID :=
  if offset + RID_SIZE <=? blen d then Ok (mkRID (field 4 d offset) (field 2 d (offset + 4)))
  else Raise StructError.
Definition put_rid (offset : Z) (rid : RID) : M (list byte) unit :=
  put (fun d => a ← pack_u 4 (page_id rid); b ← pack_u 2 (slot_id rid); pack_into d offset (a ++ b)).

Fixpoint read_entries (t : BPlusTree) (d : list byte) (offset : Z) (k : nat) : result (list (value * RID)) :=
  match k with
  | O => Ok []
  | S k' =>
      key ← decode_key t (d.[offset : offset + key_size t]);
      let offset := offset + key_size t in
      rid ← read_rid d offset;
      es ← read_entries t d (offset + RID_SIZE) k';
      Ok ((key, rid) :: es)
  end.

Definition read_leaf (t : BPlusTree) (d : list byte) : result (list value * list RID * Z) :=
  num_keys ← unpack_u 2 d 1;
  next_leaf ← unpack_u 4 d 3;
  es ← read_entries t d LEAF_HEADER (Z.to_nat num_keys);
  Ok (es.*1, es.*2, next_leaf).

Fixpoint write_entries (t : BPlusTree) (es : list (value * RID)) (offset : Z) : M (list byte) unit :=
  match es with
  | [] => mret tt
  | (key, rid) :: es' =>
      raw ← lift_result (encode_key t key);
      put (fun d => Ok (slice_set d offset (offset + key_size t) raw));;
      put_rid (offset + key_size t) rid;;
      write_entries t es' (offset + key_size t + RID_SIZE)
  end.

Definition write_leaf (t : BPlusTree) (keys : list value) (rids : list RID) (next_leaf : Z) : M (list byte) unit :=
  put_byte0 (PageType_code BTREE_LEAF);;
  put_u 2 1 (blen keys);;
  put_u 4 3 next_leaf;;
  write_entries t (zip keys rids) LEAF_HEADER.

Fixpoint read_links (t : BPlusTree) (d : list byte) (offset : Z) (k : nat) : result (list (value * Z)) :=
  match k with
  | O => Ok []
  | S k' =>
      key ← decode_key t (d.[offset : offset + key_size t]);
      let offset := offset + key_size t in
      child ← unpack_u 4 d offset;
      ls ← read_links t d (offset + CHILD_SIZE) k';
      Ok ((key, child) :: ls)
  end.

Definition read_internal (t : BPlusTree) (d : list byte) : result (list Z * list value) :=
  num_keys ← unpack_u 2 d 1;
  child ← unpack_u 4 d INTERNAL_HEADER;
  ls ← read_links t d (INTERNAL_HEADER + CHILD_SIZE) (Z.to_nat num_keys);
  Ok (child :: ls.*2, ls.*1).

Fixpoint write_links (t : BPlusTree) (ls : list (value * Z)) (offset : Z) : M (list byte) unit :=
  match ls with
  | [] => mret tt
  | (key, child) :: ls' =>
      raw ← lift_result (encode_key t key);
      put (fun d => Ok (slice_set d offset (offset + key_size t) raw));;
      put_u 4 (offset + key_size t) child;;
      write_links t ls' (offset + key_size t + CHILD_SIZE)
  end.

Definition write_internal (t : BPlusTree) (children : list Z) (keys : list value) : M (list byte) unit :=
  put_byte0 (PageType_code BTREE_INTERNAL);;
  put_u 2 1 (blen keys);;
  child0 ← lift_result (py_nth children 0);
  put_u 4 INTERNAL_HEADER child0;;
  write_links t (zip keys (drop 1 children)) (INTERNAL_HEADER + CHILD_SIZE).

(** * Where a full leaf is cut *)

(** [while i < n and keys[i] == x: i += 1] *)
Fixpoint skip_forward (fuel : nat) (keys : list value) (x : value) (i : Z) : result Z :=
  match fuel with
  | O => Raise Diverges
  | S fuel' =>
      if i <? blen keys then
        y ← py_nth keys i; if py_eq y x then skip_forward fuel' keys x (i + 1) else Ok i
      else Ok i
  end.
(** [while j > 0 and keys[j - 1] == x: j -= 1] *)
Fixpoint skip_backward (fuel : nat) (keys : list value) (x : value) (j : Z) : result Z :=
  match fuel with
  | O => Raise Diverges
  | S fuel' =>
      if 0 <? j then
        y ← py_nth keys (j - 1); if py_eq y x then skip_backward fuel' keys x (j - 1) else Ok j
      else Ok j
  end.

Definition split_point_avoiding_duplicates (keys : list value) : result Z :=
  let n := blen keys in
  let mid := n / 2 in
  y ← py_nth keys mid;
  x ← py_nth keys (mid - 1);
  if negb (py_eq y x) then Ok mid else
  i ← skip_forward (S (length keys)) keys x mid;
  if i <? n then Ok i else
  j ← skip_backward (S (length keys)) keys x (mid - 1);
  if 0 <? j then Ok j else Raise ValueError.

(** * Operations *)

Section btree.
Context {S H : Type} `{PageStore S H}.

(** Run a program on the bytearray of a pinned page, in place. *)
Definition on_page {A} (h : H) (m : M (list byte) A) : M S A :=
  d ← ps_get h;
  let '(r, d') := m d in
  ps_set h d';;
  lift_result r.

Definition read_page_leaf (t : BPlusTree) (h : H) : M S (list value * list RID * Z) :=
  d ← ps_get h; lift_result (read_leaf t d).
Definition read_page_internal (t : BPlusTree) (h : H) : M S (list Z * list value) :=
  d ← ps_get h; lift_result (read_internal t d).
Definition page_node_type (h : H) : M S PageType :=
  d ← ps_get h; lift_result (node_type d).

Definition bt_init (key_type : ColumnType) (key_size : Z) (root : option Z) (unique : bool) : M S BPlusTree :=
  if negb (bool_decide (key_type = INT) || bool_decide (key_type = TEXT)) then raise ValueError else
  match root with
  | Some r => mret (tree_params key_type key_size unique r)
  | None =>
      new ← ps_new;
      on_page (snd new) (write_leaf (tree_params key_type key_size unique (fst new)) [] [] INVALID_PAGE_ID);;
      ps_unpin (fst new) true;;
      mret (tree_params key_type key_size unique (fst new))
  end.

(** ** Search *)

Fixpoint find_leaf_path_from (fuel : nat) (t : BPlusTree) (key : value) (page_id : Z) (path : list Z) : M S (list Z) :=
  match fuel with
  | O => raise Diverges
  | Datatypes.S fuel' =>
      data ← ps_fetch page_id;
      ty ← page_node_type data;
      match ty with
      | BTREE_LEAF => ps_unpin page_id false;; mret path
      | _ =>
          node ← read_page_internal t data;
          ps_unpin page_id false;;
          idx ← lift_result (bisect_right (snd node) key);
          child ← lift_result (py_nth (fst node) idx);
          find_leaf_path_from fuel' t key child (path ++ [child])
      end
  end.

Definition find_leaf_path (t : BPlusTree) (key : value) : M S (list Z) :=
  n ← gets ps_count;
  find_leaf_path_from (Datatypes.S (Z.to_nat n)) t key (root_page_id t) [root_page_id t].

Definition bt_search (t : BPlusTree) (key : value) : M S (list RID) :=
  path ← find_leaf_path t key;
  leaf_id ← lift_result (py_nth path (-1));
  data ← ps_fetch leaf_id;
  try_finally
    (node ← read_page_leaf t data;
     let '(keys, rids, _) := node in
     lo ← lift_result (bisect_left keys key);
     hi ← lift_result (bisect_right keys key);
     mret (rids.[lo : hi]))
    (ps_unpin leaf_id false).

Fixpoint leftmost_leaf_from (fuel : nat) (t : BPlusTree) (page_id : Z) : M S Z :=
  match fuel with
  | O => raise Diverges
  | Datatypes.S fuel' =>
      data ← ps_fetch page_id;
      ty ← page_node_type data;
      match ty with
      | BTREE_LEAF => ps_unpin page_id false;; mret page_id
      | _ =>
          node ← read_page_internal t data;
          ps_unpin page_id false;;
          child ← lift_result (py_nth (fst node) 0);
          leftmost_leaf_from fuel' t child
      end
  end.

Definition leftmost_leaf (t : BPlusTree) : M S Z :=
  n ← gets ps_count; leftmost_leaf_from (Datatypes.S (Z.to_nat n)) t (root_page_id t).

Section range_scan.
Context {A : Type} (body : A -> value -> RID -> M S A).

(** The rest of one leaf, from index [i]; [false] when the scan is over. *)
Fixpoint scan_leaf (keys : list value) (rids : list RID) (stop : option value) (i : Z) (k : nat) (acc : A) :
    M S (A * bool) :=
  match k with
  | O => mret (acc, true)
  | Datatypes.S k' =>
      key ← lift_result (py_nth keys i);
      past ← match stop with None => mret false | Some e => lift_result (py_gt key e) end;
      if past : bool then mret (acc, false) else
      rid ← lift_result (py_nth rids i);
      acc' ← body acc key rid;
      scan_leaf keys rids stop (i + 1) k' acc'
  end.

Fixpoint scan_leaves (fuel : nat) (t : BPlusTree) (start stop : option value) (leaf_id : Z) (acc : A) : M S A :=
  if leaf_id =? INVALID_PAGE_ID then mret acc else
  match fuel with
  | O => raise Diverges
  | Datatypes.S fuel' =>
      data ← ps_fetch leaf_id;
      node ← read_page_leaf t data;
      ps_unpin leaf_id false;;
      let '(keys, rids, next_leaf) := node in
      lo ← match start with None => mret 0 | Some x => lift_result (bisect_left keys x) end;
      r ← scan_leaf keys rids stop lo (Z.to_nat (blen keys - lo)) acc;
      if snd r : bool then scan_leaves fuel' t start stop next_leaf (fst r) else mret (fst r)
  end.

Definition range_scan_fold (t : BPlusTree) (start stop : option value) (acc : A) : M S A :=
  leaf_id ← match start with
            | Some x => path ← find_leaf_path t x; lift_result (py_nth path (-1))
            | None => leftmost_leaf t
            end;
  n ← gets ps_count;
  scan_leaves (Z.to_nat n) t start stop leaf_id acc.
End range_scan.

(** [list(tree.range_scan(start, stop))] *)
Definition range_scan (t : BPlusTree) (start stop : option value) : M S (list (value * RID)) :=
  range_scan_fold (fun acc key rid => mret (acc ++ [(key, rid)])) t start stop [].

Definition bt_iter (t : BPlusTree) : M S (list (value * RID)) := range_scan t None None.

(** ** Insert *)

(** [ancestors] is [ancestor_path] from its end: [ancestor_path[-1]] first. *)
Fixpoint insert_into_parent (ancestors : list Z) (left_child : Z) (separator : value) (right_child : Z) :
    M (S * BPlusTree) unit :=
  t ← gets snd;
  match ancestors with
  | [] =>
      new ← lift_fst ps_new;
      lift_fst (on_page (snd new) (write_internal t [left_child; right_child] [separator]));;
      lift_fst (ps_unpin (fst new) true);;
      modify (fun st => (fst st, set_root (fst new) (snd st)))
  | parent_id :: ancestors' =>
      data ← lift_fst (ps_fetch parent_id);
      node ← lift_fst (read_page_internal t data);
      idx ← lift_result (py_index (fst node) left_child);
      let children := py_insert (fst node) (idx + 1) right_child in
      let keys := py_insert (snd node) idx separator in
      if blen keys <=? max_internal_keys t then
        lift_fst (on_page data (write_internal t children keys));;
        lift_fst (ps_unpin parent_id true)
      else
        let mid := blen keys / 2 in
        up_key ← lift_result (py_nth keys mid);
        let left_keys := py_take keys mid in
        let right_keys := py_drop keys (mid + 1) in
        let left_children := py_take children (mid + 1) in
        let right_children := py_drop children (mid + 1) in
        new ← lift_fst ps_new;
        lift_fst (on_page (snd new) (write_internal t right_children right_keys));;
        lift_fst (ps_unpin (fst new) true);;
        lift_fst (on_page data (write_internal t left_children left_keys));;
        lift_fst (ps_unpin parent_id true);;
        insert_into_parent ancestors' parent_id up_key (fst new)
  end.

Definition bt_insert (key : value) (rid : RID) : M (S * BPlusTree) unit :=
  t ← gets snd;
  dup ← (if bt_unique t then rs ← lift_fst (bt_search t key); mret (negb (bool_decide (rs = []))) else mret false);
  if dup : bool then raise DuplicateKeyError else
  path ← lift_fst (find_leaf_path t key);
  leaf_id ← lift_result (py_nth path (-1));
  data ← lift_fst (ps_fetch leaf_id);
  node ← lift_fst (read_page_leaf t data);
  let '(keys0, rids0, next_leaf) := node in
  pos ← lift_result (bisect_right keys0 key);
  let keys := py_insert keys0 pos key in
  let rids := py_insert rids0 pos rid in
  if blen keys <=? max_leaf_keys t then
    lift_fst (on_page data (write_leaf t keys rids next_leaf));;
    lift_fst (ps_unpin leaf_id true)
  else
    mid ← lift_result (split_point_avoiding_duplicates keys);
    let left_keys := py_take keys mid in
    let right_keys := py_drop keys mid in
    let left_rids := py_take rids mid in
    let right_rids := py_drop rids mid in
    new ← lift_fst ps_new;
    lift_fst (on_page (snd new) (write_leaf t right_keys right_rids next_leaf));;
    lift_fst (ps_unpin (fst new) true);;
    lift_fst (on_page data (write_leaf t left_keys left_rids (fst new)));;
    lift_fst (ps_unpin leaf_id true);;
    separator ← lift_result (py_nth right_keys 0);
    insert_into_parent (drop 1 (reverse path)) leaf_id separator (fst new).

(** ** Delete *)

(** [for i in range(i, i + k): if rids[i] == rid] *)
Fixpoint find_rid (rids : list RID) (rid : RID) (i : Z) (k : nat) : result (option Z) :=
  match k with
  | O => Ok None
  | Datatypes.S k' =>
      r ← py_nth rids i;
      if bool_decide (r = rid) then Ok (Some i) else find_rid rids rid (i + 1) k'
  end.

Definition commit_internal (t : BPlusTree) (page_id : Z) (children : list Z) (keys : list value) : M S unit :=
  data ← ps_fetch page_id;
  on_page data (write_internal t children keys);;
  ps_unpin page_id true.

(** Fetch a leaf, overwrite it, unpin it as dirty. *)
Definition store_leaf (t : BPlusTree) (page_id : Z) (keys : list value) (rids : list RID) (next_leaf : Z) : M S unit :=
  data ← ps_fetch page_id;
  on_page data (write_leaf t keys rids next_leaf);;
  ps_unpin page_id true.

(** [fetch_page(None)]: a frame is taken for it before [read_page] compares
    [None] with the page count, as it is for a page that does not exist. *)
Definition fetch_none {A} : M S A := fun s =>
  match (n ← gets ps_count; ps_fetch n) s with
  | (Raise ValueError, s') => (Raise TypeError, s')
  | (Raise e, s') => (Raise e, s')
  | (Ok _, s') => (Raise TypeError, s')
  end.

(** Fetch a leaf, or an internal node, decode it and unpin it. *)
Definition load_leaf (t : BPlusTree) (page_id : Z) : M S (list value * list RID * Z) :=
  data ← ps_fetch page_id;
  node ← read_page_leaf t data;
  ps_unpin page_id false;;
  mret node.
Definition load_internal (t : BPlusTree) (page_id : Z) : M S (list Z * list value) :=
  data ← ps_fetch page_id;
  node ← read_page_internal t data;
  ps_unpin page_id false;;
  mret node.

(** [k = 1; while k < len(r) and r[k] == r[0]: k += 1], and from the end. *)
Fixpoint leading_run (fuel : nat) (r : list value) (k : Z) : result Z :=
  match fuel with
  | O => Raise Diverges
  | Datatypes.S fuel' =>
      if k <? blen r then
        y ← py_nth r k; x ← py_nth r 0;
        if py_eq y x then leading_run fuel' r (k + 1) else Ok k
      else Ok k
  end.
Fixpoint trailing_run (fuel : nat) (l : list value) (k : Z) : result Z :=
  match fuel with
  | O => Raise Diverges
  | Datatypes.S fuel' =>
      if k <? blen l then
        y ← py_nth l (-1 - k); x ← py_nth l (-1);
        if py_eq y x then trailing_run fuel' l (k + 1) else Ok k
      else Ok k
  end.

(** The sibling left or right of child [idx], if there is one. *)
Definition right_sibling (p_children : list Z) (idx : Z) : result (option Z) :=
  if idx + 1 <? blen p_children then c ← py_nth p_children (idx + 1); Ok (Some c) else Ok None.
Definition left_sibling (p_children : list Z) (idx : Z) : result (option Z) :=
  if 0 <? idx then c ← py_nth p_children (idx - 1); Ok (Some c) else Ok None.

(** May [k] entries move from a sibling with [have] to a leaf with [count]? *)
Definition can_borrow (t : BPlusTree) (k have count : Z) : bool :=
  (k <? have) && (min_leaf_keys t <=? have - k) && (count + k <=? max_leaf_keys t).

Section fixup_leaf.
Context (t : BPlusTree) (parent_id : Z) (p_children : list Z) (p_keys : list value) (idx node_id : Z)
  (keys : list value) (rids : list RID) (next_leaf : Z).

(** Each returns whether it did the job. *)
Definition borrow_leaf_right (right_id : option Z) : M S bool :=
  match right_id with
  | None => mret false
  | Some right_id =>
      r_data ← ps_fetch right_id;
      node ← read_page_leaf t r_data;
      let '(r_keys, r_rids, r_next) := node in
      k ← lift_result (leading_run (Datatypes.S (length r_keys)) r_keys 1);
      if can_borrow t k (blen r_keys) (blen keys) then
        let keys := keys ++ py_take r_keys k in
        let rids := rids ++ py_take r_rids k in
        let r_keys := py_drop r_keys k in
        let r_rids := py_drop r_rids k in
        on_page r_data (write_leaf t r_keys r_rids r_next);;
        ps_unpin right_id true;;
        store_leaf t node_id keys rids next_leaf;;
        sep ← lift_result (py_nth r_keys 0);
        p_keys' ← lift_result (py_set p_keys idx sep);
        commit_internal t parent_id p_children p_keys';;
        mret true
      else ps_unpin right_id false;; mret false
  end.

Definition borrow_leaf_left (left_id : option Z) : M S bool :=
  match left_id with
  | None => mret false
  | Some left_id =>
      l_data ← ps_fetch left_id;
      node ← read_page_leaf t l_data;
      let '(l_keys, l_rids, l_next) := node in
      k ← lift_result (trailing_run (Datatypes.S (length l_keys)) l_keys 1);
      if can_borrow t k (blen l_keys) (blen keys) then
        let keys := py_last_k l_keys k ++ keys in
        let rids := py_last_k l_rids k ++ rids in
        let l_keys := py_del_last_k l_keys k in
        let l_rids := py_del_last_k l_rids k in
        on_page l_data (write_leaf t l_keys l_rids l_next);;
        ps_unpin left_id true;;
        store_leaf t node_id keys rids next_leaf;;
        sep ← lift_result (py_nth keys 0);
        p_keys' ← lift_result (py_set p_keys (idx - 1) sep);
        commit_internal t parent_id p_children p_keys';;
        mret true
      else ps_unpin left_id false;; mret false
  end.

(** Merge, or redistribute at a fresh split point; the parent's new contents. *)
Definition combine_leaf_right (right_id : Z) : M S (list Z * list value) :=
  node ← load_leaf t right_id;
  let '(r_keys, r_rids, r_next) := node in
  let combined_keys := keys ++ r_keys in
  let combined_rids := rids ++ r_rids in
  if blen combined_keys <=? max_leaf_keys t then
    store_leaf t node_id combined_keys combined_rids r_next;;
    p_children' ← lift_result (py_del p_children (idx + 1));
    p_keys' ← lift_result (py_del p_keys idx);
    mret (p_children', p_keys')
  else
    split ← lift_result (split_point_avoiding_duplicates combined_keys);
    store_leaf t node_id (py_take combined_keys split) (py_take combined_rids split) right_id;;
    store_leaf t right_id (py_drop combined_keys split) (py_drop combined_rids split) r_next;;
    sep ← lift_result (py_nth combined_keys split);
    p_keys' ← lift_result (py_set p_keys idx sep);
    mret (p_children, p_keys').

Definition combine_leaf_left (left_id : option Z) : M S (list Z * list value) :=
  match left_id with
  | None => fetch_none
  | Some left_id =>
      node ← load_leaf t left_id;
      let '(l_keys, l_rids, l_next) := node in
      let combined_keys := l_keys ++ keys in
      let combined_rids := l_rids ++ rids in
      if blen combined_keys <=? max_leaf_keys t then
        store_leaf t left_id combined_keys combined_rids next_leaf;;
        p_children' ← lift_result (py_del p_children idx);
        p_keys' ← lift_result (py_del p_keys (idx - 1));
        mret (p_children', p_keys')
      else
        split ← lift_result (split_point_avoiding_duplicates combined_keys);
        store_leaf t left_id (py_take combined_keys split) (py_take combined_rids split) node_id;;
        store_leaf t node_id (py_drop combined_keys split) (py_drop combined_rids split) next_leaf;;
        sep ← lift_result (py_nth combined_keys split);
        p_keys' ← lift_result (py_set p_keys (idx - 1) sep);
        mret (p_children, p_keys')
  end.
End fixup_leaf.

Definition fixup_leaf (t : BPlusTree) (parent_id : Z) (p_children : list Z) (p_keys : list value) (idx : Z) : M S unit :=
  node_id ← lift_result (py_nth p_children idx);
  node ← load_leaf t node_id;
  let '(keys, rids, next_leaf) := node in
  right_id ← lift_result (right_sibling p_children idx);
  left_id ← lift_result (left_sibling p_children idx);
  done ← borrow_leaf_right t parent_id p_children p_keys idx node_id keys rids next_leaf right_id;
  if done : bool then mret tt else
  done ← borrow_leaf_left t parent_id p_children p_keys idx node_id keys rids next_leaf left_id;
  if done : bool then mret tt else
  p ← match right_id with
      | Some right_id => combine_leaf_right t p_children p_keys idx node_id keys rids right_id
      | None => combine_leaf_left t p_children p_keys idx node_id keys rids next_leaf left_id
      end;
  commit_internal t parent_id (fst p) (snd p).

Section fixup_internal.
Context (t : BPlusTree) (parent_id : Z) (p_children : list Z) (p_keys : list value) (idx node_id : Z)
  (children : list Z) (keys : list value).

Definition rotate_right (right_id : option Z) : M S bool :=
  match right_id with
  | None => mret false
  | Some right_id =>
      r_data ← ps_fetch right_id;
      node ← read_page_internal t r_data;
      let '(r_children, r_keys) := node in
      if min_internal_keys t <? blen r_keys then
        sep ← lift_result (py_nth p_keys idx);
        let keys := keys ++ [sep] in
        c ← lift_result (py_pop_first r_children);
        let children := children ++ [fst c] in
        k ← lift_result (py_pop_first r_keys);
        on_page r_data (write_internal t (snd c) (snd k));;
        ps_unpin right_id true;;
        commit_internal t node_id children keys;;
        p_keys' ← lift_result (py_set p_keys idx (fst k));
        commit_internal t parent_id p_children p_keys';;
        mret true
      else ps_unpin right_id false;; mret false
  end.

Definition rotate_left (left_id : option Z) : M S bool :=
  match left_id with
  | None => mret false
  | Some left_id =>
      l_data ← ps_fetch left_id;
      node ← read_page_internal t l_data;
      let '(l_children, l_keys) := node in
      if min_internal_keys t <? blen l_keys then
        sep ← lift_result (py_nth p_keys (idx - 1));
        let keys := sep :: keys in
        c ← lift_result (py_pop l_children);
        let children := fst c :: children in
        k ← lift_result (py_pop l_keys);
        on_page l_data (write_internal t (snd c) (snd k));;
        ps_unpin left_id true;;
        commit_internal t node_id children keys;;
        p_keys' ← lift_result (py_set p_keys (idx - 1) (fst k));
        commit_internal t parent_id p_children p_keys';;
        mret true
      else ps_unpin left_id false;; mret false
  end.

Definition merge_internal_right (right_id : Z) : M S (list Z * list value) :=
  node ← load_internal t right_id;
  let '(r_children, r_keys) := node in
  sep ← lift_result (py_nth p_keys idx);
  commit_internal t node_id (children ++ r_children) (keys ++ [sep] ++ r_keys);;
  p_children' ← lift_result (py_del p_children (idx + 1));
  p_keys' ← lift_result (py_del p_keys idx);
  mret (p_children', p_keys').

Definition merge_internal_left (left_id : option Z) : M S (list Z * list value) :=
  match left_id with
  | None => fetch_none
  | Some left_id =>
      node ← load_internal t left_id;
      let '(l_children, l_keys) := node in
      sep ← lift_result (py_nth p_keys (idx - 1));
      commit_internal t left_id (l_children ++ children) (l_keys ++ [sep] ++ keys);;
      p_children' ← lift_result (py_del p_children idx);
      p_keys' ← lift_result (py_del p_keys (idx - 1));
      mret (p_children', p_keys')
  end.
End fixup_internal.

Definition fixup_internal (t : BPlusTree) (parent_id : Z) (p_children : list Z) (p_keys : list value) (idx : Z) : M S unit :=
  node_id ← lift_result (py_nth p_children idx);
  node ← load_internal t node_id;
  let '(children, keys) := node in
  right_id ← lift_result (right_sibling p_children idx);
  left_id ← lift_result (left_sibling p_children idx);
  done ← rotate_right t parent_id p_children p_keys idx node_id children keys right_id;
  if done : bool then mret tt else
  done ← rotate_left t parent_id p_children p_keys idx node_id children keys left_id;
  if done : bool then mret tt else
  p ← match right_id with
      | Some right_id => merge_internal_right t p_children p_keys idx node_id children keys right_id
      | None => merge_internal_left t p_children p_keys idx children keys left_id
      end;
  commit_internal t parent_id (fst p) (snd p).

Definition maybe_shrink_root : M (S * BPlusTree) unit :=
  t ← gets snd;
  data ← lift_fst (ps_fetch (root_page_id t));
  ty ← lift_fst (page_node_type data);
  match ty with
  | BTREE_INTERNAL =>
      node ← lift_fst (read_page_internal t data);
      lift_fst (ps_unpin (root_page_id t) false);;
      if blen (snd node) =? 0 then
        child ← lift_result (py_nth (fst node) 0);
        modify (fun st => (fst st, set_root child (snd st)))
      else mret tt
  | _ => lift_fst (ps_unpin (root_page_id t) false)
  end.

(** [levels] is [path] from its end: the node of this level, then its parent. *)
Fixpoint fixup_after_delete (levels : list Z) : M (S * BPlusTree) unit :=
  t ← gets snd;
  match levels with
  | node_id :: ((parent_id :: _) as levels') =>
      data ← lift_fst (ps_fetch node_id);
      ty ← lift_fst (page_node_type data);
      let is_leaf := bool_decide (PageType_code ty = PageType_code BTREE_LEAF) in
      counts ← (if is_leaf
                then node ← lift_fst (read_page_leaf t data); mret (blen node.1.1, min_leaf_keys t)
                else node ← lift_fst (read_page_internal t data); mret (blen node.2, min_internal_keys t));
      lift_fst (ps_unpin node_id false);;
      if snd counts <=? fst counts then mret tt else
      parent_data ← lift_fst (ps_fetch parent_id);
      p ← lift_fst (read_page_internal t parent_data);
      idx ← lift_result (py_index (fst p) node_id);
      lift_fst (ps_unpin parent_id false);;
      lift_fst (if is_leaf then fixup_leaf t parent_id (fst p) (snd p) idx
                else fixup_internal t parent_id (fst p) (snd p) idx);;
      fixup_after_delete levels'
  | _ => maybe_shrink_root
  end.

Definition bt_delete (key : value) (rid : RID) : M (S * BPlusTree) bool :=
  t ← gets snd;
  path ← lift_fst (find_leaf_path t key);
  leaf_id ← lift_result (py_nth path (-1));
  data ← lift_fst (ps_fetch leaf_id);
  node ← lift_fst (read_page_leaf t data);
  let '(keys, rids, next_leaf) := node in
  lo ← lift_result (bisect_left keys key);
  hi ← lift_result (bisect_right keys key);
  target ← lift_result (find_rid rids rid lo (Z.to_nat (hi - lo)));
  match target with
  | None => lift_fst (ps_unpin leaf_id false);; mret false
  | Some i =>
      keys' ← lift_result (py_del keys i);
      rids' ← lift_result (py_del rids i);
      lift_fst (on_page data (write_leaf t keys' rids' next_leaf));;
      lift_fst (ps_unpin leaf_id true);;
      fixup_after_delete (reverse path);;
      mret true
  end.

(** ** Height *)

Fixpoint height_from (fuel : nat) (t : BPlusTree) (page_id h : Z) : M S Z :=
  match fuel with
  | O => raise Diverges
  | Datatypes.S fuel' =>
      data ← ps_fetch page_id;
      ty ← page_node_type data;
      match ty with
      | BTREE_LEAF => ps_unpin page_id false;; mret h
      | _ =>
          node ← read_page_internal t data;
          ps_unpin page_id false;;
          child ← lift_result (py_nth (fst node) 0);
          height_from fuel' t child (h + 1)
      end
  end.

Definition bt_height (t : BPlusTree) : M S Z :=
  n ← gets ps_count; height_from (Datatypes.S (Z.to_nat n)) t (root_page_id t) 1.

End btree.
