(* ===== verification/BTreeNode.v ===== *)
(** The B+-tree's node codec: what a leaf or an internal node that was written
    to a page reads back as, and which keys survive being stored. *)
From stdpp Require Import base numbers list gmap strings.
From Stdlib Require Import ZArith Lia Strings.Byte.
From S2P Require Import Prelude PyNum Types PyVal Disk PageStore HeapPage BTree.

Local Open Scope Z_scope.

(** * Well-formed trees and what they can store *)

(** The sizes [__init__] computes, with room for a full node in a page. *)
Record tree_wf (t : BPlusTree) : Prop := {
  tw_key : (key_type t = INT /\ key_size t = 8) \/ (key_type t = TEXT /\ 0 <= key_size t);
  tw_max_leaf : 4 <= max_leaf_keys t;
  tw_leaf_fits : LEAF_HEADER + max_leaf_keys t * (key_size t + RID_SIZE) <= PAGE_SIZE;
  tw_max_internal : 4 <= max_internal_keys t;
  tw_internal_fits : INTERNAL_HEADER + CHILD_SIZE + max_internal_keys t * (key_size t + CHILD_SIZE) <= PAGE_SIZE }.

(** A key that a page can hold and give back: a 64-bit integer, or a string of
    at most [key_size] bytes that does not end in a NUL. *)
Definition key_ok (t : BPlusTree) (k : value) : Prop :=
  match key_type t, k with
  | INT, VInt z => - 2 ^ 63 <= z < 2 ^ 63
  | TEXT, VStr s => utf8_valid (str_encode s) = true /\ blen (str_encode s) <= key_size t /\
                    last (str_encode s) <> Some x00
  | _, _ => False
  end.
Definition rid_ok (r : RID) : Prop := 0 <= page_id r < 2 ^ 32 /\ 0 <= slot_id r < 2 ^ 16.

Lemma tree_params_wf ty ks u root :
  ty = INT \/ (ty = TEXT /\ 0 <= ks <= 1016) -> tree_wf (tree_params ty ks u root).
Proof.
  assert (forall h e, 0 < e -> 0 <= h -> h + 4 * e <= PAGE_SIZE -> h + Z.max 4 ((PAGE_SIZE - h) / e) * e <= PAGE_SIZE) as Hfit.
  { intros h e He Hh Hf. pose proof (Z.mul_div_le (PAGE_SIZE - h) e He).
    destruct (Z.max_spec 4 ((PAGE_SIZE - h) / e)) as [[? ->]|[? ->]]; lia. }
  intros [->|[-> Hks]]; (constructor; [| apply Z.le_max_l | apply Hfit | apply Z.le_max_l | apply Hfit]);
    unfold tree_params, PAGE_SIZE, LEAF_HEADER, INTERNAL_HEADER, CHILD_SIZE, RID_SIZE;
    cbn [key_type key_size]; repeat (rewrite bool_decide_true by done);
    repeat (rewrite bool_decide_false by done); lia || auto with lia.
Qed.

Lemma key_ok_kind t a b : key_ok t a -> key_ok t b -> same_kind a b.
Proof. unfold key_ok. destruct (key_type t), a, b; try done; constructor. Qed.

(** A value that can be compared with the keys: of the column's type, whether or
    not a page could hold it. *)
Definition probe_ok (t : BPlusTree) (k : value) : Prop :=
  match key_type t, k with INT, VInt _ | TEXT, VStr _ => True | _, _ => False end.
Lemma key_ok_probe t k : key_ok t k -> probe_ok t k.
Proof. unfold key_ok, probe_ok. by destruct (key_type t), k. Qed.
Lemma probe_kind t a b : probe_ok t a -> key_ok t b -> same_kind a b.
Proof. unfold probe_ok, key_ok. destruct (key_type t), a, b; try done; constructor. Qed.

(** ** One key *)

Lemma lstrip_nul_zeros n bs : lstrip_nul (replicate n x00 ++ bs) = lstrip_nul bs.
Proof. induction n as [|n IH]; cbn [replicate app lstrip_nul]; done. Qed.

Lemma rstrip_nul_pad n bs : last bs <> Some x00 -> rstrip_nul (bs ++ replicate n x00) = bs.
Proof.
  intros Hl. unfold rstrip_nul. rewrite reverse_app, reverse_replicate, lstrip_nul_zeros.
  destruct bs as [|b bs _] using rev_ind; [done|]. rewrite reverse_snoc. rewrite last_snoc in Hl.
  cbn [lstrip_nul]. destruct b; try done; by rewrite <- reverse_snoc, reverse_involutive.
Qed.

Lemma encode_key_ok t k : tree_wf t -> key_ok t k ->
  exists raw, encode_key t k = Ok raw /\ blen raw = key_size t /\ decode_key t raw = Ok k.
Proof.
  intros Hwf Hk. unfold key_ok, encode_key, decode_key in *.
  destruct (tw_key t Hwf) as [[Ht Hs]|[Ht Hs]]; rewrite Ht in *; destruct k; try done.
  - cbn [py_int mbind result_bind]. rewrite pack_q_in_range by done. exists (le_enc 8 z).
    rewrite blen_le_enc. split_and!; [done | by rewrite Hs | cbn [Z.of_nat]].
    pose proof (unpack_q_app [] z [] Hk) as E. rewrite app_nil_l, app_nil_r, blen_nil in E.
    by rewrite E.
  - destruct Hk as (Hu & Hl & Hn). cbn [py_str]. rewrite take_ge by (unfold blen in Hl; lia).
    eexists. split; [done|]. split.
    + blen.
    + unfold zeros. by rewrite rstrip_nul_pad, str_decode_encode.
Qed.

(** * Consecutive writes *)

Lemma slice_set_adj {A} (l u w : list A) a b c :
  0 <= a <= b -> b <= c -> c <= blen l -> blen u = b - a ->
  slice_set (slice_set l a b u) b c w = slice_set l a c (u ++ w).
Proof.
  intros Hab Hbc Hc Hu. unfold slice_set, blen in *.
  rewrite !Z.max_r by lia. rewrite <- !app_assoc.
  assert (length (take (Z.to_nat a) l) = Z.to_nat a) as Ht by (rewrite length_take; lia).
  rewrite take_app_ge, Ht by (rewrite Ht; lia). rewrite take_app_le, (take_ge u) by lia.
  rewrite drop_app_ge, Ht by (rewrite Ht; lia). rewrite drop_app_ge by lia. rewrite drop_drop.
  rewrite <- app_assoc. do 3 f_equal. f_equal. lia.
Qed.

Lemma slice_prefix {A} (l u w : list A) a b : 0 <= a ->
  l.[a : b] = u ++ w -> a + blen u <= b ->  l.[a : a + blen u] = u /\ l.[a + blen u : b] = w.
Proof.
  intros Ha E Hb. pose proof (blen_nonneg u). split.
  - transitivity ((l.[a : b]).[0 : blen u]); [rewrite slice_slice by lia; f_equal; lia|].
    rewrite E, slice_app_l by lia. apply slice_all.
  - transitivity ((l.[a : b]).[blen u : b - a]); [rewrite slice_slice by lia; f_equal; lia|].
    rewrite E, slice_app_r by lia. rewrite Z.sub_diag.
    assert (blen (u ++ w) <= b - a) as Hl.
    { rewrite <- E. unfold slice, blen. rewrite length_take, length_drop. lia. }
    rewrite blen_app in Hl. unfold slice. rewrite drop_0. apply take_ge. unfold blen in *. lia.
Qed.

Lemma put_u_ok w off v d : 0 <= off -> off + Z.of_nat w <= blen d -> 0 <= v < 256 ^ Z.of_nat w ->
  put_u w off v d = (Ok tt, slice_set d off (off + Z.of_nat w) (le_enc w v)).
Proof.
  intros H0 Hb Hv. unfold put_u, put. rewrite pack_u_in_range by done. cbn [mbind result_bind].
  by rewrite pack_into_in_range, blen_le_enc by (rewrite ?blen_le_enc; lia).
Qed.

Lemma put_byte0_ok c d : 0 < blen d -> put_byte0 c d = (Ok tt, slice_set d 0 1 [byte_of_Z c]).
Proof. intros H. unfold put_byte0, put. by replace (0 <? blen d) with true by lia. Qed.

Definition rid_bytes (r : RID) : list byte := le_enc 4 (page_id r) ++ le_enc 2 (slot_id r).

Lemma put_rid_ok off r d : 0 <= off -> off + RID_SIZE <= blen d -> rid_ok r ->
  put_rid off r d = (Ok tt, slice_set d off (off + RID_SIZE) (rid_bytes r)).
Proof.
  intros H0 Hb [Hp Hs]. unfold put_rid, put, RID_SIZE in *. rewrite !pack_u_in_range by done. cbn [mbind result_bind].
  rewrite pack_into_in_range by (autorewrite with blen; lia). autorewrite with blen. done.
Qed.

Lemma read_rid_ok d off r : rid_ok r -> 0 <= off -> off + RID_SIZE <= blen d ->
  d.[off : off + RID_SIZE] = rid_bytes r -> read_rid d off = Ok r.
Proof.
  intros [Hp Hs] H0 Hb E. unfold read_rid. replace (_ <=? blen d) with true by (unfold RID_SIZE in *; lia).
  apply slice_prefix in E as [E1 E2]; [| done | unfold RID_SIZE; blen]. rewrite blen_le_enc in E1, E2.
  unfold field, RID_SIZE in *. change (Z.of_nat 4) with 4 in *. replace (off + 6) with (off + 4 + 2) in E2 by lia.
  rewrite E1, E2, !le_dec_enc_small by done. by destruct r.
Qed.

(** * Leaves *)

(** The bytes of the entries, as [_write_leaf] lays them out. *)
Inductive entries_bytes (t : BPlusTree) : list (value * RID) -> list byte -> Prop :=
| eb_nil : entries_bytes t [] []
| eb_cons k r es raw bs :
    encode_key t k = Ok raw -> blen raw = key_size t -> decode_key t raw = Ok k -> rid_ok r ->
    entries_bytes t es bs -> entries_bytes t ((k, r) :: es) (raw ++ rid_bytes r ++ bs).

Lemma blen_rid_bytes r : blen (rid_bytes r) = RID_SIZE.
Proof. unfold rid_bytes, RID_SIZE. blen. Qed.

Lemma blen_entries t es bs : entries_bytes t es bs -> blen bs = blen es * (key_size t + RID_SIZE).
Proof.
  induction 1 as [|k r es raw bs _ Hl _ _ _ IH]; [done|].
  rewrite !blen_app, blen_rid_bytes, IH, Hl, blen_cons. lia.
Qed.

Lemma entries_bytes_ex t es : tree_wf t -> Forall (fun e => key_ok t (fst e) /\ rid_ok (snd e)) es ->
  exists bs, entries_bytes t es bs.
Proof.
  intros Hwf. induction es as [|[k r] es IH]; intros Hall; [exists []; constructor|].
  inversion Hall as [|? ? [Hk Hr] Hes]; subst. destruct (IH Hes) as [bs Hbs].
  destruct (encode_key_ok t k Hwf Hk) as (raw & ? & ? & ?). eexists. by econstructor.
Qed.

Lemma write_entries_ok t es bs : 0 <= key_size t -> entries_bytes t es bs -> forall off d,
  0 <= off -> off + blen bs <= blen d ->
  write_entries t es off d = (Ok tt, slice_set d off (off + blen bs) bs).
Proof.
  intros Hks. induction 1 as [|k r es raw bs He Hl _ Hr Hes IH]; intros off d H0 Hb.
  - cbn [write_entries]. unfold slice_set. rewrite blen_nil, Z.add_0_r, Z.max_id, app_nil_l, take_drop. done.
  - rewrite !blen_app, blen_rid_bytes, Hl in Hb. pose proof (blen_nonneg bs). unfold RID_SIZE in *.
    cbn [write_entries]. rewrite He. mstep.
    rewrite (bind_ok _ _ _ tt (slice_set d off (off + key_size t) raw)) by done.
    erewrite bind_ok; [| apply put_rid_ok; [lia | unfold RID_SIZE; rewrite blen_slice_set; lia | done]].
    unfold RID_SIZE. rewrite slice_set_adj by lia. pose proof (blen_rid_bytes r) as Hrb. unfold RID_SIZE in Hrb.
    assert (blen (raw ++ rid_bytes r) = key_size t + 6) as Hlb by (rewrite blen_app; lia).
    rewrite IH by (try rewrite blen_slice_set; lia). rewrite slice_set_adj by lia.
    rewrite <- app_assoc. do 2 f_equal. rewrite !blen_app. lia.
Qed.

Lemma read_entries_ok t es bs : 0 <= key_size t -> entries_bytes t es bs -> forall off d,
  0 <= off -> off + blen bs <= blen d -> d.[off : off + blen bs] = bs ->
  read_entries t d off (length es) = Ok es.
Proof.
  intros Hks. induction 1 as [|k r es raw bs He Hl Hd Hr Hes IH]; intros off d H0 Hb E; [done|].
  rewrite !blen_app, blen_rid_bytes, Hl in Hb, E. pose proof (blen_nonneg bs). unfold RID_SIZE in *.
  apply slice_prefix in E as [E1 E]; [| lia | lia]. rewrite Hl in E1, E.
  apply slice_prefix in E as [E2 E3]; [| lia | rewrite blen_rid_bytes; unfold RID_SIZE; lia].
  rewrite blen_rid_bytes in E2, E3. unfold RID_SIZE in *. cbn [read_entries length].
  rewrite E1, Hd. cbn [mbind result_bind].
  rewrite (read_rid_ok d _ r Hr) by (unfold RID_SIZE in *; lia || exact E2). cbn [mbind result_bind].
  unfold RID_SIZE. rewrite IH; [done | lia | lia |].
  rewrite <- E3 at 2. f_equal. lia.
Qed.

(** A page that decodes to a leaf. *)
Record leaf_page (t : BPlusTree) (d : list byte) (ks : list value) (rs : list RID) (nx : Z) : Prop := {
  lp_size : blen d = PAGE_SIZE;
  lp_type : node_type d = Ok BTREE_LEAF;
  lp_read : read_leaf t d = Ok (ks, rs, nx) }.

Lemma node_type_set d code ty n all : PageType_of (code mod 256) = Ok ty ->
  node_type (slice_set d 0 n (byte_of_Z code :: all)) = Ok ty.
Proof.
  intros Hty. unfold node_type. assert (py_nth (slice_set d 0 n (byte_of_Z code :: all)) 0 = Ok (byte_of_Z code)) as E.
  { unfold slice_set. change (Z.to_nat 0) with 0%nat. rewrite take_0. reflexivity. }
  rewrite E. cbn [mbind result_bind]. by rewrite Z_of_byte_of_Z.
Qed.

Lemma body_of_set (d : list byte) b all : 1 + blen all <= blen d ->
  let d' := slice_set d 0 (1 + blen all) (b :: all) in blen d' = blen d /\ d'.[1 : 1 + blen all] = all.
Proof.
  intros Hl d'. pose proof (blen_nonneg all). assert (blen (b :: all) = 1 + blen all - 0) as Hlc by blen. split.
  - unfold d'. rewrite blen_slice_set; lia.
  - assert (d'.[0 : 1 + blen all] = [b] ++ all) as E by (apply slice_slice_set_eq; [lia | lia | exact Hlc]).
    by apply slice_prefix in E as [_ E]; [| lia | blen].
Qed.

Definition leaf_header_bytes (n nx : Z) : list byte := le_enc 2 n ++ le_enc 4 nx.

Lemma write_leaf_ok t d ks rs nx :
  tree_wf t -> blen d = PAGE_SIZE -> length ks = length rs -> blen ks <= max_leaf_keys t ->
  Forall (key_ok t) ks -> Forall rid_ok rs -> 0 <= nx < 2 ^ 32 ->
  exists d', write_leaf t ks rs nx d = (Ok tt, d') /\ leaf_page t d' ks rs nx.
Proof.
  intros Hwf Hd Hlen Hmax Hks Hrs Hnx.
  assert (0 <= key_size t) as Hk0 by (destruct (tw_key t Hwf) as [[_ ->]|[_ ?]]; lia).
  assert (Forall (fun e => key_ok t (fst e) /\ rid_ok (snd e)) (zip ks rs)) as Hall.
  { apply Forall_lookup. intros i [k r] Hi. rewrite lookup_zip_with in Hi. cbn.
    destruct (ks !! i) eqn:E1, (rs !! i) eqn:E2; try done. injection Hi as <- <-.
    split; eapply Forall_lookup_1; eauto. }
  destruct (entries_bytes_ex t _ Hwf Hall) as [bs Hbs]. pose proof (blen_entries _ _ _ Hbs) as Hlb.
  assert (length (zip ks rs) = length ks) as Hz by (rewrite length_zip_with; lia).
  unfold blen at 2 in Hlb. rewrite Hz in Hlb. fold (blen ks) in Hlb.
  pose proof (tw_leaf_fits t Hwf) as Hf. pose proof (blen_nonneg ks). unfold LEAF_HEADER, RID_SIZE, PAGE_SIZE in *.
  assert (7 + blen bs <= 4096) as Hfit by nia. pose proof (blen_nonneg bs).
  assert (0 <= blen ks < 65536) as Hn by nia.
  set (all := leaf_header_bytes (blen ks) nx ++ bs). exists (slice_set d 0 (1 + blen all) (byte_of_Z 3 :: all)).
  assert (blen all = 6 + blen bs) as Hla by (unfold all, leaf_header_bytes; blen). split.
  - unfold write_leaf. erewrite bind_ok; [| apply put_byte0_ok; lia].
    erewrite bind_ok; [| apply put_u_ok; [lia | rewrite blen_slice_set; [lia | lia | lia | done] | done]].
    rewrite slice_set_adj by (done || lia).
    erewrite bind_ok; [| apply put_u_ok; [lia | rewrite blen_slice_set; blen | done]].
    rewrite slice_set_adj by blen.
    rewrite (write_entries_ok t _ bs Hk0 Hbs) by (unfold LEAF_HEADER; try rewrite blen_slice_set; blen).
    unfold LEAF_HEADER. rewrite slice_set_adj by blen. rewrite Hla.
    unfold all, leaf_header_bytes. rewrite <- !app_assoc. do 2 f_equal. change (Z.of_nat 4) with 4. lia.
  - destruct (body_of_set d (byte_of_Z 3) all ltac:(lia)) as [Hd' E]. set (d' := slice_set _ _ _ _) in *.
    constructor; [unfold PAGE_SIZE; lia | by apply node_type_set |].
    unfold all, leaf_header_bytes in E. rewrite <- app_assoc in E.
    apply slice_prefix in E as [E1 E]; [| lia | blen]. apply slice_prefix in E as [E2 E3]; [| blen | blen].
    rewrite blen_le_enc in E1, E2, E3. change (blen (le_enc 4 nx)) with 4 in *.
    unfold read_leaf. rewrite (unpack_u_enc 2 d' 1 (blen ks)) by (done || lia). cbn [mbind result_bind].
    rewrite (unpack_u_enc 4 d' 3 nx) by (done || lia). cbn [mbind result_bind].
    unfold blen at 1. rewrite Nat2Z.id, <- Hz.
    rewrite (read_entries_ok t _ bs Hk0 Hbs); [| unfold LEAF_HEADER; lia | unfold LEAF_HEADER; lia |].
    + cbn [mbind result_bind]. rewrite fst_zip, snd_zip by lia. done.
    + rewrite <- E3 at 2. unfold LEAF_HEADER. f_equal; blen.
Qed.

(** * Internal nodes *)

Inductive links_bytes (t : BPlusTree) : list (value * Z) -> list byte -> Prop :=
| lb_nil : links_bytes t [] []
| lb_cons k c ls raw bs :
    encode_key t k = Ok raw -> blen raw = key_size t -> decode_key t raw = Ok k -> 0 <= c < 2 ^ 32 ->
    links_bytes t ls bs -> links_bytes t ((k, c) :: ls) (raw ++ le_enc 4 c ++ bs).

Lemma blen_links t ls bs : links_bytes t ls bs -> blen bs = blen ls * (key_size t + CHILD_SIZE).
Proof.
  induction 1 as [|k c ls raw bs _ Hl _ _ _ IH]; [done|].
  rewrite !blen_app, blen_le_enc, IH, Hl, blen_cons. unfold CHILD_SIZE. lia.
Qed.

Lemma links_bytes_ex t ls : tree_wf t -> Forall (fun e => key_ok t (fst e) /\ 0 <= snd e < 2 ^ 32) ls ->
  exists bs, links_bytes t ls bs.
Proof.
  intros Hwf. induction ls as [|[k c] ls IH]; intros Hall; [exists []; constructor|].
  inversion Hall as [|? ? [Hk Hr] Hes]; subst. destruct (IH Hes) as [bs Hbs].
  destruct (encode_key_ok t k Hwf Hk) as (raw & ? & ? & ?). eexists. by econstructor.
Qed.

Lemma write_links_ok t ls bs : 0 <= key_size t -> links_bytes t ls bs -> forall off d,
  0 <= off -> off + blen bs <= blen d ->
  write_links t ls off d = (Ok tt, slice_set d off (off + blen bs) bs).
Proof.
  intros Hks. induction 1 as [|k c ls raw bs He Hl _ Hc Hes IH]; intros off d H0 Hb.
  - cbn [write_links]. unfold slice_set. rewrite blen_nil, Z.add_0_r, Z.max_id, app_nil_l, take_drop. done.
  - rewrite !blen_app, blen_le_enc, Hl in Hb. pose proof (blen_nonneg bs). unfold CHILD_SIZE in *.
    cbn [write_links]. rewrite He. mstep.
    rewrite (bind_ok _ _ _ tt (slice_set d off (off + key_size t) raw)) by done.
    erewrite bind_ok; [| apply put_u_ok; [lia | rewrite blen_slice_set; lia | done]].
    rewrite slice_set_adj by lia. pose proof (blen_le_enc 4 c) as Hrb. unfold CHILD_SIZE.
    assert (blen (raw ++ le_enc 4 c) = key_size t + 4) as Hlb by (rewrite blen_app; lia).
    rewrite IH by (try rewrite blen_slice_set; lia). rewrite slice_set_adj by lia.
    rewrite <- app_assoc. do 2 f_equal. rewrite !blen_app. lia.
Qed.

Lemma read_links_ok t ls bs : 0 <= key_size t -> links_bytes t ls bs -> forall off d,
  0 <= off -> off + blen bs <= blen d -> d.[off : off + blen bs] = bs ->
  read_links t d off (length ls) = Ok ls.
Proof.
  intros Hks. induction 1 as [|k c ls raw bs He Hl Hd Hr Hes IH]; intros off d H0 Hb E; [done|].
  rewrite !blen_app, blen_le_enc, Hl in Hb, E. pose proof (blen_nonneg bs).
  apply slice_prefix in E as [E1 E]; [| lia | lia]. rewrite Hl in E1, E.
  apply slice_prefix in E as [E2 E3]; [| lia | rewrite blen_le_enc; lia].
  rewrite blen_le_enc in E2, E3. cbn [read_links length].
  rewrite E1, Hd. cbn [mbind result_bind].
  rewrite (unpack_u_enc 4 d _ c Hr) by (lia || exact E2). cbn [mbind result_bind].
  unfold CHILD_SIZE. change (Z.of_nat 4) with 4 in *. rewrite IH; [done | lia | lia |].
  rewrite <- E3 at 2. f_equal. lia.
Qed.

(** A page that decodes to an internal node. *)
Record internal_page (t : BPlusTree) (d : list byte) (cs : list Z) (ks : list value) : Prop := {
  ip_size : blen d = PAGE_SIZE;
  ip_type : node_type d = Ok BTREE_INTERNAL;
  ip_read : read_internal t d = Ok (cs, ks) }.

Lemma write_internal_ok t d cs ks :
  tree_wf t -> blen d = PAGE_SIZE -> length cs = S (length ks) -> blen ks <= max_internal_keys t ->
  Forall (key_ok t) ks -> Forall (fun c => 0 <= c < 2 ^ 32) cs ->
  exists d', write_internal t cs ks d = (Ok tt, d') /\ internal_page t d' cs ks.
Proof.
  intros Hwf Hd Hlen Hmax Hks Hcs. destruct cs as [|c0 cs]; [done|]. injection Hlen as Hlen.
  inversion Hcs as [|? ? Hc0 Hcs']; subst.
  assert (0 <= key_size t) as Hk0 by (destruct (tw_key t Hwf) as [[_ ->]|[_ ?]]; lia).
  assert (Forall (fun e => key_ok t (fst e) /\ 0 <= snd e < 2 ^ 32) (zip ks cs)) as Hall.
  { apply Forall_lookup. intros i [k r] Hi. rewrite lookup_zip_with in Hi. cbn.
    destruct (ks !! i) eqn:E1, (cs !! i) eqn:E2; try done. injection Hi as <- <-.
    split; [eapply Forall_lookup_1; eauto | exact (Forall_lookup_1 _ _ _ _ Hcs' E2)]. }
  destruct (links_bytes_ex t _ Hwf Hall) as [bs Hbs]. pose proof (blen_links _ _ _ Hbs) as Hlb.
  assert (length (zip ks cs) = length ks) as Hz by (rewrite length_zip_with; lia).
  unfold blen at 2 in Hlb. rewrite Hz in Hlb. fold (blen ks) in Hlb.
  pose proof (tw_internal_fits t Hwf) as Hf. pose proof (blen_nonneg ks).
  unfold INTERNAL_HEADER, CHILD_SIZE, PAGE_SIZE in *.
  assert (7 + blen bs <= 4096) as Hfit by nia. pose proof (blen_nonneg bs).
  assert (0 <= blen ks < 65536) as Hn by nia.
  set (all := leaf_header_bytes (blen ks) c0 ++ bs). exists (slice_set d 0 (1 + blen all) (byte_of_Z 2 :: all)).
  assert (blen all = 6 + blen bs) as Hla by (unfold all, leaf_header_bytes; blen). split.
  - unfold write_internal. erewrite bind_ok; [| apply put_byte0_ok; lia].
    erewrite bind_ok; [| apply put_u_ok; [lia | rewrite blen_slice_set; [lia | lia | lia | done] | done]].
    rewrite slice_set_adj by (done || lia). change (py_nth (c0 :: cs) 0) with (Ok c0). rewrite bind_lift_ok.
    unfold INTERNAL_HEADER, CHILD_SIZE.
    erewrite bind_ok; [| apply put_u_ok; [lia | rewrite blen_slice_set; blen | done]].
    rewrite slice_set_adj by blen. cbn [drop].
    rewrite (write_links_ok t _ bs Hk0 Hbs) by (try rewrite blen_slice_set; blen).
    rewrite slice_set_adj by blen. rewrite Hla.
    unfold all, leaf_header_bytes. rewrite <- !app_assoc. do 2 f_equal. change (Z.of_nat 4) with 4. lia.
  - destruct (body_of_set d (byte_of_Z 2) all ltac:(lia)) as [Hd' E]. set (d' := slice_set _ _ _ _) in *.
    constructor; [unfold PAGE_SIZE; lia | by apply node_type_set |].
    unfold all, leaf_header_bytes in E. rewrite <- app_assoc in E.
    apply slice_prefix in E as [E1 E]; [| lia | blen]. apply slice_prefix in E as [E2 E3]; [| blen | blen].
    rewrite blen_le_enc in E1, E2, E3. change (blen (le_enc 4 c0)) with 4 in *.
    unfold read_internal, INTERNAL_HEADER, CHILD_SIZE.
    rewrite (unpack_u_enc 2 d' 1 (blen ks)) by (done || lia). cbn [mbind result_bind].
    rewrite (unpack_u_enc 4 d' 3 c0) by (done || lia). cbn [mbind result_bind].
    unfold blen at 1. rewrite Nat2Z.id, <- Hz.
    rewrite (read_links_ok t _ bs Hk0 Hbs); [| lia | lia |].
    + cbn [mbind result_bind]. rewrite fst_zip, snd_zip by lia. done.
    + rewrite <- E3 at 2. f_equal; blen.
Qed.

(** * The split point *)

Lemma py_nth_lookup {A} (l : list A) i x : 0 <= i -> l !! Z.to_nat i = Some x -> py_nth l i = Ok x.
Proof. intros H0 Hx. unfold py_nth. replace (i <? 0) with false by lia. cbv zeta. replace (i <? 0) with false by lia. by rewrite Hx. Qed.

Lemma py_nth_last {A} (l : list A) x : py_nth (l ++ [x]) (-1) = Ok x.
Proof.
  unfold py_nth. change (-1 <? 0) with true. cbv zeta iota. rewrite blen_app, blen_cons, blen_nil.
  pose proof (blen_nonneg l). replace (-1 + _ <? 0) with false by lia.
  rewrite lookup_app_r by (unfold blen; lia). replace (_ - _)%nat with 0%nat by (unfold blen; lia). done.
Qed.

Lemma skip_forward_ok keys x fuel : kinds x keys -> forall i, 0 <= i <= blen keys -> blen keys - i < Z.of_nat fuel ->
  exists r, skip_forward fuel keys x i = Ok r /\ i <= r <= blen keys /\
    (forall j, i <= j < r -> keys !! Z.to_nat j = Some x) /\ (r < blen keys -> keys !! Z.to_nat r <> Some x).
Proof.
  intros Hk. induction fuel as [|fuel IH]; intros i Hi Hf; [lia|]. cbn [skip_forward].
  destruct (Z.ltb_spec i (blen keys)) as [Hlt|Hge].
  - destruct (lookup_lt_is_Some_2 keys (Z.to_nat i)) as [y Hy]; [unfold blen in Hlt; lia|].
    rewrite (py_nth_lookup _ _ y) by (done || lia). cbn [mbind result_bind].
    pose proof (Forall_lookup_1 _ _ _ _ Hk Hy) as Hxy. rewrite py_eq_kind by (by apply same_kind_sym).
    case_bool_decide as E.
    + subst y. destruct (IH (i + 1)) as (r & ? & ? & Hall & Hne); [lia | lia |]. exists r. split_and!; try done; try lia.
      intros j Hj. destruct (decide (j = i)) as [->|]; [done | apply Hall; lia].
    + exists i. split_and!; try done; try lia. rewrite Hy. congruence.
  - exists i. split_and!; try done; lia.
Qed.

Lemma skip_backward_ok keys x fuel : kinds x keys -> forall i, 0 <= i <= blen keys -> i < Z.of_nat fuel ->
  exists r, skip_backward fuel keys x i = Ok r /\ 0 <= r <= i /\
    (forall j, r <= j < i -> keys !! Z.to_nat j = Some x) /\ (0 < r -> keys !! Z.to_nat (r - 1) <> Some x).
Proof.
  intros Hk. induction fuel as [|fuel IH]; intros i Hi Hf; [lia|]. cbn [skip_backward].
  destruct (Z.ltb_spec 0 i) as [Hlt|Hge].
  - destruct (lookup_lt_is_Some_2 keys (Z.to_nat (i - 1))) as [y Hy]; [unfold blen in *; lia|].
    rewrite (py_nth_lookup _ _ y) by (done || lia). cbn [mbind result_bind].
    pose proof (Forall_lookup_1 _ _ _ _ Hk Hy) as Hxy. rewrite py_eq_kind by (by apply same_kind_sym).
    case_bool_decide as E.
    + subst y. destruct (IH (i - 1)) as (r & ? & ? & Hall & Hne); [lia | lia |]. exists r. split_and!; try done; try lia.
      intros j Hj. destruct (decide (j = i - 1)) as [->|]; [done | apply Hall; lia].
    + exists i. split_and!; try done; try lia. rewrite Hy. congruence.
  - exists i. split_and!; try done; lia.
Qed.

(** Either a boundary between two different keys, strictly inside, or the
    keys are all the same. *)
Lemma split_point_cases keys x : kinds x keys -> 2 <= blen keys ->
  (exists i a b, split_point_avoiding_duplicates keys = Ok i /\ 0 < i < blen keys /\
     keys !! Z.to_nat (i - 1) = Some a /\ keys !! Z.to_nat i = Some b /\ a <> b) \/
  (exists a, split_point_avoiding_duplicates keys = Raise ValueError /\ Forall (eq a) keys).
Proof.
  intros Hk Hn. unfold split_point_avoiding_duplicates. cbv zeta. set (n := blen keys) in *. set (mid := n / 2).
  assert (1 <= mid < n) as Hm by (unfold mid; Z.to_euclidean_division_equations; lia).
  destruct (lookup_lt_is_Some_2 keys (Z.to_nat mid)) as [y Hy]; [unfold n, blen in *; lia|].
  destruct (lookup_lt_is_Some_2 keys (Z.to_nat (mid - 1))) as [z Hz]; [unfold n, blen in *; lia|].
  rewrite (py_nth_lookup keys mid y), (py_nth_lookup keys (mid - 1) z) by (done || lia). cbn [mbind result_bind].
  pose proof (Forall_lookup_1 _ _ _ _ Hk Hy) as Hxy. pose proof (Forall_lookup_1 _ _ _ _ Hk Hz) as Hxz.
  rewrite py_eq_kind by (by eapply same_kind_trans; [apply same_kind_sym|]).
  case_bool_decide as E; cbn [negb]; [subst z | left; exists mid, z, y; split_and!; by (lia || auto)].
  assert (kinds y keys) as Hky.
  { eapply Forall_impl; [exact Hk|]. intros u Hu. by eapply same_kind_trans; [apply same_kind_sym|]. }
  destruct (skip_forward_ok keys y (S (length keys)) Hky mid) as (i & -> & Hi & Hf & Hne); [unfold n, blen in *; lia | unfold n, blen in *; lia |].
  cbn [mbind result_bind]. fold n. destruct (Z.ltb_spec i n) as [Hlt|Hge].
  { left. destruct (lookup_lt_is_Some_2 keys (Z.to_nat i)) as [b Hb]; [unfold n, blen in *; lia|].
    exists i, y, b. split_and!; try done; try lia.
    - destruct (decide (i = mid)) as [->|]; [done|]. apply Hf. lia.
    - intros <-. by apply Hne. }
  destruct (skip_backward_ok keys y (S (length keys)) Hky (mid - 1)) as (j & -> & Hj & Hb & Hne2); [unfold n, blen in *; lia | unfold n, blen in *; lia |].
  cbn [mbind result_bind]. destruct (Z.ltb_spec 0 j) as [Hlt|Hge2].
  - left. destruct (lookup_lt_is_Some_2 keys (Z.to_nat (j - 1))) as [a Ha]; [unfold n, blen in *; lia|].
    exists j, a, y. split_and!; try done; try lia.
    + destruct (decide (j = mid - 1)) as [->|]; [done|]. apply Hb. lia.
    + intros ->. by apply Hne2.
  - right. exists y. split; [done|]. apply Forall_lookup. intros u v Hu.
    assert (Z.of_nat u < n) as Hun by (apply lookup_lt_Some in Hu; unfold n, blen; lia).
    assert (keys !! Z.to_nat (Z.of_nat u) = Some y) as Hy2; [| rewrite Nat2Z.id in Hy2; congruence].
    destruct (decide (Z.of_nat u < mid - 1)) as [|]; [apply Hb; lia|].
    destruct (decide (Z.of_nat u = mid - 1)) as [->|]; [done | apply Hf; lia].
Qed.

(** * What the codec and the split promise *)

(** A node written to a page reads back as the same node: keys, row ids or
    children, and the link to the next leaf, for every node within the
    fan-out the tree computes; the page keeps its size. *)
Theorem node_roundtrip t d : tree_wf t -> blen d = PAGE_SIZE ->
  (forall ks rs nx, length ks = length rs -> blen ks <= max_leaf_keys t ->
     Forall (key_ok t) ks -> Forall rid_ok rs -> 0 <= nx < 2 ^ 32 ->
     exists d', write_leaf t ks rs nx d = (Ok tt, d') /\ blen d' = PAGE_SIZE /\
       node_type d' = Ok BTREE_LEAF /\ read_leaf t d' = Ok (ks, rs, nx)) /\
  (forall cs ks, length cs = S (length ks) -> blen ks <= max_internal_keys t ->
     Forall (key_ok t) ks -> Forall (fun c => 0 <= c < 2 ^ 32) cs ->
     exists d', write_internal t cs ks d = (Ok tt, d') /\ blen d' = PAGE_SIZE /\
       node_type d' = Ok BTREE_INTERNAL /\ read_internal t d' = Ok (cs, ks)).
Proof.
  intros Hwf Hd. split; intros.
  - destruct (write_leaf_ok t d ks rs nx) as (d' & ? & []); try done. by exists d'.
  - destruct (write_internal_ok t d cs ks) as (d' & ? & []); try done. by exists d'.
Qed.

Lemma node_roundtrip_witness :
  let t := tree_params INT 8 false 0 in
  exists d', write_leaf t [VInt 3; VInt 3; VInt 9] [mkRID 1 0; mkRID 1 1; mkRID 2 0] 5 (zeros PAGE_SIZE) = (Ok tt, d') /\
    blen d' = PAGE_SIZE /\ node_type d' = Ok BTREE_LEAF /\
    read_leaf t d' = Ok ([VInt 3; VInt 3; VInt 9], [mkRID 1 0; mkRID 1 1; mkRID 2 0], 5).
Proof.
  cbv zeta.
  refine (proj1 (node_roundtrip (tree_params INT 8 false 0) (zeros PAGE_SIZE) _ _)
    [VInt 3; VInt 3; VInt 9] [mkRID 1 0; mkRID 1 1; mkRID 2 0] 5 _ _ _ _ _).
  - apply tree_params_wf. by left.
  - by rewrite blen_zeros.
  - reflexivity.
  - vm_compute. discriminate.
  - repeat constructor; vm_compute; intuition discriminate.
  - repeat constructor; vm_compute; intuition discriminate.
  - vm_compute. intuition discriminate.
Defined.

Lemma ksorted_lookup a i j x y : ksorted a -> a !! i = Some x -> a !! j = Some y -> (i <= j)%nat -> kle x y.
Proof.
  intros Hs. revert i j. induction Hs as [|z a Hs IH Hall]; intros i j Hi Hj Hij; [done|].
  destruct i as [|i], j as [|j]; cbn in Hi, Hj; simplify_eq; [apply kle_refl | | lia | by apply (IH i j); auto; lia].
  by eapply Forall_lookup_1 in Hall.
Qed.

(** C38: a sorted leaf is cut at a key boundary, so that no run of duplicates is
    separated and every key left of the cut is smaller than every key right of
    it; only a leaf that holds a single key throughout is refused. *)
Theorem split_keeps_runs keys x : kinds x keys -> ksorted keys -> 2 <= blen keys ->
  (exists i, split_point_avoiding_duplicates keys = Ok i /\ 0 < i < blen keys /\
     forall a b, a ∈ py_take keys i -> b ∈ py_drop keys i -> klt a b) \/
  (split_point_avoiding_duplicates keys = Raise ValueError /\ exists a, Forall (eq a) keys).
Proof.
  intros Hk Hs Hn. destruct (split_point_cases keys x Hk Hn) as [(i & a & b & E & Hi & Ha & Hb & Hab)|(a & E & Ha)].
  2: { right. eauto. }
  left. exists i. split_and!; [done | lia | lia |]. intros u v Hu Hv.
  apply list_elem_of_lookup_1 in Hu as [p Hp], Hv as [q Hq]. unfold py_take, py_drop in *.
  apply lookup_take_Some in Hp as [Hp Hpi]. rewrite lookup_drop in Hq.
  pose proof (ksorted_lookup keys _ _ a b Hs Ha Hb ltac:(lia)) as [Hlt|]%kle_cases; [| done].
  apply (kle_klt _ a); [by eapply (ksorted_lookup keys); [done.. | lia]|].
  apply (klt_kle_trans _ b); [done|]. eapply (ksorted_lookup keys); [done.. | lia].
Qed.

Lemma split_keeps_runs_witness :
  let keys := [VInt 1; VInt 2; VInt 2; VInt 2; VInt 2] in
  (exists i, split_point_avoiding_duplicates keys = Ok i /\ 0 < i < blen keys /\
     forall a b, a ∈ py_take keys i -> b ∈ py_drop keys i -> klt a b) \/
  (split_point_avoiding_duplicates keys = Raise ValueError /\ exists a, Forall (eq a) keys).
Proof.
  apply (split_keeps_runs _ (VInt 0)); [repeat constructor | | vm_compute; discriminate].
  repeat constructor; vm_compute; discriminate.
Defined.
