(* ===== verification/BTreeRep.v ===== *)
(** What a B+-tree on pages represents: nodes of equal height below a root,
    keys separated by the bounds of their subtree, and the leaves in order with
    their [next_leaf] links. [ctx] is the tree around one subtree (its
    ancestors, and everything to the left and to the right of it); a subtree
    can be replaced inside it ([plug]). *)
From stdpp Require Import base numbers list gmap strings.
From Stdlib Require Import ZArith Lia Strings.Byte Sorting.Sorted.
From S2P Require Import Prelude PyNum Types PyVal Disk PageStore HeapPage BTree BTreeNode.

Local Open Scope Z_scope.

(** * Representation *)

Record leaf : Set := mkLeaf { lf_page : Z; lf_keys : list value; lf_rids : list RID; lf_next : Z }.

(** Bounds of a subtree: keys from [lo] (inclusive) to [hi] (exclusive). *)
Definition above (lo : option value) (k : value) : Prop := match lo with Some l => kle l k | None => True end.
Definition below (hi : option value) (k : value) : Prop := match hi with Some h => klt k h | None => True end.
Definition bounds_lt (lo hi : option value) : Prop :=
  match lo, hi with Some l, Some h => klt l h | _, _ => True end.
Definition page_ok (p : Z) : Prop := 0 <= p < INVALID_PAGE_ID.

Record leaf_ok (t : BPlusTree) (l : leaf) : Prop := {
  lo_len : length (lf_keys l) = length (lf_rids l);
  lo_max : blen (lf_keys l) <= max_leaf_keys t;
  lo_keys : Forall (key_ok t) (lf_keys l);
  lo_rids : Forall rid_ok (lf_rids l);
  lo_sorted : ksorted (lf_keys l);
  lo_next : 0 <= lf_next l < 2 ^ 32 }.

(** The contents of pages, by page id. *)
Notation pages := (gmap Z (list byte)).

Section rep.
Context (t : BPlusTree).

Definition bound_ok (b : option value) : Prop := match b with Some k => key_ok t k | None => True end.

Record bounds_ok (lo hi : option value) : Prop := {
  bo_lo : bound_ok lo; bo_hi : bound_ok hi; bo_lt : bounds_lt lo hi }.

Record leaf_at (v : pages) (p : Z) (lo hi : option value) (l : leaf) : Prop := {
  la_page : exists d, v !! p = Some d /\ leaf_page t d (lf_keys l) (lf_rids l) (lf_next l);
  la_id : lf_page l = p;
  la_pid : page_ok p;
  la_bounds : bounds_ok lo hi;
  la_ok : leaf_ok t l;
  la_above : Forall (above lo) (lf_keys l);
  la_below : Forall (below hi) (lf_keys l) }.

Record node_at (v : pages) (p : Z) (cs : list Z) (ks : list value) : Prop := {
  na_page : exists d, v !! p = Some d /\ internal_page t d cs ks;
  na_pid : page_ok p;
  na_keys : ks <> [];
  na_max : blen ks <= max_internal_keys t }.

(** Neighbouring subtrees with the keys that separate them. *)
Inductive forest (sub : Z -> option value -> option value -> list leaf -> list Z -> Prop) :
    option value -> list Z -> list value -> option value -> list leaf -> list Z -> Prop :=
| fo_one lo c hi ls pg : sub c lo hi ls pg -> forest sub lo [c] [] hi ls pg
| fo_cons lo c k cs ks hi ls1 pg1 ls2 pg2 :
    sub c lo (Some k) ls1 pg1 -> forest sub (Some k) cs ks hi ls2 pg2 ->
    forest sub lo (c :: cs) (k :: ks) hi (ls1 ++ ls2) (pg1 ++ pg2).

(** [subtree v h p lo hi ls pg]: page [p] is the root of a subtree of height
    [h] for keys in [lo, hi), with leaves [ls], on the pages [pg]. *)
Fixpoint subtree (v : pages) (h : nat) (p : Z) (lo hi : option value) (ls : list leaf) (pg : list Z) : Prop :=
  match h with
  | O => exists l, ls = [l] /\ pg = [p] /\ leaf_at v p lo hi l
  | S h' => exists cs ks pg', pg = p :: pg' /\ node_at v p cs ks /\ forest (subtree v h') lo cs ks hi ls pg'
  end.

Fixpoint linked (ls : list leaf) (stop : Z) : Prop :=
  match ls with
  | [] => True
  | l :: ls' => lf_next l = match ls' with l' :: _ => lf_page l' | [] => stop end /\ linked ls' stop
  end.

Definition entries (ls : list leaf) : list (value * RID) := ls ≫= fun l => zip (lf_keys l) (lf_rids l).

(** * Bounds *)

Lemma bounds_trans lo k hi : bounds_lt lo (Some k) -> bounds_lt (Some k) hi -> bounds_lt lo hi.
Proof. destruct lo, hi; cbn; eauto using klt_trans. Qed.
Lemma above_weaken lo k x : bounds_lt lo (Some k) -> above (Some k) x -> above lo x.
Proof. destruct lo; cbn; [| done]. intros. apply klt_kle. by eapply klt_kle_trans. Qed.
Lemma below_weaken hi k x : bounds_lt (Some k) hi -> below (Some k) x -> below hi x.
Proof. destruct hi; cbn; [| done]. intros. by eapply klt_trans. Qed.
Lemma bounds_ok_trans lo k hi : bounds_ok lo (Some k) -> bounds_ok (Some k) hi -> bounds_ok lo hi.
Proof. intros [] []. constructor; [done | done |]. by eapply bounds_trans. Qed.

(** What a subtree's pages and leaves satisfy, whatever its height. *)
Record sub_facts (p : Z) (lo hi : option value) (ls : list leaf) (pg : list Z) : Prop := {
  sf_bounds : bounds_ok lo hi;
  sf_pid : page_ok p;
  sf_head : exists pg', pg = p :: pg';
  sf_pages : Forall page_ok pg;
  sf_leaves : Forall (leaf_ok t) ls;
  sf_lf_pages : Forall (fun l => lf_page l ∈ pg) ls;
  sf_above : Forall (above lo) (ls ≫= lf_keys);
  sf_below : Forall (below hi) (ls ≫= lf_keys);
  sf_sorted : ksorted (ls ≫= lf_keys) }.

Record forest_facts (lo : option value) (cs : list Z) (ks : list value) (hi : option value)
    (ls : list leaf) (pg : list Z) : Prop := {
  ff_bounds : bounds_ok lo hi;
  ff_len : length cs = S (length ks);
  ff_cs : Forall (fun c => page_ok c /\ c ∈ pg) cs;
  ff_keys : Forall (key_ok t) ks;
  ff_ks_lo : Forall (fun k => bounds_lt lo (Some k)) ks;
  ff_ks_hi : Forall (fun k => bounds_lt (Some k) hi) ks;
  ff_ks : ksorted ks;
  ff_pages : Forall page_ok pg;
  ff_leaves : Forall (leaf_ok t) ls;
  ff_lf_pages : Forall (fun l => lf_page l ∈ pg) ls;
  ff_above : Forall (above lo) (ls ≫= lf_keys);
  ff_below : Forall (below hi) (ls ≫= lf_keys);
  ff_sorted : ksorted (ls ≫= lf_keys) }.

Lemma forest_facts_intro sub lo cs ks hi ls pg :
  (forall p lo hi ls pg, sub p lo hi ls pg -> sub_facts p lo hi ls pg) ->
  forest sub lo cs ks hi ls pg -> forest_facts lo cs ks hi ls pg.
Proof.
  intros Hsub. induction 1 as [lo c hi ls pg Hc|lo c k cs ks hi ls1 pg1 ls2 pg2 Hc _ IH].
  - destruct (Hsub _ _ _ _ _ Hc) as [? ? [pg' ->] ? ? ? ? ? ?].
    constructor; try done; try constructor; [| done]. split; [done|]. left.
  - destruct (Hsub _ _ _ _ _ Hc) as [Hb Hp [pg' ->] Hpg Hl Hlp Ha Hbl Hs], IH as [Hb' ? Hcs ? Hlo ? ? ? ? Hlp' Ha' Hbl' Hs'].
    constructor; try done.
    + by eapply bounds_ok_trans.
    + cbn. by f_equal.
    + constructor; [split; [done | left]|]. eapply Forall_impl; [exact Hcs|]. intros x [? ?]. split; [done|].
      apply elem_of_app. by right.
    + constructor; [apply Hb | done].
    + constructor; [apply Hb|]. eapply Forall_impl; [exact Hlo|]. intros x Hx. eapply bounds_trans; [apply Hb | done].
    + constructor; [apply Hb' | done].
    + constructor; [done|]. eapply Forall_impl; [exact Hlo|]. intros x. apply klt_kle.
    + by apply Forall_app.
    + by apply Forall_app.
    + apply Forall_app. split; (eapply Forall_impl; [eassumption|]); intros x Hx; apply elem_of_app; auto.
    + rewrite bind_app. apply Forall_app. split; [done|]. eapply Forall_impl; [exact Ha'|].
      intros x. apply above_weaken, Hb.
    + rewrite bind_app. apply Forall_app. split; [| done]. eapply Forall_impl; [exact Hbl|].
      intros x. apply below_weaken, Hb'.
    + rewrite bind_app. apply ksorted_app. split_and!; [done | done |]. intros x y Hx Hy.
      rewrite Forall_forall in Hbl, Ha'. apply klt_kle. eapply klt_kle_trans; [by apply Hbl | by apply Ha'].
Qed.

Lemma subtree_facts v h p lo hi ls pg : subtree v h p lo hi ls pg -> sub_facts p lo hi ls pg.
Proof.
  revert p lo hi ls pg. induction h as [|h IH]; intros p lo hi ls pg; cbn [subtree].
  - intros (l & -> & -> & [Hpg Hid Hpid Hb Hok Ha Hbl]). constructor; cbn; rewrite ?app_nil_r; try done; eauto.
    + constructor; [| done]. rewrite Hid. left.
    + apply Hok.
  - intros (cs & ks & pg' & -> & Hn & Hf). apply forest_facts_intro in Hf; [| exact IH].
    destruct Hf as [? ? ? ? ? ? ? ? ? Hlp ? ? ?], Hn. constructor; try done; eauto.
    eapply Forall_impl; [exact Hlp|]. intros x Hx. by right.
Qed.

Lemma forest_facts_of v h lo cs ks hi ls pg :
  forest (subtree v h) lo cs ks hi ls pg -> forest_facts lo cs ks hi ls pg.
Proof. apply forest_facts_intro. intros *. apply subtree_facts. Qed.

(** * Frame: a subtree depends on its own pages only *)

Lemma forest_mono sub sub' lo cs ks hi ls pg :
  (forall p lo hi ls pg', pg' ⊆ pg -> sub p lo hi ls pg' -> sub' p lo hi ls pg') ->
  forest sub lo cs ks hi ls pg -> forest sub' lo cs ks hi ls pg.
Proof.
  intros Hm Hf. induction Hf as [lo c hi ls pg Hc|lo c k cs ks hi ls1 pg1 ls2 pg2 Hc _ IH].
  - constructor. by apply Hm.
  - constructor; [apply Hm; [apply list_subseteq_app_l; done | done]|]. apply IH. intros p lo' hi' ls pg' Hs.
    apply Hm. by apply list_subseteq_app_r.
Qed.

Lemma subtree_frame v v' h p lo hi ls pg :
  (forall q, q ∈ pg -> v' !! q = v !! q) -> subtree v h p lo hi ls pg -> subtree v' h p lo hi ls pg.
Proof.
  revert p lo hi ls pg. induction h as [|h IH]; intros p lo hi ls pg Hv; cbn [subtree].
  - intros (l & -> & -> & Hl). exists l. split_and!; [done | done |]. destruct Hl as [Hd ? ? ? ? ? ?].
    constructor; try done. by rewrite Hv by left.
  - intros (cs & ks & pg' & -> & [Hd ? ?] & Hf). exists cs, ks, pg'. split_and!; [done | |].
    + constructor; try done. by rewrite Hv by left.
    + eapply forest_mono; [| exact Hf]. intros q lo' hi' ls' pg'' Hsub. apply IH. intros r Hr. apply Hv. right.
      by apply Hsub.
Qed.

Lemma forest_frame v v' h lo cs ks hi ls pg :
  (forall q, q ∈ pg -> v' !! q = v !! q) -> forest (subtree v h) lo cs ks hi ls pg -> forest (subtree v' h) lo cs ks hi ls pg.
Proof.
  intros Hv. apply forest_mono. intros p lo' hi' ls' pg' Hsub. apply subtree_frame. intros q Hq. apply Hv. by apply Hsub.
Qed.

(** * Cutting and joining forests *)

Lemma forest_app sub lo cs1 ks1 k cs2 ks2 hi ls1 ls2 pg1 pg2 :
  forest sub lo cs1 ks1 (Some k) ls1 pg1 -> forest sub (Some k) cs2 ks2 hi ls2 pg2 ->
  forest sub lo (cs1 ++ cs2) (ks1 ++ k :: ks2) hi (ls1 ++ ls2) (pg1 ++ pg2).
Proof.
  intros Hf H2. remember (Some k) as b eqn:Eb in Hf.
  induction Hf as [lo c b ls pg Hc|lo c k' cs ks b l1 p1 l2 p2 Hc _ IH]; subst; cbn [app].
  - by constructor.
  - rewrite <- !app_assoc. constructor; [done | by apply IH].
Qed.

Lemma forest_cut sub lo ks1 k ks2 cs1 cs2 hi ls pg :
  length cs1 = S (length ks1) -> forest sub lo (cs1 ++ cs2) (ks1 ++ k :: ks2) hi ls pg ->
  exists ls1 ls2 pg1 pg2, ls = ls1 ++ ls2 /\ pg = pg1 ++ pg2 /\
    forest sub lo cs1 ks1 (Some k) ls1 pg1 /\ forest sub (Some k) cs2 ks2 hi ls2 pg2.
Proof.
  revert lo cs1 ls pg. induction ks1 as [|k1 ks1 IH]; intros lo [|c cs1] ls pg Hl Hf; try done; cbn [app] in *.
  - destruct cs1; [| done]. inversion Hf as [|? ? ? ? ? ? l1 p1 l2 p2 Hc Hf2]; subst.
    exists l1, l2, p1, p2. split_and!; try done. by constructor.
  - inversion Hf as [|? ? ? ? ? ? l1 p1 l2 p2 Hc Hf2]; subst. injection Hl as Hl.
    destruct (IH _ cs1 _ _ Hl Hf2) as (m1 & m2 & q1 & q2 & -> & -> & H1 & H2).
    exists (l1 ++ m1), m2, (p1 ++ q1), q2. rewrite !app_assoc. split_and!; try done. by constructor.
Qed.

(** What is left, and right, of one child: nothing, or a forest up to a separator. *)
Definition lside sub lo cs ks lo' ls pg : Prop :=
  (cs = [] /\ ks = [] /\ lo' = lo /\ ls = [] /\ pg = []) \/
  (exists k ks0, ks = ks0 ++ [k] /\ lo' = Some k /\ forest sub lo cs ks0 (Some k) ls pg).
Definition rside sub hi' cs ks hi ls pg : Prop :=
  (cs = [] /\ ks = [] /\ hi' = hi /\ ls = [] /\ pg = []) \/
  (exists k ks0, ks = k :: ks0 /\ hi' = Some k /\ forest sub (Some k) cs ks0 hi ls pg).

Lemma forest_join sub lo cs1 ks1 lo' csm ksm hi' cs2 ks2 hi L M R pg1 pgm pg2 :
  lside sub lo cs1 ks1 lo' L pg1 -> forest sub lo' csm ksm hi' M pgm -> rside sub hi' cs2 ks2 hi R pg2 ->
  forest sub lo (cs1 ++ csm ++ cs2) (ks1 ++ ksm ++ ks2) hi (L ++ M ++ R) (pg1 ++ pgm ++ pg2).
Proof.
  intros HL HM HR.
  assert (forest sub lo' (csm ++ cs2) (ksm ++ ks2) hi (M ++ R) (pgm ++ pg2)) as HMR.
  { destruct HR as [(-> & -> & -> & -> & ->)|(k & ks0 & -> & -> & HR)]; [by rewrite !app_nil_r | by apply forest_app]. }
  destruct HL as [(-> & -> & -> & -> & ->)|(k & ks0 & -> & -> & HL)]; [done|].
  rewrite <- (app_assoc ks0). by apply forest_app.
Qed.

(** The child a key is routed to. *)
Lemma forest_locate sub lo cs ks hi ls pg key :
  forest sub lo cs ks hi ls pg -> above lo key -> below hi key ->
  exists cs1 c cs2 ks1 ks2 lo' hi' L M R pg1 pgm pg2,
    cs = cs1 ++ c :: cs2 /\ ks = ks1 ++ ks2 /\ length cs1 = upper key ks /\
    ls = L ++ M ++ R /\ pg = pg1 ++ pgm ++ pg2 /\
    lside sub lo cs1 ks1 lo' L pg1 /\ sub c lo' hi' M pgm /\ rside sub hi' cs2 ks2 hi R pg2 /\
    above lo' key /\ below hi' key.
Proof.
  intros Hf. induction Hf as [lo c hi ls pg Hc|lo c k cs ks hi ls1 pg1 ls2 pg2 Hc Hf IH]; intros Ha Hb.
  - exists [], c, [], [], [], lo, hi, [], ls, [], [], pg, []. rewrite !app_nil_r.
    split_and!; try done; left; done.
  - destruct (klt_or_kle key k) as [Hlt|Hge].
    + exists [], c, cs, [], (k :: ks), lo, (Some k), [], ls1, ls2, [], pg1, pg2.
      split_and!; try done; [cbn [upper]; by rewrite Hlt | by left | right; eauto].
    + destruct (IH Hge Hb) as (cs1 & c' & cs2 & ks1 & ks2 & lo' & hi' & L & M & R & q1 & qm & q2 & -> & -> & Hl & -> & -> & HL & HM & HR & Ha' & Hb').
      exists (c :: cs1), c', cs2, (k :: ks1), ks2, lo', hi', (ls1 ++ L), M, R, (pg1 ++ q1), qm, q2.
      rewrite <- !app_assoc. split_and!; try done.
      * cbn [upper length]. unfold kle in Hge. rewrite (kcmp_antisym k key). rewrite Hl.
        destruct (kcmp k key); cbn; done.
      * right. destruct HL as [(-> & -> & -> & -> & ->)|(k' & ks0 & -> & -> & HL)].
        -- exists k, []. rewrite !app_nil_r. split_and!; try done. by constructor.
        -- exists k', (k :: ks0). split_and!; try done. by constructor.
Qed.

Lemma forest_first sub lo cs ks hi ls pg : forest sub lo cs ks hi ls pg ->
  exists c cs2 hi' M R pgm pg2, cs = c :: cs2 /\ ls = M ++ R /\ pg = pgm ++ pg2 /\
    sub c lo hi' M pgm /\ rside sub hi' cs2 ks hi R pg2.
Proof.
  destruct 1 as [lo c hi ls pg Hc|lo c k cs ks hi ls1 pg1 ls2 pg2 Hc Hf].
  - exists c, [], hi, ls, [], pg, []. rewrite !app_nil_r. split_and!; try done. by left.
  - exists c, cs, (Some k), ls1, ls2, pg1, pg2. split_and!; try done. right. eauto.
Qed.

(** * The tree around a subtree *)

(** [ctx v r h anc c lo hi L R pg]: in the tree with root [r], the place of a
    subtree [c] of height [h] for keys in [lo, hi); [anc] are its ancestors,
    nearest first, [L] and [R] the leaves before and behind it, [pg] the pages
    outside it. *)
Inductive ctx (v : pages) (r : Z) : nat -> list Z -> Z -> option value -> option value ->
    list leaf -> list leaf -> list Z -> Prop :=
| ctx_root h : ctx v r h [] r None None [] [] []
| ctx_down h anc p lo hi L R pg cs1 c cs2 ks1 ks2 lo' hi' L' R' pg1 pg2 :
    ctx v r (S h) anc p lo hi L R pg -> node_at v p (cs1 ++ c :: cs2) (ks1 ++ ks2) ->
    length cs1 = length ks1 ->
    lside (subtree v h) lo cs1 ks1 lo' L' pg1 -> rside (subtree v h) hi' cs2 ks2 hi R' pg2 ->
    ctx v r h (p :: anc) c lo' hi' (L ++ L') (R' ++ R) (p :: pg1 ++ pg2 ++ pg).

Lemma side_frame v v' h :
  (forall lo cs ks lo' ls pg, (forall q, q ∈ pg -> v' !! q = v !! q) ->
     lside (subtree v h) lo cs ks lo' ls pg -> lside (subtree v' h) lo cs ks lo' ls pg) /\
  (forall hi' cs ks hi ls pg, (forall q, q ∈ pg -> v' !! q = v !! q) ->
     rside (subtree v h) hi' cs ks hi ls pg -> rside (subtree v' h) hi' cs ks hi ls pg).
Proof.
  split; intros * Hv; (intros [?|(k & ks0 & ? & ? & Hf)]; [by left | right; exists k, ks0; split_and!; try done;
    by eapply forest_frame]).
Qed.

Lemma ctx_frame v v' r h anc c lo hi L R pg :
  (forall q, q ∈ pg -> v' !! q = v !! q) -> ctx v r h anc c lo hi L R pg -> ctx v' r h anc c lo hi L R pg.
Proof.
  intros Hv Hc. induction Hc as [h|h anc p lo hi L R pg cs1 c cs2 ks1 ks2 lo' hi' L' R' pg1 pg2 _ IH Hn Hlen HL HR];
    [constructor|].
  econstructor.
  - apply IH. intros q Hq. apply Hv. right. rewrite !elem_of_app. auto.
  - destruct Hn as [Hd ? ? ?]. constructor; try done. by rewrite Hv by left.
  - done.
  - eapply (proj1 (side_frame v v' h)); [| exact HL]. intros q Hq. apply Hv. right. rewrite !elem_of_app. auto.
  - eapply (proj2 (side_frame v v' h)); [| exact HR]. intros q Hq. apply Hv. right. rewrite !elem_of_app. auto.
Qed.

(** A subtree in its place makes a tree. *)
Lemma ctx_plug v r h anc c lo hi L R pg M pgm :
  ctx v r h anc c lo hi L R pg -> subtree v h c lo hi M pgm ->
  exists h' pg', subtree v h' r None None (L ++ M ++ R) pg' /\ pg' ≡ₚ pgm ++ pg.
Proof.
  intros Hc. revert M pgm.
  induction Hc as [h|h anc p lo hi L R pg cs1 c cs2 ks1 ks2 lo' hi' L' R' pg1 pg2 _ IH Hn Hlen HL HR]; intros M pgm HM.
  - exists h, pgm. rewrite !app_nil_r. cbn [app]. by rewrite ?app_nil_r.
  - destruct (IH (L' ++ M ++ R') (p :: pg1 ++ pgm ++ pg2)) as (h' & pg' & Ht & Hp).
    + cbn [subtree]. exists (cs1 ++ c :: cs2), (ks1 ++ ks2), (pg1 ++ pgm ++ pg2). split_and!; [done | done |].
      change (c :: cs2) with ([c] ++ cs2). change ks2 with ([] ++ ks2) at 1.
      eapply forest_join; [exact HL | by constructor | exact HR].
    + exists h', pg'. split; [by rewrite <- !app_assoc in * |]. rewrite Hp. cbn [app]. rewrite <- !app_assoc.
      rewrite <- Permutation_middle. apply perm_skip. rewrite !app_assoc. do 2 f_equiv. apply Permutation_app_comm.
Qed.

(** Where the bounds of a place leave the rest of the tree. *)
Lemma ctx_outside v r h anc c lo hi L R pg :
  ctx v r h anc c lo hi L R pg -> bound_ok lo /\ bound_ok hi /\
  Forall (fun k => exists l, lo = Some l /\ klt k l) (L ≫= lf_keys) /\
  Forall (fun k => exists u, hi = Some u /\ kle u k) (R ≫= lf_keys) /\ Forall page_ok pg.
Proof.
  induction 1 as [h|h anc p lo hi L R pg cs1 c cs2 ks1 ks2 lo' hi' L' R' pg1 pg2 _ (Hlo & Hhi & HLo & HRo & Hp) Hn Hlen HL HR];
    [done|].
  assert (bound_ok lo' /\ (forall l, lo = Some l -> exists l', lo' = Some l' /\ kle l l') /\
    Forall (fun k => exists l, lo' = Some l /\ klt k l) (L' ≫= lf_keys) /\ Forall page_ok pg1) as (Hlo' & Hll & HL' & Hp1).
  { destruct HL as [(-> & -> & -> & -> & ->)|(k & ks0 & -> & -> & HL)].
    - split_and!; try done. intros l ->. eauto using kle_refl.
    - apply forest_facts_of in HL as [Hb _ _ _ _ _ _ Hpp _ _ _ Hbl _]. split_and!; [apply Hb | | | done].
      + intros l ->. exists k. split; [done|]. apply klt_kle, Hb.
      + eapply Forall_impl; [exact Hbl|]. eauto. }
  assert (bound_ok hi' /\ (forall u, hi = Some u -> exists u', hi' = Some u' /\ kle u' u) /\
    Forall (fun k => exists u, hi' = Some u /\ kle u k) (R' ≫= lf_keys) /\ Forall page_ok pg2) as (Hhi' & Huu & HR' & Hp2).
  { destruct HR as [(-> & -> & -> & -> & ->)|(k & ks0 & -> & -> & HR)].
    - split_and!; try done. intros l ->. eauto using kle_refl.
    - apply forest_facts_of in HR as [Hb _ _ _ _ _ _ Hpp _ _ Ha _ _]. split_and!; [apply Hb | | | done].
      + intros l ->. exists k. split; [done|]. apply klt_kle, Hb.
      + eapply Forall_impl; [exact Ha|]. eauto. }
  split_and!; [done | done | rewrite bind_app; apply Forall_app | rewrite bind_app; apply Forall_app |].
  - split; [| done]. eapply Forall_impl; [exact HLo|]. intros k (l & -> & Hk).
    destruct (Hll l eq_refl) as (l' & -> & ?). exists l'. split; [done|]. by eapply klt_kle_trans.
  - split; [done|]. eapply Forall_impl; [exact HRo|]. intros k (u & -> & Hk).
    destruct (Huu u eq_refl) as (u' & -> & ?). exists u'. split; [done|]. by eapply kle_trans.
  - constructor; [apply Hn|]. by rewrite !Forall_app.
Qed.
End rep.
