(* ===== verification/BTreeSearch.v ===== *)
(** Reading a B+-tree: the descent to a leaf, point lookups, range scans and
    the height, for any page store. *)
From stdpp Require Import base numbers list gmap strings.
From Stdlib Require Import ZArith Lia Strings.Byte Sorting.Sorted.
From S2P Require Import Prelude PyNum Types PyVal Disk PageStore BufferPool HeapPage BTree BTreeNode BTreeRep.

Local Open Scope Z_scope.

(** * Definitions *)

(** The tree object [t] on the pages [v] holds the entries of the leaves [ls],
    using exactly the pages [pg]. *)
Record tree_rep (t : BPlusTree) (v : gmap Z (list byte)) (ls : list leaf) (pg : list Z) : Prop := {
  tr_wf : tree_wf t;
  tr_sub : exists h, subtree t v h (root_page_id t) None None ls pg;
  tr_nodup : NoDup pg;
  tr_linked : linked ls INVALID_PAGE_ID }.

(** Inclusive bounds of a scan. *)
Definition upto (stop : option value) (k : value) : Prop := match stop with Some e => kle k e | None => True end.
Definition in_scan (start stop : option value) (e : value * RID) : Prop := above start (fst e) /\ upto stop (fst e).

#[global] Instance above_dec lo k : Decision (above lo k).
Proof. destruct lo; cbn; apply _. Defined.
#[global] Instance upto_dec lo k : Decision (upto lo k).
Proof. destruct lo; cbn; apply _. Defined.
#[global] Instance in_scan_dec start stop e : Decision (in_scan start stop e).
Proof. unfold in_scan. apply _. Defined.

(** * Pages of a subtree *)

Lemma forest_height sub n lo cs ks hi ls pg :
  (forall p lo hi ls pg, sub p lo hi ls pg -> (n < length pg)%nat) -> forest sub lo cs ks hi ls pg -> (n < length pg)%nat.
Proof.
  intros Hs. destruct 1 as [? ? ? ? ? Hc|? ? ? ? ? ? ? ? ? ? Hc _]; apply Hs in Hc; rewrite ?length_app; lia.
Qed.

Lemma subtree_height t v h p lo hi ls pg : subtree t v h p lo hi ls pg -> (h < length pg)%nat.
Proof.
  revert p lo hi ls pg. induction h as [|h IH]; intros p lo hi ls pg; cbn [subtree].
  - intros (l & -> & -> & _). cbn. lia.
  - intros (cs & ks & pg' & -> & _ & Hf). cbn [length]. apply (forest_height _ h) in Hf; [lia | exact IH].
Qed.

(** Every node has two children at least, so the pages below bound the height. *)
Lemma forest_pages sub n lo cs ks hi ls pg :
  (forall p lo hi ls pg, sub p lo hi ls pg -> (n <= length pg)%nat) -> forest sub lo cs ks hi ls pg -> (length cs * n <= length pg)%nat.
Proof.
  intros Hs. induction 1 as [? ? ? ? ? Hc|? ? ? ? ? ? ? ? ? ? Hc _ IH]; apply Hs in Hc; cbn [length]; rewrite ?length_app; lia.
Qed.

Lemma subtree_pages t v h p lo hi ls pg : subtree t v h p lo hi ls pg -> (2 ^ h <= length pg)%nat.
Proof.
  revert p lo hi ls pg. induction h as [|h IH]; intros p lo hi ls pg; cbn [subtree].
  - by intros (l & -> & -> & _).
  - intros (cs & ks & pg' & -> & Hn & Hf). pose proof (ff_len _ _ _ _ _ _ _ (forest_facts_of _ _ _ _ _ _ _ _ _ Hf)) as Hlen.
    apply (forest_pages _ (2 ^ h)) in Hf; [| exact IH]. pose proof (na_keys _ _ _ _ _ Hn). cbn [length Nat.pow]. destruct ks; [done|].
    cbn [length] in Hlen. rewrite Hlen in Hf. lia.
Qed.

Lemma ctx_levels t v r h anc c lo hi L R pg : ctx t v r h anc c lo hi L R pg -> (2 ^ (h + length anc) <= length pg + 2 ^ h)%nat.
Proof.
  induction 1 as [h|h anc p lo hi L R pg cs1 c cs2 ks1 ks2 lo' hi' L' R' pg1 pg2 _ IH Hn Hlen HL HR]; [by rewrite Nat.add_0_r|].
  assert (2 ^ h <= length pg1 + length pg2)%nat.
  { pose proof (na_keys _ _ _ _ _ Hn) as Hk. destruct HL as [(-> & -> & _)|(k & ks0 & _ & _ & HL)], HR as [(-> & -> & _)|(k' & ks0' & _ & _ & HR)]; [done | | |].
    all: match goal with Hf : forest _ _ _ _ _ _ _ |- _ => apply (forest_height _ (2 ^ h - 1)) in Hf; [lia |] end.
    all: intros * Hs%subtree_pages; pose proof (Nat.pow_nonzero 2 h); lia. }
  cbn [length]. rewrite !length_app. replace (h + Datatypes.S (length anc))%nat with (Datatypes.S h + length anc)%nat by lia. cbn [Nat.pow] in *. lia.
Qed.

Lemma forest_dom (v : pages) sub lo cs ks hi ls pg :
  (forall p lo hi ls pg, sub p lo hi ls pg -> forall q, q ∈ pg -> is_Some (v !! q)) ->
  forest sub lo cs ks hi ls pg -> forall q, q ∈ pg -> is_Some (v !! q).
Proof.
  intros Hs. induction 1 as [? ? ? ? ? Hc|? ? ? ? ? ? ? ? ? ? Hc _ IH]; intros q Hq; [by eapply Hs|].
  apply elem_of_app in Hq as [Hq|Hq]; [by eapply Hs | auto].
Qed.

Lemma subtree_dom t v h p lo hi ls pg : subtree t v h p lo hi ls pg -> forall q, q ∈ pg -> is_Some (v !! q).
Proof.
  revert p lo hi ls pg. induction h as [|h IH]; intros p lo hi ls pg; cbn [subtree].
  - intros (l & -> & -> & [(d & Hd & _) ? ? ? ? ? ?]) q ->%list_elem_of_singleton. eauto.
  - intros (cs & ks & pg' & -> & [(d & Hd & _) ? ? ?] & Hf) q [->|Hq]%elem_of_cons; [eauto|].
    by eapply forest_dom.
Qed.

(** * The keys of one leaf *)

Lemma key_ok_kinds t k ks : key_ok t k -> Forall (key_ok t) ks -> kinds k ks.
Proof. intros Hk Hks. eapply Forall_impl; [exact Hks|]. intros x. by apply key_ok_kind. Qed.
Lemma probe_kinds t k ks : probe_ok t k -> Forall (key_ok t) ks -> kinds k ks.
Proof. intros Hk Hks. eapply Forall_impl; [exact Hks|]. intros x. by apply probe_kind. Qed.

(** [rids[bisect_left:bisect_right]] are the rids of the equal keys. *)
Lemma leaf_slice key ks (rs : list RID) : ksorted ks -> length ks = length rs ->
  rs.[Z.of_nat (lower key ks) : Z.of_nat (upper key ks)] = (filter (fun e => e.1 = key) (zip ks rs)).*2.
Proof.
  intros Hs Hl. set (lo := lower key ks). set (hi := upper key ks). set (z := zip ks rs).
  pose proof (lower_le_upper key ks : (lo <= hi)%nat) as Hle.
  assert (ks = z.*1 /\ rs = z.*2) as [Ek Er] by (unfold z; rewrite fst_zip, snd_zip by lia; done).
  assert (z = take lo z ++ take (hi - lo) (drop lo z) ++ drop hi z) as Ez.
  { rewrite <- (take_drop lo z) at 1. f_equal. rewrite <- (take_drop (hi - lo) (drop lo z)) at 1. f_equal.
    rewrite drop_drop. f_equal. lia. }
  rewrite Ez, filter_middle.
  - unfold slice. rewrite Nat2Z.id, Er, <- fmap_drop, <- fmap_take. do 2 f_equal. lia.
  - apply (Forall_fmap fst (fun k => k <> key)). rewrite fmap_take, <- Ek. unfold lo.
    eapply Forall_impl; [apply lower_take|]. intros x Hx ->. by apply klt_irrefl in Hx.
  - apply (Forall_fmap fst (fun k => k = key)). rewrite fmap_take, fmap_drop, <- Ek.
    apply Forall_forall. intros x Hx. pose proof (lower_drop key ks Hs) as H1. fold lo in H1.
    rewrite Forall_forall in H1. specialize (H1 x (subseteq_take _ _ _ Hx)).
    pose proof (upper_take key ks) as H2. fold hi in H2. rewrite Forall_forall in H2.
    replace (take (hi - lo) (drop lo ks)) with (drop lo (take hi ks)) in Hx by (rewrite skipn_firstn_comm; done).
    specialize (H2 x (subseteq_drop _ _ _ Hx)).
    apply kle_cases in H1 as [H1|]; [| done]. by apply klt_not_kle in H1.
  - apply (Forall_fmap fst (fun k => k <> key)). rewrite fmap_drop, <- Ek. unfold hi.
    eapply Forall_impl; [by apply upper_drop|]. intros x Hx ->. by apply klt_irrefl in Hx.
Qed.

Section search.
Context {S H : Type} {store : PageStore S H} {spec : PageStoreCore S H}.

(** * Descending *)

Lemma runs_get (h : H) (s : S) d (Q : list byte -> S -> Prop) : ps_get h s = (Ok d, s) -> Q d s -> runs (ps_get h) s Q.
Proof. apply runs_eq. Qed.

Lemma run_node_type h (s : S) d ty (Q : PageType -> S -> Prop) :
  ps_get h s = (Ok d, s) -> node_type d = Ok ty -> Q ty s -> runs (page_node_type h) s Q.
Proof. intros Hg Ht HQ. unfold page_node_type. rstep. eapply runs_get; [exact Hg|]. by eapply runs_lift_result. Qed.
Lemma run_read_leaf t h (s : S) d ks rs nx (Q : _ -> S -> Prop) :
  ps_get h s = (Ok d, s) -> leaf_page t d ks rs nx -> Q (ks, rs, nx) s -> runs (read_page_leaf t h) s Q.
Proof. intros Hg Hl HQ. unfold read_page_leaf. rstep. eapply runs_get; [exact Hg|]. eapply runs_lift_result; [apply Hl | done]. Qed.
Lemma run_read_internal t h (s : S) d cs ks (Q : _ -> S -> Prop) :
  ps_get h s = (Ok d, s) -> internal_page t d cs ks -> Q (cs, ks) s -> runs (read_page_internal t h) s Q.
Proof. intros Hg Hl HQ. unfold read_page_internal. rstep. eapply runs_get; [exact Hg|]. eapply runs_lift_result; [apply Hl | done]. Qed.

(** The loops that walk down fetch a page, look at its type, and stop at a leaf
    or decode an internal node. *)
Section visit.
Context {A : Type} (t : BPlusTree) (s : S) (ps : list Z) (p : Z) (d : list byte) (a : M S A)
  (k : list Z * list value -> M S A) (Q : A -> S -> Prop).
Context (Hr : room s ps 1) (Hp : p ∈ ps) (Hd : ps_view s !! p = Some d).

Local Notation visit :=
  (data ← ps_fetch p;
   ty ← page_node_type data;
   match ty with
   | BTREE_LEAF => ps_unpin p false;; a
   | _ => node ← read_page_internal t data; ps_unpin p false;; k node
   end).

Lemma visit_leaf : node_type d = Ok BTREE_LEAF -> (forall s', keeps s s' -> runs a s' Q) -> runs visit s Q.
Proof using All.
  intros Hty Ha. eapply (fetch_read p d); [exact Hr | lia | done | done |]. intros h s1 Hg Hun. cbv beta. rstep.
  eapply run_node_type; [exact Hg | exact Hty |]. cbv iota. rstep. eapply runs_mono; [exact Hun|]. intros [] s2 Hk. by apply Ha.
Qed.
Lemma visit_internal cs ks : internal_page t d cs ks -> (forall s', keeps s s' -> runs (k (cs, ks)) s' Q) -> runs visit s Q.
Proof using All.
  intros Hpage Hk. eapply (fetch_read p d); [exact Hr | lia | done | done |]. intros h s1 Hg Hun. cbv beta. rstep.
  eapply run_node_type; [exact Hg | apply Hpage |]. cbv iota. rstep. eapply run_read_internal; [exact Hg | exact Hpage |].
  rstep. eapply runs_mono; [exact Hun|]. intros [] s2 Hk2. by apply Hk.
Qed.
End visit.

(** A leaf of the tree and the path to it. *)
Record at_leaf (t : BPlusTree) (v : gmap Z (list byte)) (r : Z) (anc : list Z) (l : leaf)
    (lo hi : option value) (L R : list leaf) (pg : list Z) : Prop := {
  al_ctx : ctx t v r 0 anc (lf_page l) lo hi L R pg;
  al_leaf : leaf_at t v (lf_page l) lo hi l }.

Section descent.
Context (t : BPlusTree) (Hwf : tree_wf t) (v : gmap Z (list byte)) (r : Z).

(** One step down: where the child of an internal node is. *)
Lemma ctx_child h anc p lo hi L R pg M pgm key :
  ctx t v r (Datatypes.S h) anc p lo hi L R pg -> subtree t v (Datatypes.S h) p lo hi M pgm ->
  above lo key -> below hi key ->
  exists cs ks c d lo' hi' L' M' R' pg' pgm',
    v !! p = Some d /\ internal_page t d cs ks /\ ksorted ks /\ Forall (key_ok t) ks /\
    cs !! upper key ks = Some c /\ c ∈ pgm /\
    ctx t v r h (p :: anc) c lo' hi' L' R' pg' /\ subtree t v h c lo' hi' M' pgm' /\
    above lo' key /\ below hi' key /\ L ++ M ++ R = L' ++ M' ++ R' /\ pgm' ++ pg' ≡ₚ pgm ++ pg /\
    (forall q, q ∈ pgm' -> q ∈ pgm).
Proof.
  intros Hc (cs & ks & pg0 & -> & Hn & Hf) Ha Hb. pose proof (forest_facts_of _ _ _ _ _ _ _ _ _ Hf) as Hff.
  destruct (na_page _ _ _ _ _ Hn) as (d & Hd & Hd').
  destruct (forest_locate _ _ _ _ _ _ _ key Hf Ha Hb) as
    (cs1 & c & cs2 & ks1 & ks2 & lo' & hi' & L' & M' & R' & pg1 & pgm & pg2 & -> & -> & Hl & -> & -> & HL & HM & HR & Ha' & Hb').
  assert (length cs1 = length ks1) as Hlen.
  { destruct HL as [(-> & -> & _)|(k & ks0 & -> & _ & HL)]; [done|]. apply forest_facts_of in HL.
    rewrite (ff_len _ _ _ _ _ _ _ HL), length_app. cbn. lia. }
  exists (cs1 ++ c :: cs2), (ks1 ++ ks2), c, d, lo', hi', (L ++ L'), M', (R' ++ R), (p :: pg1 ++ pg2 ++ pg), pgm.
  destruct (sf_head _ _ _ _ _ _ (subtree_facts _ _ _ _ _ _ _ _ HM)) as [pgm0 ->].
  split_and!; try done; try apply Hff.
  - rewrite <- Hl. by rewrite list_lookup_middle.
  - right. apply elem_of_app. right. left.
  - by eapply ctx_down.
  - by rewrite <- !app_assoc.
  - generalize (c :: pgm0) as X. intros X. rewrite <- Permutation_middle. cbn [app]. apply perm_skip.
    rewrite <- !app_assoc, (app_assoc X pg1), (app_assoc pg1 X). apply Permutation_app_tail, Permutation_app_comm.
  - intros q Hq. right. rewrite !elem_of_app. auto.
Qed.

Lemma find_leaf_path_from_ok key : probe_ok t key -> forall fuel h anc p lo hi L R pg M pgm s,
  (h < fuel)%nat -> room s pgm 1 -> ps_view s = v ->
  ctx t v r h anc p lo hi L R pg -> subtree t v h p lo hi M pgm -> above lo key -> below hi key ->
  runs (find_leaf_path_from fuel t key p (reverse (p :: anc))) s (fun path s' =>
    keeps s s' /\ exists anc' l lo' hi' L' R' pg', path = reverse (lf_page l :: anc') /\
      at_leaf t v r anc' l lo' hi' L' R' pg' /\ above lo' key /\ below hi' key /\
      L ++ M ++ R = L' ++ [l] ++ R' /\ lf_page l :: pg' ≡ₚ pgm ++ pg).
Proof.
  intros Hkey. induction fuel as [|fuel IH]; intros h anc p lo hi L R pg M pgm s Hf Hr Hv Hc Hs Ha Hb; [lia|].
  cbn [find_leaf_path_from]. destruct h as [|h].
  - destruct Hs as (l & -> & -> & Hl). destruct (la_page _ _ _ _ _ _ Hl) as (d & Hd & Hpage).
    eapply visit_leaf; [exact Hr | left | by rewrite Hv | apply Hpage |]. intros s2 Hk. rstep.
    split; [done|]. pose proof (la_id _ _ _ _ _ _ Hl) as Hid. rewrite <- Hid in *.
    exists anc, l, lo, hi, L, R, pg. split_and!; try done.
  - pose proof (ctx_child _ _ _ _ _ _ _ _ _ _ key Hc Hs Ha Hb) as
      (cs & ks & c & d & lo' & hi' & L' & M' & R' & pg' & pgm' & Hd & Hpage & Hks & Hok & Hi & Hcp & Hc' & Hs' & Ha' & Hb' & El & Ep & Hsub).
    eapply visit_internal; [exact Hr | destruct Hs as (? & ? & ? & -> & _); left | by rewrite Hv | exact Hpage |].
    intros s2 Hk. cbn [fst snd].
    rstep. eapply runs_lift_result; [apply bisect_right_ok; [by eapply probe_kinds | done]|].
    rstep. eapply runs_lift_result; [apply py_nth_lookup; [lia | by rewrite Nat2Z.id]|].
    rewrite <- reverse_cons. eapply runs_mono; [eapply (IH h); [lia | | | exact Hc' | exact Hs' | done | done]|].
    + eapply room_sub; [by eapply room_keeps | exact Hsub | lia].
    + destruct Hk as (_ & -> & _). done.
    + intros path s3 (Hk3 & anc' & l & lo2 & hi2 & L2 & R2 & pg2 & E1 & E2 & E3 & E4 & E5 & E6).
      split; [by eapply keeps_trans|]. exists anc', l, lo2, hi2, L2, R2, pg2. rewrite El, <- Ep. done.
Qed.
End descent.

(** From the root. *)
Lemma find_leaf_path_ok t key s ls pg :
  tree_rep t (ps_view s) ls pg -> room s pg 1 -> probe_ok t key ->
  runs (find_leaf_path t key) s (fun path s' =>
    keeps s s' /\ exists anc l lo hi L R pg', path = reverse (lf_page l :: anc) /\
      at_leaf t (ps_view s) (root_page_id t) anc l lo hi L R pg' /\ above lo key /\ below hi key /\
      ls = L ++ [l] ++ R /\ lf_page l :: pg' ≡ₚ pg).
Proof.
  intros [Hwf [h Hs] Hnd Hlk] Hr Hkey. unfold find_leaf_path. rstep. rstep.
  pose proof (subtree_height _ _ _ _ _ _ _ _ Hs). pose proof (pages_count s pg (proj1 Hr) Hnd (subtree_dom _ _ _ _ _ _ _ _ Hs)).
  eapply runs_mono; [eapply (find_leaf_path_from_ok t (ps_view s) (root_page_id t) key Hkey _ h []); [lia | exact Hr | done | constructor | exact Hs | done | done]|].
  cbn [app]. intros path s' (Hk & anc & l & lo & hi & L & R & pg' & E1 & E2 & E3 & E4 & E5 & E6).
  split; [done|]. rewrite !app_nil_r in E5, E6. exists anc, l, lo, hi, L, R, pg'. done.
Qed.

(** * Point lookup *)

Lemma entries_app ls1 ls2 : entries (ls1 ++ ls2) = entries ls1 ++ entries ls2.
Proof. apply bind_app. Qed.

Lemma entries_keys (P : value -> Prop) ls : Forall P (ls ≫= lf_keys) -> Forall (fun e => P (fst e)) (entries ls).
Proof.
  rewrite !Forall_forall. intros HP [k r0] He. apply list_elem_of_bind in He as (l & Hz & Hl). apply HP. cbn.
  apply list_elem_of_bind. exists l. split; [| done]. by eapply elem_of_zip_l.
Qed.

(** Everything stored under a key is in the leaf the key is routed to. *)
Lemma entries_of_key t v r anc l lo hi L R pg key :
  at_leaf t v r anc l lo hi L R pg -> above lo key -> below hi key ->
  filter (fun e => e.1 = key) (entries (L ++ [l] ++ R)) = filter (fun e => e.1 = key) (zip (lf_keys l) (lf_rids l)).
Proof.
  intros [Hc _] Ha Hb. apply ctx_outside in Hc as (_ & _ & HL & HR & _). rewrite !entries_app, !filter_app.
  rewrite (filter_none _ (entries L)), (filter_none _ (entries R)).
  - cbn. by rewrite !app_nil_r.
  - eapply Forall_impl; [exact (entries_keys _ R HR)|]. cbn. intros e (u & -> & Hu) <-. by apply klt_not_kle in Hb.
  - eapply Forall_impl; [exact (entries_keys _ L HL)|]. cbn. intros e (u & -> & Hu) <-. by apply klt_not_kle in Hu.
Qed.

Lemma bt_search_runs t key s ls pg :
  tree_rep t (ps_view s) ls pg -> room s pg 1 -> probe_ok t key ->
  runs (bt_search t key) s (fun rs s' => rs = (filter (fun e => e.1 = key) (entries ls)).*2 /\ keeps s s').
Proof.
  intros Ht Hr Hkey. unfold bt_search. rstep. eapply runs_mono; [by eapply find_leaf_path_ok|].
  intros path s1 (Hk1 & anc & l & lo & hi & L & R & pg' & -> & Hat & Ha & Hb & -> & Hp).
  rstep. eapply runs_lift_result; [rewrite reverse_cons; apply py_nth_last|].
  destruct (al_leaf _ _ _ _ _ _ _ _ _ _ Hat) as [(d & Hd & Hpage) _ _ _ [Hlen _ Hks _ Hs _] _ _].
  eapply (fetch_read (lf_page l) d _ s1 pg); [by eapply room_keeps | lia | rewrite <- Hp; left | by destruct Hk1 as (_ & -> & _) |].
  intros h s2 Hg Hun. cbv beta. rstep. rstep. eapply run_read_leaf; [exact Hg | exact Hpage |]. cbv iota beta.
  pose proof (probe_kinds t key _ Hkey Hks) as Hkk.
  rstep. eapply runs_lift_result; [by apply bisect_left_ok|]. rstep. eapply runs_lift_result; [by apply bisect_right_ok|].
  rstep. eapply runs_mono; [exact Hun|]. intros [] s3 Hk3. cbv beta in Hk3. split; [| by eapply keeps_trans].
  rewrite (entries_of_key _ _ _ _ _ _ _ _ _ _ key Hat Ha Hb). by apply leaf_slice.
Qed.

(** * Range scans *)

Section leaf_pages.
Context (t : BPlusTree) (v : gmap Z (list byte)).

(** Leaves where [read_leaf] finds them. *)
Definition leaf_read (pg : list Z) (l : leaf) : Prop :=
  lf_page l ∈ pg /\ page_ok (lf_page l) /\ leaf_ok t l /\
  exists d, v !! lf_page l = Some d /\ leaf_page t d (lf_keys l) (lf_rids l) (lf_next l).

Lemma forest_leaf_pages sub lo cs ks hi ls pg :
  (forall p lo hi ls pg, sub p lo hi ls pg -> Forall (leaf_read pg) ls /\ (length ls <= length pg)%nat) ->
  forest sub lo cs ks hi ls pg -> Forall (leaf_read pg) ls /\ (length ls <= length pg)%nat.
Proof.
  intros Hs. induction 1 as [? ? ? ? ? Hc|? ? ? ? ? ? ls1 pg1 ls2 pg2 Hc _ IH]; [by eapply Hs|].
  apply Hs in Hc as [H1 Hl1]. destruct IH as [H2 Hl2]. rewrite !length_app. split; [| lia]. apply Forall_app.
  split; (eapply Forall_impl; [eassumption|]); intros l (Hin & ?); (split; [| done]); apply elem_of_app; auto.
Qed.

Lemma subtree_leaf_pages h p lo hi ls pg : subtree t v h p lo hi ls pg ->
  Forall (leaf_read pg) ls /\ (length ls <= length pg)%nat.
Proof.
  revert p lo hi ls pg. induction h as [|h IH]; intros p lo hi ls pg; cbn [subtree].
  - intros (l & -> & -> & [Hd Hid ? ? ? ? ?]). split; [| done]. constructor; [| done].
    unfold leaf_read. rewrite Hid. split_and!; [left | done | done | done].
  - intros (cs & ks & pg' & -> & _ & Hf). apply forest_leaf_pages in Hf as [H1 H2]; [| exact IH]. cbn [length].
    split; [| lia]. eapply Forall_impl; [exact H1|]. intros l (Hin & ?). split; [by right | done].
Qed.
End leaf_pages.

Definition collect (acc : list (value * RID)) (key : value) (rid : RID) : M S (list (value * RID)) :=
  mret (acc ++ [(key, rid)]).

Lemma past_stop t key stop : key_ok t key -> from_option (probe_ok t) True stop ->
  match stop with None => Ok false | Some e => py_gt key e end = Ok (negb (bool_decide (upto stop key))).
Proof.
  intros Hk He. destruct stop as [e|]; cbn [upto from_option] in *; [| by rewrite bool_decide_true].
  rewrite py_gt_kind by (by eapply same_kind_sym, probe_kind). f_equal.
  case_bool_decide as Hu; cbn [upto negb] in *; unfold kle in Hu; destruct (kcmp key e); done || by destruct Hu.
Qed.

(** From index [i] on, the entries up to the stop key; is that all of them? *)
Lemma scan_leaf_ok t keys rids stop (s : S) : Forall (key_ok t) keys -> length keys = length rids -> ksorted keys ->
  from_option (probe_ok t) True stop -> forall k i acc, (i + k)%nat = length keys ->
  let es := drop i (zip keys rids) in
  scan_leaf collect keys rids stop (Z.of_nat i) k acc s =
  (Ok (acc ++ filter (fun e => upto stop e.1) es, bool_decide (Forall (fun e => upto stop e.1) es)), s).
Proof.
  intros Hks Hlen Hs Hst. induction k as [|k IH]; intros i acc Hi es.
  - unfold es. rewrite drop_ge by (rewrite length_zip_with; lia). cbn. by rewrite app_nil_r.
  - cbn [scan_leaf]. destruct (lookup_lt_is_Some_2 keys i) as [key Hkey]; [lia|].
    destruct (lookup_lt_is_Some_2 rids i) as [rid Hrid]; [lia|].
    assert (es = (key, rid) :: drop (Datatypes.S i) (zip keys rids)) as Ees.
    { unfold es. erewrite drop_S; [done|]. rewrite lookup_zip_with, Hkey, Hrid. done. }
    rewrite (py_nth_lookup keys _ key), (py_nth_lookup rids _ rid) by (rewrite ?Nat2Z.id; done || lia). mstep.
    pose proof (past_stop t key stop (Forall_lookup_1 _ _ _ _ Hks Hkey) Hst) as Hp.
    assert (forall B (f : bool -> M S B), (match stop with None => mret false | Some e => lift_result (py_gt key e) end ≫= f) s =
      f (negb (bool_decide (upto stop key))) s) as Hpast.
    { intros B f. destruct stop as [e|]; [rewrite Hp; done | apply Ok_inj in Hp; by rewrite <- Hp]. }
    rewrite Hpast. case_bool_decide as Hup; cbn [negb].
    + mstep. rewrite (bind_ok (collect acc key rid) _ s (acc ++ [(key, rid)]) s eq_refl). replace (Z.of_nat i + 1) with (Z.of_nat (Datatypes.S i)) by lia.
      rewrite IH by lia. rewrite Ees, filter_cons_True by done. rewrite <- app_assoc. cbn [app]. do 3 f_equal.
      apply bool_decide_ext. rewrite Forall_cons. cbn. tauto.
    + rewrite Ees, filter_none, app_nil_r, bool_decide_false; [done | rewrite Forall_cons; cbn; tauto |].
      constructor; [done|]. destruct stop as [e|]; [| done]. cbn in *.
      apply (Forall_fmap fst (fun x => ~ kle x e)). rewrite fmap_drop, fst_zip by lia.
      rewrite <- (take_drop_middle keys i key Hkey) in Hs. apply ksorted_app in Hs as (_ & Hs & _).
      inversion Hs as [|? ? _ Hall]; subst. eapply Forall_impl; [exact Hall|]. cbn. intros x Hx Hxe.
      apply Hup. by eapply kle_trans.
Qed.

Lemma linked_app_r L ls stop : linked (L ++ ls) stop -> linked ls stop.
Proof. induction L as [|l L IH]; [done|]. cbn [app linked]. tauto. Qed.

Lemma leaf_scan_start t start ks rs : ksorted ks -> Forall (key_ok t) ks -> length ks = length rs ->
  from_option (probe_ok t) True start ->
  exists i, (i <= length ks)%nat /\ match start with None => Ok 0 | Some x => bisect_left ks x end = Ok (Z.of_nat i) /\
    forall stop, filter (fun e => upto stop e.1) (drop i (zip ks rs)) = filter (in_scan start stop) (zip ks rs).
Proof.
  intros Hs Hks Hlen Hst. destruct start as [x|]; cbn [from_option] in Hst.
  - exists (lower x ks). pose proof (lower_le x ks). split_and!; [done | |].
    + apply bisect_left_ok; [by eapply probe_kinds | done].
    + intros stop. rewrite <- (take_drop (lower x ks) (zip ks rs)) at 2. rewrite filter_app, (filter_none _ (take _ _)); cbn [app].
      * apply filter_ext, Forall_lookup. intros i e He.
        assert (kle x e.1) as Hx; [| unfold in_scan; cbn; tauto].
        pose proof (lower_drop x ks Hs) as Hall. eapply Forall_lookup_1 in Hall; [exact Hall|].
        rewrite <- (fst_zip ks rs) at 2 by lia. rewrite <- fmap_drop, list_lookup_fmap, He. done.
      * apply (Forall_fmap fst (fun k => ~ (above (Some x) k /\ upto stop k))). rewrite fmap_take, fst_zip by lia.
        eapply Forall_impl; [apply lower_take|]. cbn. intros y Hy [Hc _]. by apply klt_not_kle in Hy.
  - exists 0%nat. split_and!; [lia | done |]. intros stop. cbn [drop]. apply filter_ext, Forall_true. intros e. unfold in_scan. cbn. tauto.
Qed.

(** Once a key is past the stop, so is everything behind it. *)
Lemma past_rest start stop l ls : ksorted ((l :: ls) ≫= lf_keys) ->
  ~ Forall (upto stop) (lf_keys l) -> filter (in_scan start stop) (entries ls) = [].
Proof.
  intros Hs Hnf. apply filter_none. change ((l :: ls) ≫= lf_keys) with (lf_keys l ++ (ls ≫= lf_keys)) in Hs.
  apply ksorted_app in Hs as (_ & _ & Hle).
  apply not_Forall_Exists in Hnf; [| apply _]. apply Exists_exists in Hnf as (k & Hk & Hn).
  eapply (entries_keys (fun x => ~ (above start x /\ upto stop x))). apply Forall_forall. intros x Hx [_ Hu].
  apply Hn. destruct stop as [e|]; [| done]. cbn in *. eapply kle_trans; [by apply Hle | done].
Qed.

Lemma scan_leaves_ok t v pg start stop : from_option (probe_ok t) True start -> from_option (probe_ok t) True stop ->
  forall ls fuel acc s, (length ls <= fuel)%nat -> room s pg 1 -> ps_view s = v ->
  Forall (leaf_read t v pg) ls -> linked ls INVALID_PAGE_ID -> ksorted (ls ≫= lf_keys) ->
  runs (scan_leaves collect fuel t start stop (match ls with l :: _ => lf_page l | [] => INVALID_PAGE_ID end) acc) s
    (fun r s' => r = acc ++ filter (in_scan start stop) (entries ls) /\ keeps s s').
Proof.
  intros Hst Hsp. induction ls as [|l ls IH]; intros fuel acc s Hf Hr Hv Hall Hlk Hs.
  - destruct fuel; cbn; apply runs_ret; rewrite app_nil_r; (split; [done | by apply keeps_refl, Hr]).
  - destruct fuel as [|fuel]; [cbn in Hf; lia|]. inversion Hall as [|? ? (Hin & Hpok & Hok & d & Hd & Hpage) Hall']; subst.
    cbn [scan_leaves]. destruct (Z.eqb_spec (lf_page l) INVALID_PAGE_ID) as [E|_]; [unfold page_ok in Hpok; lia|].
    eapply (fetch_read (lf_page l) d _ s pg); [exact Hr | lia | done | done |]. intros h s1 Hg Hun. cbv beta. rstep.
    eapply run_read_leaf; [exact Hg | exact Hpage |]. rstep. eapply runs_mono; [exact Hun|]. intros [] s2 Hk2. cbv beta in Hk2.
    cbv iota beta. destruct Hok as [Hlen _ Hks _ Hsl _]. destruct Hlk as [Hnext Hlk].
    destruct (leaf_scan_start t start _ _ Hsl Hks Hlen Hst) as (i & Hi & Estart & Efilter). rstep.
    assert (runs (match start with None => mret 0 | Some x => lift_result (bisect_left (lf_keys l) x) end) s2
      (fun r s' => r = Z.of_nat i /\ s' = s2)) as Hlo.
    { destruct start as [x|]; [rewrite Estart; by eapply runs_lift_result | apply Ok_inj in Estart; rewrite Estart; by apply runs_ret]. }
    eapply runs_mono; [exact Hlo|]. intros ? ? [-> ->]. rstep.
    replace (Z.to_nat (blen (lf_keys l) - Z.of_nat i)) with (length (lf_keys l) - i)%nat by (unfold blen; lia).
    eapply runs_eq; [eapply (scan_leaf_ok t); try done; lia|]. cbn [fst snd]. rewrite Efilter.
    change (entries (l :: ls)) with (zip (lf_keys l) (lf_rids l) ++ entries ls). rewrite filter_app, app_assoc.
    case_bool_decide as Hall2.
    + rewrite Hnext. eapply runs_mono; [apply (IH fuel _ s2)|].
      * cbn in Hf. lia.
      * by eapply room_keeps.
      * by destruct Hk2 as (_ & -> & _).
      * done.
      * done.
      * change ((l :: ls) ≫= lf_keys) with (lf_keys l ++ (ls ≫= lf_keys)) in Hs. by apply ksorted_app in Hs as (_ & ? & _).
      * intros r s3 [-> Hk3]. split; [done | by eapply keeps_trans].
    + rewrite (past_rest start stop l ls Hs), app_nil_r; [by apply runs_ret|]. intros Hup. apply Hall2.
      apply (Forall_fmap fst (upto stop)). rewrite fmap_drop, fst_zip by lia. by apply Forall_drop.
Qed.

(** ** The first leaf and the height *)

Lemma leftmost_leaf_from_ok t fuel : forall h p lo hi ls pg s, (h < fuel)%nat -> room s pg 1 ->
  subtree t (ps_view s) h p lo hi ls pg ->
  runs (leftmost_leaf_from fuel t p) s (fun q s' => keeps s s' /\ exists l ls', ls = l :: ls' /\ q = lf_page l).
Proof.
  induction fuel as [|fuel IH]; intros h p lo hi ls pg s Hf Hr Hs; [lia|]. cbn [leftmost_leaf_from].
  destruct h as [|h].
  - destruct Hs as (l & -> & -> & Hl). destruct (la_page _ _ _ _ _ _ Hl) as (d & Hd & Hpage).
    eapply visit_leaf; [exact Hr | left | exact Hd | apply Hpage |]. intros s2 Hk. rstep.
    split; [done|]. exists l, []. by rewrite (la_id _ _ _ _ _ _ Hl).
  - destruct Hs as (cs & ks & pg' & -> & [(d & Hd & Hpage) _ _ _] & Hfo).
    destruct (forest_first _ _ _ _ _ _ _ Hfo) as (c & cs2 & hi' & M' & R' & pgm & pg2 & -> & -> & -> & Hc & _).
    eapply visit_internal; [exact Hr | left | exact Hd | exact Hpage |]. intros s2 Hk. rstep. eapply runs_lift_result; [done|].
    pose proof Hk as (_ & Hv & _). eapply runs_mono; [eapply (IH h); [lia | | rewrite Hv; exact Hc]|].
    + eapply room_sub; [by eapply room_keeps | | lia]. intros q Hq. right. apply elem_of_app. by left.
    + intros q s3 (Hk3 & l & ls' & -> & ->). split; [by eapply keeps_trans|]. by exists l, (ls' ++ R').
Qed.

Lemma height_from_ok t fuel : forall h p lo hi ls pg n s, (h < fuel)%nat -> room s pg 1 ->
  subtree t (ps_view s) h p lo hi ls pg ->
  runs (height_from fuel t p n) s (fun r s' => r = n + Z.of_nat h /\ keeps s s').
Proof.
  induction fuel as [|fuel IH]; intros h p lo hi ls pg n s Hf Hr Hs; [lia|]. cbn [height_from].
  destruct h as [|h].
  - destruct Hs as (l & -> & -> & Hl). destruct (la_page _ _ _ _ _ _ Hl) as (d & Hd & Hpage).
    eapply visit_leaf; [exact Hr | left | exact Hd | apply Hpage |]. intros s2 Hk. rstep. split; [lia | done].
  - destruct Hs as (cs & ks & pg' & -> & [(d & Hd & Hpage) _ _ _] & Hfo).
    destruct (forest_first _ _ _ _ _ _ _ Hfo) as (c & cs2 & hi' & M' & R' & pgm & pg2 & -> & -> & -> & Hc & _).
    eapply visit_internal; [exact Hr | left | exact Hd | exact Hpage |]. intros s2 Hk. rstep. eapply runs_lift_result; [done|].
    pose proof Hk as (_ & Hv & _). eapply runs_mono; [eapply (IH h); [lia | | rewrite Hv; exact Hc]|].
    + eapply room_sub; [by eapply room_keeps | | lia]. intros q Hq. right. apply elem_of_app. by left.
    + intros q s3 [-> Hk3]. split; [lia | by eapply keeps_trans].
Qed.

(** The leaf a scan starts with: nothing in range comes before it. *)
Definition scan_first (t : BPlusTree) (start : option value) : M S Z :=
  match start with
  | Some x => path ← find_leaf_path t x; lift_result (py_nth path (-1))
  | None => leftmost_leaf t
  end.
Lemma scan_first_ok t start stop s ls pg :
  tree_rep t (ps_view s) ls pg -> room s pg 1 -> from_option (probe_ok t) True start ->
  runs (scan_first t start) s (fun q s' => keeps s s' /\ exists L l ls', ls = L ++ l :: ls' /\ q = lf_page l /\
    filter (in_scan start stop) (entries ls) = filter (in_scan start stop) (entries (l :: ls'))).
Proof.
  intros Ht Hr Hst. pose proof Ht as [Hwf [h Hs] Hnd Hlk].
  pose proof (pages_count s pg (proj1 Hr) Hnd (subtree_dom _ _ _ _ _ _ _ _ Hs)) as Hcount.
  destruct start as [x|]; cbn [scan_first].
  - rstep. eapply runs_mono; [by eapply find_leaf_path_ok|].
    intros path s1 (Hk1 & anc & l & lo & hi & L & R & pg' & -> & Hat & Ha & Hb & -> & Hp).
    eapply runs_lift_result; [rewrite reverse_cons; apply py_nth_last|]. split; [done|]. exists L, l, R.
    split_and!; try done. destruct Hat as [Hc _]. apply ctx_outside in Hc as (_ & _ & HL & _).
    rewrite entries_app, filter_app, filter_none; [done|].
    eapply (entries_keys (fun k => ~ (above (Some x) k /\ upto stop k))). eapply Forall_impl; [exact HL|].
    intros k (l0 & -> & Hk) [Hx _]. cbn in *. apply (klt_kle_trans _ l0 x) in Hk; [| done]. by apply klt_not_kle in Hk.
  - unfold leftmost_leaf. rstep. rstep. pose proof (subtree_height _ _ _ _ _ _ _ _ Hs).
    eapply runs_mono; [eapply (leftmost_leaf_from_ok t _ h); [lia | exact Hr | exact Hs]|].
    intros q s1 (Hk & l & ls' & -> & ->). split; [done|]. by exists [], l, ls'.
Qed.

Lemma range_scan_runs t start stop s ls pg :
  tree_rep t (ps_view s) ls pg -> room s pg 1 ->
  from_option (probe_ok t) True start -> from_option (probe_ok t) True stop ->
  runs (range_scan t start stop) s (fun es s' => es = filter (in_scan start stop) (entries ls) /\ keeps s s').
Proof.
  intros Ht Hr Hst Hsp. pose proof Ht as [Hwf [h Hs] Hnd Hlk].
  pose proof (subtree_leaf_pages _ _ _ _ _ _ _ _ Hs) as [Hall Hlen].
  pose proof (sf_sorted _ _ _ _ _ _ (subtree_facts _ _ _ _ _ _ _ _ Hs)) as Hsorted.
  pose proof (pages_count s pg (proj1 Hr) Hnd (subtree_dom _ _ _ _ _ _ _ _ Hs)) as Hcount.
  unfold range_scan, range_scan_fold. rstep.
  eapply runs_mono; [by apply (scan_first_ok t start stop s ls pg)|]. intros q s1 (Hk1 & L & l & ls' & -> & -> & ->). rstep. rstep.
  pose proof Hk1 as (_ & Hv & _ & _ & Hn). rewrite Hn.
  apply linked_app_r in Hlk. apply Forall_app in Hall as [_ Hall]. rewrite bind_app in Hsorted.
  apply ksorted_app in Hsorted as (_ & Hsorted & _). rewrite length_app in Hlen.
  eapply runs_mono; [eapply (scan_leaves_ok t (ps_view s) pg start stop Hst Hsp (l :: ls')); try done; [lia | by eapply room_keeps]|].
  intros es s2 [-> Hk2]. split; [done | by eapply keeps_trans].
Qed.

Lemma bound_probe t b : from_option (key_ok t) True b -> from_option (probe_ok t) True b.
Proof. destruct b as [k|]; [apply key_ok_probe | done]. Qed.

(** C17: a point lookup on a well-formed index returns the row ids stored under
    the key, in index order and all of them (duplicates included), reads only
    and leaves no page pinned. *)
Theorem search_ok t key s ls pg :
  tree_rep t (ps_view s) ls pg -> room s pg 1 -> key_ok t key ->
  exists s', bt_search t key s = (Ok (filter (fun e => e.1 = key) (entries ls)).*2, s') /\ keeps s s'.
Proof. intros Ht Hr Hk. destruct (bt_search_runs t key s ls pg Ht Hr (key_ok_probe _ _ Hk)) as (rs & s' & E & -> & Hs). by exists s'. Qed.

(** C16: a range scan yields the entries with [start <= key <= stop], each once
    and in ascending key order, whatever leaves they are spread over; without
    bounds it yields the whole index. *)
Theorem range_scan_ok t start stop s ls pg :
  tree_rep t (ps_view s) ls pg -> room s pg 1 ->
  from_option (key_ok t) True start -> from_option (key_ok t) True stop ->
  (exists s', range_scan t start stop s = (Ok (filter (in_scan start stop) (entries ls)), s') /\ keeps s s') /\
  ksorted (entries ls).*1.
Proof.
  intros Ht Hr Hst Hsp. split.
  - destruct (range_scan_runs t start stop s ls pg Ht Hr (bound_probe _ _ Hst) (bound_probe _ _ Hsp)) as (es & s' & E & -> & Hk). by exists s'.
  - destruct Ht as [_ [h Hs] _ _]. apply subtree_facts in Hs as [_ _ _ _ Hl _ _ _ Hso].
    replace ((entries ls).*1) with (ls ≫= lf_keys); [done|]. clear -Hl. induction Hl as [|l ls [Hlen _ _ _ _ _] _ IH]; [done|].
    change (entries (l :: ls)) with (zip (lf_keys l) (lf_rids l) ++ entries ls).
    rewrite fmap_app, fst_zip, <- IH by lia. done.
Qed.

(** The tree is balanced: [height()] is the number of levels on the way to
    every leaf. *)
Theorem height_ok t h s ls pg :
  tree_wf t -> subtree t (ps_view s) h (root_page_id t) None None ls pg -> NoDup pg -> room s pg 1 ->
  exists s', bt_height t s = (Ok (Z.of_nat h + 1), s') /\ keeps s s'.
Proof.
  intros Hwf Hs Hnd Hr. pose proof (subtree_height _ _ _ _ _ _ _ _ Hs).
  pose proof (pages_count s pg (proj1 Hr) Hnd (subtree_dom _ _ _ _ _ _ _ _ Hs)).
  destruct (height_from_ok t (Datatypes.S (Z.to_nat (ps_count s))) h (root_page_id t) None None ls pg 1 s)
    as (r & s' & E & -> & Hk); [lia | done | done |]. exists s'. split; [| done].
  unfold bt_height. rewrite bind_gets, E. do 2 f_equal. lia.
Qed.
End search.

(** * A concrete tree: two leaves of at most four keys under a root, on a
    buffer pool of three frames *)

Definition sample_tree (u : bool) : BPlusTree := tree_params TEXT 1000 u 0.
Definition sample_leaf1 : leaf :=
  mkLeaf 1 [VStr "A"; VStr "B"; VStr "C"; VStr "D"] [mkRID 7 0; mkRID 7 1; mkRID 7 2; mkRID 7 3] 2.
Definition sample_leaf2 : leaf := mkLeaf 2 [VStr "E"; VStr "E"] [mkRID 8 0; mkRID 8 1] INVALID_PAGE_ID.
Definition sample_pages (u : bool) : list (list byte) :=
  [ snd (write_internal (sample_tree u) [1; 2] [VStr "E"] (zeros PAGE_SIZE));
    snd (write_leaf (sample_tree u) (lf_keys sample_leaf1) (lf_rids sample_leaf1) (lf_next sample_leaf1) (zeros PAGE_SIZE));
    snd (write_leaf (sample_tree u) (lf_keys sample_leaf2) (lf_rids sample_leaf2) (lf_next sample_leaf2) (zeros PAGE_SIZE)) ].
Definition sample_index (u : bool) : BufferPoolManager := bp_init (dm_init (Some (concat (sample_pages u)))) 3.
Definition sample_leaves : list leaf := [sample_leaf1; sample_leaf2].

Section sample.
Context (u : bool).
Let t := sample_tree u.
Let s := sample_index u.

Lemma sample_tree_wf : tree_wf t.
Proof using. apply tree_params_wf. right. split; [done | lia]. Qed.

Lemma sample_key_ok c : c <> Ascii.zero -> in_range (Ascii.byte_of_ascii c) 0 0x7F = true -> key_ok t (VStr (String.String c "")).
Proof using.
  intros Hc Hr. unfold key_ok. cbn [t sample_tree tree_params key_type key_size].
  change (str_encode (String.String c "")) with [Ascii.byte_of_ascii c]. split_and!.
  - cbn [utf8_valid]. by rewrite Hr.
  - done.
  - cbn. intros [= E]. apply Hc. rewrite <- (Ascii.ascii_of_byte_of_ascii c), E. done.
Qed.

Lemma sample_leaf_ok l : l ∈ sample_leaves -> leaf_ok t l.
Proof using.
  intros [->|[->|[]%not_elem_of_nil]%elem_of_cons]%elem_of_cons; constructor; cbn [sample_leaf1 sample_leaf2 lf_keys lf_rids lf_next];
    try done; try (repeat constructor; (done || by apply sample_key_ok)).
Qed.

Lemma sample_root_page : internal_page t (snd (write_internal t [1; 2] [VStr "E"] (zeros PAGE_SIZE))) [1; 2] [VStr "E"].
Proof using.
  destruct (write_internal_ok t (zeros PAGE_SIZE) [1; 2] [VStr "E"] sample_tree_wf) as (d & -> & Hd); try done.
  - repeat constructor; by apply sample_key_ok.
  - repeat constructor; lia.
Qed.
Lemma sample_leaf_page l : l ∈ sample_leaves -> leaf_page t (snd (write_leaf t (lf_keys l) (lf_rids l) (lf_next l) (zeros PAGE_SIZE)))
  (lf_keys l) (lf_rids l) (lf_next l).
Proof using.
  intros Hl. apply sample_leaf_ok in Hl as [? ? ? ? ? ?].
  by destruct (write_leaf_ok t (zeros PAGE_SIZE) (lf_keys l) (lf_rids l) (lf_next l) sample_tree_wf) as (d & -> & Hd).
Qed.

Lemma sample_pages_size : Forall (fun d => blen d = PAGE_SIZE) (sample_pages u).
Proof using.
  constructor; [apply sample_root_page|]. constructor; [apply (sample_leaf_page sample_leaf1); left|].
  constructor; [apply (sample_leaf_page sample_leaf2); right; left | done].
Qed.

Lemma sample_index_view (i : nat) : ps_view s !! Z.of_nat i = sample_pages u !! i.
Proof using. apply bp_init_view, sample_pages_size. Qed.

Lemma sample_subtree : subtree t (ps_view s) 1 0 None None sample_leaves [0; 1; 2].
Proof using.
  exists [1; 2], [VStr "E"], [1; 2]. split_and!; [done | |].
  - constructor; [| done | done | done]. eexists. split; [apply (sample_index_view 0) | apply sample_root_page].
  - apply (fo_cons _ None 1 (VStr "E") [2] [] None [sample_leaf1] [1] [sample_leaf2] [2]); [| constructor]; cbn [subtree].
    + exists sample_leaf1. split_and!; [done | done |]. constructor; try done.
      * eexists. split; [apply (sample_index_view 1) | apply sample_leaf_page; left].
      * apply sample_leaf_ok. left.
      * repeat constructor.
      * repeat constructor; done.
    + exists sample_leaf2. split_and!; [done | done |]. constructor; try done.
      * eexists. split; [apply (sample_index_view 2) | apply sample_leaf_page; right; left].
      * apply sample_leaf_ok. right. left.
      * repeat constructor; done.
      * repeat constructor.
Qed.

Lemma sample_rep : tree_rep t (ps_view s) sample_leaves [0; 1; 2].
Proof using.
  constructor; [apply sample_tree_wf | exists 1%nat; apply sample_subtree | | done]. repeat constructor; set_solver.
Qed.

Lemma sample_index_room ps k : k <= 3 -> room s ps k.
Proof using.
  intros Hk. destruct (bp_init_facts (dm_init (Some (concat (sample_pages u)))) 3 ltac:(lia)) as [Hp Hc].
  split_and!; [apply bp_init_inv, dm_init_wf | |].
  - cbn [ps_pins ps_cap ps_core buffer_pool_spec buffer_pool_core]. unfold s, sample_index. rewrite Hp, Hc, map_size_empty. lia.
  - intros q _. cbn [ps_pins ps_core buffer_pool_spec buffer_pool_core]. unfold s, sample_index. by rewrite Hp.
Qed.

Lemma sample_index_count : ps_count s = 3.
Proof using. apply (bp_init_view (sample_pages u) 3 0), sample_pages_size. Qed.
End sample.

Lemma search_ok_witness : exists s', bt_search (sample_tree false) (VStr "E") (sample_index false) = (Ok [mkRID 8 0; mkRID 8 1], s').
Proof.
  destruct (search_ok (sample_tree false) (VStr "E") (sample_index false) sample_leaves [0; 1; 2]) as (s' & E & _).
  - apply sample_rep.
  - apply sample_index_room. lia.
  - by apply sample_key_ok.
  - exists s'. rewrite E. reflexivity.
Defined.

Lemma range_scan_ok_witness : exists s', range_scan (sample_tree false) (Some (VStr "C")) (Some (VStr "E")) (sample_index false) =
  (Ok [(VStr "C", mkRID 7 2); (VStr "D", mkRID 7 3); (VStr "E", mkRID 8 0); (VStr "E", mkRID 8 1)], s').
Proof.
  destruct (range_scan_ok (sample_tree false) (Some (VStr "C")) (Some (VStr "E")) (sample_index false) sample_leaves [0; 1; 2])
    as ((s' & E & _) & _).
  - apply sample_rep.
  - apply sample_index_room. lia.
  - by apply sample_key_ok.
  - by apply sample_key_ok.
  - exists s'. rewrite E. reflexivity.
Defined.

Lemma height_ok_witness : exists s', bt_height (sample_tree false) (sample_index false) = (Ok 2, s').
Proof.
  destruct (height_ok (sample_tree false) 1 (sample_index false) sample_leaves [0; 1; 2]) as (s' & E & _).
  - apply sample_tree_wf.
  - apply sample_subtree.
  - repeat constructor; set_solver.
  - apply sample_index_room. lia.
  - by exists s'.
Defined.
