(* ===== verification/BTreeInsert.v ===== *)
(** Inserting into a B+-tree: into a leaf with room, with leaf splits at a key
    boundary, internal splits and a new root, for any page store. *)
From stdpp Require Import base numbers list gmap strings.
From Stdlib Require Import ZArith Lia Strings.Byte Sorting.Sorted.
From S2P Require Import Prelude PyNum Types PyVal Disk PageStore BufferPool HeapPage BTree BTreeNode BTreeRep BTreeSearch.

Local Open Scope Z_scope.

(** * Definitions *)

(** Where a new entry goes: behind the entries with keys up to its own. *)
Definition entries_insert (key : value) (rid : RID) (es : list (value * RID)) : list (value * RID) :=
  let u := upper key es.*1 in take u es ++ (key, rid) :: drop u es.

(** The pages an insertion can add: a tree in a file of 2 ^ 32 pages has at most
    32 levels, each of which can be split, and a new root. *)
Definition GROWTH : Z := 33.

(** * List helpers *)

Lemma upper_app_le x a b : Forall (fun y => kle y x) a -> upper x (a ++ b) = (length a + upper x b)%nat.
Proof.
  induction 1 as [|y a Hy _ IH]; [done|]. cbn [app upper length]. unfold kle in Hy.
  rewrite (kcmp_antisym y x). rewrite IH. destruct (kcmp y x); cbn; done.
Qed.
Lemma upper_app_gt x a b : Forall (klt x) b -> upper x (a ++ b) = upper x a.
Proof.
  intros Hb. induction a as [|y a IH]; cbn [app upper].
  - destruct b as [|z b]; [done|]. inversion Hb as [|? ? Hz _]; subst. cbn [upper]. by rewrite Hz.
  - by rewrite IH.
Qed.

Lemma entries_insert_app key rid a m b :
  Forall (fun e => kle e.1 key) a -> Forall (fun e => klt key e.1) b ->
  entries_insert key rid (a ++ m ++ b) = a ++ entries_insert key rid m ++ b.
Proof.
  intros Ha Hb. unfold entries_insert. rewrite !fmap_app.
  rewrite upper_app_le by (by apply Forall_fmap). rewrite length_fmap, upper_app_gt by (by apply Forall_fmap).
  pose proof (upper_le key m.*1) as Hu. rewrite length_fmap in Hu.
  rewrite take_app_add, drop_app_add, take_app_le, drop_app_le by done. by rewrite <- !app_assoc.
Qed.

Lemma zip_insert (key : value) (rid : RID) ks rs u : length ks = length rs -> (u <= length ks)%nat ->
  zip (take u ks ++ key :: drop u ks) (take u rs ++ rid :: drop u rs) =
  take u (zip ks rs) ++ (key, rid) :: drop u (zip ks rs).
Proof.
  intros Hl Hu. rewrite zip_with_app by (rewrite !length_take; lia). cbn [zip_with].
  by rewrite <- zip_with_take, <- zip_with_drop.
Qed.

Lemma py_insert_nat {A} (l : list A) i x : py_insert l (Z.of_nat i) x = take i l ++ x :: drop i l.
Proof. unfold py_insert. by rewrite Nat2Z.id. Qed.

Lemma py_index_from_app l1 x l2 i : x ∉ l1 -> py_index_from (l1 ++ x :: l2) x i = Ok (i + blen l1).
Proof.
  revert i. induction l1 as [|y l1 IH]; intros i Hx; cbn [app py_index_from].
  - rewrite Z.eqb_refl, blen_nil. f_equal. lia.
  - apply not_elem_of_cons in Hx as [Hne Hx]. destruct (Z.eqb_spec y x); [done|]. rewrite IH, blen_cons by done. f_equal. lia.
Qed.

Lemma linked_app L l R stop : linked (L ++ l :: R) stop <-> linked L (lf_page l) /\ linked (l :: R) stop.
Proof.
  induction L as [|a L IH]; [cbn; tauto|]. cbn [app linked]. rewrite IH. destruct L; cbn; tauto.
Qed.

(** * Only the format matters to the nodes: not the root, not uniqueness *)

Section same_format.
Context (t t' : BPlusTree).
Context (Hkt : key_type t' = key_type t) (Hks : key_size t' = key_size t).
Context (Hml : max_leaf_keys t' = max_leaf_keys t) (Hmi : max_internal_keys t' = max_internal_keys t).

Lemma decode_key_format raw : decode_key t' raw = decode_key t raw.
Proof using Hkt. unfold decode_key. by rewrite Hkt. Qed.
Lemma key_ok_format k : key_ok t k -> key_ok t' k.
Proof using Hkt Hks. unfold key_ok. by rewrite Hkt, Hks. Qed.
Lemma read_entries_format d k : forall off, read_entries t' d off k = read_entries t d off k.
Proof using Hkt Hks.
  induction k as [|k IH]; intros off; [done|]. cbn [read_entries]. rewrite decode_key_format, Hks.
  destruct (decode_key t _); [| done]. cbn [mbind result_bind]. destruct (read_rid d _); [| done].
  cbn [mbind result_bind]. by rewrite IH.
Qed.
Lemma read_links_format d k : forall off, read_links t' d off k = read_links t d off k.
Proof using Hkt Hks.
  induction k as [|k IH]; intros off; [done|]. cbn [read_links]. rewrite decode_key_format, Hks.
  destruct (decode_key t _); [| done]. cbn [mbind result_bind]. destruct (unpack_u 4 d _); [| done].
  cbn [mbind result_bind]. by rewrite IH.
Qed.
Lemma leaf_page_format d ks rs nx : leaf_page t d ks rs nx -> leaf_page t' d ks rs nx.
Proof using Hkt Hks.
  intros [? ? Hr]. constructor; try done. rewrite <- Hr. unfold read_leaf.
  destruct (unpack_u 2 d 1); [| done]. cbn [mbind result_bind]. destruct (unpack_u 4 d 3); [| done]. cbn [mbind result_bind].
  by rewrite read_entries_format.
Qed.
Lemma internal_page_format d cs ks : internal_page t d cs ks -> internal_page t' d cs ks.
Proof using Hkt Hks.
  intros [? ? Hr]. constructor; try done. rewrite <- Hr. unfold read_internal.
  destruct (unpack_u 2 d 1); [| done]. cbn [mbind result_bind]. destruct (unpack_u 4 d INTERNAL_HEADER); [| done].
  cbn [mbind result_bind]. by rewrite read_links_format.
Qed.
Lemma bound_ok_format b : bound_ok t b -> bound_ok t' b.
Proof using Hkt Hks. destruct b; [apply key_ok_format | done]. Qed.

Lemma subtree_format v h p lo hi ls pg : subtree t v h p lo hi ls pg -> subtree t' v h p lo hi ls pg.
Proof using All.
  revert p lo hi ls pg. induction h as [|h IH]; intros p lo hi ls pg; cbn [subtree].
  - intros (l & -> & -> & [(d & Hd & Hp) ? ? [? ? ?] [? ? Hk ? ? ?] ? ?]). exists l. split_and!; [done | done |].
    constructor; try done.
    + exists d. split; [done | by apply leaf_page_format].
    + constructor; [by apply bound_ok_format.. | done].
    + constructor; try done; [by rewrite Hml|]. eapply Forall_impl; [exact Hk | apply key_ok_format].
  - intros (cs & ks & pg' & -> & [(d & Hd & Hp) ? ? ?] & Hf). exists cs, ks, pg'. split_and!; [done | |].
    + constructor; try done; [exists d; split; [done | by apply internal_page_format] | by rewrite Hmi].
    + eapply forest_mono; [| exact Hf]. intros *. auto.
Qed.

Lemma tree_wf_format : tree_wf t -> tree_wf t'.
Proof using All. intros []. constructor; rewrite ?Hkt, ?Hks, ?Hml, ?Hmi; done. Qed.

Lemma tree_rep_format v ls pg : root_page_id t' = root_page_id t -> tree_rep t v ls pg -> tree_rep t' v ls pg.
Proof using All.
  intros Hr [Hwf [h Hs] ? ?]. constructor; try done; [by apply tree_wf_format|].
  exists h. rewrite Hr. by apply subtree_format.
Qed.
End same_format.

Section insert.
Context {S H : Type} {store : PageStore S H} {spec : PageStoreCore S H}.

(** * Writing pages *)

Lemma on_page_ok s h p d (m : M (list byte) unit) d' :
  ps_inv s -> ps_holds s h p -> ps_view s !! p = Some d -> m d = (Ok tt, d') -> blen d' = PAGE_SIZE ->
  runs (on_page h m) s (fun _ s' =>
    ps_inv s' /\ ps_view s' = <[p := d']> (ps_view s) /\ ps_pins s' = ps_pins s /\
    ps_cap s' = ps_cap s /\ ps_count s' = ps_count s /\ (forall h' q, ps_holds s h' q -> ps_holds s' h' q)).
Proof.
  intros Hinv Hh Hd Hm Hb. unfold on_page. rstep. destruct (ps_get_ok s h p Hinv Hh) as (d0 & Hg & Hd0).
  rewrite Hd in Hd0. injection Hd0 as <-. eapply runs_eq; [exact Hg|]. rewrite Hm. rstep.
  eapply runs_mono; [by apply ps_set_ok|]. intros _ s' (? & ? & ? & ? & ? & ? & _). by eapply runs_lift_result.
Qed.

(** A page is allocated, written and released. *)
Lemma run_new_page {T A} (m : Z * H -> M (list byte) unit) d' (k : Z * H -> M (S * T) A) s t (Q : A -> S * T -> Prop) :
  ps_inv s -> Z.of_nat (size (ps_pins s)) < ps_cap s -> ps_pins s !! ps_count s = None ->
  (forall h, m (ps_count s, h) (zeros PAGE_SIZE) = (Ok tt, d')) -> blen d' = PAGE_SIZE ->
  (forall h s', ps_inv s' -> ps_view s' = <[ps_count s := d']> (ps_view s) -> ps_pins s' = ps_pins s ->
     ps_cap s' = ps_cap s -> ps_count s' = ps_count s + 1 ->
     (forall h' q, is_Some (ps_pins s !! q) -> ps_holds s h' q -> ps_holds s' h' q) ->
     runs (k (ps_count s, h)) (s', t) Q) ->
  runs (new ← lift_fst ps_new; lift_fst (on_page (snd new) (m new));; lift_fst (ps_unpin (fst new) true);; k new) (s, t) Q.
Proof.
  intros Hinv Hcap Hpin Hm Hb Hk. rstep. rstep. eapply runs_mono; [by apply ps_new_ok|].
  intros [n h] s1 (En & Hfresh & I1 & V1 & P1 & C1 & N1 & Ho & Hh1 & _). cbn [fst snd] in *. subst n.
  rstep. rstep. eapply runs_mono; [eapply on_page_ok; [done | exact Ho | rewrite V1; apply lookup_insert_eq | apply Hm | done]|].
  intros [] s2 (I2 & V2 & P2 & C2 & N2 & Hh2). rstep. rstep.
  eapply runs_mono; [apply ps_unpin_pinned; [auto | pinned | auto]|]. intros [] s3 (I3 & V3 & P3 & C3 & N3 & Hh3 & _).
  assert (ps_pins s3 = ps_pins s) as P by (rewrite P3, P2, P1; by apply pins_dec_inc).
  apply Hk; try congruence; try lia.
  - rewrite V3, V2, V1. apply insert_insert_eq.
  - intros h' q Hq Hh. apply Hh3; [by rewrite P | auto].
Qed.

(** A pinned page is overwritten and released. *)
Lemma run_overwrite s h p d (m : M (list byte) unit) d' s0 :
  ps_inv s -> ps_holds s h p -> ps_view s !! p = Some d -> m d = (Ok tt, d') -> blen d' = PAGE_SIZE ->
  ps_inv s0 -> ps_pins s = pin_inc p (ps_pins s0) ->
  runs (on_page h m;; ps_unpin p true) s (fun _ s' =>
    ps_inv s' /\ ps_view s' = <[p := d']> (ps_view s) /\ ps_pins s' = ps_pins s0 /\
    ps_cap s' = ps_cap s /\ ps_count s' = ps_count s).
Proof.
  intros Hinv Hh Hd Hm Hb Hinv0 Hp. rstep. eapply runs_mono; [by eapply on_page_ok|].
  intros [] s1 (I1 & V1 & P1 & C1 & N1 & Hh1). eapply runs_mono; [apply ps_unpin_pinned; [auto | pinned | auto]|].
  intros [] s2 (I2 & V2 & P2 & C2 & N2 & _). rewrite P2, P1, Hp, (pins_dec_inc s0 p Hinv0). split_and!; congruence.
Qed.

(** A pinned page is cut in two: the right part goes to a new page first, then
    the page is overwritten with the left part. *)
Lemma run_split {A} (mr ml : Z * H -> M (list byte) unit) d dl dr (k : Z * H -> M (S * BPlusTree) A) s0 s h p t (Q : A -> S * BPlusTree -> Prop) :
  ps_inv s0 -> ps_inv s -> ps_holds s h p -> ps_view s !! p = Some d -> ps_pins s = pin_inc p (ps_pins s0) ->
  Z.of_nat (size (ps_pins s0)) + 2 <= ps_cap s ->
  (forall h, mr (ps_count s, h) (zeros PAGE_SIZE) = (Ok tt, dr)) -> blen dr = PAGE_SIZE ->
  (forall h, ml (ps_count s, h) d = (Ok tt, dl)) -> blen dl = PAGE_SIZE ->
  (forall h s', ps_inv s' -> ps_view s' = <[p := dl]> (<[ps_count s := dr]> (ps_view s)) -> ps_pins s' = ps_pins s0 ->
     ps_cap s' = ps_cap s -> ps_count s' = ps_count s + 1 -> runs (k (ps_count s, h)) (s', t) Q) ->
  runs (new ← lift_fst ps_new; lift_fst (on_page (snd new) (mr new));; lift_fst (ps_unpin (fst new) true);;
        lift_fst (on_page h (ml new));; lift_fst (ps_unpin p true);; k new) (s, t) Q.
Proof.
  intros Hinv0 Hinv Hh Hd Hp Hcap Hmr Hbr Hml Hbl Hk.
  assert (ps_view s !! ps_count s = None) as Hfresh.
  { destruct (ps_view s !! ps_count s) eqn:E; [| done]. pose proof (proj1 (ps_view_dom s (ps_count s) Hinv) (mk_is_Some _ _ E)). lia. }
  assert (p <> ps_count s) as Hne by congruence.
  apply (run_new_page mr dr (fun new => lift_fst (on_page h (ml new));; lift_fst (ps_unpin p true);; k new)); try done.
  - rewrite Hp. pose proof (size_pin_inc p (ps_pins s0)). lia.
  - destruct (ps_pins s !! ps_count s) eqn:E; [| done].
    apply mk_is_Some, ps_pins_dom in E; [| done]. destruct E as [? E]. congruence.
  - intros hn s1 I1 V1 P1 C1 N1 Hh1. rstep. rstep.
    assert (ps_holds s1 h p) as Hh'.
    { apply Hh1; [| done]. rewrite Hp, pin_inc_lookup. by rewrite decide_True. }
    eapply runs_mono; [eapply (on_page_ok s1 h p d); try done; rewrite V1; by rewrite lookup_insert_ne|].
    intros [] s2 (I2 & V2 & P2 & C2 & N2 & Hh2). rstep. rstep. eapply runs_mono; [apply ps_unpin_pinned; [auto | pinned | auto]|].
    intros [] s3 (I3 & V3 & P3 & C3 & N3 & _). apply Hk; try congruence; try lia.
    rewrite P3, P2, P1, Hp. by apply pins_dec_inc.
Qed.

(** * Into the parent *)

(** The tree after an insertion: it holds the leaves [ls'], nothing stays
    pinned, and of the pages that existed before only those of the tree ([pg])
    have changed. *)
Record grown (s : S) (t : BPlusTree) (ls' : list leaf) (pg : list Z) (st : S * BPlusTree) : Prop := {
  gr_root : snd st = set_root (root_page_id (snd st)) t;
  gr_tree : exists pg', tree_rep (snd st) (ps_view (fst st)) ls' pg' /\
              forall q, q ∈ pg' -> q ∈ pg \/ ps_count s <= q < ps_count (fst st);
  gr_inv : ps_inv (fst st);
  gr_pins : ps_pins (fst st) = ps_pins s;
  gr_cap : ps_cap (fst st) = ps_cap s;
  gr_count : ps_count s <= ps_count (fst st);
  gr_frame : forall q, q ∉ pg -> q < ps_count s -> ps_view (fst st) !! q = ps_view s !! q }.

Lemma set_root_self t : set_root (root_page_id t) t = t.
Proof. by destruct t. Qed.

(** The pages in a view are those below the count. *)
Lemma view_lt s q : ps_inv s -> is_Some (ps_view s !! q) -> q < ps_count s.
Proof. intros Hi Hq. apply ps_view_dom in Hq; [lia | done]. Qed.
Lemma view_count s : ps_inv s -> ps_view s !! ps_count s = None.
Proof.
  intros Hi. destruct (ps_view s !! ps_count s) eqn:E; [| done].
  apply mk_is_Some, view_lt in E; [lia | done].
Qed.

Lemma subtree_lt t s h p lo hi ls pg q : ps_inv s -> subtree t (ps_view s) h p lo hi ls pg -> q ∈ pg -> q < ps_count s.
Proof. intros Hi Hs Hq. apply view_lt; [done|]. by eapply subtree_dom. Qed.

(** A new root above two subtrees. *)
Lemma new_root_ok t s c sep new h M1 M2 pg1 pg2 :
  tree_wf t -> ps_inv s -> Z.of_nat (size (ps_pins s)) + 1 <= ps_cap s -> ps_count s < INVALID_PAGE_ID ->
  subtree t (ps_view s) h c None (Some sep) M1 pg1 -> subtree t (ps_view s) h new (Some sep) None M2 pg2 ->
  NoDup (pg1 ++ pg2) -> linked (M1 ++ M2) INVALID_PAGE_ID ->
  runs (insert_into_parent [] c sep new) (s, t) (fun _ st =>
    grown s t (M1 ++ M2) (pg1 ++ pg2) st /\ ps_count (fst st) <= ps_count s + 1).
Proof.
  intros Hwf Hinv Hcap Hcount H1 H2 Hnd Hlk. cbn [insert_into_parent]. rstep. rstep. cbn [snd].
  pose proof (subtree_facts _ _ _ _ _ _ _ _ H1) as F1. pose proof (subtree_facts _ _ _ _ _ _ _ _ H2) as F2.
  assert (forall q, q ∈ pg1 ++ pg2 -> q < ps_count s) as Hlt.
  { intros q [Hq|Hq]%elem_of_app; [exact (subtree_lt _ _ _ _ _ _ _ _ q Hinv H1 Hq) | exact (subtree_lt _ _ _ _ _ _ _ _ q Hinv H2 Hq)]. }
  assert (0 <= ps_count s) as H0.
  { destruct (sf_head _ _ _ _ _ _ F1) as [? ->]. pose proof (sf_pid _ _ _ _ _ _ F1) as [? _].
    specialize (Hlt c ltac:(left)). lia. }
  pose proof (view_count s Hinv) as Hfresh.
  destruct (write_internal_ok t (zeros PAGE_SIZE) [c; new] [sep] Hwf) as (d & Hw & Hd); try done.
  - pose proof (tw_max_internal t Hwf). rewrite blen_cons, blen_nil. lia.
  - constructor; [exact (bo_hi _ _ _ (sf_bounds _ _ _ _ _ _ F1)) | done].
  - pose proof (sf_pid _ _ _ _ _ _ F1). pose proof (sf_pid _ _ _ _ _ _ F2). unfold page_ok, INVALID_PAGE_ID in *.
    repeat constructor; lia.
  - apply (run_new_page (fun _ => write_internal t [c; new] [sep]) d
      (fun new => modify (fun st => (fst st, set_root (fst new) (snd st))))); try done; [lia | | apply Hd |].
    + destruct (ps_pins s !! ps_count s) eqn:E; [| done]. apply mk_is_Some, ps_pins_dom in E; [| done].
      destruct E as [? E]. congruence.
    + intros hn s1 I1 V1 P1 C1 N1 _. rstep. cbn [fst snd].
      assert (forall q, q ∈ pg1 ++ pg2 -> ps_view s1 !! q = ps_view s !! q) as Hfr.
      { intros q Hq. rewrite V1. apply lookup_insert_ne. specialize (Hlt q Hq). lia. }
      split; [| cbn [fst]; lia]. constructor; cbn [fst snd]; try done; try lia.
      * exists (ps_count s :: pg1 ++ pg2). split; [constructor|].
        -- by apply (tree_wf_format t).
        -- exists (Datatypes.S h). apply (subtree_format t); try done. cbn [set_root root_page_id]. exists [c; new], [sep], (pg1 ++ pg2). split_and!; [done | |].
           ++ constructor; [exists d; split; [rewrite V1; apply lookup_insert_eq | done] | unfold page_ok; lia | done |].
              pose proof (tw_max_internal t Hwf). rewrite blen_cons, blen_nil. lia.
           ++ constructor; [| constructor]; (eapply subtree_frame; [| eassumption]); intros q Hq; apply Hfr, elem_of_app; auto.
        -- constructor; [| done]. intros Hq%Hlt. lia.
        -- done.
        -- intros q [->|Hq]%elem_of_cons; [right; lia | by left].
      * intros q _ Hq. rewrite V1. apply lookup_insert_ne. lia.
Qed.

(** * Climbing *)

Lemma ctx_dom t v r h anc c lo hi L R pg : ctx t v r h anc c lo hi L R pg -> forall q, q ∈ pg -> is_Some (v !! q).
Proof.
  induction 1 as [h|h anc p lo hi L R pg cs1 c cs2 ks1 ks2 lo' hi' L' R' pg1 pg2 _ IH Hn _ HL HR]; intros q Hq.
  - by apply not_elem_of_nil in Hq.
  - rewrite elem_of_cons, !elem_of_app in Hq. destruct Hq as [->|[Hq|[Hq|Hq]]].
    + destruct (na_page _ _ _ _ _ Hn) as (d & Hd & _). eauto.
    + destruct HL as [(_ & _ & _ & _ & ->)|(k & ks0 & _ & _ & Hf)]; [by apply not_elem_of_nil in Hq|].
      eapply forest_dom; [| exact Hf | exact Hq]. intros *. apply subtree_dom.
    + destruct HR as [(_ & _ & _ & _ & ->)|(k & ks0 & _ & _ & Hf)]; [by apply not_elem_of_nil in Hq|].
      eapply forest_dom; [| exact Hf | exact Hq]. intros *. apply subtree_dom.
    + by apply IH.
Qed.

Lemma lside_children t v h lo cs ks lo' ls pg q : lside (subtree t v h) lo cs ks lo' ls pg -> q ∈ cs -> q ∈ pg.
Proof.
  intros [(-> & _)|(k & ks0 & _ & _ & Hf)] Hq; [by apply not_elem_of_nil in Hq|].
  apply forest_facts_of in Hf. pose proof (ff_cs _ _ _ _ _ _ _ Hf) as Hcs. rewrite Forall_forall in Hcs. by apply Hcs.
Qed.

Lemma grown_trans s s' t ls pg pg' st :
  ps_pins s' = ps_pins s -> ps_cap s' = ps_cap s -> ps_count s <= ps_count s' ->
  (forall q, q ∉ pg -> q < ps_count s -> ps_view s' !! q = ps_view s !! q) ->
  (forall q, q ∈ pg' -> q ∈ pg \/ ps_count s <= q < ps_count s') -> grown s' t ls pg' st -> grown s t ls pg st.
Proof.
  intros HP HC HN HV Hpg [Hr (pg2 & Ht & Hpg2) Hi Hp Hc HN' Hf]. constructor; [done | | done | congruence | congruence | lia |].
  - exists pg2. split; [done|]. intros q Hq. destruct (Hpg2 q Hq) as [Hq'|?]; [| right; lia].
    destruct (Hpg q Hq') as [?|?]; [by left | right; lia].
  - intros q Hq Hlt. rewrite Hf; [by apply HV | | lia]. intros Hq'. destruct (Hpg q Hq') as [?|?]; [done | lia].
Qed.

Lemma py_insert_mid {A} (l1 l2 : list A) x n : n = blen l1 -> py_insert (l1 ++ l2) n x = l1 ++ x :: l2.
Proof. intros ->. unfold blen. rewrite py_insert_nat, take_app_length, drop_app_length. done. Qed.

(** The parent's new contents: the separator and the new child behind the old one. *)
Lemma parent_contents t v h lo cs1 c cs2 ks1 ks2 lo' hi' hi L R pgl pgr M1 M2 pg1 pg2 sep new :
  lside (subtree t v h) lo cs1 ks1 lo' L pgl -> rside (subtree t v h) hi' cs2 ks2 hi R pgr ->
  length cs1 = length ks1 -> NoDup (pg1 ++ pg2 ++ pgl) ->
  subtree t v h c lo' (Some sep) M1 pg1 -> subtree t v h new (Some sep) hi' M2 pg2 ->
  py_index (cs1 ++ c :: cs2) c = Ok (blen cs1) /\
  py_insert (cs1 ++ c :: cs2) (blen cs1 + 1) new = cs1 ++ [c; new] ++ cs2 /\
  py_insert (ks1 ++ ks2) (blen cs1) sep = ks1 ++ [sep] ++ ks2 /\
  forest (subtree t v h) lo (cs1 ++ [c; new] ++ cs2) (ks1 ++ [sep] ++ ks2) hi (L ++ (M1 ++ M2) ++ R) (pgl ++ (pg1 ++ pg2) ++ pgr).
Proof.
  intros HL HR Hlen Hnd H1 H2. split_and!.
  - unfold py_index. rewrite py_index_from_app; [done|]. intros Hc%(lside_children _ _ _ _ _ _ _ _ _ _ HL).
    destruct (sf_head _ _ _ _ _ _ (subtree_facts _ _ _ _ _ _ _ _ H1)) as [pg1' ->].
    cbn [app] in Hnd. inversion Hnd as [|? ? Hni _]; subst. apply Hni. rewrite !elem_of_app. auto.
  - change (c :: cs2) with ([c] ++ cs2). rewrite (app_assoc cs1), py_insert_mid by (rewrite blen_app; done).
    by rewrite <- app_assoc.
  - apply py_insert_mid. unfold blen. by rewrite Hlen.
  - eapply forest_join; [exact HL | | exact HR]. constructor; [done | by constructor].
Qed.

Lemma grown_perm s t ls pg pg' st : pg ≡ₚ pg' -> grown s t ls pg st -> grown s t ls pg' st.
Proof.
  intros Hp [Hr (pg2 & Ht & Hpg2) Hi HP Hc HN Hf]. constructor; try done.
  - exists pg2. split; [done|]. intros q Hq. rewrite <- Hp. auto.
  - intros q Hq. apply Hf. by rewrite Hp.
Qed.

(** A node that took its new child without overflowing: the tree is complete. *)
Lemma parent_fits t s s' h anc p lo hi L R pg cs ks M pgm d :
  tree_wf t -> ctx t (ps_view s) (root_page_id t) (Datatypes.S h) anc p lo hi L R pg ->
  forest (subtree t (ps_view s) h) lo cs ks hi M pgm -> NoDup (p :: pgm ++ pg) ->
  linked (L ++ M ++ R) INVALID_PAGE_ID -> page_ok p -> ks <> [] -> blen ks <= max_internal_keys t -> internal_page t d cs ks ->
  ps_inv s' -> ps_view s' = <[p := d]> (ps_view s) -> ps_pins s' = ps_pins s -> ps_cap s' = ps_cap s ->
  ps_count s' = ps_count s -> grown s t (L ++ M ++ R) (p :: pgm ++ pg) (s', t).
Proof.
  intros Hwf Hc Hf Hnd Hlk Hp Hks Hmax Hd I V P C N. apply NoDup_cons in Hnd as [Hni Hnd].
  assert (forall q, q ∈ pgm ++ pg -> ps_view s' !! q = ps_view s !! q) as Hfr.
  { intros q Hq. rewrite V. apply lookup_insert_ne. by intros ->. }
  assert (subtree t (ps_view s') (Datatypes.S h) p lo hi M (p :: pgm)) as Hs.
  { exists cs, ks, pgm. split_and!; [done | |].
    - constructor; [exists d; split; [rewrite V; apply lookup_insert_eq | done] | done | done | done].
    - eapply forest_frame; [| exact Hf]. intros q Hq. apply Hfr, elem_of_app. by left. }
  assert (ctx t (ps_view s') (root_page_id t) (Datatypes.S h) anc p lo hi L R pg) as Hc'.
  { eapply ctx_frame; [| exact Hc]. intros q Hq. apply Hfr, elem_of_app. by right. }
  destruct (ctx_plug _ _ _ _ _ _ _ _ _ _ _ _ _ Hc' Hs) as (h' & pg' & Ht & Hpg).
  constructor; cbn [fst snd]; try done; [by rewrite set_root_self | | lia |].
  - exists pg'. split; [| intros q Hq; left; by rewrite <- Hpg]. constructor; [done | eauto | | done].
    rewrite Hpg. cbn [app]. by constructor.
  - intros q Hq _. rewrite V. apply lookup_insert_ne. intros ->. apply Hq. left.
Qed.

Lemma forest_page_ok t v h lo cs ks hi ls pg : forest (subtree t v h) lo cs ks hi ls pg ->
  Forall (fun c => 0 <= c < 2 ^ 32) cs /\ Forall (key_ok t) ks /\ length cs = Datatypes.S (length ks).
Proof.
  intros Hf. apply forest_facts_of in Hf as [_ Hl Hcs Hks _ _ _ _ _ _ _ _ _]. split_and!; [| done | done].
  eapply Forall_impl; [exact Hcs|]. intros c [Hc _]. unfold page_ok, INVALID_PAGE_ID in Hc. lia.
Qed.

(** Cutting an overfull node in the middle. *)
Lemma node_cut t (cs : list Z) (ks : list value) : tree_wf t -> length cs = Datatypes.S (length ks) -> max_internal_keys t < blen ks ->
  let mid := blen ks / 2 in
  exists lk up rk lc rc, ks = lk ++ up :: rk /\ cs = lc ++ rc /\ length lc = Datatypes.S (length lk) /\ length rc = Datatypes.S (length rk) /\
    py_nth ks mid = Ok up /\ py_take ks mid = lk /\ py_drop ks (mid + 1) = rk /\
    py_take cs (mid + 1) = lc /\ py_drop cs (mid + 1) = rc /\ lk <> [] /\ rk <> [] /\ (blen ks = max_internal_keys t + 1 -> blen lk <= max_internal_keys t /\ blen rk <= max_internal_keys t).
Proof.
  intros Hwf Hlen Hover mid. pose proof (tw_max_internal t Hwf) as Hm.
  assert (0 < mid < blen ks - 1) as Hmid by (unfold mid; Z.to_euclidean_division_equations; lia).
  destruct (lookup_lt_is_Some_2 ks (Z.to_nat mid)) as [up Hup]; [unfold blen in *; lia|].
  exists (take (Z.to_nat mid) ks), up, (drop (Datatypes.S (Z.to_nat mid)) ks), (take (Z.to_nat (mid + 1)) cs), (drop (Z.to_nat (mid + 1)) cs).
  unfold py_take, py_drop. replace (Datatypes.S (Z.to_nat mid)) with (Z.to_nat (mid + 1)) by lia. unfold blen in *.
  split_and!; try done; rewrite ?length_take, ?length_drop; try lia.
  - replace (Z.to_nat (mid + 1)) with (Datatypes.S (Z.to_nat mid)) by lia. by rewrite take_drop_middle.
  - by rewrite take_drop.
  - apply py_nth_lookup; [lia | done].
  - intros E%(f_equal length). rewrite length_take in E. cbn [length] in E. lia.
  - intros E%(f_equal length). rewrite length_drop in E. cbn [length] in E. lia.
Qed.

Lemma forest_lt t s h lo cs ks hi ls pg q :
  ps_inv s -> forest (subtree t (ps_view s) h) lo cs ks hi ls pg -> q ∈ pg -> q < ps_count s.
Proof.
  intros Hi Hf Hq. apply view_lt; [done|]. eapply forest_dom; [| exact Hf | exact Hq]. intros *. apply subtree_dom.
Qed.

(** An internal node cut in two, the right part on a new page. *)
Lemma internal_split_ok t s s2 r h anc p lo hi L R pg lc lk up rc rk MA MB XA XB dl dr :
  ps_inv s -> ctx t (ps_view s) r (Datatypes.S h) anc p lo hi L R pg ->
  forest (subtree t (ps_view s) h) lo lc lk (Some up) MA XA -> forest (subtree t (ps_view s) h) (Some up) rc rk hi MB XB ->
  NoDup (p :: (XA ++ XB) ++ pg) -> page_ok p -> ps_count s < INVALID_PAGE_ID -> is_Some (ps_view s !! p) ->
  lk <> [] -> rk <> [] -> blen lk <= max_internal_keys t -> blen rk <= max_internal_keys t -> internal_page t dl lc lk -> internal_page t dr rc rk ->
  ps_view s2 = <[p := dl]> (<[ps_count s := dr]> (ps_view s)) ->
  ctx t (ps_view s2) r (Datatypes.S h) anc p lo hi L R pg /\
  subtree t (ps_view s2) (Datatypes.S h) p lo (Some up) MA (p :: XA) /\
  subtree t (ps_view s2) (Datatypes.S h) (ps_count s) (Some up) hi MB (ps_count s :: XB) /\
  NoDup ((p :: XA) ++ (ps_count s :: XB) ++ pg).
Proof.
  intros Hinv Hc HA HB Hnd Hp Hcount Hdom Hnl Hnr Hml Hmr Hdl Hdr V. pose proof (view_lt s p Hinv Hdom) as Hplt.
  assert (forall q, q ∈ (XA ++ XB) ++ pg -> q < ps_count s) as Hlt.
  { intros q [[Hq|Hq]%elem_of_app|Hq]%elem_of_app; [exact (forest_lt _ _ _ _ _ _ _ _ _ q Hinv HA Hq) |
      exact (forest_lt _ _ _ _ _ _ _ _ _ q Hinv HB Hq) | apply view_lt; [done | by eapply ctx_dom]]. }
  apply NoDup_cons in Hnd as [Hni Hnd].
  assert (forall q, q ∈ (XA ++ XB) ++ pg -> ps_view s2 !! q = ps_view s !! q) as Hfr.
  { intros q Hq. rewrite V, !lookup_insert_ne; [done | specialize (Hlt q Hq); lia | by intros ->]. }
  split_and!.
  - eapply ctx_frame; [| exact Hc]. intros q Hq. apply Hfr. rewrite !elem_of_app. auto.
  - exists lc, lk, XA. split_and!; [done | constructor; [exists dl; rewrite V; split; [apply lookup_insert_eq | done] | done | done | done] |].
    eapply forest_frame; [| exact HA]. intros q Hq. apply Hfr. rewrite !elem_of_app. auto.
  - exists rc, rk, XB. split_and!; [done | constructor; [exists dr; rewrite V; split; [| done] | unfold page_ok in *; lia | done | done] |].
    + rewrite lookup_insert_ne by lia. apply lookup_insert_eq.
    + eapply forest_frame; [| exact HB]. intros q Hq. apply Hfr. rewrite !elem_of_app. auto.
  - assert ((p :: XA) ++ (ps_count s :: XB) ++ pg ≡ₚ ps_count s :: p :: (XA ++ XB) ++ pg) as -> by solve_Permutation.
    constructor; [| by constructor]. intros [E|Hq%Hlt]%elem_of_cons; lia.
Qed.

Lemma insert_into_parent_ok t : tree_wf t -> forall anc s h c lo hi L R pg M1 M2 pg1 pg2 sep new,
  ctx t (ps_view s) (root_page_id t) h anc c lo hi L R pg ->
  subtree t (ps_view s) h c lo (Some sep) M1 pg1 -> subtree t (ps_view s) h new (Some sep) hi M2 pg2 ->
  NoDup (pg1 ++ pg2 ++ pg) -> linked (L ++ (M1 ++ M2) ++ R) INVALID_PAGE_ID ->
  room s pg 2 -> ps_count s + blen anc < INVALID_PAGE_ID ->
  runs (insert_into_parent anc c sep new) (s, t) (fun _ st =>
    grown s t (L ++ (M1 ++ M2) ++ R) (pg1 ++ pg2 ++ pg) st /\ ps_count (fst st) <= ps_count s + blen anc + 1).
Proof.
  intros Hwf. induction anc as [|p anc IH]; intros s h c lo hi L R pg M1 M2 pg1 pg2 sep new Hc H1 H2 Hnd Hlk Hr Hcount.
  { inversion Hc; subst. cbn [app] in *. rewrite !app_nil_r in *. destruct Hr as (Hinv & Hcap & _).
    rewrite blen_nil in *. eapply runs_mono; [eapply new_root_ok; eauto; lia|]. cbv beta. intros _ st [? ?]. split; [done | lia]. }
  inversion Hc as [|? ? ? lo0 hi0 L0 R0 pg0 cs1 ? cs2 ks1 ks2 ? ? L' R' pgl pgr Hc0 Hn Hlen HL HR]; subst.
  destruct Hr as (Hinv & Hcap & Hun). destruct (na_page _ _ _ _ _ Hn) as (d & Hd & Hpage).
  set (X := pgl ++ (pg1 ++ pg2) ++ pgr). set (M := L' ++ (M1 ++ M2) ++ R').
  assert (p :: X ++ pg0 ≡ₚ pg1 ++ pg2 ++ p :: pgl ++ pgr ++ pg0) as Hperm by (unfold X; solve_Permutation).
  assert (NoDup (p :: X ++ pg0)) as Hnd' by (by rewrite Hperm).
  assert (L0 ++ M ++ R0 = (L0 ++ L') ++ (M1 ++ M2) ++ R' ++ R0) as Eleaves by (unfold M; by rewrite <- !app_assoc).
  assert (NoDup (pg1 ++ pg2 ++ pgl)) as Hnd3.
  { assert (NoDup ((pg1 ++ pg2 ++ pgl) ++ p :: pgr ++ pg0)) as Hn3; [| by apply NoDup_app in Hn3 as (? & _)].
    assert ((pg1 ++ pg2 ++ pgl) ++ p :: pgr ++ pg0 ≡ₚ pg1 ++ pg2 ++ p :: pgl ++ pgr ++ pg0) as -> by solve_Permutation. done. }
  destruct (parent_contents t _ h lo0 cs1 c cs2 ks1 ks2 lo hi hi0 L' R' pgl pgr M1 M2 pg1 pg2 sep new HL HR Hlen Hnd3 H1 H2)
    as (Eidx & Ecs & Eks & Hf).
  destruct (forest_page_ok _ _ _ _ _ _ _ _ _ Hf) as (Hcs_ok & Hks_ok & Hlen').
  set (cs := cs1 ++ [c; new] ++ cs2) in *. set (ks := ks1 ++ [sep] ++ ks2) in *. fold M X in Hf.
  rewrite <- Eleaves in Hlk |- *. pose proof (na_pid _ _ _ _ _ Hn) as Hpid.
  cbn [insert_into_parent]. rstep. rstep. cbn [snd]. rstep. rstep.
  eapply runs_mono; [apply ps_fetch_ok; [done | eauto | right; lia]|].
  intros hd s1 (I1 & V1 & P1 & C1 & N1 & Ho & _). rstep. rstep.
  destruct (ps_get_ok s1 hd p I1 Ho) as (d0 & Hg & Hd0). rewrite V1, Hd in Hd0. injection Hd0 as <-.
  eapply run_read_internal; [exact Hg | exact Hpage |]. cbn [fst snd]. rstep. eapply runs_lift_result; [exact Eidx|].
  cbv zeta. rewrite Ecs, Eks. destruct (Z.leb_spec (blen ks) (max_internal_keys t)) as [Hfits|Hover].
  - destruct (write_internal_ok t d cs ks Hwf (ip_size _ _ _ _ Hpage) Hlen' Hfits Hks_ok Hcs_ok) as (d' & Hw & Hd').
    rstep. rstep. eapply runs_mono; [eapply (on_page_ok s1 hd p d); try done; [by rewrite V1 | apply Hd']|].
    intros [] s2 (I2 & V2 & P2 & C2 & N2 & _). rstep. eapply runs_mono; [apply ps_unpin_pinned; [auto | pinned | auto]|].
    intros [] s3 (I3 & V3 & P3 & C3 & N3 & _).
    split; [| cbn [fst]; pose proof (blen_nonneg (p :: anc)); lia]. eapply (grown_perm _ _ _ (p :: X ++ pg0)); [done|].
    eapply (parent_fits t s s3 h anc p lo0 hi0 L0 R0 pg0 cs ks M X d'); try done; try congruence.
    + unfold ks. by destruct ks1.
    + rewrite P3, P2, P1. by apply pins_dec_inc.
  - assert (blen ks = max_internal_keys t + 1) as Hn1.
    { pose proof (na_max _ _ _ _ _ Hn) as Hm. unfold ks in *. rewrite !blen_app in *. rewrite blen_cons, blen_nil in *. lia. }
    destruct (node_cut t cs ks Hwf Hlen' Hover) as (lk & up & rk & lc & rc & Ek & Ec & Hll & Hlr & Eup & Elk & Erk & Elc & Erc & Hnl & Hnr & Hmax).
    specialize (Hmax Hn1) as [Hml Hmr]. rstep. eapply runs_lift_result; [exact Eup|]. cbv zeta. rewrite Elk, Erk, Elc, Erc.
    rewrite Ek, Ec in Hf. destruct (forest_cut _ _ _ _ _ _ _ _ _ _ Hll Hf) as (MA & MB & XA & XB & EM & EX & HfA & HfB).
    destruct (forest_page_ok _ _ _ _ _ _ _ _ _ HfA) as (HcA & HkA & _).
    destruct (forest_page_ok _ _ _ _ _ _ _ _ _ HfB) as (HcB & HkB & _).
    destruct (write_internal_ok t (zeros PAGE_SIZE) rc rk Hwf) as (dr & Hwr & Hdr); try done.
    destruct (write_internal_ok t d lc lk Hwf (ip_size _ _ _ _ Hpage)) as (dl & Hwl & Hdl); try done.
    apply (run_split (fun _ => write_internal t rc rk) (fun _ => write_internal t lc lk) d dl dr
      (fun new => insert_into_parent anc p up (fst new)) s s1 hd p t); try done; [by rewrite V1 | lia | apply Hdr | apply Hdl |].
    intros hn s2 I2 V2 P2 C2 N2. cbn [fst]. rewrite V1, N1 in *. rewrite blen_cons in Hcount. pose proof (blen_nonneg anc).
    rewrite EX in Hnd', Hperm.
    destruct (internal_split_ok t s s2 _ h anc p lo0 hi0 L0 R0 pg0 lc lk up rc rk MA MB XA XB dl dr Hinv Hc0 HfA HfB Hnd' Hpid
      ltac:(lia) ltac:(eauto) Hnl Hnr Hml Hmr Hdl Hdr V2) as (Hc2 & HsA & HsB & Hnd2).
    rewrite EM in Hlk |- *.
    eapply runs_mono; [eapply IH; [exact Hc2 | exact HsA | exact HsB | exact Hnd2 | exact Hlk | | lia]|].
    + split_and!; [done | rewrite P2, C2, C1; done |]. intros q Hq. rewrite P2. apply Hun. right. rewrite !elem_of_app. auto.
    + intros [] st [Hg2 Hn2]. split; [| rewrite blen_cons; lia]. eapply grown_trans; [| | | | | exact Hg2]; try congruence; try lia.
      * intros q Hq Hql. rewrite V2, !lookup_insert_ne; [done | lia |]. intros ->. apply Hq. rewrite <- Hperm. left.
      * intros q Hq. rewrite <- Hperm. rewrite N2.
        rewrite !elem_of_app, !elem_of_cons in Hq. rewrite elem_of_cons, !elem_of_app. clear -Hq. intuition (subst; auto; lia).
Qed.

(** * Into the leaf *)

(** The ancestors of a leaf, in a store with page ids of 32 bits. *)
Lemma ancestors_few t (s : S) r anc l lo hi L R pg : ps_inv s -> at_leaf t (ps_view s) r anc l lo hi L R pg -> NoDup (lf_page l :: pg) ->
  ps_count s < 2 ^ 32 -> blen anc < 32.
Proof.
  intros Hinv [Hc Hl] Hnd Hcount. pose proof (ctx_levels _ _ _ _ _ _ _ _ _ _ _ Hc) as Hlev. cbn [Nat.add Nat.pow] in Hlev.
  assert (length (lf_page l :: pg) <= Z.to_nat (ps_count s))%nat as Hlen.
  { apply pages_count; [done | done |]. intros q [->|Hq]%elem_of_cons; [destruct (la_page _ _ _ _ _ _ Hl) as (d & Hd & _); eauto | by eapply ctx_dom]. }
  cbn [length] in Hlen. apply Nat2Z.inj_le in Hlev. rewrite Nat2Z.inj_pow in Hlev. change (Z.of_nat 2) with 2 in Hlev.
  unfold blen. destruct (Z.le_gt_cases 32 (Z.of_nat (length anc))) as [Hge|]; [| done].
  pose proof (Z.pow_le_mono_r 2 32 (Z.of_nat (length anc)) ltac:(lia) Hge). lia.
Qed.

Lemma grown_keeps s s1 t ls pg st : keeps s s1 -> grown s1 t ls pg st -> grown s t ls pg st.
Proof.
  intros (I & V & P & C & N). apply grown_trans; try done; try lia; [by intros; rewrite V | by left].
Qed.

(** Cutting a sorted list between two different keys. *)
Lemma sorted_cut ks i a b : ksorted ks -> (0 < i)%nat -> ks !! (i - 1)%nat = Some a -> ks !! i = Some b -> a <> b ->
  exists lk rk, take i ks = lk ++ [a] /\ drop i ks = b :: rk /\
    Forall (fun x => klt x b) (take i ks) /\ Forall (kle b) (drop i ks).
Proof.
  intros Hs Hi Ha Hb Hne. exists (take (i - 1) ks), (drop (Datatypes.S i) ks).
  assert (take i ks = take (i - 1) ks ++ [a]) as Et.
  { replace i with (Datatypes.S (i - 1)) at 1 by lia. by apply take_S_r. }
  assert (drop i ks = b :: drop (Datatypes.S i) ks) as Ed by (by apply drop_S).
  split_and!; try done; rewrite <- (take_drop i ks), Et, Ed in Hs; apply ksorted_app in Hs as (Hl & Hr & Hlr).
  - rewrite Et. apply ksorted_app in Hl as (_ & _ & Hla). apply Forall_forall. intros x Hx.
    assert (kle a b) as Hab by (apply Hlr; [apply elem_of_app; right; left | left]).
    apply kle_cases in Hab as [Hab| ->]; [| done].
    apply elem_of_app in Hx as [Hx| ->%list_elem_of_singleton]; [| done]. eapply kle_klt; [| exact Hab]. apply Hla; [done | left].
  - rewrite Ed. inversion Hr; subst. constructor; [apply kle_refl | done].
Qed.

(** A sorted list of entries cut between two different keys makes two leaves. *)
Lemma cut_facts t ks rs lo hi i a sep p p' nx nx' : length ks = length rs -> ksorted ks -> Forall (key_ok t) ks -> Forall rid_ok rs ->
  Forall (above lo) ks -> Forall (below hi) ks -> (0 < i)%nat -> ks !! (i - 1)%nat = Some a -> ks !! i = Some sep -> a <> sep ->
  bound_ok t lo -> bound_ok t hi -> Z.of_nat i <= max_leaf_keys t -> blen ks - Z.of_nat i <= max_leaf_keys t ->
  0 <= nx < 2 ^ 32 -> 0 <= nx' < 2 ^ 32 ->
  leaf_ok t (mkLeaf p (take i ks) (take i rs) nx) /\ leaf_ok t (mkLeaf p' (drop i ks) (drop i rs) nx') /\
  bounds_ok t lo (Some sep) /\ bounds_ok t (Some sep) hi /\
  Forall (above lo) (take i ks) /\ Forall (below (Some sep)) (take i ks) /\
  Forall (above (Some sep)) (drop i ks) /\ Forall (below hi) (drop i ks) /\
  py_nth (drop i ks) 0 = Ok sep.
Proof.
  intros Hlen Hs Hks Hrs Hab Hbe Hi Hla Hsep Hne Hlo Hhi Hm1 Hm2 Hnx Hnx'.
  destruct (sorted_cut _ _ _ _ Hs Hi Hla Hsep Hne) as (lk & rk & Et & Ed & Hlt & Hge).
  pose proof (proj1 (Forall_forall _ _) Hab a (list_elem_of_lookup_2 _ _ _ Hla)) as Haa.
  pose proof (proj1 (Forall_forall _ _) Hks sep (list_elem_of_lookup_2 _ _ _ Hsep)) as Hsk.
  pose proof (proj1 (Forall_forall _ _) Hbe sep (list_elem_of_lookup_2 _ _ _ Hsep)) as Hsb.
  assert (klt a sep) as Has by (rewrite Forall_forall in Hlt; apply Hlt; rewrite Et; apply elem_of_app; right; left).
  rewrite <- (take_drop i ks) in Hs. apply ksorted_app in Hs as (Hsl & Hsr & _). unfold blen in *.
  split_and!; try (constructor; cbn [lf_keys lf_rids lf_next]); try done; try (by apply Forall_take);
    try (by apply Forall_drop); unfold blen; rewrite ?length_take, ?length_drop; try lia.
  - destruct lo as [x|]; [| done]. cbn. by eapply kle_klt.
  - by rewrite Ed.
Qed.

Section leaf_insert.
Context (t : BPlusTree) (Hwf : tree_wf t) (l : leaf) (key : value) (rid : RID) (lo hi : option value).
Context (Hok : leaf_ok t l) (Habove : Forall (above lo) (lf_keys l)) (Hbelow : Forall (below hi) (lf_keys l)).
Context (Hkey : key_ok t key) (Hrid : rid_ok rid) (Ha : above lo key) (Hb : below hi key).

Local Notation u := (upper key (lf_keys l)).
Definition grown_keys : list value := take u (lf_keys l) ++ key :: drop u (lf_keys l).
Definition grown_rids : list RID := take u (lf_rids l) ++ rid :: drop u (lf_rids l).

Lemma grown_forall (P : value -> Prop) : Forall P (lf_keys l) -> P key -> Forall P grown_keys.
Proof using. intros Hl Hk. apply Forall_app. split; [by apply Forall_take|]. constructor; [done | by apply Forall_drop]. Qed.

Lemma grown_facts :
  length grown_keys = length grown_rids /\ blen grown_keys = blen (lf_keys l) + 1 /\ ksorted grown_keys /\
  Forall (key_ok t) grown_keys /\ Forall rid_ok grown_rids /\ Forall (above lo) grown_keys /\ Forall (below hi) grown_keys /\
  zip grown_keys grown_rids = entries_insert key rid (zip (lf_keys l) (lf_rids l)).
Proof using All.
  destruct Hok as [Hlen _ Hks Hrs Hso _]. pose proof (upper_le key (lf_keys l)) as Hu. split_and!.
  - unfold grown_keys, grown_rids. rewrite !length_app, !length_take. cbn [length]. rewrite !length_drop. lia.
  - unfold grown_keys, blen. rewrite !length_app, !length_take. cbn [length]. rewrite !length_drop. lia.
  - by apply ksorted_insert.
  - by apply grown_forall.
  - apply Forall_app. split; [by apply Forall_take|]. constructor; [done | by apply Forall_drop].
  - by apply grown_forall.
  - by apply grown_forall.
  - unfold entries_insert. rewrite fst_zip by lia. by apply zip_insert.
Qed.

(** The two leaves of a split. *)
Definition left_leaf (mid : nat) (new : Z) : leaf := mkLeaf (lf_page l) (take mid grown_keys) (take mid grown_rids) new.
Definition right_leaf (mid : nat) (new : Z) : leaf := mkLeaf new (drop mid grown_keys) (drop mid grown_rids) (lf_next l).

Lemma split_facts mid a sep new : (0 < mid)%nat -> grown_keys !! (mid - 1)%nat = Some a -> grown_keys !! mid = Some sep -> a <> sep ->
  page_ok new -> bound_ok t lo -> bound_ok t hi -> blen (lf_keys l) <= max_leaf_keys t ->
  leaf_ok t (left_leaf mid new) /\ leaf_ok t (right_leaf mid new) /\
  bounds_ok t lo (Some sep) /\ bounds_ok t (Some sep) hi /\
  Forall (above lo) (take mid grown_keys) /\ Forall (below (Some sep)) (take mid grown_keys) /\
  Forall (above (Some sep)) (drop mid grown_keys) /\ Forall (below hi) (drop mid grown_keys) /\
  py_nth (drop mid grown_keys) 0 = Ok sep.
Proof using All.
  intros Hmid Hla Hsep Hne Hnew Hlo Hhi Hmax. pose proof grown_facts as (Hlen & Hbl & Hs & Hks & Hrs & Hab & Hbe & _).
  pose proof (lookup_lt_Some _ _ _ Hsep) as Hml. destruct Hok as [_ _ _ _ _ Hnx]. unfold page_ok, INVALID_PAGE_ID, blen in *.
  apply (cut_facts t grown_keys grown_rids lo hi mid a sep); try done; unfold blen; lia.
Qed.
End leaf_insert.

(** The leaf had room: one page is rewritten. *)
Lemma leaf_fits_ok t s s' l l' anc lo hi L R pg d :
  tree_wf t -> at_leaf t (ps_view s) (root_page_id t) anc l lo hi L R pg -> NoDup (lf_page l :: pg) ->
  linked (L ++ [l] ++ R) INVALID_PAGE_ID ->
  lf_page l' = lf_page l -> lf_next l' = lf_next l -> leaf_ok t l' -> Forall (above lo) (lf_keys l') -> Forall (below hi) (lf_keys l') ->
  leaf_page t d (lf_keys l') (lf_rids l') (lf_next l') ->
  ps_inv s' -> ps_view s' = <[lf_page l := d]> (ps_view s) -> ps_pins s' = ps_pins s -> ps_cap s' = ps_cap s ->
  ps_count s' = ps_count s -> grown s t (L ++ [l'] ++ R) (lf_page l :: pg) (s', t).
Proof.
  intros Hwf [Hc [_ _ Hpid Hb _ _ _]] Hnd Hlk Ep En Hok Ha Hbl Hd I V P C N. apply NoDup_cons in Hnd as [Hni Hnd].
  assert (ctx t (ps_view s') (root_page_id t) 0 anc (lf_page l) lo hi L R pg) as Hc'.
  { eapply ctx_frame; [| exact Hc]. intros q Hq. rewrite V. apply lookup_insert_ne. by intros <-. }
  assert (subtree t (ps_view s') 0 (lf_page l) lo hi [l'] [lf_page l]) as Hs.
  { exists l'. split_and!; [done | done |]. constructor; try done. exists d. rewrite V. split; [apply lookup_insert_eq | done]. }
  destruct (ctx_plug _ _ _ _ _ _ _ _ _ _ _ _ _ Hc' Hs) as (h' & pg' & Ht & Hpg).
  constructor; cbn [fst snd]; try done; [by rewrite set_root_self | | lia |].
  - exists pg'. split; [| intros q Hq; left; by rewrite <- Hpg]. constructor; [done | eauto | |].
    + rewrite Hpg. cbn [app]. by constructor.
    + cbn [app] in *. apply linked_app in Hlk as [H1 H2]. apply linked_app. rewrite Ep. split; [done|].
      cbn [linked] in *. by rewrite En.
  - intros q Hq _. rewrite V. apply lookup_insert_ne. intros <-. apply Hq. left.
Qed.

(** A leaf cut in two, the right part on a new page. *)
Lemma leaf_split_ok t s s2 r l l1 l2 anc lo hi L R pg sep dl dr :
  ps_inv s -> at_leaf t (ps_view s) r anc l lo hi L R pg -> NoDup (lf_page l :: pg) -> ps_count s < INVALID_PAGE_ID ->
  linked (L ++ [l] ++ R) INVALID_PAGE_ID ->
  lf_page l1 = lf_page l -> lf_next l1 = ps_count s -> lf_page l2 = ps_count s -> lf_next l2 = lf_next l ->
  leaf_ok t l1 -> leaf_ok t l2 -> bounds_ok t lo (Some sep) -> bounds_ok t (Some sep) hi ->
  Forall (above lo) (lf_keys l1) -> Forall (below (Some sep)) (lf_keys l1) ->
  Forall (above (Some sep)) (lf_keys l2) -> Forall (below hi) (lf_keys l2) ->
  leaf_page t dl (lf_keys l1) (lf_rids l1) (lf_next l1) -> leaf_page t dr (lf_keys l2) (lf_rids l2) (lf_next l2) ->
  ps_view s2 = <[lf_page l := dl]> (<[ps_count s := dr]> (ps_view s)) ->
  ctx t (ps_view s2) r 0 anc (lf_page l) lo hi L R pg /\
  subtree t (ps_view s2) 0 (lf_page l) lo (Some sep) [l1] [lf_page l] /\
  subtree t (ps_view s2) 0 (ps_count s) (Some sep) hi [l2] [ps_count s] /\
  NoDup ([lf_page l] ++ [ps_count s] ++ pg) /\ linked (L ++ ([l1] ++ [l2]) ++ R) INVALID_PAGE_ID.
Proof.
  intros Hinv [Hc [(d & Hd & _) _ Hpid _ _ _ _]] Hnd Hcount Hlk E1 E2 E3 E4 Ho1 Ho2 Hb1 Hb2 A1 B1 A2 B2 Hdl Hdr V.
  pose proof (view_lt s (lf_page l) Hinv ltac:(eauto)) as Hplt. apply NoDup_cons in Hnd as [Hni Hnd].
  assert (forall q, q ∈ pg -> q < ps_count s) as Hlt by (intros q Hq; apply view_lt; [done | by eapply ctx_dom]).
  split_and!.
  - eapply ctx_frame; [| exact Hc]. intros q Hq. rewrite V, !lookup_insert_ne; [done | specialize (Hlt q Hq); lia | by intros <-].
  - exists l1. split_and!; [done | done |]. constructor; try done. exists dl. rewrite V. split; [apply lookup_insert_eq | done].
  - exists l2. split_and!; [done | done |]. constructor; try done; [| unfold page_ok in *; lia]. exists dr.
    rewrite V, lookup_insert_ne by lia. split; [apply lookup_insert_eq | done].
  - cbn [app]. constructor; [| constructor; [intros Hq%Hlt; lia | done]]. intros [E|Hq]%elem_of_cons; [lia | done].
  - cbn [app] in *. apply linked_app in Hlk as [H1 H2]. apply linked_app. rewrite E1. split; [done|].
    cbn [linked] in *. rewrite E2, E3, E4. tauto.
Qed.

Lemma entries_grown t v r anc l lo hi L R pg key rid ls' :
  at_leaf t v r anc l lo hi L R pg -> above lo key -> below hi key ->
  entries ls' = entries_insert key rid (zip (lf_keys l) (lf_rids l)) ->
  entries (L ++ ls' ++ R) = entries_insert key rid (entries (L ++ [l] ++ R)).
Proof.
  intros [Hc _] Ha Hb E. apply ctx_outside in Hc as (_ & _ & HL & HR & _). rewrite !entries_app, E.
  rewrite entries_insert_app; [cbn; by rewrite app_nil_r | |].
  - eapply Forall_impl; [exact (entries_keys _ L HL)|]. cbn. intros e (u & -> & Hu). apply klt_kle. by eapply klt_kle_trans.
  - eapply Forall_impl; [exact (entries_keys _ R HR)|]. cbn. intros e (u & -> & Hu). by eapply klt_kle_trans.
Qed.

(** A full leaf that cannot be split holds nothing but the key. *)
Lemma full_of_duplicates t v r anc l lo hi L R pg key a :
  at_leaf t v r anc l lo hi L R pg -> above lo key -> below hi key -> Forall (eq a) (grown_keys l key) ->
  blen (filter (fun e : value * RID => e.1 = key) (entries (L ++ [l] ++ R))) = blen (lf_keys l).
Proof.
  intros Hat Ha Hb Hall. rewrite (entries_of_key _ _ _ _ _ _ _ _ _ _ key Hat Ha Hb).
  destruct (al_leaf _ _ _ _ _ _ _ _ _ _ Hat) as [_ _ _ _ [Hlen _ _ _ _ _] _ _].
  apply Forall_app in Hall as [H1 H2]. inversion H2 as [|? ? -> H3]; subst.
  rewrite filter_all; [unfold blen; rewrite length_zip_with; lia|].
  apply (Forall_fmap fst (fun k => k = key)). rewrite fst_zip by lia.
  rewrite <- (take_drop (upper key (lf_keys l)) (lf_keys l)). apply Forall_app.
  split; (eapply Forall_impl; [eassumption|]); done.
Qed.

(** The insertion proper, with the descent done and the leaf pinned. *)
Section into_leaf.
Context (t : BPlusTree) (Hwf : tree_wf t) (s0 s1 : S) (l : leaf) (anc : list Z) (lo hi : option value)
  (L R : list leaf) (pg : list Z) (key : value) (rid : RID) (hd : H) (d : list byte).
Context (Hat : at_leaf t (ps_view s0) (root_page_id t) anc l lo hi L R pg) (Ha : above lo key) (Hb : below hi key)
  (Hkey : key_ok t key) (Hrid : rid_ok rid) (Hlk : linked (L ++ [l] ++ R) INVALID_PAGE_ID)
  (Hnd : NoDup (lf_page l :: pg)) (Hroom : room s0 (lf_page l :: pg) 2)
  (Hcount : ps_count s0 + GROWTH <= INVALID_PAGE_ID).
Context (I1 : ps_inv s1) (V1 : ps_view s1 = ps_view s0) (P1 : ps_pins s1 = pin_inc (lf_page l) (ps_pins s0))
  (C1 : ps_cap s1 = ps_cap s0) (N1 : ps_count s1 = ps_count s0) (Ho : ps_holds s1 hd (lf_page l))
  (Hd : ps_view s0 !! lf_page l = Some d) (Hpage : leaf_page t d (lf_keys l) (lf_rids l) (lf_next l)).

Local Notation gk := (grown_keys l key).
Local Notation gr := (grown_rids l key rid).

Lemma into_leaf_fits : blen gk <= max_leaf_keys t ->
  runs (lift_fst (on_page hd (write_leaf t gk gr (lf_next l)));; lift_fst (ps_unpin (lf_page l) true)) (s1, t)
    (fun _ st => ps_count (fst st) <= ps_count s0 + GROWTH /\
      exists ls', grown s0 t ls' (lf_page l :: pg) st /\ entries ls' = entries_insert key rid (entries (L ++ [l] ++ R))).
Proof using All.
  intros Hfits. destruct (al_leaf _ _ _ _ _ _ _ _ _ _ Hat) as [_ _ _ _ Hok Hal Hbl].
  destruct (grown_facts t Hwf l key rid lo hi Hok Hal Hbl Hkey Hrid Ha Hb) as (Hlen & _ & Hs & Hks & Hrs & Hab & Hbe & Hz).
  destruct (write_leaf_ok t d gk gr (lf_next l) Hwf (lp_size _ _ _ _ _ Hpage) Hlen Hfits Hks Hrs (lo_next _ _ Hok)) as (d' & Hw & Hd').
  rstep. rstep. eapply runs_mono; [eapply (on_page_ok s1 hd (lf_page l) d); try done; [by rewrite V1 | apply Hd']|].
  intros [] s2 (I2 & V2 & P2 & C2 & N2 & _). rstep. eapply runs_mono; [apply ps_unpin_pinned; [auto | pinned | auto]|].
  intros [] s3 (I3 & V3 & P3 & C3 & N3 & _). split; [cbn [fst]; unfold GROWTH; lia|]. exists (L ++ [mkLeaf (lf_page l) gk gr (lf_next l)] ++ R). split.
  - eapply (leaf_fits_ok t s0 s3 l _ anc lo hi L R pg d'); try done; try congruence.
    + constructor; cbn [lf_keys lf_rids lf_next]; try done. apply Hok.
    + rewrite P3, P2, P1. apply pins_dec_inc, Hroom.
  - eapply entries_grown; [exact Hat | done | done |]. cbn. by rewrite app_nil_r.
Qed.

Lemma into_leaf_splits (mid : Z) a sep : blen (lf_keys l) = max_leaf_keys t -> 0 < mid < blen gk ->
  gk !! Z.to_nat (mid - 1) = Some a -> gk !! Z.to_nat mid = Some sep -> a <> sep ->
  runs (new ← lift_fst ps_new;
        lift_fst (on_page (snd new) (write_leaf t (py_drop gk mid) (py_drop gr mid) (lf_next l)));;
        lift_fst (ps_unpin (fst new) true);;
        lift_fst (on_page hd (write_leaf t (py_take gk mid) (py_take gr mid) (fst new)));;
        lift_fst (ps_unpin (lf_page l) true);;
        separator ← lift_result (py_nth (py_drop gk mid) 0);
        insert_into_parent anc (lf_page l) separator (fst new)) (s1, t)
    (fun _ st => ps_count (fst st) <= ps_count s0 + GROWTH /\
      exists ls', grown s0 t ls' (lf_page l :: pg) st /\ entries ls' = entries_insert key rid (entries (L ++ [l] ++ R))).
Proof using All.
  intros Hfull Hmid Hla Hsep Hne. pose proof Hroom as (Hinv & Hcap & Hun). 
  destruct (al_leaf _ _ _ _ _ _ _ _ _ _ Hat) as [_ _ Hpid [Hblo Hbhi _] Hok Hal Hbl].
  destruct (grown_facts t Hwf l key rid lo hi Hok Hal Hbl Hkey Hrid Ha Hb) as (Hlen & Hgl & Hs & Hks & Hrs & Hab & Hbe & Hz).
  pose proof (view_lt s0 _ Hinv ltac:(eauto)) as Hplt. pose proof (ancestors_few _ _ _ _ _ _ _ _ _ _ Hinv Hat Hnd ltac:(unfold GROWTH, INVALID_PAGE_ID in *; lia)). unfold GROWTH in *.
  replace (Z.to_nat (mid - 1)) with (Z.to_nat mid - 1)%nat in Hla by lia.
  assert (page_ok (ps_count s0)) as Hnew by (unfold page_ok in *; lia).
  destruct (split_facts t Hwf l key rid lo hi Hok Hal Hbl Hkey Hrid Ha Hb (Z.to_nat mid) a sep (ps_count s0) ltac:(lia) Hla Hsep Hne Hnew
    Hblo Hbhi ltac:(lia)) as (Ok1 & Ok2 & B1 & B2 & A1 & A2 & A3 & A4 & Esep).
  set (l1 := left_leaf l key rid (Z.to_nat mid) (ps_count s0)) in *. set (l2 := right_leaf l key rid (Z.to_nat mid) (ps_count s0)) in *.
  destruct (write_leaf_ok t (zeros PAGE_SIZE) (lf_keys l2) (lf_rids l2) (lf_next l2) Hwf) as (dr & Hwr & Hdr); try apply Ok2; [done|].
  destruct (write_leaf_ok t d (lf_keys l1) (lf_rids l1) (lf_next l1) Hwf) as (dl & Hwl & Hdl); try apply Ok1; [apply Hpage|].
  apply (run_split (fun _ => write_leaf t (py_drop gk mid) (py_drop gr mid) (lf_next l))
    (fun new => write_leaf t (py_take gk mid) (py_take gr mid) (fst new)) d dl dr
    (fun new => separator ← lift_result (py_nth (py_drop gk mid) 0); insert_into_parent anc (lf_page l) separator (fst new))
    s0 s1 hd (lf_page l) t); try done; [by rewrite V1 | lia | apply Hdr | by rewrite N1 | apply Hdl |].
  intros hn s2 I2 V2 P2 C2 N2. cbn [fst]. rewrite V1, N1 in *. rstep. eapply runs_lift_result; [exact Esep|].
  destruct (leaf_split_ok t s0 s2 _ l l1 l2 anc lo hi L R pg sep dl dr Hinv Hat Hnd ltac:(apply Hnew) Hlk eq_refl eq_refl eq_refl eq_refl
    Ok1 Ok2 B1 B2 A1 A2 A3 A4 Hdl Hdr V2) as (Hc2 & Hs1 & Hs2 & Hnd2 & Hlk2).
  eapply runs_mono; [eapply (insert_into_parent_ok t Hwf anc s2 0); [exact Hc2 | exact Hs1 | exact Hs2 | exact Hnd2 | exact Hlk2 | | ]|].
  - split_and!; [done | rewrite P2, C2, C1; done |]. intros q Hq. rewrite P2. apply Hun. by right.
  - lia.
  - intros [] st [Hg Hn]. split; [lia|]. exists (L ++ ([l1] ++ [l2]) ++ R). split.
    + eapply grown_trans; [| | | | | exact Hg]; try congruence; try lia.
      * intros q Hq Hql. rewrite V2, !lookup_insert_ne; [done | lia |]. intros <-. apply Hq. left.
      * intros q Hq. cbn [app] in Hq. rewrite !elem_of_cons in *. destruct Hq as [->|[->|Hq]]; [by left; left | right; lia | by left; right].
    + eapply entries_grown; [exact Hat | done | done |]. rewrite <- Hz. cbn [app entries mbind list_bind].
      rewrite app_nil_r. cbn [l1 l2 left_leaf right_leaf lf_keys lf_rids].
      rewrite <- zip_with_app by (rewrite !length_take; lia). by rewrite !take_drop.
Qed.
End into_leaf.

Lemma bt_insert_runs t key rid s ls pg :
  tree_rep t (ps_view s) ls pg -> room s pg 2 -> ps_count s + GROWTH <= INVALID_PAGE_ID ->
  key_ok t key -> rid_ok rid ->
  (bt_unique t = true -> filter (fun e => e.1 = key) (entries ls) = []) ->
  blen (filter (fun e => e.1 = key) (entries ls)) < max_leaf_keys t ->
  runs (bt_insert key rid) (s, t) (fun _ st => ps_count (fst st) <= ps_count s + GROWTH /\
    exists ls', grown s t ls' pg st /\ entries ls' = entries_insert key rid (entries ls)).
Proof.
  intros Ht Hr Hcount Hkey Hrid Huniq Hdup. unfold bt_insert. rstep. rstep. cbn [snd]. rstep.
  assert (runs (if bt_unique t then rs ← lift_fst (bt_search t key); mret (negb (bool_decide (rs = []))) else mret false) (s, t)
    (fun b st => b = false /\ snd st = t /\ keeps s (fst st))) as Hcheck.
  { destruct (bt_unique t); [| rstep; split_and!; try done; apply keeps_refl, Hr]. rstep. rstep.
    eapply runs_mono; [eapply (bt_search_runs t key s ls pg); [done | eapply room_sub; [exact Hr | auto | lia] | by apply key_ok_probe]|].
    intros rs s1 [-> Hk]. rstep. rewrite Huniq by done. done. }
  eapply runs_mono; [exact Hcheck|]. intros b [s1 t1] (-> & E & Hk1). cbn [fst snd] in E, Hk1. subst t1. cbv iota.
  pose proof Hk1 as (I1 & V1 & P1 & C1 & N1). rewrite <- V1 in Ht.
  assert (room s1 pg 2) as Hr1 by (by eapply room_keeps).
  rstep. rstep. eapply runs_mono; [eapply find_leaf_path_ok; [exact Ht | eapply room_sub; [exact Hr1 | auto | lia] | by apply key_ok_probe]|].
  intros path s2 (Hk2 & anc & l & lo & hi & L & R & pg' & -> & Hat & Ha & Hb & -> & Hp).
  rstep. eapply runs_lift_result; [rewrite reverse_cons; apply py_nth_last|]. pose proof Hk2 as (I2 & V2 & P2 & C2 & N2).
  rewrite <- V2 in Hat. destruct (al_leaf _ _ _ _ _ _ _ _ _ _ Hat) as [(d & Hd & Hpage) _ _ _ Hok Hal Hbl].
  assert (room s2 (lf_page l :: pg') 2) as Hr2.
  { eapply room_sub; [by eapply room_keeps | | lia]. intros q. by rewrite Hp. }
  pose proof Hr2 as (_ & Hcap2 & _). destruct Ht as [Hwf [h Hs] Hnd Hlk]. rewrite <- Hp in Hnd.
  rstep. rstep. eapply runs_mono; [apply ps_fetch_ok; [done | eauto | right; lia]|].
  intros hd s3 (I3 & V3 & P3 & C3 & N3 & Ho & _). rstep. rstep.
  destruct (ps_get_ok s3 hd _ I3 Ho) as (d0 & Hg & Hd0). rewrite V3, Hd in Hd0. injection Hd0 as <-.
  eapply run_read_leaf; [exact Hg | exact Hpage |]. cbv iota beta. rstep.
  eapply runs_lift_result; [apply bisect_right_ok; [eapply key_ok_kinds; [exact Hkey | apply Hok] | apply Hok]|].
  cbv zeta. rewrite !py_insert_nat. fold (grown_keys l key) (grown_rids l key rid).
  rewrite reverse_involutive. cbn [drop].
  destruct (grown_facts t Hwf l key rid lo hi Hok Hal Hbl Hkey Hrid Ha Hb) as (_ & Hgl & _ & Hks & _).
  assert (forall st, (ps_count (fst st) <= ps_count s2 + GROWTH /\
      exists ls', grown s2 t ls' (lf_page l :: pg') st /\ entries ls' = entries_insert key rid (entries (L ++ [l] ++ R))) ->
    ps_count (fst st) <= ps_count s + GROWTH /\
    exists ls', grown s t ls' pg st /\ entries ls' = entries_insert key rid (entries (L ++ [l] ++ R))) as Hend.
  { intros st (Hn & ls' & Hgr & He). split; [lia|]. exists ls'. split; [| done]. eapply grown_keeps; [by eapply keeps_trans|]. by eapply grown_perm. }
  destruct (Z.leb_spec (blen (grown_keys l key)) (max_leaf_keys t)) as [Hfits|Hover].
  - eapply runs_mono; [| intros ? st; apply Hend].
    by apply (into_leaf_fits t Hwf s2 s3 l anc lo hi L R pg' key rid hd d); try done; lia.
  - assert (blen (lf_keys l) = max_leaf_keys t) as Hfull by (pose proof (lo_max _ _ Hok); lia).
    pose proof (tw_max_leaf t Hwf). destruct (split_point_cases (grown_keys l key) key) as [(mid & a & sep & Emid & Hmid & Hla & Hsep & Hne)|(a & _ & Hall)].
    + by eapply key_ok_kinds.
    + lia.
    + rstep. eapply runs_lift_result; [exact Emid|]. cbv zeta. eapply runs_mono; [| intros ? st; apply Hend].
      by apply (into_leaf_splits t Hwf s2 s3 l anc lo hi L R pg' key rid hd d) with a sep; try done; lia.
    + exfalso. rewrite (full_of_duplicates _ _ _ _ _ _ _ _ _ _ key a Hat Ha Hb Hall) in Hdup. lia.
Qed.

(** C14: inserting into an index puts the entry behind the entries with keys up
    to its own and keeps every other entry, through leaf splits, internal
    splits and a new root; the tree stays well-formed (sorted, balanced,
    separated, leaves linked), no page stays pinned and no page outside the
    tree changes. *)
Theorem insert_ok t key rid s ls pg :
  tree_rep t (ps_view s) ls pg -> room s pg 2 -> ps_count s + GROWTH <= INVALID_PAGE_ID ->
  key_ok t key -> rid_ok rid ->
  (bt_unique t = true -> filter (fun e => e.1 = key) (entries ls) = []) ->
  blen (filter (fun e => e.1 = key) (entries ls)) < max_leaf_keys t ->
  exists st ls', bt_insert key rid (s, t) = (Ok tt, st) /\ grown s t ls' pg st /\
    entries ls' = entries_insert key rid (entries ls).
Proof.
  intros Ht Hr Hc Hk Hrid Hu Hd. destruct (bt_insert_runs t key rid s ls pg Ht Hr Hc Hk Hrid Hu Hd) as ([] & st & E & _ & ls' & Hg & He).
  by exists st, ls'.
Qed.

(** A unique index refuses a key it already holds, and nothing changes. *)
Theorem insert_duplicate_refused t key rid s ls pg :
  tree_rep t (ps_view s) ls pg -> room s pg 1 -> key_ok t key -> bt_unique t = true ->
  filter (fun e => e.1 = key) (entries ls) <> [] ->
  exists s', bt_insert key rid (s, t) = (Raise DuplicateKeyError, (s', t)) /\ keeps s s'.
Proof.
  intros Ht Hr Hk Hu Hd. destruct (bt_search_runs t key s ls pg Ht Hr (key_ok_probe _ _ Hk)) as (rs & s' & E & -> & Hs).
  exists s'. split; [| done]. unfold bt_insert. rewrite bind_gets. cbn [snd]. rewrite Hu.
  rewrite (bind_ok _ _ _ true (s', t)); [done|].
  rewrite (bind_ok _ _ _ ((filter (fun e => e.1 = key) (entries ls)).*2) (s', t)).
  - rewrite bool_decide_false; [done|]. destruct (filter _ _); done.
  - unfold lift_fst. cbn [fst snd]. by rewrite E.
Qed.

(** * Creating a tree *)

Lemma bt_init_runs ty ks u s : ty = INT \/ (ty = TEXT /\ 0 <= ks <= 1016) ->
  room s [] 1 -> ps_count s < INVALID_PAGE_ID -> 0 <= ps_count s ->
  runs (bt_init ty ks None u) s (fun t s' =>
    t = tree_params ty ks u (ps_count s) /\
    tree_rep t (ps_view s') [mkLeaf (ps_count s) [] [] INVALID_PAGE_ID] [ps_count s] /\ ps_inv s' /\
    ps_pins s' = ps_pins s /\ ps_cap s' = ps_cap s /\ ps_count s' = ps_count s + 1 /\
    forall q, q < ps_count s -> ps_view s' !! q = ps_view s !! q).
Proof.
  intros Hty (Hinv & Hcap & _) Hcount H0. pose proof (tree_params_wf ty ks u (ps_count s) Hty) as Hwf. unfold bt_init.
  replace (negb _) with false by (destruct Hty as [->|[-> _]]; done).
  destruct (write_leaf_ok (tree_params ty ks u (ps_count s)) (zeros PAGE_SIZE) [] [] INVALID_PAGE_ID Hwf) as (d & Hw & Hd); try done.
  { pose proof (tw_max_leaf _ Hwf). rewrite blen_nil. lia. }
  rstep. eapply runs_mono; [by apply ps_new_ok; [| lia]|].
  intros [n h] s1 (En & _ & I1 & V1 & P1 & C1 & N1 & Ho & _). cbn [fst snd] in *. subst n. rstep.
  eapply runs_mono; [eapply on_page_ok; [done | exact Ho | rewrite V1; apply lookup_insert_eq | exact Hw | apply Hd]|].
  intros [] s2 (I2 & V2 & P2 & C2 & N2 & _). rstep. eapply runs_mono; [apply ps_unpin_pinned; [auto | pinned | auto]|].
  intros [] s3 (I3 & V3 & P3 & C3 & N3 & _). rstep. rewrite V3, V2, V1, insert_insert_eq.
  split_and!; try done; try congruence; try lia; [constructor; try done | |].
  - exists 0%nat. eexists. split_and!; [done | done |]. constructor; cbn [lf_page lf_keys lf_rids lf_next]; try done.
    + exists d. split; [apply lookup_insert_eq | done].
    + pose proof (tw_max_leaf _ Hwf). constructor; cbn [lf_keys lf_rids lf_next]; try done; [rewrite blen_nil; lia | constructor].
  - apply NoDup_singleton.
  - rewrite P3, P2, P1. by apply pins_dec_inc.
  - intros q Hq. apply lookup_insert_ne. lia.
Qed.
End insert.

(** The fifth key of the sample's first leaf: the leaf is split, the root gets
    a third child. *)
Lemma insert_ok_witness : exists st ls', bt_insert (VStr "B") (mkRID 9 0) (sample_index false, sample_tree false) = (Ok tt, st) /\
  grown (sample_index false) (sample_tree false) ls' [0; 1; 2] st /\
  entries ls' = [(VStr "A", mkRID 7 0); (VStr "B", mkRID 7 1); (VStr "B", mkRID 9 0); (VStr "C", mkRID 7 2); (VStr "D", mkRID 7 3);
    (VStr "E", mkRID 8 0); (VStr "E", mkRID 8 1)].
Proof.
  destruct (insert_ok (sample_tree false) (VStr "B") (mkRID 9 0) (sample_index false) sample_leaves [0; 1; 2]) as (st & ls' & E & Hg & He).
  - apply sample_rep.
  - apply sample_index_room. lia.
  - by rewrite sample_index_count.
  - by apply sample_key_ok.
  - split; split; (done || lia).
  - discriminate.
  - vm_compute. reflexivity.
  - exists st, ls'. split_and!; [exact E | exact Hg | rewrite He; reflexivity].
Defined.

Lemma insert_duplicate_refused_witness : exists s',
  bt_insert (VStr "E") (mkRID 9 0) (sample_index true, sample_tree true) = (Raise DuplicateKeyError, (s', sample_tree true)).
Proof.
  destruct (insert_duplicate_refused (sample_tree true) (VStr "E") (mkRID 9 0) (sample_index true) sample_leaves [0; 1; 2]) as (s' & E & _).
  - apply sample_rep.
  - apply sample_index_room. lia.
  - by apply sample_key_ok.
  - reflexivity.
  - vm_compute. discriminate.
  - by exists s'.
Defined.

(** * Where the code departs from its documentation *)

Fixpoint insert_all (es : list (value * RID)) (st : BufferPoolManager * BPlusTree) : result unit * (BufferPoolManager * BPlusTree) :=
  match es with
  | [] => (Ok tt, st)
  | (k, r) :: es' => match bt_insert k r st with (Ok _, st') => insert_all es' st' | r => r end
  end.
Definition fresh_index (ty : ColumnType) (ks : Z) : BufferPoolManager * BPlusTree :=
  match bt_init ty ks None false (bp_init (dm_init None) 4) with
  | (Ok t, s) => (s, t)
  | (Raise _, s) => (s, tree_params ty ks false 0)
  end.

(** An index on a TEXT column keeps only the first [key_size] bytes of a key
    (eight, as the catalog creates it): a longer key that was inserted is not
    found again under its own value, although it is in the index. *)
Theorem long_text_key_lost :
  let r := insert_all [(VStr "minireldb", mkRID 1 0)] (fresh_index TEXT 8) in
  let '(s, t) := snd r in
  fst r = Ok tt /\ fst (bt_search t (VStr "minireldb") s) = Ok [] /\ fst (bt_iter t s) = Ok [(VStr "minireld", mkRID 1 0)].
Proof. vm_compute. auto. Qed.

(** When a leaf full of one key refuses another duplicate, [insert] raises
    [ValueError] and leaves that leaf pinned for good. *)
Theorem full_duplicates_leak_pin :
  let r := insert_all (replicate 4 (VStr "K", mkRID 1 0)) (fresh_index TEXT 1000) in
  let r' := bt_insert (VStr "K") (mkRID 1 1) (snd r) in
  fst r = Ok tt /\ fst r' = Raise ValueError /\
  ps_pins (fst (snd r)) !! 0 = None /\ ps_pins (fst (snd r')) !! 0 = Some 1.
Proof. vm_compute. auto. Qed.

(** Deleting from a leaf whose right neighbour is nearly full of one key can
    fail: the redistribution that always fits, as the comment says, puts more
    than [max_leaf_keys] entries into the left page; [struct.error] escapes and
    the page stays pinned, with a bytearray longer than a page. *)
Theorem redistribution_overflows :
  let K c n := (VStr c, mkRID 1 n) in
  let r := insert_all [K "a" 0; K "b" 1; K "c" 2; K "d" 3; K "d" 4; K "d" 5; K "e" 6; K "d" 7; K "d" 8] (fresh_index TEXT 675) in
  let r' := bt_delete (VStr "c") (mkRID 1 2) (snd r) in
  fst r = Ok tt /\ max_leaf_keys (snd (snd r)) = 6 /\ fst r' = Raise StructError /\
  ps_pins (fst (snd r')) !! 0 = Some 1 /\ (blen <$> ps_view (fst (snd r')) !! 0) = Some 4768.
Proof. vm_compute. auto. Qed.
