(* ===== verification/BTreeRepair.v ===== *)
(** What deletion does to a B+-tree, on the pages alone: an entry leaves its
    leaf, and two neighbouring nodes are cut anew or put together, with the
    separator in their parent ([src/minirel/index/btree.py], the comments of
    [_fixup_leaf] and [_fixup_internal]). *)
From stdpp Require Import base numbers list gmap strings.
From Stdlib Require Import ZArith Lia Strings.Byte Sorting.Sorted.
From S2P Require Import Prelude PyNum Types PyVal Disk PageStore BufferPool HeapPage BTree BTreeNode BTreeRep BTreeSearch BTreeInsert.

Local Open Scope Z_scope.

(** * Definitions *)

(** The first occurrence of an entry is taken out. *)
Fixpoint entries_remove (e : value * RID) (es : list (value * RID)) : list (value * RID) :=
  match es with
  | [] => []
  | x :: es' => if decide (x = e) then es' else x :: entries_remove e es'
  end.

(** The minimal occupancies, as [__init__] computes them: two nodes below them,
    or one below and one at them, fit in one. *)
Record mins_ok (t : BPlusTree) : Prop := {
  mo_leaf : 1 <= min_leaf_keys t;
  mo_leaf_max : 2 * min_leaf_keys t <= max_leaf_keys t;
  mo_internal : 1 <= min_internal_keys t;
  mo_internal_max : 2 * min_internal_keys t <= max_internal_keys t }.

Lemma tree_params_mins ty ks u root : mins_ok (tree_params ty ks u root).
Proof.
  unfold tree_params. cbv zeta. split; cbn [min_leaf_keys max_leaf_keys min_internal_keys max_internal_keys]; try apply Z.le_max_l.
  - match goal with |- context [Z.max 4 ?x] => generalize (Z.max 4 x), (Z.le_max_l 4 x) end. intros m Hm. Z.to_euclidean_division_equations; lia.
  - match goal with |- context [Z.max 4 ?x] => generalize (Z.max 4 x), (Z.le_max_l 4 x) end. intros m Hm. Z.to_euclidean_division_equations; lia.
Qed.

(** No key fills more than a quarter of a leaf. *)
Definition entry_count (k : value) (es : list (value * RID)) : Z := blen (filter (fun e => e.1 = k) es).
Lemma entry_count_keys y es : blen (filter (fun z => z = y) es.*1) = entry_count y es.
Proof.
  unfold entry_count. induction es as [|e es IH]; [done|]. rewrite fmap_cons, !filter_cons. case_decide; [rewrite !blen_cons; lia | done].
Qed.
Definition few (t : BPlusTree) (es : list (value * RID)) : Prop := forall k, 4 * entry_count k es <= max_leaf_keys t.

Lemma few_app t a m b : few t (a ++ m ++ b) -> few t m.
Proof.
  intros Hf k. specialize (Hf k). unfold entry_count in *. rewrite !filter_app, !blen_app in Hf.
  pose proof (blen_nonneg (filter (fun e => e.1 = k) a)). pose proof (blen_nonneg (filter (fun e => e.1 = k) b)). lia.
Qed.

(** * Replacing leaves in a linked row *)

Definition first_page (ls : list leaf) : option Z := lf_page <$> head ls.
Definition relinked (M M' : list leaf) : Prop := first_page M' = first_page M /\ forall stop, linked M stop -> linked M' stop.

Lemma linked_row A B stop : linked (A ++ B) stop <-> linked A (default stop (first_page B)) /\ linked B stop.
Proof.
  induction A as [|l A IH]; [cbn; tauto|]. cbn [app linked]. rewrite IH. destruct A as [|l' A]; [destruct B|]; cbn; tauto.
Qed.
Lemma first_page_app A B : first_page (A ++ B) = match first_page A with Some p => Some p | None => first_page B end.
Proof. by destruct A. Qed.
Lemma relinked_refl M : relinked M M.
Proof. done. Qed.
Lemma relinked_trans M1 M2 M3 : relinked M1 M2 -> relinked M2 M3 -> relinked M1 M3.
Proof. intros [E1 H1] [E2 H2]. split; [congruence | auto]. Qed.
Lemma relinked_mid L M M' R : relinked M M' -> relinked (L ++ M ++ R) (L ++ M' ++ R).
Proof.
  intros [E H]. split; [by rewrite !first_page_app, E|]. intros stop. rewrite !linked_row, !first_page_app, E. naive_solver.
Qed.

(** * Nodes that may have lost all keys *)

Section loose.
Context (t : BPlusTree).

Record thin_at (v : pages) (p : Z) (cs : list Z) (ks : list value) : Prop := {
  ta_page : exists d, v !! p = Some d /\ internal_page t d cs ks;
  ta_pid : page_ok p;
  ta_max : blen ks <= max_internal_keys t }.

(** A subtree whose root may have a single child. *)
Definition loose (v : pages) (h : nat) (p : Z) (lo hi : option value) (ls : list leaf) (pg : list Z) : Prop :=
  match h with
  | O => subtree t v 0 p lo hi ls pg
  | S h' => exists cs ks pg', pg = p :: pg' /\ thin_at v p cs ks /\ forest (subtree t v h') lo cs ks hi ls pg'
  end.

Lemma subtree_loose v h p lo hi ls pg : subtree t v h p lo hi ls pg -> loose v h p lo hi ls pg.
Proof using Type.
  destruct h as [|h]; [done|]. intros (cs & ks & pg' & -> & [Hd Hp Hk Hm] & Hf). by exists cs, ks, pg'.
Qed.
Lemma loose_facts v h p lo hi ls pg : loose v h p lo hi ls pg -> sub_facts t p lo hi ls pg.
Proof using Type.
  destruct h as [|h]; [apply subtree_facts|]. intros (cs & ks & pg' & -> & Hn & Hf). apply forest_facts_of in Hf.
  destruct Hf as [? ? ? ? ? ? ? ? ? Hlp ? ? ?], Hn. constructor; try done; eauto.
  eapply Forall_impl; [exact Hlp|]. intros x Hx. by right.
Qed.
Lemma loose_dom v h p lo hi ls pg : loose v h p lo hi ls pg -> forall q, q ∈ pg -> is_Some (v !! q).
Proof using Type.
  destruct h as [|h]; [apply subtree_dom|]. intros (cs & ks & pg' & -> & [(d & Hd & _) _ _] & Hf) q [->|Hq]%elem_of_cons; [eauto|].
  eapply forest_dom; [| exact Hf | exact Hq]. intros *. apply subtree_dom.
Qed.

(** ** The parent after its children were rearranged *)

(** Below [p], on the pages [pg], there were the leaves [M]; now the same
    entries are there. *)
Definition repaired (v v' : pages) (h : nat) (p : Z) (lo hi : option value) (M : list leaf) (pg : list Z) : Prop :=
  exists M' pg', loose v' (S h) p lo hi M' (p :: pg') /\ pg' ⊆+ pg /\ entries M' = entries M /\ relinked M M' /\
    forall q, q ∉ p :: pg -> v' !! q = v !! q.

Lemma pair_repaired v v' h p lo hi cs1 csm cs2 ks1 ksm ks2 lo' hi' L M M' R pg1 pgm pgm' pg2 d :
  lside (subtree t v h) lo cs1 ks1 lo' L pg1 -> rside (subtree t v h) hi' cs2 ks2 hi R pg2 ->
  forest (subtree t v' h) lo' csm ksm hi' M' pgm' ->
  v' !! p = Some d -> internal_page t d (cs1 ++ csm ++ cs2) (ks1 ++ ksm ++ ks2) -> page_ok p ->
  blen (ks1 ++ ksm ++ ks2) <= max_internal_keys t -> NoDup (p :: pg1 ++ pgm ++ pg2) ->
  (forall q, q ∉ p :: pgm -> v' !! q = v !! q) -> pgm' ⊆+ pgm -> entries M' = entries M -> relinked M M' ->
  repaired v v' h p lo hi (L ++ M ++ R) (pg1 ++ pgm ++ pg2).
Proof using Type.
  intros HL HR HM Hd Hp Hid Hmax Hnd Hfr Hsub He Hlk. apply NoDup_cons in Hnd as [Hni Hnd].
  assert (forall q, q ∈ pg1 \/ q ∈ pg2 -> v' !! q = v !! q) as Hside.
  { intros q Hq. apply Hfr. apply NoDup_app in Hnd as (_ & Hd1 & Hnd). apply NoDup_app in Hnd as (_ & Hd2 & _).
    rewrite !elem_of_app in Hni. intros [->|Hm]%elem_of_cons; [naive_solver|]. destruct Hq as [Hq|Hq]; [| by apply (Hd2 q)].
    apply (Hd1 q Hq). rewrite elem_of_app. by left. }
  exists (L ++ M' ++ R), (pg1 ++ pgm' ++ pg2). split_and!.
  - exists (cs1 ++ csm ++ cs2), (ks1 ++ ksm ++ ks2), (pg1 ++ pgm' ++ pg2). split_and!; [done | by split; eauto |].
    eapply forest_join; [eapply side_frame; [| exact HL]; auto | exact HM | eapply side_frame; [| exact HR]; auto].
  - apply submseteq_app; [done|]. by apply submseteq_app.
  - by rewrite !entries_app, He.
  - by apply relinked_mid.
  - intros q Hq. apply Hfr. intros Hm. apply Hq. rewrite elem_of_cons, !elem_of_app in *. naive_solver.
Qed.
End loose.

(** * Two neighbouring leaves *)

Section leaf_pair.
Context (t : BPlusTree) (v : pages) (a b : Z) (lo hi : option value) (k : value) (la lb : leaf).
Context (Ha : leaf_at t v a lo (Some k) la) (Hb : leaf_at t v b (Some k) hi lb).

Local Notation ks := (lf_keys la ++ lf_keys lb).
Local Notation rs := (lf_rids la ++ lf_rids lb).

Lemma leaf_pair_facts :
  length ks = length rs /\ ksorted ks /\ Forall (key_ok t) ks /\ Forall rid_ok rs /\ Forall (above lo) ks /\ Forall (below hi) ks /\
  bounds_ok t lo hi /\ entries [la; lb] = zip ks rs /\ 0 <= lf_next lb < 2 ^ 32.
Proof using All.
  destruct Ha as [_ _ _ Ba [Ha1 _ Ha3 Ha4 Ha5 _] Aa La], Hb as [_ _ _ Bb [Hb1 _ Hb3 Hb4 Hb5 Hb6] Ab Lb].
  split_and!; rewrite ?Forall_app; try done.
  - rewrite !length_app. lia.
  - apply ksorted_app. split_and!; [done | done |]. intros x y Hx Hy. rewrite Forall_forall in La, Ab.
    apply klt_kle. eapply klt_kle_trans; [by apply La | by apply Ab].
  - split; [done|]. eapply Forall_impl; [exact Ab|]. intros x. apply above_weaken, Ba.
  - split; [| done]. eapply Forall_impl; [exact La|]. intros x. apply below_weaken, Bb.
  - by eapply bounds_ok_trans.
  - cbn. rewrite app_nil_r. symmetry. by apply zip_with_app.
  - apply Hb6.
  - apply Hb6.
Qed.

(** Cut anew between two different keys, or put together. *)
Lemma leaf_recut v' i x sep da db : (0 < i)%nat -> ks !! (i - 1)%nat = Some x -> ks !! i = Some sep -> x <> sep ->
  Z.of_nat i <= max_leaf_keys t -> blen ks - Z.of_nat i <= max_leaf_keys t ->
  v' !! a = Some da -> leaf_page t da (take i ks) (take i rs) b -> v' !! b = Some db -> leaf_page t db (drop i ks) (drop i rs) (lf_next lb) ->
  exists M', forest (subtree t v' 0) lo [a; b] [sep] hi M' [a; b] /\ entries M' = entries [la; lb] /\ relinked [la; lb] M'.
Proof using All.
  intros Hi Hx Hsep Hne Hm1 Hm2 Hda Hpa Hdb Hpb. destruct leaf_pair_facts as (Hlen & Hs & Hk & Hr & Hal & Hbe & [Hlo Hhi _] & He & Hnx).
  pose proof (la_pid _ _ _ _ _ _ Ha) as Pa. pose proof (la_pid _ _ _ _ _ _ Hb) as Pb.
  destruct (cut_facts t ks rs lo hi i x sep a b b (lf_next lb) Hlen Hs Hk Hr Hal Hbe Hi Hx Hsep Hne Hlo Hhi Hm1 Hm2) as
    (O1 & O2 & B1 & B2 & A1 & A2 & A3 & A4 & _); [unfold page_ok, INVALID_PAGE_ID in *; lia | done |].
  exists ([mkLeaf a (take i ks) (take i rs) b] ++ [mkLeaf b (drop i ks) (drop i rs) (lf_next lb)]). split_and!.
  - apply (fo_cons _ _ a sep [b] [] hi _ [a] _ [b]); [| constructor].
    + eexists. split_and!; [done | done |]. split; cbn [lf_keys lf_rids lf_next]; eauto.
    + eexists. split_and!; [done | done |]. split; cbn [lf_keys lf_rids lf_next]; eauto.
  - rewrite He. cbn [app entries mbind list_bind lf_keys lf_rids]. rewrite app_nil_r.
    rewrite <- zip_with_app by (rewrite !length_take; lia). by rewrite !take_drop.
  - split; [cbn; f_equal; symmetry; apply (la_id _ _ _ _ _ _ Ha)|]. intros stop [_ [Hn _]]. cbn. done.
Qed.

Lemma leaf_merge v' da : blen ks <= max_leaf_keys t -> v' !! a = Some da -> leaf_page t da ks rs (lf_next lb) ->
  exists M', forest (subtree t v' 0) lo [a] [] hi M' [a] /\ entries M' = entries [la; lb] /\ relinked [la; lb] M'.
Proof using All.
  intros Hm Hda Hpa. destruct leaf_pair_facts as (Hlen & Hs & Hk & Hr & Hal & Hbe & Hbo & He & Hnx).
  exists [mkLeaf a ks rs (lf_next lb)]. split_and!.
  - constructor. eexists. split_and!; [done | done |].
    split; cbn [lf_keys lf_rids lf_next lf_page]; eauto; [apply Ha | split; cbn [lf_keys lf_rids lf_next]; done].
  - rewrite He. cbn. by rewrite app_nil_r.
  - split; [cbn; f_equal; symmetry; apply (la_id _ _ _ _ _ _ Ha)|]. intros stop [_ [Hn _]]. done.
Qed.
End leaf_pair.

(** * Two neighbouring internal nodes *)

Section node_pair.
Context (t : BPlusTree) (v v' : pages) (h : nat) (a b : Z) (lo hi : option value) (k : value).
Context (ca cb : list Z) (ka kb : list value) (Ma Mb : list leaf) (Xa Xb : list Z).
Context (Fa : forest (subtree t v h) lo ca ka (Some k) Ma Xa) (Fb : forest (subtree t v h) (Some k) cb kb hi Mb Xb).
Context (Pa : page_ok a) (Hfr : forall q, q ∈ Xa ++ Xb -> v' !! q = v !! q).

Lemma node_pair_row : forest (subtree t v' h) lo (ca ++ cb) (ka ++ k :: kb) hi (Ma ++ Mb) (Xa ++ Xb).
Proof using Fa Fb Hfr. eapply forest_frame; [exact Hfr|]. by eapply forest_app. Qed.

Lemma node_recut lc rc lk up rk da db : page_ok b -> ca ++ cb = lc ++ rc -> ka ++ k :: kb = lk ++ up :: rk -> length lc = S (length lk) ->
  lk <> [] -> rk <> [] -> blen lk <= max_internal_keys t -> blen rk <= max_internal_keys t ->
  v' !! a = Some da -> internal_page t da lc lk -> v' !! b = Some db -> internal_page t db rc rk ->
  exists pg', forest (subtree t v' (S h)) lo [a; b] [up] hi (Ma ++ Mb) pg' /\ pg' ⊆+ (a :: Xa) ++ (b :: Xb).
Proof using All.
  intros Pb Ec Ek Hl Nl Nr Ml Mr Hda Hpa Hdb Hpb. pose proof node_pair_row as Hrow. rewrite Ec, Ek in Hrow.
  destruct (forest_cut _ _ _ _ _ _ _ _ _ _ Hl Hrow) as (M1 & M2 & X1 & X2 & -> & EX & F1 & F2).
  exists ((a :: X1) ++ (b :: X2)). split.
  - constructor; [| constructor]; eexists _, _, _; (split_and!; [done | split; eauto | done]).
  - cbn [app]. rewrite <- !Permutation_middle. cbn [app]. by rewrite EX.
Qed.

Lemma node_merge da : blen (ka ++ k :: kb) <= max_internal_keys t -> v' !! a = Some da -> internal_page t da (ca ++ cb) (ka ++ k :: kb) ->
  exists pg', forest (subtree t v' (S h)) lo [a] [] hi (Ma ++ Mb) pg' /\ pg' ⊆+ (a :: Xa) ++ (b :: Xb).
Proof using All.
  intros Hm Hda Hpa. exists (a :: Xa ++ Xb). split.
  - constructor. eexists _, _, _. split_and!; [done | | exact node_pair_row]. split; eauto. by destruct ka.
  - cbn [app]. apply submseteq_skip. apply submseteq_app; [done|]. by apply submseteq_cons.
Qed.
End node_pair.

(** * Runs of equal keys *)

Lemma py_nth_back {A} (l : list A) j x : 0 <= j < blen l -> l !! Z.to_nat (blen l - 1 - j) = Some x -> py_nth l (-1 - j) = Ok x.
Proof.
  intros Hj Hx. unfold py_nth. replace (-1 - j <? 0) with true by lia. replace (-1 - j + blen l) with (blen l - 1 - j) by lia.
  replace (blen l - 1 - j <? 0) with false by lia. by rewrite Hx.
Qed.

Lemma leading_run_from x r fuel : kinds x r -> r !! 0%nat = Some x -> forall k, 1 <= k <= blen r -> blen r - k < Z.of_nat fuel ->
  r !! Z.to_nat (k - 1) = Some x ->
  exists k', leading_run fuel r k = Ok k' /\ k <= k' <= blen r /\ r !! Z.to_nat (k' - 1) = Some x /\
    (k' < blen r -> exists y, r !! Z.to_nat k' = Some y /\ y <> x).
Proof.
  intros Hk H0. induction fuel as [|fuel IH]; intros k Hkr Hf Hx; [lia|]. cbn [leading_run]. destruct (Z.ltb_spec k (blen r)) as [Hlt|].
  - destruct (lookup_lt_is_Some_2 r (Z.to_nat k)) as [y Hy]; [unfold blen in Hlt; lia|].
    rewrite (py_nth_lookup r k y), (py_nth_lookup r 0 x) by (done || lia). cbn [mbind result_bind].
    rewrite py_eq_kind by (apply same_kind_sym; exact (Forall_lookup_1 _ _ _ _ Hk Hy)). case_bool_decide as E.
    + subst y. destruct (IH (k + 1)) as (k' & ? & ? & ? & ?); [lia | lia | by replace (k + 1 - 1) with k by lia|]. exists k'. split_and!; (done || lia).
    + exists k. split_and!; try done; try lia. intros _. by exists y.
  - exists k. split_and!; try done; lia.
Qed.
Lemma leading_run_ok x0 r : kinds x0 r -> exists k, leading_run (S (length r)) r 1 = Ok k /\ 1 <= k /\
  (k < blen r -> exists x y, r !! Z.to_nat (k - 1) = Some x /\ r !! Z.to_nat k = Some y /\ x <> y).
Proof.
  intros Hk. destruct r as [|x r']; [exists 1; split_and!; try done; rewrite blen_nil; lia|]. set (r := x :: r') in *.
  assert (kinds x r) as Hkx.
  { eapply Forall_impl; [exact Hk|]. intros y Hy. eapply same_kind_trans; [apply same_kind_sym; exact (Forall_inv Hk) | exact Hy]. }
  destruct (leading_run_from x r (S (length r)) Hkx eq_refl 1) as (k & E & Hkr & Hx & Hy); [unfold r; rewrite blen_cons; pose proof (blen_nonneg r'); lia | unfold blen; lia | done |].
  exists k. split_and!; [done | lia |]. intros Hlt. destruct (Hy Hlt) as (y & Ey & Hne). exists x, y. done.
Qed.

Lemma trailing_run_from x l fuel : kinds x l -> l !! Z.to_nat (blen l - 1) = Some x -> forall k, 1 <= k <= blen l -> blen l - k < Z.of_nat fuel ->
  l !! Z.to_nat (blen l - k) = Some x ->
  exists k', trailing_run fuel l k = Ok k' /\ k <= k' <= blen l /\ l !! Z.to_nat (blen l - k') = Some x /\
    (k' < blen l -> exists y, l !! Z.to_nat (blen l - k' - 1) = Some y /\ y <> x).
Proof.
  intros Hk H0. induction fuel as [|fuel IH]; intros k Hkr Hf Hx; [lia|]. cbn [trailing_run]. destruct (Z.ltb_spec k (blen l)) as [Hlt|].
  - destruct (lookup_lt_is_Some_2 l (Z.to_nat (blen l - k - 1))) as [y Hy]; [unfold blen in *; lia|].
    rewrite (py_nth_back _ k y) by (first [lia | by replace (blen l - 1 - k) with (blen l - k - 1) by lia]).
    assert (py_nth l (-1) = Ok x) as -> by (apply (py_nth_back l 0 x); [lia | by rewrite Z.sub_0_r]).
    cbn [mbind result_bind]. rewrite py_eq_kind by (apply same_kind_sym; exact (Forall_lookup_1 _ _ _ _ Hk Hy)). case_bool_decide as E.
    + subst y. destruct (IH (k + 1)) as (k' & ? & ? & ? & ?); [lia | lia | by replace (blen l - (k + 1)) with (blen l - k - 1) by lia|].
      exists k'. split_and!; (done || lia).
    + exists k. split_and!; try done; try lia. intros _. by exists y.
  - exists k. split_and!; try done; lia.
Qed.
Lemma trailing_run_ok x0 l : kinds x0 l -> exists k, trailing_run (S (length l)) l 1 = Ok k /\ 1 <= k /\
  (k < blen l -> exists x y, l !! Z.to_nat (blen l - k - 1) = Some x /\ l !! Z.to_nat (blen l - k) = Some y /\ x <> y).
Proof.
  intros Hk. destruct (decide (l = [])) as [->|Hne]; [exists 1; split_and!; try done; rewrite blen_nil; lia|].
  assert (0 < blen l) as Hpos by (destruct l; [done | rewrite blen_cons; pose proof (blen_nonneg l); lia]).
  destruct (lookup_lt_is_Some_2 l (Z.to_nat (blen l - 1))) as [x Hx]; [unfold blen in *; lia|].
  assert (kinds x l) as Hkx.
  { eapply Forall_impl; [exact Hk|]. intros y Hy. eapply same_kind_trans; [apply same_kind_sym; exact (Forall_lookup_1 _ _ _ _ Hk Hx) | exact Hy]. }
  destruct (trailing_run_from x l (S (length l)) Hkx Hx 1) as (k & E & Hkr & Hxk & Hy); [lia | unfold blen; lia | done |].
  exists k. split_and!; [done | lia |]. intros Hlt. destruct (Hy Hlt) as (y & Ey & Hne'). exists y, x. done.
Qed.

(** A stretch of one key is no longer than the key is frequent. *)
Lemma stretch_count (ks : list value) x p q : 0 <= p -> q <= blen ks -> (forall j, p <= j < q -> ks !! Z.to_nat j = Some x) ->
  q - p <= blen (filter (fun y => y = x) ks).
Proof.
  intros Hp Hq Hall. destruct (Z.le_gt_cases q p) as [|Hlt]; [pose proof (blen_nonneg (filter (fun y => y = x) ks)); lia|].
  assert (take (Z.to_nat (q - p)) (drop (Z.to_nat p) ks) = replicate (Z.to_nat (q - p)) x) as Emid.
  { apply list_eq. intros i. destruct (decide (i < Z.to_nat (q - p))%nat) as [Hi|Hi].
    - rewrite lookup_replicate_2, lookup_take_lt, lookup_drop by lia. rewrite <- (Hall (p + Z.of_nat i)) by lia. f_equal. lia.
    - rewrite (proj1 (lookup_replicate_None _ _ _)), lookup_take_ge by lia. done. }
  rewrite <- (take_drop (Z.to_nat p) ks), <- (take_drop (Z.to_nat (q - p)) (drop (Z.to_nat p) ks)), Emid, !filter_app, !blen_app.
  rewrite (filter_all (fun y => y = x) (replicate _ _)) by (by apply Forall_replicate). unfold blen. rewrite length_replicate. lia.
Qed.

(** Where two leaves that do not fit in one are cut, both halves fit. *)
Lemma split_point_near keys x m : kinds x keys -> (forall y, 4 * blen (filter (fun z => z = y) keys) <= m) -> 4 <= m ->
  m < blen keys -> 2 * blen keys < 3 * m ->
  exists i a b, split_point_avoiding_duplicates keys = Ok i /\ 0 < i < blen keys /\ keys !! Z.to_nat (i - 1) = Some a /\
    keys !! Z.to_nat i = Some b /\ a <> b /\ i <= m /\ blen keys - i <= m.
Proof.
  intros Hk Hfew Hm4 Hm Hn. unfold split_point_avoiding_duplicates. set (n := blen keys) in *. set (mid := n / 2).
  assert (2 * mid <= n < 2 * mid + 2) as Hmid by (unfold mid; Z.to_euclidean_division_equations; lia). clearbody mid.
  destruct (lookup_lt_is_Some_2 keys (Z.to_nat mid)) as [z Hz]; [unfold n, blen in *; lia|].
  destruct (lookup_lt_is_Some_2 keys (Z.to_nat (mid - 1))) as [y Hy]; [unfold n, blen in *; lia|].
  rewrite (py_nth_lookup keys mid z) by (done || lia). cbn [mbind result_bind].
  rewrite (py_nth_lookup keys (mid - 1) y) by (done || lia). cbn [mbind result_bind].
  pose proof (Forall_lookup_1 _ _ _ _ Hk Hy) as Ky. pose proof (Forall_lookup_1 _ _ _ _ Hk Hz) as Kz.
  rewrite py_eq_kind by (by eapply same_kind_trans; [apply same_kind_sym|]).
  case_bool_decide as E; cbn [negb]; [subst z | exists mid, y, z; split_and!; (done || lia || congruence)].
  assert (kinds y keys) as Hky.
  { eapply Forall_impl; [exact Hk|]. intros w Hw. eapply same_kind_trans; [apply same_kind_sym; exact Ky | exact Hw]. }
  destruct (skip_forward_ok keys y (S (length keys)) Hky mid) as (i & -> & Hi & Hf & Hne); [unfold n, blen in *; lia | unfold n, blen in *; lia |].
  cbn [mbind result_bind]. fold n. fold n in Hi, Hne.
  assert (i - (mid - 1) <= blen (filter (fun z => z = y) keys)) as Hrun.
  { apply stretch_count; [lia | fold n; lia |]. intros j Hj. destruct (decide (j = mid - 1)) as [->|]; [done | apply Hf; lia]. }
  specialize (Hfew y). destruct (Z.ltb_spec i n) as [Hlt|Hge]; [| lia].
  destruct (lookup_lt_is_Some_2 keys (Z.to_nat i)) as [w Hw]; [unfold n, blen in *; lia|].
  exists i, y, w. split_and!; try (done || lia).
  - destruct (decide (i = mid)) as [->|]; [done|]. apply Hf. lia.
  - intros <-. by apply Hne.
Qed.

(** * Finding and removing one entry *)

Lemma entries_remove_app e a b : e ∉ a -> entries_remove e (a ++ b) = a ++ entries_remove e b.
Proof.
  induction a as [|x a IH]; intros He; [done|]. apply not_elem_of_cons in He as [Hne He]. cbn [app entries_remove].
  rewrite decide_False by congruence. by rewrite IH.
Qed.
Lemma entries_remove_head e a b : e ∉ a -> entries_remove e (a ++ e :: b) = a ++ b.
Proof. intros He. rewrite entries_remove_app by done. cbn [entries_remove]. by rewrite decide_True. Qed.
Lemma entries_remove_none e a : e ∉ a -> entries_remove e a = a.
Proof. intros He. rewrite <- (app_nil_r a) at 1. rewrite entries_remove_app by done. cbn. by rewrite app_nil_r. Qed.
Lemma entries_remove_inside e a m b m' : e ∉ a -> e ∈ m -> entries_remove e m = m' -> entries_remove e (a ++ m ++ b) = a ++ m' ++ b.
Proof.
  intros Ha Hm <-. rewrite entries_remove_app by done. f_equal. apply list_elem_of_split_l in Hm as (m1 & m2 & -> & Hm1).
  rewrite <- app_assoc. cbn [app]. rewrite !entries_remove_head by done. by rewrite <- app_assoc.
Qed.

Lemma find_rid_ok rs rid : forall k i, 0 <= i -> i + Z.of_nat k <= blen rs ->
  (find_rid rs rid i k = Ok None /\ forall j, i <= j < i + Z.of_nat k -> rs !! Z.to_nat j <> Some rid) \/
  (exists i', find_rid rs rid i k = Ok (Some i') /\ i <= i' < i + Z.of_nat k /\ rs !! Z.to_nat i' = Some rid /\
     forall j, i <= j < i' -> rs !! Z.to_nat j <> Some rid).
Proof.
  induction k as [|k IH]; intros i Hi Hk; cbn [find_rid]; [left; split; [done | lia]|].
  destruct (lookup_lt_is_Some_2 rs (Z.to_nat i)) as [r Hr]; [unfold blen in Hk; lia|].
  rewrite (py_nth_lookup rs i r) by done. cbn [mbind result_bind]. case_bool_decide as E.
  - subst r. right. exists i. split_and!; (done || lia).
  - destruct (IH (i + 1)) as [[-> Hno]|(i' & -> & Hi' & Hr' & Hno)]; [lia | lia | left | right; exists i'].
    + split; [done|]. intros j Hj. destruct (decide (j = i)) as [->|]; [congruence | apply Hno; lia].
    + split_and!; try (done || lia). intros j Hj. destruct (decide (j = i)) as [->|]; [congruence | apply Hno; lia].
Qed.

(** What [delete] looks for in a leaf is the first such entry. *)
Lemma find_entry key rid ks rs : ksorted ks -> length ks = length rs ->
  let r := find_rid rs rid (Z.of_nat (lower key ks)) (Z.to_nat (Z.of_nat (upper key ks) - Z.of_nat (lower key ks))) in
  (r = Ok None /\ (key, rid) ∉ zip ks rs) \/
  (exists i, r = Ok (Some (Z.of_nat i)) /\ (i < length ks)%nat /\ zip ks rs !! i = Some (key, rid) /\ (key, rid) ∉ take i (zip ks rs)).
Proof.
  intros Hs Hl r. pose proof (upper_le key ks) as Hu. pose proof (lower_le_upper key ks) as Hlu.
  assert (forall j, ks !! j = Some key -> (lower key ks <= j < upper key ks)%nat) as Hrange.
  { intros j Hj. split.
    - destruct (decide (j < lower key ks)%nat) as [Hlt|]; [| lia]. pose proof (lower_take key ks) as Ht.
      eapply (Forall_lookup_1 _ _ j) in Ht; [| by rewrite lookup_take_lt]. by apply klt_irrefl in Ht.
    - destruct (decide (j < upper key ks)%nat) as [|Hge]; [done|]. pose proof (upper_drop key ks Hs) as Ht.
      eapply (Forall_lookup_1 _ _ (j - upper key ks)) in Ht; [| rewrite lookup_drop; replace (upper key ks + (j - upper key ks))%nat with j by lia; exact Hj].
      by apply klt_irrefl in Ht. }
  assert (forall j k0 r0, zip ks rs !! j = Some (k0, r0) <-> ks !! j = Some k0 /\ rs !! j = Some r0) as Hzip.
  { intros j k0 r0. apply lookup_zip_Some. }
  destruct (find_rid_ok rs rid (Z.to_nat (Z.of_nat (upper key ks) - Z.of_nat (lower key ks))) (Z.of_nat (lower key ks))) as
    [[E Hno]|(i' & E & Hi' & Hr & Hno)]; [lia | unfold blen; lia | left | right; exists (Z.to_nat i')]; (split; [unfold r; rewrite E; do 3 f_equal; lia || done|]).
  - intros (j & [Hk Hj]%Hzip)%list_elem_of_lookup. apply Hrange in Hk. apply (Hno (Z.of_nat j)); [lia | by rewrite Nat2Z.id].
  - assert (ks !! Z.to_nat i' = Some key) as Hk.
    { destruct (lookup_lt_is_Some_2 ks (Z.to_nat i')) as [y Hy]; [lia|]. rewrite Hy. f_equal.
      pose proof (lower_drop key ks Hs) as H1. eapply (Forall_lookup_1 _ _ (Z.to_nat i' - lower key ks)) in H1;
        [| rewrite lookup_drop; replace (lower key ks + (Z.to_nat i' - lower key ks))%nat with (Z.to_nat i') by lia; exact Hy].
      pose proof (upper_take key ks) as H2. eapply (Forall_lookup_1 _ _ (Z.to_nat i')) in H2; [| rewrite lookup_take_lt by lia; exact Hy].
      apply kle_cases in H1 as [H1|]; [| done]. by apply klt_not_kle in H1. }
    split_and!; [lia | by apply Hzip |]. intros (j & Hj)%list_elem_of_lookup. apply lookup_take_Some in Hj as [[Hkj Hj]%Hzip Hlt].
    apply Hrange in Hkj. apply (Hno (Z.of_nat j)); [lia | by rewrite Nat2Z.id].
Qed.

