(* ===== verification/BTreeFixup.v ===== *)
(** The repairs of deletion as the code runs them: [_fixup_leaf] and
    [_fixup_internal], for any page store. *)
From stdpp Require Import base numbers list gmap strings.
From Stdlib Require Import ZArith Lia Strings.Byte Sorting.Sorted.
From S2P Require Import Prelude PyNum Types PyVal Disk PageStore BufferPool HeapPage BTree BTreeNode BTreeRep BTreeSearch BTreeInsert BTreeRepair.

Local Open Scope Z_scope.

(** * Loading and storing nodes *)

Definition storable_leaf (t : BPlusTree) (ks : list value) (rs : list RID) (nx : Z) : Prop :=
  length ks = length rs /\ blen ks <= max_leaf_keys t /\ Forall (key_ok t) ks /\ Forall rid_ok rs /\ 0 <= nx < 2 ^ 32.
Definition storable_node (t : BPlusTree) (cs : list Z) (ks : list value) : Prop :=
  length cs = S (length ks) /\ blen ks <= max_internal_keys t /\ Forall (key_ok t) ks /\ Forall (fun c => 0 <= c < 2 ^ 32) cs.

Section fixup.
Context {S H : Type} {store : PageStore S H} {spec : PageStoreCore S H}.

(** Only the pages' contents changed. *)
Definition becomes (s s' : S) (V : pages) : Prop :=
  ps_inv s' /\ ps_view s' = V /\ ps_pins s' = ps_pins s /\ ps_cap s' = ps_cap s /\ ps_count s' = ps_count s.

Lemma keeps_becomes s s' : keeps s s' -> becomes s s' (ps_view s).
Proof using Type. done. Qed.
Lemma becomes_trans s s1 s2 V1 V2 : becomes s s1 V1 -> becomes s1 s2 V2 -> becomes s s2 V2.
Proof using Type. intros (_ & _ & P1 & C1 & N1) (I2 & V & P2 & C2 & N2). split_and!; congruence. Qed.
Lemma keeps_then s s1 s2 V : keeps s s1 -> becomes s1 s2 V -> becomes s s2 V.
Proof using Type. intros Hk. apply becomes_trans with (ps_view s). exact Hk. Qed.
Lemma room_becomes s s' V ps k : room s ps k -> becomes s s' V -> room s' ps k.
Proof using Type. intros (Hi & Hc & Hp) (I & _ & P & C & _). split_and!; [done | by rewrite P, C | by rewrite P]. Qed.
Lemma view_becomes s s' V : becomes s s' V -> ps_view s' = V.
Proof using Type. by intros (_ & ? & _). Qed.

(** Fetch a page to look at it, and to write it or not. *)
Lemma fetch_opens s ps q d : room s ps 1 -> q ∈ ps -> ps_view s !! q = Some d ->
  runs (ps_fetch q) s (fun h s1 => ps_get h s1 = (Ok d, s1) /\ runs (ps_unpin q false) s1 (fun _ s2 => keeps s s2) /\
    forall m d', m d = (Ok tt, d') -> blen d' = PAGE_SIZE ->
      runs (on_page h m) s1 (fun _ s2 => runs (ps_unpin q true) s2 (fun _ s3 => becomes s s3 (<[q := d']> (ps_view s))))).
Proof using Type.
  intros (Hinv & Hcap & Hun) Hq Hd. eapply runs_mono; [apply ps_fetch_ok; [done | eauto | right; lia]|].
  intros h s1 (I1 & V1 & P1 & C1 & N1 & Ho & _ & CL1). destruct (ps_get_ok s1 h q I1 Ho) as (d0 & Hg & Hd0).
  rewrite V1, Hd in Hd0. injection Hd0 as <-. split_and!; [done | |].
  - eapply runs_mono; [apply ps_unpin_pinned; [done | pinned | right; apply CL1, ps_unpinned_clean; auto]|].
    intros _ s3 (I3 & V3 & P3 & C3 & N3 & _ & _). unfold keeps. rewrite P3, P1, (pins_dec_inc s q Hinv). split_and!; congruence.
  - intros m d' Hm Hb. eapply runs_mono; [eapply (on_page_ok s1 h q d); try done; by rewrite V1|].
    intros [] s2 (I2 & V2 & P2 & C2 & N2 & _). eapply runs_mono; [apply ps_unpin_pinned; [auto | pinned | auto]|].
    intros [] s3 (I3 & V3 & P3 & C3 & N3 & _). unfold becomes. rewrite P3, P2, P1, (pins_dec_inc s q Hinv). split_and!; congruence.
Qed.
Lemma fetch_edit {A} ps q d (k : H -> M S A) s (Q : A -> S -> Prop) : room s ps 1 -> q ∈ ps -> ps_view s !! q = Some d ->
  (forall h s1, ps_get h s1 = (Ok d, s1) -> runs (ps_unpin q false) s1 (fun _ s2 => keeps s s2) ->
     (forall m d', m d = (Ok tt, d') -> blen d' = PAGE_SIZE ->
        runs (on_page h m) s1 (fun _ s2 => runs (ps_unpin q true) s2 (fun _ s3 => becomes s s3 (<[q := d']> (ps_view s))))) ->
     runs (k h) s1 Q) ->
  runs (h ← ps_fetch q; k h) s Q.
Proof using Type. intros Hr Hq Hd Hk. rstep. eapply runs_mono; [by eapply fetch_opens|]. intros h s1 (Hg & Hun & Hwr). by apply Hk. Qed.

Section nodes.
Context (t : BPlusTree) (Hwf : tree_wf t) (s : S) (ps : list Z) (q : Z) (d : list byte).
Context (Hr : room s ps 1) (Hq : q ∈ ps) (Hd : ps_view s !! q = Some d).

Lemma run_load_leaf ks rs nx (Q : _ -> S -> Prop) : leaf_page t d ks rs nx -> (forall s', keeps s s' -> Q (ks, rs, nx) s') ->
  runs (load_leaf t q) s Q.
Proof using Hr Hq Hd.
  intros Hp HQ. unfold load_leaf. eapply (fetch_edit ps q d); [done.. |]. intros h s1 Hg Hun _. rstep.
  eapply run_read_leaf; [exact Hg | exact Hp |]. rstep. eapply runs_mono; [exact Hun|]. intros [] s2 Hk. rstep. by apply HQ.
Qed.
Lemma run_load_internal cs ks (Q : _ -> S -> Prop) : internal_page t d cs ks -> (forall s', keeps s s' -> Q (cs, ks) s') ->
  runs (load_internal t q) s Q.
Proof using Hr Hq Hd.
  intros Hp HQ. unfold load_internal. eapply (fetch_edit ps q d); [done.. |]. intros h s1 Hg Hun _. rstep.
  eapply run_read_internal; [exact Hg | exact Hp |]. rstep. eapply runs_mono; [exact Hun|]. intros [] s2 Hk. rstep. by apply HQ.
Qed.

Lemma run_store_leaf ks rs nx (Q : unit -> S -> Prop) : storable_leaf t ks rs nx ->
  (forall s' d', leaf_page t d' ks rs nx -> becomes s s' (<[q := d']> (ps_view s)) -> Q tt s') -> runs (store_leaf t q ks rs nx) s Q.
Proof using All.
  intros (Hl & Hm & Hk & Hrs & Hn) HQ. pose proof (ps_view_size s q d (proj1 Hr) Hd) as Hsz.
  destruct (write_leaf_ok t d ks rs nx Hwf Hsz Hl Hm Hk Hrs Hn) as (d' & Hw & Hp).
  unfold store_leaf. eapply (fetch_edit ps q d); [done.. |]. intros h s1 _ _ Hwr. rstep.
  eapply runs_mono; [apply (Hwr _ _ Hw); apply Hp|]. intros [] s2 Hun. eapply runs_mono; [exact Hun|]. intros [] s3 Hb. by apply (HQ s3 d').
Qed.
Lemma run_commit_internal cs ks (Q : unit -> S -> Prop) : storable_node t cs ks ->
  (forall s' d', internal_page t d' cs ks -> becomes s s' (<[q := d']> (ps_view s)) -> Q tt s') -> runs (commit_internal t q cs ks) s Q.
Proof using All.
  intros (Hl & Hm & Hk & Hc) HQ. pose proof (ps_view_size s q d (proj1 Hr) Hd) as Hsz.
  destruct (write_internal_ok t d cs ks Hwf Hsz Hl Hm Hk Hc) as (d' & Hw & Hp).
  unfold commit_internal. eapply (fetch_edit ps q d); [done.. |]. intros h s1 _ _ Hwr. rstep.
  eapply runs_mono; [apply (Hwr _ _ Hw); apply Hp|]. intros [] s2 Hun. eapply runs_mono; [exact Hun|]. intros [] s3 Hb. by apply (HQ s3 d').
Qed.
End nodes.

(** * Two children of one node, and their parent *)

Lemma py_set_mid {A} (l1 l2 : list A) x y n : n = blen l1 -> py_set (l1 ++ [x] ++ l2) n y = Ok (l1 ++ [y] ++ l2).
Proof using.
  intros ->. unfold py_set. rewrite blen_app. cbn [app]. rewrite blen_cons. pose proof (blen_nonneg l2). replace (_ <? _) with true by lia.
  unfold blen. by rewrite Nat2Z.id, insert_app_r_alt, Nat.sub_diag by lia.
Qed.
Lemma py_del_mid {A} (l1 l2 : list A) x n : n = blen l1 -> py_del (l1 ++ x :: l2) n = Ok (l1 ++ l2).
Proof using.
  intros ->. unfold py_del. rewrite blen_app, blen_cons. pose proof (blen_nonneg l2). replace (_ <? _) with true by lia.
  unfold blen. rewrite Nat2Z.id, take_app_length. f_equal. f_equal. by rewrite drop_app_ge, Nat.sub_succ_l, Nat.sub_diag by lia.
Qed.
Lemma py_nth_mid {A} (l1 l2 : list A) x n : n = blen l1 -> py_nth (l1 ++ x :: l2) n = Ok x.
Proof using. intros ->. apply py_nth_lookup; [apply blen_nonneg|]. unfold blen. rewrite Nat2Z.id. by apply list_lookup_middle. Qed.

(** What the neighbours of the pair contribute to the parent. *)
Lemma lside_ok t v h lo cs ks lo' ls pg : lside (subtree t v h) lo cs ks lo' ls pg -> Forall page_ok cs /\ Forall (key_ok t) ks /\ length cs = length ks.
Proof using.
  intros [(-> & -> & _)|(k & ks0 & -> & _ & Hf)]; [done|]. pose proof (forest_facts_of _ _ _ _ _ _ _ _ _ Hf) as [Hb Hl Hc Hk _ _ _ _ _ _ _ _ _].
  split_and!; [eapply Forall_impl; [exact Hc | by intros ? []] | apply Forall_app; split; [done | apply Forall_singleton, Hb] | rewrite length_app; cbn; lia].
Qed.
Lemma rside_ok t v h hi' cs ks hi ls pg : rside (subtree t v h) hi' cs ks hi ls pg -> Forall page_ok cs /\ Forall (key_ok t) ks /\ length cs = length ks.
Proof using.
  intros [(-> & -> & _)|(k & ks0 & -> & _ & Hf)]; [done|]. pose proof (forest_facts_of _ _ _ _ _ _ _ _ _ Hf) as [Hb Hl Hc Hk _ _ _ _ _ _ _ _ _].
  split_and!; [eapply Forall_impl; [exact Hc | by intros ? []] | constructor; [apply Hb | done] | cbn; lia].
Qed.

(** The parent's lists without the right one of two neighbours. *)
Lemma parent_without t v h lo cs1 ks1 lo' L pg1 cs2 ks2 a b k : lside (subtree t v h) lo cs1 ks1 lo' L pg1 ->
  py_del (cs1 ++ [a; b] ++ cs2) (blen ks1 + 1) = Ok (cs1 ++ [a] ++ cs2) /\ py_del (ks1 ++ [k] ++ ks2) (blen ks1) = Ok (ks1 ++ ks2).
Proof using.
  intros HL. destruct (lside_ok _ _ _ _ _ _ _ _ _ HL) as (_ & _ & Hlen). split; [| by apply py_del_mid].
  change (cs1 ++ [a; b] ++ cs2) with (cs1 ++ [a] ++ b :: cs2). rewrite !app_assoc. apply py_del_mid. rewrite blen_app. unfold blen. cbn [length]. lia.
Qed.

(** The store after the parent was rewritten too. *)
Definition fixed (t : BPlusTree) (s s' : S) (h : nat) (p : Z) (lo hi : option value) (M : list leaf) (pg : list Z) : Prop :=
  exists V, becomes s s' V /\ repaired t (ps_view s) V h p lo hi M pg.

Section pair.
Context (t : BPlusTree) (Hwf : tree_wf t) (s : S) (h : nat) (p : Z) (lo hi lo' hi' : option value).
Context (cs1 cs2 pg1 pg2 : list Z) (ks1 ks2 : list value) (L R : list leaf).
Context (HL : lside (subtree t (ps_view s) h) lo cs1 ks1 lo' L pg1) (HR : rside (subtree t (ps_view s) h) hi' cs2 ks2 hi R pg2).
Context (M : list leaf) (pgm : list Z) (d0 : list byte).
Context (Hp : page_ok p) (Hd0 : ps_view s !! p = Some d0) (Hnd : NoDup (p :: pg1 ++ pgm ++ pg2)) (Hr : room s (p :: pgm) 1).

Lemma commit_pair s2 V2 csm ksm M' pgm' : becomes s s2 V2 -> (forall q, q ∉ pgm -> V2 !! q = ps_view s !! q) ->
  forest (subtree t V2 h) lo' csm ksm hi' M' pgm' -> pgm' ⊆+ pgm -> entries M' = entries M -> relinked M M' ->
  blen (ks1 ++ ksm ++ ks2) <= max_internal_keys t ->
  runs (commit_internal t p (cs1 ++ csm ++ cs2) (ks1 ++ ksm ++ ks2)) s2 (fun _ s' => fixed t s s' h p lo hi (L ++ M ++ R) (pg1 ++ pgm ++ pg2)).
Proof using All.
  intros Hb Hfr Hf Hsub He Hlk Hmax. pose proof Hnd as [Hni _]%NoDup_cons.
  assert (p ∉ pgm) as Hpm by (intros Hq; apply Hni; rewrite !elem_of_app; auto).
  destruct (lside_ok _ _ _ _ _ _ _ _ _ HL) as (C1 & K1 & L1). destruct (rside_ok _ _ _ _ _ _ _ _ _ HR) as (C2 & K2 & L2).
  destruct (forest_page_ok _ _ _ _ _ _ _ _ _ Hf) as (Cm & Km & Lm).
  assert (forall cs, Forall page_ok cs -> Forall (fun c => 0 <= c < 2 ^ 32) cs) as Hpk.
  { intros cs Hcs. eapply Forall_impl; [exact Hcs|]. intros c Hc. unfold page_ok, INVALID_PAGE_ID in Hc. lia. }
  apply (run_commit_internal t Hwf s2 (p :: pgm) p d0); [by eapply room_becomes | left | rewrite (view_becomes _ _ _ Hb); by rewrite Hfr | |].
  - split_and!; [rewrite !length_app; lia | done | by rewrite !Forall_app | rewrite !Forall_app; auto].
  - intros s' d' Hd' Hb'. exists (<[p := d']> V2). rewrite (view_becomes _ _ _ Hb) in Hb'. split; [by eapply becomes_trans|].
    eapply pair_repaired; try done; [| apply lookup_insert_eq |].
    + eapply forest_frame; [| exact Hf]. intros q Hq. apply lookup_insert_ne. intros <-. apply Hpm. by eapply elem_of_submseteq.
    + intros q [Hqp Hq]%not_elem_of_cons. rewrite lookup_insert_ne by done. by apply Hfr.
Qed.
End pair.

(** ** Leaves *)

Lemma leaf_storable t l : leaf_ok t l -> storable_leaf t (lf_keys l) (lf_rids l) (lf_next l).
Proof using. by intros []. Qed.

Section leaf_fix.
Context (t : BPlusTree) (Hwf : tree_wf t) (Hmin : mins_ok t) (s : S) (p : Z) (lo hi lo' hi' : option value).
Context (cs1 cs2 pg1 pg2 : list Z) (ks1 ks2 : list value) (L R : list leaf) (a b : Z) (k : value) (la lb : leaf).
Context (HL : lside (subtree t (ps_view s) 0) lo cs1 ks1 lo' L pg1) (HR : rside (subtree t (ps_view s) 0) hi' cs2 ks2 hi R pg2).
Context (Ha : leaf_at t (ps_view s) a lo' (Some k) la) (Hb : leaf_at t (ps_view s) b (Some k) hi' lb) (Hlink : lf_next la = b).
Context (Hn : node_at t (ps_view s) p (cs1 ++ [a; b] ++ cs2) (ks1 ++ [k] ++ ks2)).
Context (Hnd : NoDup (p :: pg1 ++ [a; b] ++ pg2)) (Hr : room s (p :: [a; b]) 1).

Local Notation ks := (lf_keys la ++ lf_keys lb).
Local Notation rs := (lf_rids la ++ lf_rids lb).
Local Notation done_ok := (fun s' => fixed t s s' 0 p lo hi (L ++ [la; lb] ++ R) (pg1 ++ [a; b] ++ pg2)).

Lemma pair_distinct : a <> b.
Proof using Hnd.
  apply NoDup_cons in Hnd as [_ Hnd']. apply NoDup_app in Hnd' as (_ & _ & Hnd'). apply NoDup_app in Hnd' as (Hab & _).
  apply NoDup_cons in Hab as [Hab _]. intros E. apply Hab. rewrite E. left.
Qed.
Lemma pair_max : blen (ks1 ++ [k] ++ ks2) <= max_internal_keys t.
Proof using Hn. apply Hn. Qed.

(** A place to cut the two leaves. *)
Record cut_at (i : nat) (sep : value) : Prop := {
  ca_pos : (0 < i)%nat;
  ca_sep : ks !! i = Some sep;
  ca_ne : exists x, ks !! (i - 1)%nat = Some x /\ x <> sep;
  ca_left : Z.of_nat i <= max_leaf_keys t;
  ca_right : blen ks - Z.of_nat i <= max_leaf_keys t }.

Lemma cut_storable i sep : cut_at i sep ->
  storable_leaf t (take i ks) (take i rs) b /\ storable_leaf t (drop i ks) (drop i rs) (lf_next lb) /\ py_nth (drop i ks) 0 = Ok sep.
Proof using Ha Hb.
  intros [Hi Hs (x & Hx & Hne) Hl Hrt]. destruct (leaf_pair_facts _ _ _ _ _ _ _ _ _ Ha Hb) as (Hlen & Hso & Hk & Hrid & Hal & Hbe & [Hlo Hhi _] & He & Hnx).
  pose proof (la_pid _ _ _ _ _ _ Hb) as Pb.
  destruct (cut_facts t ks rs lo' hi' i x sep a b b (lf_next lb) Hlen Hso Hk Hrid Hal Hbe Hi Hx Hs Hne Hlo Hhi Hl Hrt) as
    (O1 & O2 & _ & _ & _ & _ & _ & _ & Hn0); [unfold page_ok, INVALID_PAGE_ID in *; lia | done |].
  split_and!; [by apply leaf_storable in O1 | by apply leaf_storable in O2 | done].
Qed.

(** Both leaves are written, and then the new separator. *)
Lemma commit_cut s2 V2 i sep da db : cut_at i sep -> becomes s s2 V2 -> V2 !! a = Some da -> V2 !! b = Some db ->
  (forall q, q ∉ [a; b] -> V2 !! q = ps_view s !! q) ->
  leaf_page t da (take i ks) (take i rs) b -> leaf_page t db (drop i ks) (drop i rs) (lf_next lb) ->
  runs (commit_internal t p (cs1 ++ [a; b] ++ cs2) (ks1 ++ [sep] ++ ks2)) s2 (fun _ s' => done_ok s').
Proof using All.
  intros [Hi Hs (x & Hx & Hne) Hl Hrt] Hbec Hda Hdb Hfr Hpa Hpb. destruct (na_page _ _ _ _ _ Hn) as (d0 & Hd0 & _).
  destruct (leaf_recut t (ps_view s) a b lo' hi' k la lb Ha Hb V2 i x sep da db Hi Hx Hs Hne Hl Hrt Hda Hpa Hdb Hpb) as (M' & Hf & He & Hlk).
  eapply (commit_pair t Hwf s 0 p lo hi lo' hi' cs1 cs2 pg1 pg2 ks1 ks2 L R HL HR _ [a; b]); try done; [apply Hn|].
  pose proof pair_max as Hm. rewrite !blen_app in *. done.
Qed.

(** One leaf is written, and the other leaves the parent. *)
Lemma commit_merged s2 V2 da : blen ks <= max_leaf_keys t -> becomes s s2 V2 -> V2 !! a = Some da ->
  (forall q, q ∉ [a; b] -> V2 !! q = ps_view s !! q) -> leaf_page t da ks rs (lf_next lb) ->
  runs (commit_internal t p (cs1 ++ [a] ++ cs2) (ks1 ++ ks2)) s2 (fun _ s' => done_ok s').
Proof using All.
  intros Hl Hbec Hda Hfr Hpa. destruct (na_page _ _ _ _ _ Hn) as (d0 & Hd0 & _).
  destruct (leaf_merge t (ps_view s) a b lo' hi' k la lb Ha Hb V2 da Hl Hda Hpa) as (M' & Hf & He & Hlk).
  change ks2 with ([] ++ ks2). eapply (commit_pair t Hwf s 0 p lo hi lo' hi' cs1 cs2 pg1 pg2 ks1 ks2 L R HL HR _ [a; b]); try done; [apply Hn | |].
  - apply submseteq_skip, submseteq_nil_l.
  - pose proof pair_max as Hm. rewrite !blen_app in *. pose proof (blen_nonneg [k]). rewrite blen_nil. lia.
Qed.

Lemma cut_from_left n : (Z.to_nat n <= length (lf_keys lb))%nat -> let i := (length (lf_keys la) + Z.to_nat n)%nat in
  lf_keys la ++ py_take (lf_keys lb) n = take i ks /\ lf_rids la ++ py_take (lf_rids lb) n = take i rs /\
  py_drop (lf_keys lb) n = drop i ks /\ py_drop (lf_rids lb) n = drop i rs.
Proof using Ha.
  intros Hn0 i. pose proof (lo_len _ _ (la_ok _ _ _ _ _ _ Ha)) as Hla. unfold py_take, py_drop, i.
  rewrite take_app_add, drop_app_add. rewrite Hla, take_app_add, drop_app_add. done.
Qed.

Lemma borrow_leaf_right_ok :
  runs (borrow_leaf_right t p (cs1 ++ [a; b] ++ cs2) (ks1 ++ [k] ++ ks2) (blen ks1) a (lf_keys la) (lf_rids la) (lf_next la) (Some b)) s
    (fun r s' => if r : bool then done_ok s' else keeps s s').
Proof using All.
  destruct (la_page _ _ _ _ _ _ Hb) as (db & Hdb & Hpb). destruct (la_page _ _ _ _ _ _ Ha) as (da & Hda & _). pose proof pair_distinct as Hab.
  pose proof (la_ok _ _ _ _ _ _ Hb) as Ob. pose proof (lo_max _ _ Ob) as Mb. pose proof (lo_max _ _ (la_ok _ _ _ _ _ _ Ha)) as Ma.
  cbn [borrow_leaf_right]. eapply (fetch_edit (p :: [a; b]) b db); [done | right; right; left | done |]. intros h s1 Hg Hun Hwr. rstep.
  eapply run_read_leaf; [exact Hg | exact Hpb |]. cbv iota beta. rstep.
  destruct (leading_run_ok k (lf_keys lb)) as (n & En & Hn1 & Hcut).
  { eapply key_ok_kinds; [exact (bo_hi _ _ _ (la_bounds _ _ _ _ _ _ Ha)) | apply Ob]. }
  eapply runs_lift_result; [exact En|]. unfold can_borrow. destruct (_ && _) eqn:Ecan.
  2: { rstep. eapply runs_mono; [exact Hun|]. intros [] s2 Hk. by rstep. }
  apply andb_prop in Ecan as [[E1%Z.ltb_lt E2]%andb_prop E3%Z.leb_le]. destruct (Hcut E1) as (x & sep & Hx & Hsep & Hne).
  assert (Z.to_nat n <= length (lf_keys lb))%nat as Hnl by (unfold blen in E1; lia).
  destruct (cut_from_left n Hnl) as (F1 & F2 & F3 & F4). cbv zeta. rewrite F1, F2, F3, F4. set (i := (length (lf_keys la) + Z.to_nat n)%nat) in *.
  assert (cut_at i sep) as Hi.
  { split; [unfold i; lia | unfold i; rewrite lookup_app_r by lia; rewrite <- Hsep; f_equal; lia | exists x; split; [| done] | unfold i, blen in *; lia | rewrite blen_app; unfold i, blen in *; lia].
    unfold i. rewrite lookup_app_r by lia. rewrite <- Hx. f_equal. lia. }
  destruct (cut_storable i sep Hi) as (Sa & Sb & Hs0). pose proof Sb as (Lb & Xb & Kb & Rb & Nb).
  destruct (write_leaf_ok t db (drop i ks) (drop i rs) (lf_next lb) Hwf (lp_size _ _ _ _ _ Hpb) Lb Xb Kb Rb Nb) as (db' & Hw & Hpb').
  rstep. eapply runs_mono; [apply (Hwr _ _ Hw), Hpb'|]. intros [] s2 Hun2. rstep. eapply runs_mono; [exact Hun2|]. intros [] s3 B3.
  rstep. rewrite Hlink. eapply (run_store_leaf t Hwf s3 (p :: [a; b]) a da); [by eapply room_becomes | right; left | rewrite (view_becomes _ _ _ B3); by rewrite lookup_insert_ne by congruence | exact Sa |].
  intros s4 da' Hpa' B4. rewrite (view_becomes _ _ _ B3) in B4. rstep. eapply runs_lift_result; [exact Hs0|].
  rstep. eapply runs_lift_result; [by apply py_set_mid|]. rstep.
  eapply runs_mono; [eapply (commit_cut s4 _ i sep da' db' Hi); [by eapply becomes_trans | apply lookup_insert_eq | by rewrite lookup_insert_ne, lookup_insert_eq | | done | done]|].
  - intros q [Hqa [Hqb _]%not_elem_of_cons]%not_elem_of_cons. by rewrite !lookup_insert_ne by congruence.
  - intros [] s5 Hf. by rstep.
Qed.

Lemma cut_from_right n : 0 <= n <= blen (lf_keys la) -> let i := Z.to_nat (blen (lf_keys la) - n) in
  py_del_last_k (lf_keys la) n = take i ks /\ py_del_last_k (lf_rids la) n = take i rs /\
  py_last_k (lf_keys la) n ++ lf_keys lb = drop i ks /\ py_last_k (lf_rids la) n ++ lf_rids lb = drop i rs.
Proof using Ha.
  intros Hn0 i. pose proof (lo_len _ _ (la_ok _ _ _ _ _ _ Ha)) as Hla.
  assert (blen (lf_rids la) = blen (lf_keys la)) as E by (unfold blen; lia).
  unfold py_del_last_k, py_last_k, py_take, py_drop, i. rewrite E. rewrite !take_app_le, !drop_app_le by (unfold blen in *; lia). done.
Qed.

Lemma borrow_leaf_left_ok :
  runs (borrow_leaf_left t p (cs1 ++ [a; b] ++ cs2) (ks1 ++ [k] ++ ks2) (blen ks1 + 1) b (lf_keys lb) (lf_rids lb) (lf_next lb) (Some a)) s
    (fun r s' => if r : bool then done_ok s' else keeps s s').
Proof using All.
  destruct (la_page _ _ _ _ _ _ Hb) as (db & Hdb & _). destruct (la_page _ _ _ _ _ _ Ha) as (da & Hda & Hpa). pose proof pair_distinct as Hab.
  pose proof (la_ok _ _ _ _ _ _ Ha) as Oa. pose proof (lo_max _ _ Oa) as Ma. pose proof (lo_max _ _ (la_ok _ _ _ _ _ _ Hb)) as Mb.
  cbn [borrow_leaf_left]. eapply (fetch_edit (p :: [a; b]) a da); [done | right; left | done |]. intros h s1 Hg Hun Hwr. rstep.
  eapply run_read_leaf; [exact Hg | exact Hpa |]. cbv iota beta. rstep.
  destruct (trailing_run_ok k (lf_keys la)) as (n & En & Hn1 & Hcut).
  { eapply key_ok_kinds; [exact (bo_hi _ _ _ (la_bounds _ _ _ _ _ _ Ha)) | apply Oa]. }
  eapply runs_lift_result; [exact En|]. unfold can_borrow. destruct (_ && _) eqn:Ecan.
  2: { rstep. eapply runs_mono; [exact Hun|]. intros [] s2 Hk. by rstep. }
  apply andb_prop in Ecan as [[E1%Z.ltb_lt E2]%andb_prop E3%Z.leb_le]. destruct (Hcut E1) as (x & sep & Hx & Hsep & Hne).
  destruct (cut_from_right n ltac:(lia)) as (F1 & F2 & F3 & F4). cbv zeta. rewrite F1, F2, F3, F4. set (i := Z.to_nat (blen (lf_keys la) - n)) in *.
  assert (i < length (lf_keys la))%nat as Hil by (unfold i; unfold blen in *; lia).
  assert (cut_at i sep) as Hi.
  { split; [unfold i; lia | by rewrite lookup_app_l | exists x; split; [| done] | unfold i; lia | rewrite blen_app; unfold i; lia].
    rewrite lookup_app_l by lia. rewrite <- Hx. f_equal. unfold i. lia. }
  destruct (cut_storable i sep Hi) as (Sa & Sb & Hs0). pose proof Sa as (La & Xa & Ka & Ra & Na).
  destruct (write_leaf_ok t da (take i ks) (take i rs) b Hwf (lp_size _ _ _ _ _ Hpa) La Xa Ka Ra Na) as (da' & Hw & Hpa').
  rewrite Hlink. rstep. eapply runs_mono; [apply (Hwr _ _ Hw), Hpa'|]. intros [] s2 Hun2. rstep. eapply runs_mono; [exact Hun2|]. intros [] s3 B3.
  rstep. eapply (run_store_leaf t Hwf s3 (p :: [a; b]) b db); [by eapply room_becomes | right; right; left | rewrite (view_becomes _ _ _ B3); by rewrite lookup_insert_ne by congruence | exact Sb |].
  intros s4 db' Hpb' B4. rewrite (view_becomes _ _ _ B3) in B4. rstep. eapply runs_lift_result; [exact Hs0|].
  rstep. eapply runs_lift_result; [apply py_set_mid; lia|]. rstep.
  eapply runs_mono; [eapply (commit_cut s4 _ i sep da' db' Hi); [by eapply becomes_trans | by rewrite lookup_insert_ne, lookup_insert_eq by congruence | apply lookup_insert_eq | | done | done]|].
  - intros q [Hqa [Hqb _]%not_elem_of_cons]%not_elem_of_cons. by rewrite !lookup_insert_ne by congruence.
  - intros [] s5 Hf. by rstep.
Qed.

(** *** Merging or redistributing *)

Context (Hfew : few t (entries [la; lb])) (Hsmall : blen (lf_keys la) < min_leaf_keys t \/ blen (lf_keys lb) < min_leaf_keys t).

Lemma redistribution : max_leaf_keys t < blen ks -> exists i sep, split_point_avoiding_duplicates ks = Ok (Z.of_nat i) /\ cut_at i sep.
Proof using Hwf Hmin Ha Hb Hfew Hsmall.
  intros Hover. destruct (leaf_pair_facts _ _ _ _ _ _ _ _ _ Ha Hb) as (Hlen & Hso & Hk & _ & _ & _ & _ & He & _).
  pose proof (lo_max _ _ (la_ok _ _ _ _ _ _ Ha)) as Ma. pose proof (lo_max _ _ (la_ok _ _ _ _ _ _ Hb)) as Mb.
  destruct (split_point_near ks k (max_leaf_keys t)) as (i & x & sep & E & Hi & Hx & Hsep & Hne & Hl & Hrt); try done.
  - eapply key_ok_kinds; [exact (bo_hi _ _ _ (la_bounds _ _ _ _ _ _ Ha)) | exact Hk].
  - intros y. pose proof (Hfew y) as Hy. rewrite He in Hy.
    rewrite <- (fst_zip ks rs) by lia. by rewrite entry_count_keys.
  - apply tw_max_leaf, Hwf.
  - destruct Hmin as [_ Hm _ _]. rewrite blen_app in *. destruct Hsmall; lia.
  - exists (Z.to_nat i), sep. rewrite Z2Nat.id by lia. split; [done|]. split; try (unfold blen in *; lia); [done|].
    exists x. split; [| done]. rewrite <- Hx. f_equal. lia.
Qed.

(** Both halves are written, and then the new separator. *)
Lemma run_store_cut {A} s1 i sep (rest : M S A) (Q : A -> S -> Prop) : cut_at i sep -> keeps s s1 ->
  (forall s2, runs (commit_internal t p (cs1 ++ [a; b] ++ cs2) (ks1 ++ [sep] ++ ks2)) s2 (fun _ s' => done_ok s') -> runs rest s2 Q) ->
  runs (store_leaf t a (take i ks) (take i rs) b;; store_leaf t b (drop i ks) (drop i rs) (lf_next lb);; rest) s1 Q.
Proof using Hwf Hmin HL HR Ha Hb Hlink Hn Hnd Hr.
  intros Hi Hk Hrest. destruct (cut_storable i sep Hi) as (Sa & Sb & _). pose proof pair_distinct as Hab.
  destruct (la_page _ _ _ _ _ _ Hb) as (db & Hdb & _). destruct (la_page _ _ _ _ _ _ Ha) as (da & Hda & _). pose proof Hk as (_ & V1 & _).
  rstep. eapply (run_store_leaf t Hwf s1 (p :: [a; b]) a da); [by eapply room_keeps | right; left | by rewrite V1 | exact Sa |].
  intros s2 da' Hpa' B2. rewrite V1 in B2. pose proof (keeps_then _ _ _ _ Hk B2) as B2'.
  rstep. eapply (run_store_leaf t Hwf s2 (p :: [a; b]) b db); [by eapply room_becomes | right; right; left | rewrite (view_becomes _ _ _ B2); by rewrite lookup_insert_ne by congruence | exact Sb |].
  intros s3 db' Hpb' B3. rewrite (view_becomes _ _ _ B2) in B3. apply Hrest.
  eapply (commit_cut s3 _ i sep da' db' Hi); [eapply becomes_trans; [exact B2' | exact B3] | by rewrite lookup_insert_ne, lookup_insert_eq by congruence | apply lookup_insert_eq | | done | done].
  intros q [Hqa [Hqb _]%not_elem_of_cons]%not_elem_of_cons. by rewrite !lookup_insert_ne by congruence.
Qed.

(** Everything goes to the left leaf. *)
Lemma run_store_merged {A} s1 (rest : M S A) (Q : A -> S -> Prop) : blen ks <= max_leaf_keys t -> keeps s s1 ->
  (forall s2, runs (commit_internal t p (cs1 ++ [a] ++ cs2) (ks1 ++ ks2)) s2 (fun _ s' => done_ok s') -> runs rest s2 Q) ->
  runs (store_leaf t a ks rs (lf_next lb);; rest) s1 Q.
Proof using Hwf Hmin HL HR Ha Hb Hlink Hn Hnd Hr.
  intros Hfit Hk Hrest. destruct (leaf_pair_facts _ _ _ _ _ _ _ _ _ Ha Hb) as (Hlen & _ & Hks & Hrid & _ & _ & _ & _ & Hnx).
  destruct (la_page _ _ _ _ _ _ Ha) as (da & Hda & _). pose proof Hk as (_ & V1 & _).
  rstep. eapply (run_store_leaf t Hwf s1 (p :: [a; b]) a da); [by eapply room_keeps | right; left | by rewrite V1 | done |].
  intros s2 da' Hpa' B2. rewrite V1 in B2. apply Hrest.
  eapply (commit_merged s2 _ da' Hfit); [eapply keeps_then; [exact Hk | exact B2] | apply lookup_insert_eq | | done].
  intros q [Hqa _]%not_elem_of_cons. by rewrite lookup_insert_ne by congruence.
Qed.

(** What [fixup_leaf] ends with. *)
Local Notation commits r s1 := (runs r s1 (fun pr s2 => runs (commit_internal t p (fst pr) (snd pr)) s2 (fun _ s' => done_ok s'))).

Lemma cut_forms i sep : cut_at i sep -> py_take ks (Z.of_nat i) = take i ks /\ py_take rs (Z.of_nat i) = take i rs /\
  py_drop ks (Z.of_nat i) = drop i ks /\ py_drop rs (Z.of_nat i) = drop i rs /\ py_nth ks (Z.of_nat i) = Ok sep.
Proof using.
  intros [_ Hs _ _ _]. unfold py_take, py_drop. rewrite Nat2Z.id. split_and!; try done. apply py_nth_lookup; [lia | by rewrite Nat2Z.id].
Qed.

Lemma combine_leaf_right_ok s1 : keeps s s1 ->
  commits (combine_leaf_right t (cs1 ++ [a; b] ++ cs2) (ks1 ++ [k] ++ ks2) (blen ks1) a (lf_keys la) (lf_rids la) b) s1.
Proof using All.
  intros Hk. destruct (la_page _ _ _ _ _ _ Hb) as (db & Hdb & Hpb). destruct (parent_without _ _ _ _ _ _ _ _ _ cs2 ks2 a b k HL) as [Ec Ek]. pose proof Hk as (_ & V1 & _).
  unfold combine_leaf_right. rstep. eapply (run_load_leaf t s1 (p :: [a; b]) b db); [by eapply room_keeps | right; right; left | by rewrite V1 | exact Hpb |].
  intros s2 Hk2. cbv iota beta zeta. pose proof (keeps_trans _ _ _ Hk Hk2) as Hk'. destruct (Z.leb_spec (blen ks) (max_leaf_keys t)) as [Hfit|Hover].
  - apply run_store_merged; [done | done |]. intros s3 Hc. rstep. eapply runs_lift_result; [exact Ec|].
    rstep. eapply runs_lift_result; [exact Ek|]. by rstep.
  - destruct (redistribution Hover) as (i & sep & E & Hi). destruct (cut_forms i sep Hi) as (F1 & F2 & F3 & F4 & Es).
    rstep. eapply runs_lift_result; [exact E|]. rewrite F1, F2, F3, F4. eapply (run_store_cut s2 i sep); [done | done |]. intros s3 Hc.
    rstep. eapply runs_lift_result; [exact Es|]. rstep. eapply runs_lift_result; [by apply py_set_mid|]. by rstep.
Qed.
Lemma combine_leaf_left_ok s1 : keeps s s1 ->
  commits (combine_leaf_left t (cs1 ++ [a; b] ++ cs2) (ks1 ++ [k] ++ ks2) (blen ks1 + 1) b (lf_keys lb) (lf_rids lb) (lf_next lb) (Some a)) s1.
Proof using All.
  intros Hk. destruct (la_page _ _ _ _ _ _ Ha) as (da & Hda & Hpa). destruct (parent_without _ _ _ _ _ _ _ _ _ cs2 ks2 a b k HL) as [Ec Ek]. pose proof Hk as (_ & V1 & _).
  unfold combine_leaf_left. rstep. eapply (run_load_leaf t s1 (p :: [a; b]) a da); [by eapply room_keeps | right; left | by rewrite V1 | exact Hpa |].
  intros s2 Hk2. cbv iota beta zeta. pose proof (keeps_trans _ _ _ Hk Hk2) as Hk'. replace (blen ks1 + 1 - 1) with (blen ks1) by lia.
  destruct (Z.leb_spec (blen ks) (max_leaf_keys t)) as [Hfit|Hover].
  - apply run_store_merged; [done | done |]. intros s3 Hc. rstep. eapply runs_lift_result; [exact Ec|].
    rstep. eapply runs_lift_result; [exact Ek|]. by rstep.
  - destruct (redistribution Hover) as (i & sep & E & Hi). destruct (cut_forms i sep Hi) as (F1 & F2 & F3 & F4 & Es).
    rstep. eapply runs_lift_result; [exact E|]. rewrite F1, F2, F3, F4. eapply (run_store_cut s2 i sep); [done | done |]. intros s3 Hc.
    rstep. eapply runs_lift_result; [exact Es|]. rstep. eapply runs_lift_result; [by apply py_set_mid|]. by rstep.
Qed.
End leaf_fix.

(** ** A node and its neighbours *)

Lemma forest_last sub lo cs ks hi ls pg : forest sub lo cs ks hi ls pg ->
  exists cs0 c lo0 L0 M pg0 pgm, cs = cs0 ++ [c] /\ ls = L0 ++ M /\ pg = pg0 ++ pgm /\ lside sub lo cs0 ks lo0 L0 pg0 /\ sub c lo0 hi M pgm.
Proof using.
  induction 1 as [lo c hi ls pg Hc|lo c k cs ks hi ls1 pg1 ls2 pg2 Hc _ (cs0 & c' & lo0 & L0 & M & pg0 & pgm & -> & -> & -> & HL & HM)].
  - exists [], c, lo, [], ls, [], pg. split_and!; try done. by left.
  - exists (c :: cs0), c', lo0, (ls1 ++ L0), M, (pg1 ++ pg0), pgm. rewrite !app_assoc. split_and!; try done. right.
    destruct HL as [(-> & -> & -> & -> & ->)|(k' & ks0 & -> & -> & HL)].
    + exists k, []. rewrite !app_nil_r. split_and!; try done. by constructor.
    + exists k', (k :: ks0). split_and!; try done. by constructor.
Qed.

Lemma right_neighbour sub hi' cs ks hi R pg : rside sub hi' cs ks hi R pg ->
  cs = [] \/ exists r k cs3 ks3 hi3 Mr R3 pr pg3, cs = r :: cs3 /\ ks = k :: ks3 /\ hi' = Some k /\ R = Mr ++ R3 /\ pg = pr ++ pg3 /\
    sub r (Some k) hi3 Mr pr /\ rside sub hi3 cs3 ks3 hi R3 pg3.
Proof using.
  intros [(-> & _)|(k & ks3 & -> & -> & Hf)]; [by left | right].
  destruct (forest_first _ _ _ _ _ _ _ Hf) as (c & cs2 & hi2 & M & R2 & pgm & pg2 & -> & -> & -> & Hc & HR). eexists _, _, _, _, _, _, _, _, _. split_and!; done.
Qed.
Lemma left_neighbour sub lo cs ks lo' L pg : lside sub lo cs ks lo' L pg ->
  cs = [] \/ exists l k cs0 ks0 lo0 Ml L0 pl pg0, cs = cs0 ++ [l] /\ ks = ks0 ++ [k] /\ lo' = Some k /\ L = L0 ++ Ml /\ pg = pg0 ++ pl /\
    sub l lo0 (Some k) Ml pl /\ lside sub lo cs0 ks0 lo0 L0 pg0.
Proof using.
  intros [(-> & _)|(k & ks0 & -> & -> & Hf)]; [by left | right].
  destruct (forest_last _ _ _ _ _ _ _ Hf) as (cs0 & c & lo0 & L0 & M & pg0 & pgm & -> & -> & -> & HL & Hc). eexists _, _, _, _, _, _, _, _, _. split_and!; done.
Qed.

Lemma right_sibling_some cs1 c r cs3 : right_sibling (cs1 ++ c :: r :: cs3) (blen cs1) = Ok (Some r).
Proof using.
  unfold right_sibling. rewrite blen_app, !blen_cons. pose proof (blen_nonneg cs3). replace (_ <? _) with true by lia.
  assert (py_nth (cs1 ++ c :: r :: cs3) (blen cs1 + 1) = Ok r) as ->; [| done].
  rewrite (cons_middle c cs1), app_assoc. apply (py_nth_mid (cs1 ++ [c])). by rewrite blen_app.
Qed.
Lemma right_sibling_none cs1 c : right_sibling (cs1 ++ [c]) (blen cs1) = Ok None.
Proof using. unfold right_sibling. rewrite blen_app, blen_cons, blen_nil. by replace (_ <? _) with false by lia. Qed.
Lemma left_sibling_some cs0 l c cs2 : left_sibling ((cs0 ++ [l]) ++ c :: cs2) (blen (cs0 ++ [l])) = Ok (Some l).
Proof using.
  assert (blen (cs0 ++ [l]) = blen cs0 + 1) as E by (by rewrite blen_app). unfold left_sibling. rewrite E.
  pose proof (blen_nonneg cs0). replace (_ <? _) with true by lia.
  assert (py_nth ((cs0 ++ [l]) ++ c :: cs2) (blen cs0 + 1 - 1) = Ok l) as ->; [| done]. rewrite <- app_assoc. apply py_nth_mid. lia.
Qed.
Lemma left_sibling_none c cs2 : left_sibling (c :: cs2) (blen (@nil Z)) = Ok None.
Proof using. done. Qed.

Lemma fixed_keeps t s s1 s' h p lo hi M pg : keeps s s1 -> fixed t s1 s' h p lo hi M pg -> fixed t s s' h p lo hi M pg.
Proof using Type.
  intros Hk (V & Hb & Hrep). exists V. split; [by eapply keeps_then|]. by rewrite (view_becomes _ _ _ Hk) in Hrep.
Qed.

(** The order of attempts that both kinds of nodes share; [P1] and [P2] are what
    a refusal to borrow tells about the neighbour. *)
Lemma turns_if s (P1 P2 : Prop) (br bl : M S bool) (cmb : M S (list Z * list value)) (fin : list Z * list value -> M S unit) (D : S -> Prop) :
  (forall s1, keeps s s1 -> runs br s1 (fun b s' => if b : bool then D s' else keeps s s' /\ P1)) ->
  (forall s1, keeps s s1 -> runs bl s1 (fun b s' => if b : bool then D s' else keeps s s' /\ P2)) ->
  (forall s1, keeps s s1 -> P1 -> P2 -> runs cmb s1 (fun pr s2 => runs (fin pr) s2 (fun _ s' => D s'))) ->
  forall s1, keeps s s1 ->
  runs (d ← br; if d : bool then mret tt else d ← bl; if d : bool then mret tt else pr ← cmb; fin pr) s1 (fun _ s' => D s').
Proof using Type.
  intros Hbr Hbl Hc s1 Hk. rstep. eapply runs_mono; [by apply Hbr|]. intros [] s2 H2; [by rstep|]. destruct H2 as [H2 HP1].
  rstep. eapply runs_mono; [by apply Hbl|]. intros [] s3 H3; [by rstep|]. destruct H3 as [H3 HP2]. rstep. by apply Hc.
Qed.
Lemma turns_ok s (br bl : M S bool) (cmb : M S (list Z * list value)) (fin : list Z * list value -> M S unit) (D : S -> Prop) :
  (forall s1, keeps s s1 -> runs br s1 (fun b s' => if b : bool then D s' else keeps s s')) ->
  (forall s1, keeps s s1 -> runs bl s1 (fun b s' => if b : bool then D s' else keeps s s')) ->
  (forall s1, keeps s s1 -> runs cmb s1 (fun pr s2 => runs (fin pr) s2 (fun _ s' => D s'))) ->
  forall s1, keeps s s1 ->
  runs (d ← br; if d : bool then mret tt else d ← bl; if d : bool then mret tt else pr ← cmb; fin pr) s1 (fun _ s' => D s').
Proof using Type.
  intros Hbr Hbl Hc. apply (turns_if s True True); [| | by auto]; intros s1 Hk; (eapply runs_mono; [by apply Hbr || by apply Hbl|]); by intros [] s2.
Qed.

Section leaf_place.
Context (t : BPlusTree) (Hwf : tree_wf t) (Hmin : mins_ok t) (s : S) (p : Z) (lo hi lo' hi' : option value).
Context (cs1 cs2 pg1 pg2 : list Z) (ks1 ks2 : list value) (L R : list leaf) (c : Z) (lc : leaf) (stop : Z).
Context (HL : lside (subtree t (ps_view s) 0) lo cs1 ks1 lo' L pg1) (HR : rside (subtree t (ps_view s) 0) hi' cs2 ks2 hi R pg2).
Context (Hc : leaf_at t (ps_view s) c lo' hi' lc) (Hn : node_at t (ps_view s) p (cs1 ++ c :: cs2) (ks1 ++ ks2)).
Context (Hnd : NoDup (p :: pg1 ++ [c] ++ pg2)) (Hr : room s (p :: pg1 ++ [c] ++ pg2) 1).
Context (Hfew : few t (entries (L ++ [lc] ++ R))) (Hlk : linked (L ++ [lc] ++ R) stop) (Hsmall : blen (lf_keys lc) < min_leaf_keys t).

Local Notation done_ok := (fun s' => fixed t s s' 0 p lo hi (L ++ [lc] ++ R) (pg1 ++ [c] ++ pg2)).

(** Borrowing from a neighbour does the job or nothing; combining with it does it. *)
Lemma right_turn : cs2 = [] \/ exists r, right_sibling (cs1 ++ c :: cs2) (blen cs1) = Ok (Some r) /\ forall s1, keeps s s1 ->
  runs (borrow_leaf_right t p (cs1 ++ c :: cs2) (ks1 ++ ks2) (blen cs1) c (lf_keys lc) (lf_rids lc) (lf_next lc) (Some r)) s1
    (fun b s' => if b : bool then done_ok s' else keeps s s') /\
  runs (combine_leaf_right t (cs1 ++ c :: cs2) (ks1 ++ ks2) (blen cs1) c (lf_keys lc) (lf_rids lc) r) s1
    (fun pr s2 => runs (commit_internal t p (fst pr) (snd pr)) s2 (fun _ s' => done_ok s')).
Proof using All.
  destruct (right_neighbour _ _ _ _ _ _ _ HR) as [->|(r & k & cs3 & ks3 & hi3 & Mr & R3 & pr & pg3 & -> & -> & -> & -> & -> & (lr & -> & -> & Hlr) & HR3)]; [by left | right].
  exists r. split; [apply right_sibling_some|]. intros s1 Hk. pose proof (view_becomes _ _ _ Hk) as V1. rewrite <- V1 in HL, HR3, Hc, Hlr, Hn.
  destruct (lside_ok _ _ _ _ _ _ _ _ _ HL) as (_ & _ & Hlen). replace (blen cs1) with (blen ks1) by (unfold blen; lia).
  assert (lf_next lc = r) as Hnx.
  { rewrite app_assoc, linked_row in Hlk. destruct Hlk as [Hlk' _]. rewrite linked_row in Hlk'. destruct Hlk' as [_ [Hnx _]].
    rewrite Hnx. cbn. apply (la_id _ _ _ _ _ _ Hlr). }
  assert (few t (entries [lc; lr])) as Hf2.
  { change (L ++ [lc] ++ [lr] ++ R3) with (L ++ [lc; lr] ++ R3) in Hfew. rewrite !entries_app in Hfew. by eapply few_app. }
  assert (room s1 (p :: [c; r]) 1) as Hr1.
  { eapply room_sub; [by eapply room_keeps | | lia]. intros q. rewrite !elem_of_cons, !elem_of_app, !elem_of_cons. set_solver. }
  split.
  - eapply runs_mono; [apply (borrow_leaf_right_ok t Hwf Hmin s1 p lo hi lo' hi3 cs1 cs3 pg1 pg3 ks1 ks3 L R3 c r k lc lr); done|].
    intros [] s2; [by apply fixed_keeps | by apply keeps_trans].
  - eapply runs_mono; [apply (combine_leaf_right_ok t Hwf Hmin s1 p lo hi lo' hi3 cs1 cs3 pg1 pg3 ks1 ks3 L R3 c r k lc lr); try done; [by left | by apply keeps_refl, Hk]|].
    intros pr s2 Hrun. eapply runs_mono; [exact Hrun|]. intros [] s3. by apply fixed_keeps.
Qed.

Lemma left_turn : cs1 = [] \/ exists l, left_sibling (cs1 ++ c :: cs2) (blen cs1) = Ok (Some l) /\ forall s1, keeps s s1 ->
  runs (borrow_leaf_left t p (cs1 ++ c :: cs2) (ks1 ++ ks2) (blen cs1) c (lf_keys lc) (lf_rids lc) (lf_next lc) (Some l)) s1
    (fun b s' => if b : bool then done_ok s' else keeps s s') /\
  runs (combine_leaf_left t (cs1 ++ c :: cs2) (ks1 ++ ks2) (blen cs1) c (lf_keys lc) (lf_rids lc) (lf_next lc) (Some l)) s1
    (fun pr s2 => runs (commit_internal t p (fst pr) (snd pr)) s2 (fun _ s' => done_ok s')).
Proof using All.
  destruct (left_neighbour _ _ _ _ _ _ _ HL) as [->|(l & k & cs0 & ks0 & lo0 & Ml & L0 & pl & pg0 & -> & -> & -> & -> & -> & (ll & -> & -> & Hll) & HL0)]; [by left | right].
  exists l. split; [apply left_sibling_some|]. intros s1 Hk. pose proof (view_becomes _ _ _ Hk) as V1. rewrite <- V1 in HL0, HR, Hc, Hll, Hn.
  destruct (lside_ok _ _ _ _ _ _ _ _ _ HL0) as (_ & _ & Hlen). replace (blen (cs0 ++ [l])) with (blen ks0 + 1) by (rewrite blen_app; unfold blen; cbn [length]; lia).
  rewrite <- !app_assoc in Hnd, Hr, Hfew, Hlk |- *. rewrite <- (app_assoc cs0), <- (app_assoc ks0) in Hn. rewrite <- ?(app_assoc ks0), <- ?(app_assoc pg0), <- ?(app_assoc L0), <- ?(app_assoc cs0).
  assert (lf_next ll = c) as Hnx.
  { rewrite linked_row in Hlk. destruct Hlk as [_ [Hnx _]]. rewrite Hnx. cbn. apply (la_id _ _ _ _ _ _ Hc). }
  assert (few t (entries [ll; lc])) as Hf2.
  { change (L0 ++ [ll] ++ [lc] ++ R) with (L0 ++ [ll; lc] ++ R) in Hfew. rewrite !entries_app in Hfew. by eapply few_app. }
  assert (room s1 (p :: [l; c]) 1) as Hr1.
  { eapply room_sub; [by eapply room_keeps | | lia]. intros q. rewrite !elem_of_cons, !elem_of_app, !elem_of_cons. set_solver. }
  split.
  - eapply runs_mono; [apply (borrow_leaf_left_ok t Hwf Hmin s1 p lo hi lo0 hi' cs0 cs2 pg0 pg2 ks0 ks2 L0 R l c k ll lc); done|].
    intros [] s2; [by apply fixed_keeps | by apply keeps_trans].
  - eapply runs_mono; [apply (combine_leaf_left_ok t Hwf Hmin s1 p lo hi lo0 hi' cs0 cs2 pg0 pg2 ks0 ks2 L0 R l c k ll lc); try done; [by right | by apply keeps_refl, Hk]|].
    intros pr s2 Hrun. eapply runs_mono; [exact Hrun|]. intros [] s3. by apply fixed_keeps.
Qed.

Lemma fixup_leaf_ok : runs (fixup_leaf t p (cs1 ++ c :: cs2) (ks1 ++ ks2) (blen cs1)) s (fun _ s' => done_ok s').
Proof using All.
  destruct (la_page _ _ _ _ _ _ Hc) as (d & Hd & Hpage). unfold fixup_leaf. rstep. eapply runs_lift_result; [by apply py_nth_mid|].
  rstep. eapply (run_load_leaf t s (p :: pg1 ++ [c] ++ pg2) c d); [done | set_solver | done | exact Hpage |]. intros s1 Hk. cbv iota beta.
  pose proof (lside_ok _ _ _ _ _ _ _ _ _ HL) as (_ & _ & Hl1). pose proof (rside_ok _ _ _ _ _ _ _ _ _ HR) as (_ & _ & Hl2).
  assert (forall s0, keeps s s0 -> runs (mret false) s0 (fun (b : bool) s' => if b then done_ok s' else keeps s s')) as Hno by (intros s0 H0; by rstep).
  rstep. destruct right_turn as [Ec|(r & Er & Hright)].
  - destruct left_turn as [Ec'|(l & El & Hleft)].
    { exfalso. apply (na_keys _ _ _ _ _ Hn). rewrite Ec in Hl2. rewrite Ec' in Hl1. by destruct ks1, ks2. }
    rewrite Ec in El, Hleft |- *. eapply runs_lift_result; [apply right_sibling_none|]. rstep. eapply runs_lift_result; [exact El|].
    apply turns_ok with s; [exact Hno | intros s2 H2; apply (Hleft s2 H2) | intros s2 H2; apply (Hleft s2 H2) | done].
  - eapply runs_lift_result; [exact Er|]. rstep. destruct left_turn as [Ec'|(l & El & Hleft)].
    + rewrite Ec' in Hright |- *. eapply runs_lift_result; [apply left_sibling_none|].
      apply turns_ok with s; [intros s2 H2; apply (Hright s2 H2) | exact Hno | intros s2 H2; apply (Hright s2 H2) | done].
    + eapply runs_lift_result; [exact El|].
      apply turns_ok with s; [intros s2 H2; apply (Hright s2 H2) | intros s2 H2; apply (Hleft s2 H2) | intros s2 H2; apply (Hright s2 H2) | done].
Qed.
End leaf_place.

(** ** Internal nodes *)

Section node_fix.
Context (t : BPlusTree) (Hwf : tree_wf t) (Hmin : mins_ok t) (s : S) (h : nat) (p : Z) (lo hi lo' hi' : option value).
Context (cs1 cs2 pg1 pg2 : list Z) (ks1 ks2 : list value) (L R : list leaf) (a b : Z) (k : value).
Context (ca cb : list Z) (ka kb : list value) (Ma Mb : list leaf) (Xa Xb : list Z).
Context (HL : lside (subtree t (ps_view s) (Datatypes.S h)) lo cs1 ks1 lo' L pg1) (HR : rside (subtree t (ps_view s) (Datatypes.S h)) hi' cs2 ks2 hi R pg2).
Context (Ta : thin_at t (ps_view s) a ca ka) (Fa : forest (subtree t (ps_view s) h) lo' ca ka (Some k) Ma Xa).
Context (Tb : thin_at t (ps_view s) b cb kb) (Fb : forest (subtree t (ps_view s) h) (Some k) cb kb hi' Mb Xb).
Context (Hn : node_at t (ps_view s) p (cs1 ++ [a; b] ++ cs2) (ks1 ++ [k] ++ ks2)).
Context (Hnd : NoDup (p :: pg1 ++ ((a :: Xa) ++ (b :: Xb)) ++ pg2)) (Hr : room s (p :: (a :: Xa) ++ (b :: Xb)) 1).

Local Notation done_ok := (fun s' => fixed t s s' (Datatypes.S h) p lo hi (L ++ (Ma ++ Mb) ++ R) (pg1 ++ ((a :: Xa) ++ (b :: Xb)) ++ pg2)).

Lemma nodes_distinct : a <> b /\ a ∉ Xa ++ Xb /\ b ∉ Xa ++ Xb.
Proof using Hnd.
  apply NoDup_cons in Hnd as [_ Hn1]. apply NoDup_app in Hn1 as (_ & _ & Hn1). apply NoDup_app in Hn1 as (Hab & _ & _).
  assert ((a :: Xa) ++ b :: Xb ≡ₚ a :: b :: Xa ++ Xb) as Hp by (cbn [app]; by rewrite <- Permutation_middle).
  rewrite Hp in Hab. apply NoDup_cons in Hab as [H1 Hab]. apply NoDup_cons in Hab as [H2 _]. apply not_elem_of_cons in H1 as [? ?]. done.
Qed.

(** A place to cut the two nodes. *)
Record nodes_cut (lc rc : list Z) (lk : list value) (up : value) (rk : list value) : Prop := {
  nc_cs : ca ++ cb = lc ++ rc;
  nc_ks : ka ++ k :: kb = lk ++ up :: rk;
  nc_len : length lc = Datatypes.S (length lk);
  nc_left : lk <> [];
  nc_right : rk <> [];
  nc_lmax : blen lk <= max_internal_keys t;
  nc_rmax : blen rk <= max_internal_keys t }.

Lemma row_ok : Forall (fun c => 0 <= c < 2 ^ 32) (ca ++ cb) /\ Forall (key_ok t) (ka ++ k :: kb) /\ length (ca ++ cb) = Datatypes.S (length (ka ++ k :: kb)).
Proof using Fa Fb. apply (forest_page_ok t (ps_view s) h lo' _ _ hi' (Ma ++ Mb) (Xa ++ Xb)). by apply forest_app. Qed.
Lemma nodes_cut_storable lc rc lk up rk : nodes_cut lc rc lk up rk -> storable_node t lc lk /\ storable_node t rc rk.
Proof using Fa Fb.
  intros [Ec Ek Hl _ _ Ml Mr]. destruct row_ok as (Hc & Hk & Hlen). rewrite Ec, Ek, !length_app in Hlen. cbn [length] in Hlen.
  rewrite Ec in Hc. rewrite Ek in Hk. apply Forall_app in Hc as [Hc1 Hc2]. apply Forall_app in Hk as [Hk1 [_ Hk2]%Forall_cons].
  split; split_and!; (done || lia).
Qed.

Lemma commit_nodes_cut s2 V2 lc rc lk up rk da db : nodes_cut lc rc lk up rk -> becomes s s2 V2 -> V2 !! a = Some da -> V2 !! b = Some db ->
  (forall q, q ∉ [a; b] -> V2 !! q = ps_view s !! q) -> internal_page t da lc lk -> internal_page t db rc rk ->
  runs (commit_internal t p (cs1 ++ [a; b] ++ cs2) (ks1 ++ [up] ++ ks2)) s2 (fun _ s' => done_ok s').
Proof using Hwf Hmin HL HR Ta Tb Fa Fb Hn Hnd Hr.
  intros [Ec Ek Hl Nl Nr Ml Mr] Hbec Hda Hdb Hfr Hpa Hpb. destruct (na_page _ _ _ _ _ Hn) as (d0 & Hd0 & _). destruct nodes_distinct as (Hab & Hia & Hib).
  destruct (node_recut t (ps_view s) V2 h a b lo' hi' k ca cb ka kb Ma Mb Xa Xb Fa Fb (ta_pid _ _ _ _ _ Ta)) with lc rc lk up rk da db as (pg' & Hf & Hsub); try done; [| apply Tb |].
  { intros q Hq. apply Hfr. rewrite !not_elem_of_cons. split_and!; [by intros -> | by intros -> | apply not_elem_of_nil]. }
  eapply (commit_pair t Hwf s (Datatypes.S h) p lo hi lo' hi' cs1 cs2 pg1 pg2 ks1 ks2 L R HL HR (Ma ++ Mb) ((a :: Xa) ++ (b :: Xb))); try done; [apply Hn | |].
  - intros q Hq. apply Hfr. set_solver.
  - pose proof (na_max _ _ _ _ _ Hn) as Hm. rewrite !blen_app in *. done.
Qed.

Lemma commit_nodes_merged s2 V2 da : blen (ka ++ k :: kb) <= max_internal_keys t -> becomes s s2 V2 -> V2 !! a = Some da ->
  (forall q, q ∉ [a; b] -> V2 !! q = ps_view s !! q) -> internal_page t da (ca ++ cb) (ka ++ k :: kb) ->
  runs (commit_internal t p (cs1 ++ [a] ++ cs2) (ks1 ++ ks2)) s2 (fun _ s' => done_ok s').
Proof using Hwf Hmin HL HR Ta Tb Fa Fb Hn Hnd Hr.
  intros Hmax Hbec Hda Hfr Hpa. destruct (na_page _ _ _ _ _ Hn) as (d0 & Hd0 & _). destruct nodes_distinct as (Hab & Hia & Hib).
  destruct (node_merge t (ps_view s) V2 h a b lo' hi' k ca cb ka kb Ma Mb Xa Xb Fa Fb (ta_pid _ _ _ _ _ Ta)) with da as (pg' & Hf & Hsub); try done.
  { intros q Hq. apply Hfr. rewrite !not_elem_of_cons. split_and!; [by intros -> | by intros -> | apply not_elem_of_nil]. }
  change ks2 with ([] ++ ks2).
  eapply (commit_pair t Hwf s (Datatypes.S h) p lo hi lo' hi' cs1 cs2 pg1 pg2 ks1 ks2 L R HL HR (Ma ++ Mb) ((a :: Xa) ++ (b :: Xb))); try done; [apply Hn | |].
  - intros q Hq. apply Hfr. set_solver.
  - pose proof (na_max _ _ _ _ _ Hn) as Hm. rewrite !blen_app in *. pose proof (blen_nonneg [k]). rewrite blen_nil. lia.
Qed.

Lemma rotate_right_ok : blen ka < min_internal_keys t ->
  runs (rotate_right t p (cs1 ++ [a; b] ++ cs2) (ks1 ++ [k] ++ ks2) (blen ks1) a ca ka (Some b)) s
    (fun r s' => if r : bool then done_ok s' else keeps s s' /\ blen kb <= min_internal_keys t).
Proof using All.
  intros Hsmall. destruct (ta_page _ _ _ _ _ Tb) as (db & Hdb & Hpb). destruct (ta_page _ _ _ _ _ Ta) as (da & Hda & _). destruct nodes_distinct as (Hab & _).
  pose proof (mo_internal t Hmin) as M1. pose proof (mo_internal_max t Hmin) as M2.
  cbn [rotate_right]. eapply (fetch_edit (p :: (a :: Xa) ++ (b :: Xb)) b db); [done | set_solver | done |]. intros hd s1 Hg Hun Hwr. rstep.
  eapply run_read_internal; [exact Hg | exact Hpb |]. cbv iota beta. destruct (Z.ltb_spec (min_internal_keys t) (blen kb)) as [Hspare|Hno].
  2: { rstep. eapply runs_mono; [exact Hun|]. intros [] s2 Hk. by rstep. }
  destruct (forest_page_ok _ _ _ _ _ _ _ _ _ Fb) as (_ & _ & Hlb). destruct (forest_page_ok _ _ _ _ _ _ _ _ _ Fa) as (_ & _ & Hla).
  assert (exists up rk c0 rc, kb = up :: rk /\ cb = c0 :: rc) as (up & rk & c0 & rc & Ekb & Ecb).
  { clear -Hspare Hlb M1. destruct kb as [|up rk]; [rewrite blen_nil in Hspare; lia|]. destruct cb as [|c0 rc]; [discriminate Hlb|]. by exists up, rk, c0, rc. }
  assert (blen rk = blen kb - 1) as Hrk by (rewrite Ekb, blen_cons; lia).
  assert (nodes_cut (ca ++ [c0]) rc (ka ++ [k]) up rk) as Hcut.
  { pose proof (ta_max _ _ _ _ _ Tb) as Hmb. split; rewrite ?length_app, ?blen_app, ?blen_cons, ?blen_nil; try lia.
    - by rewrite Ecb, <- app_assoc.
    - by rewrite Ekb, <- app_assoc.
    - cbn. lia.
    - by destruct ka.
    - intros ->. rewrite blen_nil in Hrk. lia. }
  destruct (nodes_cut_storable _ _ _ _ _ Hcut) as (Sa & Sb). pose proof Sb as (Lb & Xb' & Kb & Cb).
  destruct (write_internal_ok t db rc rk Hwf (ip_size _ _ _ _ Hpb) Lb Xb' Kb Cb) as (db' & Hw & Hpb').
  rstep. eapply runs_lift_result; [by apply py_nth_mid|]. cbv zeta. rewrite Ecb, Ekb. rstep. eapply runs_lift_result; [done|]. rstep. eapply runs_lift_result; [done|]. cbn [fst snd].
  rstep. eapply runs_mono; [apply (Hwr _ _ Hw), Hpb'|]. intros [] s2 Hun2. rstep. eapply runs_mono; [exact Hun2|]. intros [] s3 B3.
  rstep. eapply (run_commit_internal t Hwf s3 (p :: (a :: Xa) ++ (b :: Xb)) a da); [by eapply room_becomes | set_solver | rewrite (view_becomes _ _ _ B3); by rewrite lookup_insert_ne by congruence | exact Sa |].
  intros s4 da' Hpa' B4. rewrite (view_becomes _ _ _ B3) in B4. rstep. eapply runs_lift_result; [by apply py_set_mid|]. rstep.
  eapply runs_mono; [eapply (commit_nodes_cut s4 _ _ _ _ _ _ da' db' Hcut); [by eapply becomes_trans | apply lookup_insert_eq | by rewrite lookup_insert_ne, lookup_insert_eq | | done | done]|].
  - intros q [Hqa [Hqb _]%not_elem_of_cons]%not_elem_of_cons. by rewrite !lookup_insert_ne by congruence.
  - intros [] s5 Hf. by rstep.
Qed.

Lemma py_pop_snoc {A} (l : list A) x : py_pop (l ++ [x]) = Ok (x, l).
Proof using.
  unfold py_pop. rewrite py_nth_last. cbn [mbind result_bind]. do 2 f_equal. rewrite length_app. cbn [length].
  replace (length l + 1 - 1)%nat with (length l) by lia. apply take_app_length.
Qed.

Lemma rotate_left_ok : blen kb < min_internal_keys t ->
  runs (rotate_left t p (cs1 ++ [a; b] ++ cs2) (ks1 ++ [k] ++ ks2) (blen ks1 + 1) b cb kb (Some a)) s
    (fun r s' => if r : bool then done_ok s' else keeps s s' /\ blen ka <= min_internal_keys t).
Proof using All.
  intros Hsmall. destruct (ta_page _ _ _ _ _ Tb) as (db & Hdb & _). destruct (ta_page _ _ _ _ _ Ta) as (da & Hda & Hpa). destruct nodes_distinct as (Hab & _).
  pose proof (mo_internal t Hmin) as M1. pose proof (mo_internal_max t Hmin) as M2.
  cbn [rotate_left]. eapply (fetch_edit (p :: (a :: Xa) ++ (b :: Xb)) a da); [done | set_solver | done |]. intros hd s1 Hg Hun Hwr. rstep.
  eapply run_read_internal; [exact Hg | exact Hpa |]. cbv iota beta. destruct (Z.ltb_spec (min_internal_keys t) (blen ka)) as [Hspare|Hno].
  2: { rstep. eapply runs_mono; [exact Hun|]. intros [] s2 Hk. by rstep. }
  destruct (forest_page_ok _ _ _ _ _ _ _ _ _ Fb) as (_ & _ & Hlb). destruct (forest_page_ok _ _ _ _ _ _ _ _ _ Fa) as (_ & _ & Hla).
  assert (exists lk up lc c0, ka = lk ++ [up] /\ ca = lc ++ [c0]) as (lk & up & lc & c0 & Eka & Eca).
  { clear -Hspare Hla M1. destruct ka as [|up lk _] using rev_ind; [rewrite blen_nil in Hspare; lia|]. destruct ca as [|c0 lc _] using rev_ind; [discriminate Hla|].
    by exists lk, up, lc, c0. }
  assert (blen lk = blen ka - 1) as Hrk by (rewrite Eka, blen_app, blen_cons, blen_nil; lia).
  assert (nodes_cut lc (c0 :: cb) lk up (k :: kb)) as Hcut.
  { pose proof (ta_max _ _ _ _ _ Ta) as Hma. rewrite Eca, Eka, !length_app in Hla. cbn [length] in Hla. split; rewrite ?blen_cons; try (done || lia).
    - by rewrite Eca, <- app_assoc.
    - by rewrite Eka, <- app_assoc.
    - intros ->. rewrite blen_nil in Hrk. lia. }
  destruct (nodes_cut_storable _ _ _ _ _ Hcut) as (Sa & Sb). pose proof Sa as (La & Xa' & Ka & Ca).
  destruct (write_internal_ok t da lc lk Hwf (ip_size _ _ _ _ Hpa) La Xa' Ka Ca) as (da' & Hw & Hpa').
  replace (blen ks1 + 1 - 1) with (blen ks1) by lia.
  rstep. eapply runs_lift_result; [by apply py_nth_mid|]. cbv zeta. rewrite Eca, Eka. rstep. eapply runs_lift_result; [apply py_pop_snoc|].
  rstep. eapply runs_lift_result; [apply py_pop_snoc|]. cbn [fst snd].
  rstep. eapply runs_mono; [apply (Hwr _ _ Hw), Hpa'|]. intros [] s2 Hun2. rstep. eapply runs_mono; [exact Hun2|]. intros [] s3 B3.
  rstep. eapply (run_commit_internal t Hwf s3 (p :: (a :: Xa) ++ (b :: Xb)) b db); [by eapply room_becomes | set_solver | rewrite (view_becomes _ _ _ B3); by rewrite lookup_insert_ne by congruence | exact Sb |].
  intros s4 db' Hpb' B4. rewrite (view_becomes _ _ _ B3) in B4. rstep. eapply runs_lift_result; [by apply py_set_mid|]. rstep.
  eapply runs_mono; [eapply (commit_nodes_cut s4 _ _ _ _ _ _ da' db' Hcut); [by eapply becomes_trans | by rewrite lookup_insert_ne, lookup_insert_eq by congruence | apply lookup_insert_eq | | done | done]|].
  - intros q [Hqa [Hqb _]%not_elem_of_cons]%not_elem_of_cons. by rewrite !lookup_insert_ne by congruence.
  - intros [] s5 Hf. by rstep.
Qed.

(** Everything goes to the left node. *)
Lemma run_store_nodes {A} s1 (rest : M S A) (Q : A -> S -> Prop) : blen ka + 1 + blen kb <= max_internal_keys t -> keeps s s1 ->
  (forall s2, runs (commit_internal t p (cs1 ++ [a] ++ cs2) (ks1 ++ ks2)) s2 (fun _ s' => done_ok s') -> runs rest s2 Q) ->
  runs (commit_internal t a (ca ++ cb) (ka ++ [k] ++ kb);; rest) s1 Q.
Proof using Hwf Hmin HL HR Ta Tb Fa Fb Hn Hnd Hr.
  intros Hfit Hk Hrest. destruct (ta_page _ _ _ _ _ Ta) as (da & Hda & _). pose proof Hk as (_ & V1 & _). destruct row_ok as (Hc & Hks & Hlen).
  assert (blen (ka ++ k :: kb) <= max_internal_keys t) as Hmax by (rewrite blen_app, blen_cons; lia).
  rstep. eapply (run_commit_internal t Hwf s1 (p :: (a :: Xa) ++ (b :: Xb)) a da); [by eapply room_keeps | set_solver | by rewrite V1 | by split_and! |].
  intros s2 da' Hpa' B2. rewrite V1 in B2. apply Hrest.
  eapply (commit_nodes_merged s2 _ da' Hmax); [eapply keeps_then; [exact Hk | exact B2] | apply lookup_insert_eq | | done].
  intros q [Hqa _]%not_elem_of_cons. by rewrite lookup_insert_ne by congruence.
Qed.

Local Notation commits r s1 := (runs r s1 (fun pr s2 => runs (commit_internal t p (fst pr) (snd pr)) s2 (fun _ s' => done_ok s'))).

Lemma merge_internal_right_ok s1 : keeps s s1 -> blen ka + 1 + blen kb <= max_internal_keys t ->
  commits (merge_internal_right t (cs1 ++ [a; b] ++ cs2) (ks1 ++ [k] ++ ks2) (blen ks1) a ca ka b) s1.
Proof using All.
  intros Hk Hfit. destruct (ta_page _ _ _ _ _ Tb) as (db & Hdb & Hpb). destruct (parent_without _ _ _ _ _ _ _ _ _ cs2 ks2 a b k HL) as [Ec Ek]. pose proof Hk as (_ & V1 & _).
  unfold merge_internal_right. rstep. eapply (run_load_internal t s1 (p :: (a :: Xa) ++ (b :: Xb)) b db); [by eapply room_keeps | set_solver | by rewrite V1 | exact Hpb |].
  intros s2 Hk2. cbv iota beta zeta. rstep. eapply runs_lift_result; [by apply py_nth_mid|].
  apply run_store_nodes; [done | by eapply keeps_trans |]. intros s3 Hc. rstep. eapply runs_lift_result; [exact Ec|]. rstep. eapply runs_lift_result; [exact Ek|]. by rstep.
Qed.
Lemma merge_internal_left_ok s1 : keeps s s1 -> blen ka + 1 + blen kb <= max_internal_keys t ->
  commits (merge_internal_left t (cs1 ++ [a; b] ++ cs2) (ks1 ++ [k] ++ ks2) (blen ks1 + 1) cb kb (Some a)) s1.
Proof using All.
  intros Hk Hfit. destruct (ta_page _ _ _ _ _ Ta) as (da & Hda & Hpa). destruct (parent_without _ _ _ _ _ _ _ _ _ cs2 ks2 a b k HL) as [Ec Ek]. pose proof Hk as (_ & V1 & _).
  unfold merge_internal_left. rstep. eapply (run_load_internal t s1 (p :: (a :: Xa) ++ (b :: Xb)) a da); [by eapply room_keeps | set_solver | by rewrite V1 | exact Hpa |].
  intros s2 Hk2. cbv iota beta zeta. replace (blen ks1 + 1 - 1) with (blen ks1) by lia. rstep. eapply runs_lift_result; [by apply py_nth_mid|].
  apply run_store_nodes; [done | by eapply keeps_trans |]. intros s3 Hc. rstep. eapply runs_lift_result; [exact Ec|]. rstep. eapply runs_lift_result; [exact Ek|]. by rstep.
Qed.
End node_fix.

Section node_place.
Context (t : BPlusTree) (Hwf : tree_wf t) (Hmin : mins_ok t) (s : S) (h : nat) (p : Z) (lo hi lo' hi' : option value).
Context (cs1 cs2 pg1 pg2 : list Z) (ks1 ks2 : list value) (L R : list leaf) (c : Z) (cc : list Z) (kc : list value) (Mc : list leaf) (Xc : list Z).
Context (HL : lside (subtree t (ps_view s) (Datatypes.S h)) lo cs1 ks1 lo' L pg1) (HR : rside (subtree t (ps_view s) (Datatypes.S h)) hi' cs2 ks2 hi R pg2).
Context (Tc : thin_at t (ps_view s) c cc kc) (Fc : forest (subtree t (ps_view s) h) lo' cc kc hi' Mc Xc).
Context (Hn : node_at t (ps_view s) p (cs1 ++ c :: cs2) (ks1 ++ ks2)).
Context (Hnd : NoDup (p :: pg1 ++ (c :: Xc) ++ pg2)) (Hr : room s (p :: pg1 ++ (c :: Xc) ++ pg2) 1) (Hsmall : blen kc < min_internal_keys t).

Local Notation done_ok := (fun s' => fixed t s s' (Datatypes.S h) p lo hi (L ++ Mc ++ R) (pg1 ++ (c :: Xc) ++ pg2)).

Lemma node_thin q cs ks : node_at t (ps_view s) q cs ks -> thin_at t (ps_view s) q cs ks.
Proof using. by intros []. Qed.

Lemma right_rotation : cs2 = [] \/ exists r (kb : list value), right_sibling (cs1 ++ c :: cs2) (blen cs1) = Ok (Some r) /\ forall s1, keeps s s1 ->
  runs (rotate_right t p (cs1 ++ c :: cs2) (ks1 ++ ks2) (blen cs1) c cc kc (Some r)) s1
    (fun b s' => if b : bool then done_ok s' else keeps s s' /\ blen kb <= min_internal_keys t) /\
  (blen kb <= min_internal_keys t -> runs (merge_internal_right t (cs1 ++ c :: cs2) (ks1 ++ ks2) (blen cs1) c cc kc r) s1
    (fun pr s2 => runs (commit_internal t p (fst pr) (snd pr)) s2 (fun _ s' => done_ok s'))).
Proof using All.
  destruct (right_neighbour _ _ _ _ _ _ _ HR) as [->|(r & k & cs3 & ks3 & hi3 & Mr & R3 & pr & pg3 & -> & -> & Ehi & -> & -> & (cb & kb & Xb & -> & Tb%node_thin & Fb) & HR3)]; [by left | right].
  exists r, kb. split; [apply right_sibling_some|]. intros s1 Hk. pose proof (view_becomes _ _ _ Hk) as V1.
  pose proof (mo_internal_max t Hmin) as M2. rewrite Ehi in Fc. rewrite <- V1 in HL, HR3, Tc, Fc, Tb, Fb, Hn.
  destruct (lside_ok _ _ _ _ _ _ _ _ _ HL) as (_ & _ & Hlen). replace (blen cs1) with (blen ks1) by (unfold blen; lia).
  assert (pg1 ++ (c :: Xc) ++ (r :: Xb) ++ pg3 = pg1 ++ ((c :: Xc) ++ (r :: Xb)) ++ pg3) as Epg by (by rewrite <- (app_assoc (c :: Xc))).
  rewrite Epg in Hnd, Hr. rewrite (app_assoc Mc Mr R3), Epg.
  assert (room s1 (p :: (c :: Xc) ++ (r :: Xb)) 1) as Hr1.
  { eapply room_sub; [by eapply room_keeps | | lia]. intros q. rewrite !elem_of_cons, !elem_of_app. tauto. }
  split.
  - eapply runs_mono; [by eapply (rotate_right_ok t Hwf Hmin s1 h p lo hi lo' hi3 cs1 cs3 pg1 pg3 ks1 ks3 L R3 c r k cc cb kc kb Mc Mr Xc Xb)|].
    intros [] s2; [by apply fixed_keeps |]. intros [H2 Hb2]. split; [by eapply keeps_trans | done].
  - intros Hfull. eapply runs_mono; [eapply (merge_internal_right_ok t Hwf Hmin s1 h p lo hi lo' hi3 cs1 cs3 pg1 pg3 ks1 ks3 L R3 c r k cc cb kc kb Mc Mr Xc Xb); try done; [by apply keeps_refl, Hk | lia]|].
    intros pr s2 Hrun. eapply runs_mono; [exact Hrun|]. intros [] s3. by apply fixed_keeps.
Qed.

Lemma left_rotation : cs1 = [] \/ exists l (ka : list value), left_sibling (cs1 ++ c :: cs2) (blen cs1) = Ok (Some l) /\ forall s1, keeps s s1 ->
  runs (rotate_left t p (cs1 ++ c :: cs2) (ks1 ++ ks2) (blen cs1) c cc kc (Some l)) s1
    (fun b s' => if b : bool then done_ok s' else keeps s s' /\ blen ka <= min_internal_keys t) /\
  (blen ka <= min_internal_keys t -> runs (merge_internal_left t (cs1 ++ c :: cs2) (ks1 ++ ks2) (blen cs1) cc kc (Some l)) s1
    (fun pr s2 => runs (commit_internal t p (fst pr) (snd pr)) s2 (fun _ s' => done_ok s'))).
Proof using All.
  destruct (left_neighbour _ _ _ _ _ _ _ HL) as [->|(l & k & cs0 & ks0 & lo0 & Ml & L0 & pl & pg0 & -> & -> & Elo & -> & -> & (ca & ka & Xa & -> & Ta%node_thin & Fa) & HL0)]; [by left | right].
  exists l, ka. split; [apply left_sibling_some|]. intros s1 Hk. pose proof (view_becomes _ _ _ Hk) as V1.
  pose proof (mo_internal_max t Hmin) as M2. rewrite Elo in Fc. rewrite <- V1 in HL0, HR, Tc, Fc, Ta, Fa, Hn.
  destruct (lside_ok _ _ _ _ _ _ _ _ _ HL0) as (_ & _ & Hlen). replace (blen (cs0 ++ [l])) with (blen ks0 + 1) by (rewrite blen_app; unfold blen; cbn [length]; lia).
  assert ((pg0 ++ (l :: Xa)) ++ (c :: Xc) ++ pg2 = pg0 ++ ((l :: Xa) ++ (c :: Xc)) ++ pg2) as Epg by (by rewrite <- !(app_assoc pg0), <- (app_assoc (l :: Xa))).
  assert ((L0 ++ Ml) ++ Mc ++ R = L0 ++ (Ml ++ Mc) ++ R) as EL by (by rewrite <- !(app_assoc L0), <- (app_assoc Ml)).
  rewrite Epg in Hnd, Hr. rewrite Epg, EL. rewrite <- (app_assoc cs0), <- (app_assoc ks0) in Hn. rewrite <- ?(app_assoc ks0), <- ?(app_assoc cs0).
  assert (room s1 (p :: (l :: Xa) ++ (c :: Xc)) 1) as Hr1.
  { eapply room_sub; [by eapply room_keeps | | lia]. intros q. rewrite !elem_of_cons, !elem_of_app. tauto. }
  split.
  - eapply runs_mono; [by eapply (rotate_left_ok t Hwf Hmin s1 h p lo hi lo0 hi' cs0 cs2 pg0 pg2 ks0 ks2 L0 R l c k ca cc ka kc Ml Mc Xa Xc)|].
    intros [] s2; [by apply fixed_keeps |]. intros [H2 Hb2]. split; [by eapply keeps_trans | done].
  - intros Hfull. eapply runs_mono; [eapply (merge_internal_left_ok t Hwf Hmin s1 h p lo hi lo0 hi' cs0 cs2 pg0 pg2 ks0 ks2 L0 R l c k ca cc ka kc Ml Mc Xa Xc); try done; [by apply keeps_refl, Hk | lia]|].
    intros pr s2 Hrun. eapply runs_mono; [exact Hrun|]. intros [] s3. by apply fixed_keeps.
Qed.

Lemma fixup_internal_ok : runs (fixup_internal t p (cs1 ++ c :: cs2) (ks1 ++ ks2) (blen cs1)) s (fun _ s' => done_ok s').
Proof using All.
  destruct (ta_page _ _ _ _ _ Tc) as (d & Hd & Hpage). unfold fixup_internal. rstep. eapply runs_lift_result; [by apply py_nth_mid|].
  rstep. eapply (run_load_internal t s (p :: pg1 ++ (c :: Xc) ++ pg2) c d); [done | set_solver | done | exact Hpage |]. intros s1 Hk. cbv iota beta.
  pose proof (lside_ok _ _ _ _ _ _ _ _ _ HL) as (_ & _ & Hl1). pose proof (rside_ok _ _ _ _ _ _ _ _ _ HR) as (_ & _ & Hl2).
  assert (forall s0, keeps s s0 -> runs (mret false) s0 (fun (b : bool) s' => if b then done_ok s' else keeps s s' /\ True)) as Hno by (intros s0 H0; by rstep).
  rstep. destruct right_rotation as [Ec|(r & kb & Er & Hright)].
  - destruct left_rotation as [Ec'|(l & ka & El & Hleft)].
    { exfalso. apply (na_keys _ _ _ _ _ Hn). rewrite Ec in Hl2. rewrite Ec' in Hl1. by destruct ks1, ks2. }
    rewrite Ec in El, Hleft |- *. eapply runs_lift_result; [apply right_sibling_none|]. rstep. eapply runs_lift_result; [exact El|].
    eapply turns_if with s _ _; [exact Hno | intros s2 H2; apply (Hleft s2 H2) | intros s2 H2 _; apply (Hleft s2 H2) | done].
  - eapply runs_lift_result; [exact Er|]. rstep. destruct left_rotation as [Ec'|(l & ka & El & Hleft)].
    + rewrite Ec' in Hright |- *. eapply runs_lift_result; [apply left_sibling_none|].
      eapply turns_if with s _ _; [intros s2 H2; apply (Hright s2 H2) | exact Hno | intros s2 H2 HP _; by apply (Hright s2 H2) | done].
    + eapply runs_lift_result; [exact El|].
      eapply turns_if with s _ _; [intros s2 H2; apply (Hright s2 H2) | intros s2 H2; apply (Hleft s2 H2) | intros s2 H2 HP _; by apply (Hright s2 H2) | done].
Qed.
End node_place.
End fixup.
