(* ===== verification/BTreeDelete.v ===== *)
(** Deleting from a B+-tree, for any page store: the climb from the leaf to the
    root, and what [delete] leaves; an index under any sequence of insertions
    and deletions. *)
From stdpp Require Import base numbers list gmap strings.
From Stdlib Require Import ZArith Lia Strings.Byte Strings.Ascii Sorting.Sorted.
From S2P Require Import Prelude PyNum Types PyVal Disk PageStore BufferPool HeapPage BTree BTreeNode BTreeRep BTreeSearch BTreeInsert BTreeRepair BTreeFixup.

Local Open Scope Z_scope.

Section delete.
Context {S H : Type} {store : PageStore S H} {spec : PageStoreCore S H}.

(** * Climbing *)

(** The tree after a deletion: it holds the leaves [ls'] on some of its pages,
    nothing stays pinned, and no other page changed. *)
Record shrunk (s : S) (t : BPlusTree) (ls' : list leaf) (pg : list Z) (st : S * BPlusTree) : Prop := {
  sh_root : snd st = set_root (root_page_id (snd st)) t;
  sh_tree : exists pg', tree_rep (snd st) (ps_view (fst st)) ls' pg' /\ pg' ⊆+ pg;
  sh_store : becomes s (fst st) (ps_view (fst st));
  sh_frame : forall q, q ∉ pg -> ps_view (fst st) !! q = ps_view s !! q }.

Lemma shrunk_after s s1 V t ls pg pg1 st : becomes s s1 V -> (forall q, q ∉ pg -> V !! q = ps_view s !! q) -> pg1 ⊆+ pg ->
  shrunk s1 t ls pg1 st -> shrunk s t ls pg st.
Proof using Type.
  intros Hb HV Hsub [Hr (pg' & Ht & Hp) Hs Hf]. split; [done | exists pg'; split; [done | by etrans] | by eapply becomes_trans |].
  intros q Hq. rewrite Hf, (view_becomes _ _ _ Hb); [by apply HV|]. intros Hq1. apply Hq. by eapply elem_of_submseteq.
Qed.

(** A complete subtree in its place: done. *)
Lemma level_done t s s1 h anc c lo hi L R pg M pgm : tree_wf t -> keeps s s1 -> ctx t (ps_view s) (root_page_id t) h anc c lo hi L R pg ->
  subtree t (ps_view s) h c lo hi M pgm -> NoDup (pgm ++ pg) -> linked (L ++ M ++ R) INVALID_PAGE_ID ->
  shrunk s t (L ++ M ++ R) (pgm ++ pg) (s1, t).
Proof using Type.
  intros Hwf Hk Hc Hs Hnd Hlk. pose proof (view_becomes _ _ _ Hk) as V1. destruct (ctx_plug _ _ _ _ _ _ _ _ _ _ _ _ _ Hc Hs) as (h' & pg' & Ht & Hp).
  split; cbn [fst snd]; [by rewrite set_root_self | | by rewrite V1 | by intros; rewrite V1].
  exists pg'. split; [| by rewrite Hp]. rewrite V1. split; [done | by exists h' | by rewrite Hp | done].
Qed.

(** The root: an internal node without keys gives way to its child. *)
Lemma maybe_shrink_root_ok t s h M pgm : tree_wf t -> loose t (ps_view s) h (root_page_id t) None None M pgm -> NoDup pgm ->
  linked M INVALID_PAGE_ID -> room s pgm 1 -> runs maybe_shrink_root (s, t) (fun _ st => shrunk s t M pgm st).
Proof using Type.
  intros Hwf Hl Hnd Hlk Hr. unfold maybe_shrink_root. rstep. rstep. cbn [snd].
  assert (forall s1, keeps s s1 -> subtree t (ps_view s) h (root_page_id t) None None M pgm -> shrunk s t M pgm (s1, t)) as Hsame.
  { intros s1 Hk Hs. pose proof (level_done t s s1 h [] (root_page_id t) None None [] [] [] M pgm Hwf Hk (ctx_root _ _ _ _) Hs) as Hdone.
    cbn [app] in Hdone. rewrite !app_nil_r in Hdone. auto. }
  destruct (sf_head _ _ _ _ _ _ (loose_facts _ _ _ _ _ _ _ _ Hl)) as [pgt Epg].
  assert (root_page_id t ∈ pgm) as Hin by (rewrite Epg; left).
  destruct h as [|h].
  - destruct Hl as (l & EM & EP & Hl). destruct (la_page _ _ _ _ _ _ Hl) as (d & Hd & Hpage).
    rstep. rstep. eapply runs_mono; [by eapply fetch_opens|]. intros hd s1 (Hg & Hun & _). rstep. rstep. eapply run_node_type; [exact Hg | apply Hpage|]. cbv iota.
    rstep. eapply runs_mono; [exact Hun|]. intros [] s2 Hk. apply Hsame; [done|]. by exists l.
  - destruct Hl as (cs & ks & pg' & EP & [(d & Hd & Hpage) Hpid Hmax] & Hf).
    rstep. rstep. eapply runs_mono; [by eapply fetch_opens|]. intros hd s1 (Hg & Hun & _). rstep. rstep. eapply run_node_type; [exact Hg | apply Hpage|]. cbv iota.
    rstep. rstep. eapply run_read_internal; [exact Hg | exact Hpage|]. rstep. rstep. eapply runs_mono; [exact Hun|]. intros [] s2 Hk. cbn [fst snd].
    pose proof (view_becomes _ _ _ Hk) as V2. destruct (Z.eqb_spec (blen ks) 0) as [E|Hne].
    + assert (ks = []) as -> by (destruct ks; [done | rewrite blen_cons in E; pose proof (blen_nonneg ks); lia]).
      inversion Hf as [? c ? ? ? Hc|]; subst. rstep. eapply runs_lift_result; [done|]. rstep. cbn [fst snd].
      apply NoDup_cons in Hnd as [_ Hnd].
      split; cbn [fst snd]; [done | | by rewrite V2 | by intros; rewrite V2].
      exists pg'. split; [| by apply submseteq_cons]. rewrite V2. split; [by apply (tree_wf_format t) | | done | done].
      exists h. by apply (subtree_format t).
    + rstep. apply Hsame; [done|]. exists cs, ks, pg'. split_and!; [done | | done]. split; eauto. intros ->. by rewrite blen_nil in Hne.
Qed.

Lemma level_fixed t s s' h anc p lo hi L R pg L' M R' pg1 pgm pg2 : ctx t (ps_view s) (root_page_id t) (Datatypes.S h) anc p lo hi L R pg ->
  fixed t s s' h p lo hi (L' ++ M ++ R') (pg1 ++ pgm ++ pg2) -> NoDup (p :: (pg1 ++ pgm ++ pg2) ++ pg) ->
  linked (L ++ (L' ++ M ++ R') ++ R) INVALID_PAGE_ID -> room s (p :: (pg1 ++ pgm ++ pg2) ++ pg) 1 ->
  exists M2 pg', ctx t (ps_view s') (root_page_id t) (Datatypes.S h) anc p lo hi L R pg /\ loose t (ps_view s') (Datatypes.S h) p lo hi M2 (p :: pg') /\
    NoDup ((p :: pg') ++ pg) /\ linked (L ++ M2 ++ R) INVALID_PAGE_ID /\ room s' ((p :: pg') ++ pg) 1 /\ entries (L ++ M2 ++ R) = entries (L ++ (L' ++ M ++ R') ++ R) /\
    forall ls st, shrunk s' t ls ((p :: pg') ++ pg) st -> shrunk s t ls (p :: (pg1 ++ pgm ++ pg2) ++ pg) st.
Proof using Type.
  intros Hc (V & Hb & M2 & pg' & Hl & Hsub & He & Hrl & Hfr) Hnd Hlk Hr. pose proof (view_becomes _ _ _ Hb) as V1. rewrite <- V1 in Hl.
  set (Y := pg1 ++ pgm ++ pg2) in *. assert ((p :: pg') ++ pg ⊆+ p :: Y ++ pg) as Hsub2 by (cbn [app]; apply submseteq_skip; by apply submseteq_app).
  exists M2, pg'. split_and!; try done.
  - eapply ctx_frame; [| exact Hc]. intros q Hq. rewrite V1. apply Hfr. change (p :: Y ++ pg) with ((p :: Y) ++ pg) in Hnd.
    apply NoDup_app in Hnd as (_ & Hd & _). intros Hy. by apply (Hd q).
  - destruct (submseteq_Permutation _ _ Hsub2) as [rest Hp]. rewrite Hp in Hnd. by apply NoDup_app in Hnd as (? & _).
  - apply (relinked_mid L _ _ R) in Hrl. by apply Hrl.
  - eapply room_sub; [by eapply room_becomes | | lia]. intros q Hq. by eapply elem_of_submseteq.
  - by rewrite !entries_app, He, !entries_app.
  - intros ls st Hst. eapply shrunk_after; [exact Hb | | exact Hsub2 | exact Hst].
    intros q Hq. apply Hfr. rewrite elem_of_cons, elem_of_app in Hq. rewrite elem_of_cons. tauto.
Qed.

(** One level: the node [c] below [p], with what is around them. *)
Section level.
Context (t : BPlusTree) (Hwf : tree_wf t) (Hmin : mins_ok t) (s : S) (h : nat) (anc : list Z) (p c : Z) (lo hi lo0 hi0 : option value).
Context (L0 R0 L' M R' : list leaf) (pg0 pg1 pg2 pgm cs1 cs2 : list Z) (ks1 ks2 : list value).
Context (Hc0 : ctx t (ps_view s) (root_page_id t) (Datatypes.S h) anc p lo0 hi0 L0 R0 pg0).
Context (Hn : node_at t (ps_view s) p (cs1 ++ c :: cs2) (ks1 ++ ks2)).
Context (HL : lside (subtree t (ps_view s) h) lo0 cs1 ks1 lo L' pg1) (HR : rside (subtree t (ps_view s) h) hi cs2 ks2 hi0 R' pg2).
Context (Hl : loose t (ps_view s) h c lo hi M pgm) (Hnd : NoDup (p :: (pg1 ++ pgm ++ pg2) ++ pg0)).
Context (Hlk : linked (L0 ++ (L' ++ M ++ R') ++ R0) INVALID_PAGE_ID) (Hr : room s (p :: (pg1 ++ pgm ++ pg2) ++ pg0) 1).
Context (Hfew : few t (entries (L0 ++ (L' ++ M ++ R') ++ R0))).
Context (Hnext : forall s' M2 pg', ctx t (ps_view s') (root_page_id t) (Datatypes.S h) anc p lo0 hi0 L0 R0 pg0 ->
  loose t (ps_view s') (Datatypes.S h) p lo0 hi0 M2 (p :: pg') -> NoDup ((p :: pg') ++ pg0) -> linked (L0 ++ M2 ++ R0) INVALID_PAGE_ID ->
  room s' ((p :: pg') ++ pg0) 1 -> few t (entries (L0 ++ M2 ++ R0)) ->
  runs (fixup_after_delete (p :: anc)) (s', t) (fun _ st => exists ls', shrunk s' t ls' ((p :: pg') ++ pg0) st /\ entries ls' = entries (L0 ++ M2 ++ R0))).

Local Notation done_ok := (fun (_ : unit) st => exists ls', shrunk s t ls' (p :: (pg1 ++ pgm ++ pg2) ++ pg0) st /\ entries ls' = entries (L0 ++ (L' ++ M ++ R') ++ R0)).
Local Notation fixup b := (if b : bool then fixup_leaf t p (cs1 ++ c :: cs2) (ks1 ++ ks2) (blen cs1) else fixup_internal t p (cs1 ++ c :: cs2) (ks1 ++ ks2) (blen cs1)).

Lemma level_nodup : NoDup (p :: pg1 ++ pgm ++ pg2).
Proof using Hnd. change (NoDup ((p :: pg1 ++ pgm ++ pg2) ++ pg0)) in Hnd. by apply NoDup_app in Hnd as (? & _). Qed.
Lemma level_room : room s (p :: pg1 ++ pgm ++ pg2) 1.
Proof using Hr. eapply room_sub; [exact Hr | | done]. intros q. rewrite !elem_of_cons, !elem_of_app. tauto. Qed.
Lemma level_page : c ∈ p :: pg1 ++ pgm ++ pg2.
Proof using Hl.
  destruct (sf_head _ _ _ _ _ _ (loose_facts _ _ _ _ _ _ _ _ Hl)) as [pgt E].
  right. apply elem_of_app. right. apply elem_of_app. left. rewrite E. left.
Qed.

(** Either the subtree is complete, or one call repairs it and the parent is next. *)
Lemma level_step (b : bool) (cnt mn : Z) s1 : keeps s s1 -> (mn <= cnt -> subtree t (ps_view s) h c lo hi M pgm) ->
  (cnt < mn -> forall s2, keeps s s2 -> runs (fixup b) s2 (fun _ s' => fixed t s s' h p lo0 hi0 (L' ++ M ++ R') (pg1 ++ pgm ++ pg2))) ->
  runs (if mn <=? cnt then mret tt else
    parent_data ← lift_fst (ps_fetch p); pr ← lift_fst (read_page_internal t parent_data); idx ← lift_result (py_index (fst pr) c);
    lift_fst (ps_unpin p false);; lift_fst (if b then fixup_leaf t p (fst pr) (snd pr) idx else fixup_internal t p (fst pr) (snd pr) idx);;
    fixup_after_delete (p :: anc)) (s1, t) done_ok.
Proof using All.
  intros Hk1 Hfull Hfix. pose proof (view_becomes _ _ _ Hk1) as V1. pose proof level_nodup as Hnd2. destruct (na_page _ _ _ _ _ Hn) as (dp & Hdp & Hpagep).
  destruct (Z.leb_spec mn cnt) as [Hle|Hlt].
  - rstep. eexists. split; [| reflexivity].
    apply (level_done t s s1 (Datatypes.S h) anc p lo0 hi0 L0 R0 pg0 (L' ++ M ++ R') (p :: pg1 ++ pgm ++ pg2)); try done. cbn [subtree].
    exists (cs1 ++ c :: cs2), (ks1 ++ ks2), (pg1 ++ pgm ++ pg2). split_and!; [done | done |].
    change (c :: cs2) with ([c] ++ cs2). change ks2 with ([] ++ ks2). eapply forest_join; [exact HL | constructor; by apply Hfull | exact HR].
  - rstep. rstep. eapply runs_mono; [eapply (fetch_opens s1 (p :: pg1 ++ pgm ++ pg2) p dp); [eapply room_keeps; [exact level_room | done] | left | by rewrite V1]|].
    intros hd s2 (Hg & Hun & _). rstep. rstep. eapply run_read_internal; [exact Hg | exact Hpagep|]. cbn [fst snd]. rstep.
    eapply runs_lift_result.
    { unfold py_index. apply py_index_from_app. intros Hcc%(lside_children _ _ _ _ _ _ _ _ _ _ HL).
      apply NoDup_cons in Hnd2 as [_ Hn2]. apply NoDup_app in Hn2 as (_ & Hd & _). apply (Hd c Hcc). apply elem_of_app. left.
      destruct (sf_head _ _ _ _ _ _ (loose_facts _ _ _ _ _ _ _ _ Hl)) as [pgt E]. rewrite E. left. }
    rstep. rstep. eapply runs_mono; [exact Hun|]. intros [] s3 Hk3. rewrite Z.add_0_l. rstep. rstep.
    eapply runs_mono; [apply (Hfix Hlt); by eapply keeps_trans|]. intros [] s4 Hfixed.
    destruct (level_fixed t s s4 h anc p lo0 hi0 L0 R0 pg0 L' M R' pg1 pgm pg2 Hc0 Hfixed Hnd Hlk Hr)
      as (M2 & pg' & Hc4 & Hl4 & Hnd4 & Hlk4 & Hr4 & He4 & Hback).
    eapply runs_mono; [eapply (Hnext s4 M2 pg'); try done; by rewrite He4|].
    intros [] st (ls' & Hst & He). exists ls'. split; [by apply Hback | by rewrite He, He4].
Qed.

Lemma level_ok : runs (fixup_after_delete (c :: p :: anc)) (s, t) done_ok.
Proof using All.
  cbn [fixup_after_delete]. rstep. rstep. cbn [snd]. pose proof level_room as Hr2. pose proof level_page as Hin. pose proof level_nodup as Hnd2.
  pose proof Hl as Hl'. pose proof HL as HL'. pose proof HR as HR'. destruct (Nat.eq_0_gt_0_cases h) as [Eh|Eh].
  - rewrite Eh in Hl', HL', HR'. destruct Hl' as (l & EM & EP & Hlf). destruct (la_page _ _ _ _ _ _ Hlf) as (d & Hd & Hpage).
    rstep. rstep. eapply runs_mono; [eapply fetch_opens; [exact Hr2 | exact Hin | exact Hd]|]. intros hd s1 (Hg & Hun & _). rstep. rstep. eapply run_node_type; [exact Hg | apply Hpage|].
    rewrite bool_decide_true by done. cbv zeta. rstep. cbv iota. rstep. rstep. eapply run_read_leaf; [exact Hg | exact Hpage|]. rstep. cbn [fst snd].
    rstep. rstep. eapply runs_mono; [exact Hun|]. intros [] s2 Hk. apply (level_step true); [done | intros _; rewrite Eh; by exists l |].
    intros Hsmall s3 Hk3. pose proof (view_becomes _ _ _ Hk3) as V3. rewrite Eh. rewrite EM, EP in *.
    eapply runs_mono; [eapply (fixup_leaf_ok t Hwf Hmin s3 p lo0 hi0 lo hi cs1 cs2 pg1 pg2 ks1 ks2 L' R' c l); rewrite ?V3; try done; [by eapply room_keeps | |]|].
    + rewrite !entries_app in Hfew. rewrite !entries_app. by eapply few_app.
    + rewrite linked_row in Hlk. destruct Hlk as [_ Hlk2]. rewrite linked_row in Hlk2. apply Hlk2.
    + intros [] s4. by apply fixed_keeps.
  - destruct (Nat.lt_exists_pred 0 h Eh) as (h' & E & _). rewrite E in Hl', HL', HR'. destruct Hl' as (cc & kc & Xc & EP & Hthin & Hf). destruct (ta_page _ _ _ _ _ Hthin) as (d & Hd & Hpage).
    rstep. rstep. eapply runs_mono; [eapply fetch_opens; [exact Hr2 | exact Hin | exact Hd]|]. intros hd s1 (Hg & Hun & _). rstep. rstep. eapply run_node_type; [exact Hg | apply Hpage|].
    rewrite bool_decide_false by done. cbv zeta. rstep. cbv iota. rstep. rstep. eapply run_read_internal; [exact Hg | exact Hpage|]. rstep. cbn [fst snd].
    rstep. rstep. eapply runs_mono; [exact Hun|]. intros [] s2 Hk. apply (level_step false); [done | |].
    + intros Hle. rewrite E. exists cc, kc, Xc. split_and!; [done | | done]. destruct Hthin. split; try done. intros ->.
      rewrite blen_nil in Hle. pose proof (mo_internal t Hmin). lia.
    + intros Hsmall s3 Hk3. pose proof (view_becomes _ _ _ Hk3) as V3. rewrite E, EP in *.
      eapply runs_mono; [eapply (fixup_internal_ok t Hwf Hmin s3 h' p lo0 hi0 lo hi cs1 cs2 pg1 pg2 ks1 ks2 L' R' c cc kc M Xc); rewrite ?V3; try done; by eapply room_keeps|].
      intros [] s4. by apply fixed_keeps.
Qed.
End level.

Lemma fixup_after_delete_ok t : tree_wf t -> mins_ok t -> forall anc s h c lo hi L R pg M pgm,
  ctx t (ps_view s) (root_page_id t) h anc c lo hi L R pg -> loose t (ps_view s) h c lo hi M pgm -> NoDup (pgm ++ pg) ->
  linked (L ++ M ++ R) INVALID_PAGE_ID -> room s (pgm ++ pg) 1 -> few t (entries (L ++ M ++ R)) ->
  runs (fixup_after_delete (c :: anc)) (s, t) (fun _ st => exists ls', shrunk s t ls' (pgm ++ pg) st /\ entries ls' = entries (L ++ M ++ R)).
Proof using Type.
  intros Hwf Hmin. induction anc as [|p anc IH]; intros s h c lo hi L R pg M pgm Hc Hl Hnd Hlk Hr Hfew.
  { inversion Hc; subst. cbn [app] in *. rewrite !app_nil_r in *. cbn [fixup_after_delete]. rstep. rstep. cbn [snd].
    eapply runs_mono; [by eapply maybe_shrink_root_ok|]. intros [] st Hst. by exists M. }
  inversion Hc as [|? ? ? lo0 hi0 L0 R0 pg0 cs1 ? cs2 ks1 ks2 ? ? L' R' pg1 pg2 Hc0 Hn Hlen HL HR]; subst.
  assert (pgm ++ p :: pg1 ++ pg2 ++ pg0 ≡ₚ p :: (pg1 ++ pgm ++ pg2) ++ pg0) as Hperm by solve_Permutation.
  assert ((L0 ++ L') ++ M ++ R' ++ R0 = L0 ++ (L' ++ M ++ R') ++ R0) as EL by (by rewrite <- !app_assoc).
  rewrite Hperm in Hnd. rewrite EL in Hlk, Hfew |- *.
  eapply runs_mono; [eapply (level_ok t Hwf Hmin s h anc p c lo hi lo0 hi0 L0 R0 L' M R' pg0 pg1 pg2 pgm cs1 cs2 ks1 ks2); try done|].
  - eapply room_sub; [exact Hr | intros q; by rewrite Hperm | lia].
  - intros s' M2 pg'. by apply IH.
  - intros [] st (ls' & Hst & He). exists ls'. split; [| done].
    eapply shrunk_after; [apply keeps_becomes, keeps_refl, Hr | done | | exact Hst]. by rewrite Hperm.
Qed.

(** * Deleting one entry *)

(** The leaf without its [i]-th entry. *)
Definition without {A} (i : nat) (l : list A) : list A := take i l ++ drop (Datatypes.S i) l.
Definition leaf_without (l : leaf) (i : nat) : leaf := mkLeaf (lf_page l) (without i (lf_keys l)) (without i (lf_rids l)) (lf_next l).

Lemma without_forall {A} (P : A -> Prop) i l : Forall P l -> Forall P (without i l).
Proof using. intros Hl. apply Forall_app. split; [by apply Forall_take | by apply Forall_drop]. Qed.
Lemma without_length {A} i (l : list A) : (i < length l)%nat -> length (without i l) = (length l - 1)%nat.
Proof using. intros Hi. unfold without. rewrite length_app, length_take, length_drop. lia. Qed.
Lemma without_sorted i ks : ksorted ks -> ksorted (without i ks).
Proof using.
  intros Hs. unfold without. destruct (le_lt_dec (length ks) i) as [Hge|Hlt]; [rewrite take_ge, drop_ge, app_nil_r by lia; done|].
  destruct (lookup_lt_is_Some_2 ks i Hlt) as [x Hx]. rewrite <- (take_drop_middle ks i x Hx) in Hs.
  apply ksorted_app in Hs as (H1 & H2 & H3). apply ksorted_app. split_and!; [done | by inversion H2 |]. intros a b Ha Hb. apply H3; [done | by right].
Qed.
Lemma py_del_without {A} i (l : list A) : (i < length l)%nat -> py_del l (Z.of_nat i) = Ok (without i l).
Proof using. intros Hi. unfold py_del, blen. replace (_ <? _) with true by lia. by rewrite Nat2Z.id. Qed.

Lemma leaf_without_ok t l i : leaf_ok t l -> (i < length (lf_keys l))%nat -> leaf_ok t (leaf_without l i).
Proof using.
  intros [Hl Hm Hk Hr Hs Hn] Hi. split; cbn [leaf_without lf_keys lf_rids lf_next]; try done.
  - rewrite !without_length by lia. lia.
  - unfold blen in *. rewrite without_length by lia. lia.
  - by apply without_forall.
  - by apply without_forall.
  - by apply without_sorted.
Qed.
Lemma leaf_without_zip l i e : length (lf_keys l) = length (lf_rids l) -> zip (lf_keys l) (lf_rids l) !! i = Some e ->
  zip (lf_keys (leaf_without l i)) (lf_rids (leaf_without l i)) = take i (zip (lf_keys l) (lf_rids l)) ++ drop (Datatypes.S i) (zip (lf_keys l) (lf_rids l)).
Proof using.
  intros Hl He. cbn [leaf_without lf_keys lf_rids]. unfold without. rewrite zip_with_app by (rewrite !length_take; lia).
  by rewrite <- zip_with_take, <- zip_with_drop.
Qed.

(** What a deletion does to the entries of the whole tree. *)
Lemma entries_without t v r anc l lo hi L R pg key rid i : at_leaf t v r anc l lo hi L R pg -> above lo key ->
  zip (lf_keys l) (lf_rids l) !! i = Some (key, rid) -> (key, rid) ∉ take i (zip (lf_keys l) (lf_rids l)) ->
  (key, rid) ∈ entries (L ++ [l] ++ R) /\ entries (L ++ [leaf_without l i] ++ R) = entries_remove (key, rid) (entries (L ++ [l] ++ R)).
Proof using.
  intros [Hc Hl] Ha Hi Hno. pose proof (lo_len _ _ (la_ok _ _ _ _ _ _ Hl)) as Hlen. apply ctx_outside in Hc as (_ & _ & HL & _).
  assert ((key, rid) ∉ entries L) as HnL.
  { intros Hin. pose proof (entries_keys _ L HL) as Hall. rewrite Forall_forall in Hall. destruct (Hall _ Hin) as (u & -> & Hu). by apply klt_not_kle in Hu. }
  set (z := zip (lf_keys l) (lf_rids l)) in *. rewrite !entries_app. cbn [entries mbind list_bind]. rewrite !app_nil_r, (leaf_without_zip l i _ Hlen Hi). fold z.
  assert ((key, rid) ∈ z) as Hz by (by eapply list_elem_of_lookup_2). split; [rewrite !elem_of_app; auto|].
  symmetry. apply entries_remove_inside; [done | done |]. rewrite <- (take_drop_middle z i _ Hi) at 1. by apply entries_remove_head.
Qed.
Lemma entries_absent t v r anc l lo hi L R pg key rid : at_leaf t v r anc l lo hi L R pg -> above lo key -> below hi key ->
  (key, rid) ∉ zip (lf_keys l) (lf_rids l) -> (key, rid) ∉ entries (L ++ [l] ++ R).
Proof using.
  intros [Hc Hl] Ha Hb Hno Hin. apply ctx_outside in Hc as (_ & _ & HL & HR & _). rewrite !entries_app, !elem_of_app in Hin.
  destruct Hin as [Hin|[Hin|Hin]].
  - pose proof (entries_keys _ L HL) as Hall. rewrite Forall_forall in Hall. destruct (Hall _ Hin) as (u & -> & Hu). by apply klt_not_kle in Hu.
  - cbn in Hin. by rewrite app_nil_r in Hin.
  - pose proof (entries_keys _ R HR) as Hall. rewrite Forall_forall in Hall. destruct (Hall _ Hin) as (u & -> & Hu). by apply klt_not_kle in Hb.
Qed.
Lemma few_remove t e es : few t es -> few t (entries_remove e es).
Proof using.
  intros Hf k. specialize (Hf k). assert (entry_count k (entries_remove e es) <= entry_count k es); [| lia]. clear Hf. unfold entry_count.
  induction es as [|x es IH]; [done|]. cbn [entries_remove]. rewrite (filter_cons _ x es). destruct (decide (x = e)).
  - case_decide; rewrite ?blen_cons; lia.
  - rewrite filter_cons. case_decide; rewrite ?blen_cons; lia.
Qed.

Lemma bt_delete_runs t key rid s ls pg : tree_rep t (ps_view s) ls pg -> mins_ok t -> room s pg 1 -> key_ok t key -> few t (entries ls) ->
  runs (bt_delete key rid) (s, t) (fun b st => b = bool_decide ((key, rid) ∈ entries ls) /\
    exists ls', shrunk s t ls' pg st /\ entries ls' = entries_remove (key, rid) (entries ls)).
Proof using Type.
  intros Ht Hmin Hr Hkey Hfew. pose proof Ht as [Hwf _ Hnd Hlk]. unfold bt_delete. rstep. rstep. cbn [snd].
  rstep. rstep. eapply runs_mono; [by eapply find_leaf_path_ok; [.. | apply key_ok_probe]|].
  intros path s1 (Hk1 & anc & l & lo & hi & L & R & pg' & -> & Hat & Ha & Hb & -> & Hp).
  rstep. eapply runs_lift_result; [rewrite reverse_cons; apply py_nth_last|]. pose proof (view_becomes _ _ _ Hk1) as V1. pose proof Hat as [Hc Hl].
  destruct (la_page _ _ _ _ _ _ Hl) as (d & Hd & Hpage). pose proof (la_ok _ _ _ _ _ _ Hl) as Hok. pose proof Hok as [Hlen Hmax Hks Hrs Hso Hnx].
  assert (lf_page l ∈ pg) as Hin by (rewrite <- Hp; left).
  rstep. rstep. eapply runs_mono; [eapply (fetch_opens s1 pg (lf_page l) d); [by eapply room_keeps | done | by rewrite V1]|]. intros hd s2 (Hg & Hun & Hwr).
  rstep. rstep. eapply run_read_leaf; [exact Hg | exact Hpage |]. cbv iota beta.
  assert (kinds key (lf_keys l)) as Hkk by (by eapply key_ok_kinds).
  rstep. eapply runs_lift_result; [by apply bisect_left_ok|]. rstep. eapply runs_lift_result; [by apply bisect_right_ok|]. rstep.
  destruct (find_entry key rid (lf_keys l) (lf_rids l) Hso Hlen) as [[E Hno]|(i & E & Hi & Hz & Hno)]; (eapply runs_lift_result; [exact E|]); cbv iota.
  - pose proof (entries_absent _ _ _ _ _ _ _ _ _ _ _ _ Hat Ha Hb Hno) as Habs. rstep. rstep. eapply runs_mono; [exact Hun|]. intros [] s3 Hk3. rstep.
    split; [by rewrite bool_decide_false|]. eexists. split; [| by rewrite entries_remove_none].
    rewrite <- Hp in Hnd. eapply (shrunk_after s s3 (ps_view s)); [exact (keeps_trans _ _ _ Hk1 Hk3) | done | by rewrite <- Hp |].
    pose proof (keeps_trans _ _ _ Hk1 Hk3) as Hk. rewrite <- (view_becomes _ _ _ Hk) in Hc, Hl.
    eapply (level_done t s3 s3 0 anc (lf_page l) lo hi L R pg' [l] [lf_page l]); try done; [apply keeps_refl, Hk | by exists l].
  - destruct (entries_without _ _ _ _ _ _ _ _ _ _ _ _ _ Hat Ha Hz Hno) as [Hpres Hrem]. pose proof (leaf_without_ok t l i Hok Hi) as Hok'.
    rstep. eapply runs_lift_result; [by apply py_del_without|]. rstep. eapply runs_lift_result; [apply py_del_without; lia|].
    pose proof Hok' as [Hlen' Hmax' Hks' Hrs' _ _].
    destruct (write_leaf_ok t d _ _ (lf_next l) Hwf (lp_size _ _ _ _ _ Hpage) Hlen' Hmax' Hks' Hrs' Hnx) as (d' & Hw & Hpage').
    rstep. rstep. eapply runs_mono; [apply (Hwr _ _ Hw), Hpage'|]. intros [] s3 Hun3. rstep. rstep. eapply runs_mono; [exact Hun3|]. intros [] s4 B4.
    rewrite V1 in B4. pose proof (keeps_then _ _ _ _ Hk1 B4) as B4'. pose proof (view_becomes _ _ _ B4) as V4.
    rewrite reverse_involutive. rewrite <- Hp in Hnd. pose proof Hnd as [Hni _]%NoDup_cons. rstep.
    eapply runs_mono; [eapply (fixup_after_delete_ok t Hwf Hmin anc s4 0 (lf_page l) lo hi L R pg' [leaf_without l i] [lf_page l])|].
    + eapply ctx_frame; [| exact Hc]. intros q Hq. rewrite V4. apply lookup_insert_ne. by intros <-.
    + eexists. split_and!; [done | done |]. destruct Hl as [_ _ Hpid Hbo _ Hal Hbe]. split; try done; cbn [leaf_without lf_keys lf_rids lf_next].
      * exists d'. rewrite V4. split; [apply lookup_insert_eq | exact Hpage'].
      * by apply without_forall.
      * by apply without_forall.
    + done.
    + cbn [app] in *. apply linked_app in Hlk as [H1 H2]. apply linked_app. done.
    + eapply room_sub; [by eapply room_becomes | | lia]. intros q Hq. by rewrite <- Hp.
    + rewrite Hrem. by apply few_remove.
    + intros [] st (ls' & Hst & He). rstep. split; [by rewrite bool_decide_true|]. exists ls'. split; [| by rewrite He].
      eapply (shrunk_after s s4); [exact B4' | | by rewrite <- Hp | exact Hst].
      intros q Hq. apply lookup_insert_ne. by intros <-.
Qed.

(** C15: deleting a key and row id from an index answers whether it was there and
    takes out that entry, the first one if it is there twice, and no other;
    after borrowing from neighbours, merging and redistributing up to a lower
    root the tree is well-formed again (sorted, balanced, separated, leaves
    linked), no page stays pinned and no page outside the tree changes. No key
    may fill more than a quarter of a leaf; with more, the code can fail. *)
Theorem delete_ok t key rid s ls pg : tree_rep t (ps_view s) ls pg -> mins_ok t -> room s pg 1 -> key_ok t key -> few t (entries ls) ->
  exists st ls', bt_delete key rid (s, t) = (Ok (bool_decide ((key, rid) ∈ entries ls)), st) /\ shrunk s t ls' pg st /\
    entries ls' = entries_remove (key, rid) (entries ls).
Proof using Type.
  intros Ht Hmin Hr Hkey Hfew. destruct (bt_delete_runs t key rid s ls pg Ht Hmin Hr Hkey Hfew) as (b & st & E & -> & ls' & Hs & He).
  by exists st, ls'.
Qed.

(** * An index in use *)

Inductive index_op : Type := IInsert (key : value) (rid : RID) | IDelete (key : value) (rid : RID).

(** A call on the tree: what it returns or raises, and what it leaves. *)
Definition index_call (op : index_op) (st : S * BPlusTree) : result bool * (S * BPlusTree) :=
  match op with
  | IInsert key rid => match bt_insert key rid st with (Ok _, st') => (Ok true, st') | (Raise e, st') => (Raise e, st') end
  | IDelete key rid => bt_delete key rid st
  end.
Fixpoint index_calls (ops : list index_op) (st : S * BPlusTree) : list (result bool) * (S * BPlusTree) :=
  match ops with
  | [] => ([], st)
  | op :: ops' => let '(r, st1) := index_call op st in let '(rs, st2) := index_calls ops' st1 in (r :: rs, st2)
  end.

(** The same on a list of entries. *)
Definition index_spec (t : BPlusTree) (op : index_op) (es : list (value * RID)) : result bool * list (value * RID) :=
  match op with
  | IInsert key rid =>
      if bt_unique t && negb (entry_count key es =? 0) then (Raise DuplicateKeyError, es) else (Ok true, entries_insert key rid es)
  | IDelete key rid => (Ok (bool_decide ((key, rid) ∈ es)), entries_remove (key, rid) es)
  end.
Fixpoint index_specs (t : BPlusTree) (ops : list index_op) (es : list (value * RID)) : list (result bool) * list (value * RID) :=
  match ops with
  | [] => ([], es)
  | op :: ops' => let '(r, es1) := index_spec t op es in let '(rs, es2) := index_specs t ops' es1 in (r :: rs, es2)
  end.

(** What the calls may be given: keys that fit, and not too many equal ones. *)
Definition op_ok (t : BPlusTree) (op : index_op) (es : list (value * RID)) : Prop :=
  match op with
  | IInsert key rid => key_ok t key /\ rid_ok rid /\ entry_count key es < max_leaf_keys t
  | IDelete key rid => key_ok t key /\ few t es
  end.
Fixpoint ops_ok (t : BPlusTree) (ops : list index_op) (es : list (value * RID)) : Prop :=
  match ops with [] => True | op :: ops' => op_ok t op es /\ ops_ok t ops' (snd (index_spec t op es)) end.

(** The tree [t] in an idle store holds the entries [es]. *)
Definition index_holds (s : S) (t : BPlusTree) (es : list (value * RID)) : Prop :=
  idle s /\ exists ls pg, tree_rep t (ps_view s) ls pg /\ entries ls = es.

Lemma filter_count key (es : list (value * RID)) : filter (fun e => e.1 = key) es = [] <-> entry_count key es = 0.
Proof using. unfold entry_count, blen. destruct (filter _ es); [done|]. cbn [length]. split; [done | lia]. Qed.

Lemma index_call_ok s t op es : index_holds s t es -> mins_ok t -> op_ok t op es -> ps_count s + GROWTH <= INVALID_PAGE_ID ->
  exists s' r, index_call op (s, t) = (fst (index_spec t op es), (s', set_root r t)) /\
    index_holds s' (set_root r t) (snd (index_spec t op es)) /\ ps_count s' <= ps_count s + GROWTH.
Proof using Type.
  intros [Hs (ls & pg & Ht & <-)] Hmin Hop Hcount. pose proof (idle_room s pg 2 Hs ltac:(lia)) as Hr2. pose proof (idle_room s pg 1 Hs ltac:(lia)) as Hr1.
  destruct op as [key rid|key rid]; cbn [index_call index_spec op_ok] in *.
  - destruct Hop as (Hk & Hrid & Hd). destruct (bt_unique t && negb (entry_count key (entries ls) =? 0)) eqn:Edup.
    + apply andb_prop in Edup as [Hu Hx%negb_true_iff%Z.eqb_neq].
      destruct (insert_duplicate_refused t key rid s ls pg Ht Hr1 Hk Hu) as (s' & E & Hkeep); [by rewrite filter_count|].
      exists s', (root_page_id t). rewrite E, set_root_self. split_and!; [done | | destruct Hkeep as (_ & _ & _ & _ & ->); unfold GROWTH; lia].
      split; [by eapply idle_keeps|]. exists ls, pg. by rewrite (view_becomes _ _ _ Hkeep).
    + destruct (bt_insert_runs t key rid s ls pg Ht Hr2 Hcount Hk Hrid) as ([] & [s' t'] & E & Hn & ls' & [Hroot (pg' & Ht' & _) I P C _ _] & He); [| exact Hd |].
      { intros Hu. rewrite Hu in Edup. apply filter_count. by apply Z.eqb_eq, negb_false_iff. }
      cbn [fst snd] in *. exists s', (root_page_id t'). rewrite E, <- Hroot. split_and!; [done | | done].
      split; [split; [done | rewrite P; apply Hs | rewrite C; apply Hs]|]. by exists ls', pg'.
  - destruct Hop as (Hk & Hfew). destruct (bt_delete_runs t key rid s ls pg Ht Hmin Hr1 Hk Hfew) as (b & [s' t'] & E & -> & ls' & [Hroot (pg' & Ht' & _) (I & _ & P & C & N) _] & He).
    cbn [fst snd] in *. exists s', (root_page_id t'). rewrite E, <- Hroot. split_and!; [done | | unfold GROWTH; lia].
    split; [split; [done | rewrite P; apply Hs | rewrite C; apply Hs]|]. by exists ls', pg'.
Qed.

Lemma index_specs_root r t ops : forall es, index_specs (set_root r t) ops es = index_specs t ops es.
Proof using.
  induction ops as [|op ops IH]; intros es; [done|]. cbn [index_specs].
  change (index_spec (set_root r t) op es) with (index_spec t op es). destruct (index_spec t op es) as [x es1]. by rewrite IH.
Qed.
Lemma ops_ok_root r t ops : forall es, ops_ok t ops es -> ops_ok (set_root r t) ops es.
Proof using. induction ops as [|op ops IH]; intros es; [done|]. intros [Hop Hops]. split; [exact Hop | by apply IH]. Qed.

Lemma index_calls_ok ops : forall s t es, index_holds s t es -> mins_ok t -> ops_ok t ops es -> ps_count s + GROWTH * blen ops <= INVALID_PAGE_ID ->
  exists s' r, index_calls ops (s, t) = (fst (index_specs t ops es), (s', set_root r t)) /\ index_holds s' (set_root r t) (snd (index_specs t ops es)).
Proof using Type.
  induction ops as [|op ops IH]; intros s t es Hh Hmin Hops Hcount; cbn [index_calls index_specs].
  - exists s, (root_page_id t). by rewrite set_root_self.
  - destruct Hops as [Hop Hops]. rewrite blen_cons in Hcount. pose proof (blen_nonneg ops). unfold GROWTH in *.
    destruct (index_call_ok s t op es Hh Hmin Hop) as (s1 & r1 & E1 & Hh1 & N1); [unfold GROWTH; lia|]. rewrite E1. unfold GROWTH in N1.
    destruct (index_spec t op es) as [x es1] eqn:Es. cbn [fst snd] in *.
    destruct (IH s1 (set_root r1 t) es1 Hh1) as (s2 & r2 & E2 & Hh2); [by destruct Hmin | by apply ops_ok_root | lia |].
    rewrite E2, index_specs_root in *. destruct (index_specs t ops es1) as [xs es2]. cbn [fst snd] in *.
    exists s2, r2. done.
Qed.

End delete.

(** * Examples *)

Lemma few_distinct t es : tree_wf t -> NoDup es.*1 -> few t es.
Proof.
  intros Hwf Hnd k. pose proof (tw_max_leaf t Hwf). enough (entry_count k es <= 1) by lia.
  rewrite <- entry_count_keys. generalize es.*1, Hnd. clear es Hnd. intros ks Hnd. induction Hnd as [|y ks Hy Hnd IH]; [done|].
  rewrite filter_cons. case_decide as E; [| done]. subst y. rewrite filter_none; [done|].
  apply Forall_forall. by intros z Hz ->.
Qed.

(** An index of four wide keys to a leaf, empty. *)
Definition wide : BPlusTree := tree_params TEXT 1000 false 0.
Definition letter (c : Ascii.ascii) : value := VStr (String.String c "").
Arguments letter c%_char.

Lemma wide_wf : tree_wf wide.
Proof. apply tree_params_wf. right. split; [done | lia]. Qed.
Lemma letter_key_ok c : c <> Ascii.zero -> in_range (Ascii.byte_of_ascii c) 0 0x7F = true -> key_ok wide (letter c).
Proof. exact (sample_key_ok false c). Qed.
Lemma fresh_holds : snd (fresh_index TEXT 1000) = wide /\ index_holds (fst (fresh_index TEXT 1000)) wide [] /\ ps_count (fst (fresh_index TEXT 1000)) = 1.
Proof.
  destruct (bp_init_facts (dm_init None) 4 ltac:(lia)) as [P0 C0].
  destruct (bt_init_runs TEXT 1000 false (bp_init (dm_init None) 4)) as (t & s & E & -> & Ht & I & P & C & N & _).
  - right. split; [done | lia].
  - split_and!; [apply bp_init_inv, dm_init_wf | |].
    + cbn [ps_pins ps_cap ps_core buffer_pool_spec buffer_pool_core]. rewrite P0, C0, map_size_empty. lia.
    + intros q _. cbn [ps_pins ps_core buffer_pool_spec buffer_pool_core]. by rewrite P0.
  - by vm_compute.
  - by vm_compute.
  - unfold fresh_index. rewrite E. cbn [fst snd]. split_and!; [done | | exact N]. split; [split; [done | by rewrite P | by rewrite C]|].
    eexists _, _. split; [exact Ht | done].
Qed.

(** The next call of a sequence may be made. *)
Ltac next_op := split; [split; [by apply letter_key_ok |
    lazymatch goal with
    | |- few _ _ => apply few_distinct; [apply wide_wf | repeat constructor; set_solver]
    | |- _ => split; [split; split; (done || lia) | vm_compute; reflexivity]
    end] |];
  match goal with |- ops_ok _ _ ?es => let es' := eval vm_compute in es in replace es with es' by (vm_compute; reflexivity) end.

Definition six_letters : list index_op :=
  [IInsert (letter "d") (mkRID 9 0); IInsert (letter "a") (mkRID 9 1); IInsert (letter "f") (mkRID 9 2); IInsert (letter "c") (mkRID 9 3);
   IInsert (letter "b") (mkRID 9 4); IInsert (letter "e") (mkRID 9 5)].
Definition six_entries : list (value * RID) :=
  [(letter "a", mkRID 9 1); (letter "b", mkRID 9 4); (letter "c", mkRID 9 3); (letter "d", mkRID 9 0); (letter "e", mkRID 9 5); (letter "f", mkRID 9 2)].

Lemma six_ops_ok : ops_ok wide six_letters [].
Proof. unfold six_letters. do 6 next_op. done. Qed.

(** The index after the six insertions: two leaves and a root. *)
Definition six_index : BufferPoolManager * BPlusTree := snd (index_calls six_letters (fresh_index TEXT 1000)).

Lemma fresh_eta : fresh_index TEXT 1000 = (fst (fresh_index TEXT 1000), wide).
Proof. destruct fresh_holds as (E & _). rewrite <- E. by destruct (fresh_index TEXT 1000). Qed.
Lemma six_holds : exists r, snd six_index = set_root r wide /\ index_holds (fst six_index) (snd six_index) six_entries.
Proof.
  destruct fresh_holds as (_ & Hh & N).
  destruct (index_calls_ok six_letters (fst (fresh_index TEXT 1000)) wide [] Hh (tree_params_mins _ _ _ _) six_ops_ok) as (s & r & E & H2).
  { by rewrite N. }
  exists r. unfold six_index. rewrite fresh_eta, E. cbn [fst snd].
  replace six_entries with (snd (index_specs wide six_letters [])) by (vm_compute; reflexivity). exact (conj eq_refl H2).
Qed.

Lemma delete_ok_witness : exists st ls' pg, bt_delete (letter "c") (mkRID 9 3) six_index = (Ok true, st) /\ shrunk (fst six_index) (snd six_index) ls' pg st /\
  entries ls' = [(letter "a", mkRID 9 1); (letter "b", mkRID 9 4); (letter "d", mkRID 9 0); (letter "e", mkRID 9 5); (letter "f", mkRID 9 2)].
Proof.
  pose proof six_holds as (r & Et & Hs & ls & pg & Ht & He). destruct six_index as [s t]. cbn [fst snd] in *. subst t.
  destruct (delete_ok (set_root r wide) (letter "c") (mkRID 9 3) s ls pg) as (st & ls' & E & Hst & He').
  - exact Ht.
  - exact (tree_params_mins _ _ _ _).
  - apply idle_room; [exact Hs | lia].
  - by apply letter_key_ok.
  - rewrite He. change (few wide six_entries). apply few_distinct; [apply wide_wf | repeat constructor; set_solver].
  - exists st, ls', pg. rewrite E, He', He. split_and!; [by rewrite bool_decide_true by (vm_compute; set_solver) | exact Hst | by vm_compute].
Defined.

(** Four deletions more: the second borrows from the right leaf, the third finds
    nothing, the fourth merges the two leaves and the root gives way. *)
Definition ten_calls : list index_op :=
  six_letters ++ [IDelete (letter "c") (mkRID 9 3); IDelete (letter "a") (mkRID 9 1); IDelete (letter "a") (mkRID 9 1); IDelete (letter "f") (mkRID 9 2)].

Lemma ten_ops_ok : ops_ok wide ten_calls [].
Proof. unfold ten_calls, six_letters. cbn [app]. do 10 next_op. done. Qed.

