(* ===== verification/Json.v ===== *)
(** Python's [json] module, as far as [wal.py] and [catalog.py] use it:
    [json.dumps(_, separators=(",", ":"))] and [json.dump(_, f, indent=2)], which escape everything outside
    printable ASCII, and [json.loads]. Text is its UTF-8 bytes. An object is
    the list of its items in insertion order. Integers are those of the
    engine (64 bits), far below the interpreter's limit on digits. *)
From stdpp Require Import base numbers list strings pretty.
From Stdlib Require Import ZArith Lia SpecFloat Strings.Byte.
From S2P Require Import Prelude PyNum Types.

Local Open Scope Z_scope.

(** * Definitions *)

Inductive json : Type :=
| JNull
| JBool (b : bool)
| JInt (z : Z)
| JFloat (bits : Z)
| JStr (s : string)
| JArr (l : list json)
| JObj (l : list (string * json)).

Definition text := list byte.
Local Notation "a =b c" := (Byte.eqb a c) (at level 70, no associativity).
Definition byte_is_digit (b : byte) : bool := in_range b 48 57.

(** ** Code points of UTF-8 text *)

Definition cont (b : byte) : Z := Z_of_byte b - 128.

Fixpoint utf8_points (bs : list byte) : list Z :=
  match bs with
  | [] => []
  | b0 :: r0 =>
      if in_range b0 0 0x7F then Z_of_byte b0 :: utf8_points r0
      else match r0 with
      | [] => []
      | b1 :: r1 =>
          if in_range b0 0xC2 0xDF then (Z_of_byte b0 - 192) * 64 + cont b1 :: utf8_points r1
          else match r1 with
          | [] => []
          | b2 :: r2 =>
              if in_range b0 0xE0 0xEF
              then (Z_of_byte b0 - 224) * 4096 + cont b1 * 64 + cont b2 :: utf8_points r2
              else match r2 with
              | [] => []
              | b3 :: r3 =>
                  (Z_of_byte b0 - 240) * 262144 + cont b1 * 4096 + cont b2 * 64 + cont b3 :: utf8_points r3
              end
          end
      end
  end.

(** A lone surrogate is kept in the same shape as other three-byte points. *)
Definition utf8_bytes (cp : Z) : list byte :=
  if cp <? 0x80 then [byte_of_Z cp]
  else if cp <? 0x800 then [byte_of_Z (192 + cp / 64); byte_of_Z (128 + cp mod 64)]
  else if cp <? 0x10000
  then [byte_of_Z (224 + cp / 4096); byte_of_Z (128 + cp / 64 mod 64); byte_of_Z (128 + cp mod 64)]
  else [byte_of_Z (240 + cp / 262144); byte_of_Z (128 + cp / 4096 mod 64);
        byte_of_Z (128 + cp / 64 mod 64); byte_of_Z (128 + cp mod 64)].

(** ** [json.dumps] *)

Definition hex_digit (d : Z) : byte := byte_of_Z (if d <? 10 then 48 + d else 87 + d).
Definition hex4 (v : Z) : text :=
  [hex_digit (v / 4096 mod 16); hex_digit (v / 256 mod 16); hex_digit (v / 16 mod 16); hex_digit (v mod 16)].
Definition u_escape (v : Z) : text := x5c :: x75 :: hex4 v.

Definition escape_point (cp : Z) : text :=
  if cp =? 34 then [x5c; x22]
  else if cp =? 92 then [x5c; x5c]
  else if cp =? 10 then [x5c; x6e]
  else if cp =? 13 then [x5c; x72]
  else if cp =? 9 then [x5c; x74]
  else if cp =? 12 then [x5c; x66]
  else if cp =? 8 then [x5c; x62]
  else if (32 <=? cp) && (cp <=? 126) then [byte_of_Z cp]
  else if cp <? 0x10000 then u_escape cp
  else
    let v := cp - 0x10000 in
    u_escape (Z.lor 0xd800 (Z.land (Z.shiftr v 10) 0x3ff)) ++ u_escape (Z.lor 0xdc00 (Z.land v 0x3ff)).

Definition dump_str (s : string) : text :=
  x22 :: (utf8_points (str_encode s) ≫= escape_point) ++ [x22].

(** [float.__repr__], or the names JSON gives to the other floats. *)
Definition dump_float (bits : Z) : text :=
  match float_decode bits with
  | S754_infinity s => str_encode (if s then "-Infinity" else "Infinity")
  | S754_nan => str_encode "NaN"
  | _ => str_encode (str_of_float bits)
  end.

(** [indent]: [None], or the nesting depth of the items with two blanks each. *)
Definition gap (ind : option nat) : text := match ind with Some n => x0a :: replicate (2 * n) x20 | None => [] end.
Definition colon (ind : option nat) : text := match ind with Some _ => [x3a; x20] | None => [x3a] end.
Definition commas (ind : option nat) (l : list text) : text :=
  match l with
  | [] => []
  | t :: l' => t ++ (l' ≫= fun u => x2c :: gap ind ++ u)
  end.
Definition enclose (ind : option nat) (a b : byte) (l : list text) : text :=
  match l with
  | [] => [a; b]
  | _ => a :: gap (S <$> ind) ++ commas (S <$> ind) l ++ gap ind ++ [b]
  end.

Fixpoint json_text (ind : option nat) (j : json) : text :=
  match j with
  | JNull => str_encode "null"
  | JBool b => str_encode (if b then "true" else "false")
  | JInt z => str_encode (pretty z)
  | JFloat bits => dump_float bits
  | JStr s => dump_str s
  | JArr l => enclose ind x5b x5d (map (json_text (S <$> ind)) l)
  | JObj l => enclose ind x7b x7d (map (fun kv => dump_str (fst kv) ++ colon ind ++ json_text (S <$> ind) (snd kv)) l)
  end.
Definition json_dumps (j : json) : text := json_text None j.
(** [json.dump(_, f, indent=2)] *)
Definition json_dump_indent (j : json) : text := json_text (Some 0%nat) j.

(** ** [json.loads] *)

Definition bad {A} : result A := Raise ValueError.

Fixpoint skip_ws (l : text) : text :=
  match l with
  | b :: l' => if (b =b x20) || (b =b x09) || (b =b x0a) || (b =b x0d) then skip_ws l' else l
  | [] => []
  end.

Definition hex_val (b : byte) : option Z :=
  let v := Z_of_byte b in
  if in_range b 48 57 then Some (v - 48)
  else if in_range b 97 102 then Some (v - 87)
  else if in_range b 65 70 then Some (v - 55)
  else None.
Definition read_hex4 (a b c d : byte) : option Z :=
  va ← hex_val a; vb ← hex_val b; vc ← hex_val c; vd ← hex_val d;
  Some (va * 4096 + vb * 256 + vc * 16 + vd).

(** The character a two-character escape stands for. *)
Definition simple_escape (b : byte) : option byte :=
  if b =b x22 then Some x22 else if b =b x5c then Some x5c else if b =b x2f then Some x2f
  else if b =b x62 then Some x08 else if b =b x66 then Some x0c else if b =b x6e then Some x0a
  else if b =b x72 then Some x0d else if b =b x74 then Some x09 else None.

Definition push (bs : list byte) (r : result (text * text)) : result (text * text) :=
  p ← r; Ok (bs ++ fst p, snd p).

(** The rest of a string literal, after its opening quote. *)
Fixpoint scan_string (l : text) : result (text * text) :=
  match l with
  | [] => bad
  | b :: r =>
      if b =b x22 then Ok ([], r)
      else if b =b x5c then
        match r with
        | e :: r1 =>
            if e =b x75 then
              match r1 with
              | h1 :: h2 :: h3 :: h4 :: r2 =>
                  match read_hex4 h1 h2 h3 h4 with
                  | None => bad
                  | Some u =>
                      match r2 with
                      | s1 :: s2 :: g1 :: g2 :: g3 :: g4 :: r3 =>
                          if (0xd800 <=? u) && (u <=? 0xdbff) && (s1 =b x5c) && (s2 =b x75) then
                            match read_hex4 g1 g2 g3 g4 with
                            | None => bad
                            | Some u2 =>
                                if (0xdc00 <=? u2) && (u2 <=? 0xdfff)
                                then push (utf8_bytes (0x10000 + Z.lor (Z.shiftl (u - 0xd800) 10) (u2 - 0xdc00)))
                                          (scan_string r3)
                                else push (utf8_bytes u) (scan_string r2)
                            end
                          else push (utf8_bytes u) (scan_string r2)
                      | _ => push (utf8_bytes u) (scan_string r2)
                      end
                  end
              | _ => bad
              end
            else match simple_escape e with
            | Some c => push [c] (scan_string r1)
            | None => bad
            end
        | [] => bad
        end
      else if in_range b 0 0x1f then bad
      else push [b] (scan_string r)
  end.

(** [NUMBER_RE]: an optional sign, [0] or digits without a leading zero, then
    an optional fraction and an optional exponent. *)
Fixpoint span_digits (l : text) : text * text :=
  match l with
  | b :: l' => if byte_is_digit b then let '(ds, r) := span_digits l' in (b :: ds, r) else ([], l)
  | [] => ([], [])
  end.
Definition digits_val (ds : text) : Z := foldl (fun a b => a * 10 + (Z_of_byte b - 48)) 0 ds.

Definition scan_int (l : text) : option (text * text) :=
  match l with
  | b :: r =>
      if b =b x30 then Some ([b], r)
      else if in_range b 49 57 then let '(ds, r') := span_digits r in Some (b :: ds, r')
      else None
  | [] => None
  end.
Definition scan_frac (l : text) : text * text :=
  match l with
  | b :: r =>
      if b =b x2e then match span_digits r with ([], _) => ([], l) | (ds, r') => (b :: ds, r') end
      else ([], l)
  | [] => ([], l)
  end.
Definition scan_exp (l : text) : text * text :=
  match l with
  | b :: r =>
      if (b =b x65) || (b =b x45) then
        let '(sg, r1) := match r with c :: r1 => if (c =b x2d) || (c =b x2b) then ([c], r1) else ([], r) | [] => ([], r) end in
        match span_digits r1 with ([], _) => ([], l) | (ds, r') => (b :: sg ++ ds, r') end
      else ([], l)
  | [] => ([], l)
  end.

Definition scan_minus (l : text) : bool * text :=
  match l with b :: r => if b =b x2d then (true, r) else (false, l) | [] => (false, l) end.

Definition scan_number (l : text) : result (json * text) :=
  let '(neg, l1) := scan_minus l in
  match scan_int l1 with
  | None => bad
  | Some (ip, l2) =>
      let '(fp, l3) := scan_frac l2 in
      let '(ep, l4) := scan_exp l3 in
      match fp ++ ep with
      | [] => Ok (JInt (if neg : bool then - digits_val ip else digits_val ip), l4)
      | _ =>
          f ← float_of_str (String.string_of_list_byte ((if neg then [x2d] else []) ++ ip ++ fp ++ ep));
          Ok (JFloat f, l4)
      end
  end.

(** [d[k] = v] on a dict: the position of an existing key is kept. *)
Fixpoint dict_set (d : list (string * json)) (k : string) (v : json) : list (string * json) :=
  match d with
  | [] => [(k, v)]
  | (k', v') :: d' => if (k' =? k)%string then (k, v) :: d' else (k', v') :: dict_set d' k v
  end.
Definition dict_of_pairs (l : list (string * json)) : list (string * json) :=
  foldl (fun d kv => dict_set d (fst kv) (snd kv)) [] l.

Fixpoint strip_prefix (pre l : text) : option text :=
  match pre, l with
  | [], _ => Some l
  | a :: pre', b :: l' => if a =b b then strip_prefix pre' l' else None
  | _ :: _, [] => None
  end.

(** The constants, longest first where one starts like a number. *)
Definition constants : list (text * json) :=
  [(str_encode "null", JNull); (str_encode "true", JBool true); (str_encode "false", JBool false);
   (str_encode "NaN", JFloat (float_encode S754_nan));
   (str_encode "Infinity", JFloat (float_encode (S754_infinity false)));
   (str_encode "-Infinity", JFloat (float_encode (S754_infinity true)))].
Fixpoint scan_constant (cs : list (text * json)) (l : text) : option (json * text) :=
  match cs with
  | [] => None
  | (t, j) :: cs' => match strip_prefix t l with Some r => Some (j, r) | None => scan_constant cs' l end
  end.

Fixpoint parse_value (fuel : nat) (l : text) : result (json * text) :=
  match fuel with
  | O => Raise Diverges
  | S fuel' =>
      match l with
      | [] => bad
      | b :: r =>
          if b =b x22 then p ← scan_string r; Ok (JStr (String.string_of_list_byte (fst p)), snd p)
          else if b =b x7b then
            match skip_ws r with
            | [] => bad
            | c :: r' =>
                if c =b x7d then Ok (JObj [], r')
                else p ← parse_members fuel' (c :: r'); Ok (JObj (dict_of_pairs (fst p)), snd p)
            end
          else if b =b x5b then
            match skip_ws r with
            | [] => bad
            | c :: r' =>
                if c =b x5d then Ok (JArr [], r')
                else p ← parse_elems fuel' (c :: r'); Ok (JArr (fst p), snd p)
            end
          else match scan_constant constants l with
          | Some p => Ok p
          | None => scan_number l
          end
      end
  end
with parse_elems (fuel : nat) (l : text) : result (list json * text) :=
  match fuel with
  | O => Raise Diverges
  | S fuel' =>
      p ← parse_value fuel' l;
      match skip_ws (snd p) with
      | c :: r =>
          if c =b x2c then q ← parse_elems fuel' (skip_ws r); Ok (fst p :: fst q, snd q)
          else if c =b x5d then Ok ([fst p], r) else bad
      | [] => bad
      end
  end
with parse_members (fuel : nat) (l : text) : result (list (string * json) * text) :=
  match fuel with
  | O => Raise Diverges
  | S fuel' =>
      match l with
      | b :: r0 =>
          if b =b x22 then
            k ← scan_string r0;
            match skip_ws (snd k) with
            | c :: r1 =>
                if c =b x3a then
                  p ← parse_value fuel' (skip_ws r1);
                  let item := (String.string_of_list_byte (fst k), fst p) in
                  match skip_ws (snd p) with
                  | c2 :: r2 =>
                      if c2 =b x2c then q ← parse_members fuel' (skip_ws r2); Ok (item :: fst q, snd q)
                      else if c2 =b x7d then Ok ([item], r2) else bad
                  | [] => bad
                  end
                else bad
            | [] => bad
            end
          else bad
      | [] => bad
      end
  end.

(** Each call below [parse_value] or a list of items starts at least one
    character further, so two units of fuel per character are enough. *)
Definition json_loads (body : list byte) : result json :=
  _ ← str_decode body;
  let l := skip_ws body in
  p ← parse_value (2 * length l + 1) l;
  match skip_ws (snd p) with [] => Ok (fst p) | _ => bad end.

Definition sample_doc : json :=
  JObj [("kind"%string, JStr "btree_insert"); ("rid"%string, JArr [JInt 12; JInt 0; JInt (-5)]);
        ("key"%string, JFloat 0x3FB999999999999A); ("empty"%string, JArr []); ("o"%string, JObj []);
        ("b"%string, JBool true); ("n"%string, JNull)].

Example dumps_ex : String.string_of_list_byte (json_dumps (JArr [JInt (-12); JBool false; JNull; JFloat 0x4341C37937E08000]))
  = "[-12,false,null,1e+16]"%string.
Proof. vm_compute. reflexivity. Qed.
(** Written with [|] for newlines and single quotes for double ones. *)
Example dump_indent_ex : json_dump_indent (JObj [("a"%string, JArr [JInt 1; JObj []]); ("b"%string, JNull)])
  = (fun b => if b =b x7c then x0a else if b =b x27 then x22 else b) <$> str_encode "{|  'a': [|    1,|    {}|  ],|  'b': null|}".
Proof. vm_compute. reflexivity. Qed.
Example loads_ex : json_loads (json_dumps sample_doc) = Ok sample_doc.
Proof. vm_compute. reflexivity. Qed.
Example loads_unicode_ex :
  let s := String.string_of_list_byte [x41; xc3; xa9; xf0; x9f; x98; x80; x0a; x22; x7f] in
  json_loads (json_dumps (JStr s)) = Ok (JStr s) /\
  json_dumps (JStr s) = x22 :: x41 :: str_encode "\u00e9\ud83d\ude00\n\" ++ [x22] ++ str_encode "\u007f" ++ [x22].
Proof. vm_compute. split; reflexivity. Qed.

(** * Characters *)

Ltac divmod := Z.to_euclidean_division_equations; lia.

Lemma in_range_spec b lo hi : in_range b lo hi = true <-> lo <= Z_of_byte b <= hi.
Proof. unfold in_range. lia. Qed.

Lemma in_range_false b lo hi : in_range b lo hi = false <-> ~ lo <= Z_of_byte b <= hi.
Proof. unfold in_range. lia. Qed.

Lemma byte_of_Z_eq z b : z = Z_of_byte b -> byte_of_Z z = b.
Proof. intros ->. apply byte_of_Z_of_byte. Qed.

(** Unicode scalar values: what a str holds that can be encoded. *)
Definition scalar (cp : Z) : Prop := 0 <= cp < 0xd800 \/ 0xe000 <= cp < 0x110000.

(** Normalise byte ranges into inequalities. *)
Ltac ranges :=
  repeat match goal with
  | H : (_ && _)%bool = true |- _ => apply andb_prop in H as [? ?]
  | H : in_range _ _ _ = true |- _ => apply in_range_spec in H
  | H : in_range _ _ _ = false |- _ => apply in_range_false in H
  | H : (if in_range ?b ?x ?y then _ else _) = true |- _ => destruct (in_range b x y) eqn:?
  end.

Lemma utf8_bytes_1 b : Z_of_byte b <= 0x7F -> utf8_bytes (Z_of_byte b) = [b].
Proof.
  intros H. unfold utf8_bytes. replace (Z_of_byte b <? 0x80) with true by lia.
  by rewrite byte_of_Z_of_byte.
Qed.

Lemma utf8_bytes_2 b0 b1 : 0xC2 <= Z_of_byte b0 <= 0xDF -> 0x80 <= Z_of_byte b1 <= 0xBF ->
  let cp := (Z_of_byte b0 - 192) * 64 + cont b1 in utf8_bytes cp = [b0; b1] /\ scalar cp.
Proof.
  intros H0 H1 cp. unfold cp, cont, scalar. split; [| lia]. unfold utf8_bytes.
  destruct (Z.ltb_spec ((Z_of_byte b0 - 192) * 64 + (Z_of_byte b1 - 128)) 0x80); [lia|].
  destruct (Z.ltb_spec ((Z_of_byte b0 - 192) * 64 + (Z_of_byte b1 - 128)) 0x800); [| lia].
  repeat f_equal; apply byte_of_Z_eq; divmod.
Qed.

Lemma utf8_bytes_3 b0 b1 b2 :
  0xE0 <= Z_of_byte b0 <= 0xEF -> 0x80 <= Z_of_byte b1 <= 0xBF -> 0x80 <= Z_of_byte b2 <= 0xBF ->
  (Z_of_byte b0 = 0xE0 -> 0xA0 <= Z_of_byte b1) -> (Z_of_byte b0 = 0xED -> Z_of_byte b1 <= 0x9F) ->
  let cp := (Z_of_byte b0 - 224) * 4096 + cont b1 * 64 + cont b2 in utf8_bytes cp = [b0; b1; b2] /\ scalar cp.
Proof.
  intros H0 H1 H2 Ha Hb cp. unfold cp, cont, scalar. split.
  - unfold utf8_bytes. set (c := _ + (Z_of_byte b2 - 128)).
    assert (0x800 <= c < 0x10000) by (unfold c; lia).
    destruct (Z.ltb_spec c 0x80); [lia|]. destruct (Z.ltb_spec c 0x800); [lia|].
    destruct (Z.ltb_spec c 0x10000); [| lia]. unfold c. repeat f_equal; apply byte_of_Z_eq; divmod.
  - destruct (Z.eq_dec (Z_of_byte b0) 0xED); lia.
Qed.

Lemma utf8_bytes_4 b0 b1 b2 b3 :
  0xF0 <= Z_of_byte b0 <= 0xF4 -> 0x80 <= Z_of_byte b1 <= 0xBF -> 0x80 <= Z_of_byte b2 <= 0xBF ->
  0x80 <= Z_of_byte b3 <= 0xBF ->
  (Z_of_byte b0 = 0xF0 -> 0x90 <= Z_of_byte b1) -> (Z_of_byte b0 = 0xF4 -> Z_of_byte b1 <= 0x8F) ->
  let cp := (Z_of_byte b0 - 240) * 262144 + cont b1 * 4096 + cont b2 * 64 + cont b3 in
  utf8_bytes cp = [b0; b1; b2; b3] /\ scalar cp.
Proof.
  intros H0 H1 H2 H3 Ha Hb cp. unfold cp, cont, scalar. split.
  - unfold utf8_bytes. set (c := _ + (Z_of_byte b3 - 128)).
    assert (0x10000 <= c) by (unfold c; lia).
    destruct (Z.ltb_spec c 0x80); [lia|]. destruct (Z.ltb_spec c 0x800); [lia|].
    destruct (Z.ltb_spec c 0x10000); [lia|]. unfold c. repeat f_equal; apply byte_of_Z_eq; divmod.
  - lia.
Qed.

(** Decoding and encoding are inverse on well-formed UTF-8. *)
Lemma utf8_points_bytes bs : utf8_valid bs = true ->
  utf8_points bs ≫= utf8_bytes = bs /\ Forall scalar (utf8_points bs).
Proof.
  remember (length bs) as n eqn:En. revert bs En.
  induction (lt_wf n) as [n _ IH]. intros bs -> Hv.
  destruct bs as [|b0 r0]; [done|]. cbn [utf8_valid utf8_points] in *.
  pose proof (Z_of_byte_bound b0).
  destruct (in_range b0 0 0x7F) eqn:E0.
  { destruct (IH (length r0) ltac:(simpl; lia) r0 eq_refl Hv) as [IH1 IH2]. ranges.
    rewrite bind_cons, utf8_bytes_1, IH1 by lia. split; [done|]. constructor; [left; lia | done]. }
  destruct r0 as [|b1 r1]; [done|]. destruct (in_range b0 0xC2 0xDF) eqn:E1.
  { apply andb_prop in Hv as [Hb1 Hv].
    destruct (IH (length r1) ltac:(simpl; lia) r1 eq_refl Hv) as [IH1 IH2]. ranges.
    destruct (utf8_bytes_2 b0 b1) as [Eb Hs]; [done | done |].
    rewrite bind_cons, Eb, IH1. split; [done|]. by constructor. }
  destruct r1 as [|b2 r2]; [done|]. destruct (in_range b0 0xE0 0xEF) eqn:E2.
  { apply andb_prop in Hv as [Hb Hv].
    destruct (IH (length r2) ltac:(simpl; lia) r2 eq_refl Hv) as [IH1 IH2].
    destruct (utf8_bytes_3 b0 b1 b2) as [Eb Hs]; [ranges; lia .. |].
    rewrite bind_cons, Eb, IH1. split; [done|]. by constructor. }
  destruct r2 as [|b3 r3]; [done|]. apply andb_prop in Hv as [Hb Hv].
  destruct (IH (length r3) ltac:(simpl; lia) r3 eq_refl Hv) as [IH1 IH2].
  destruct (utf8_bytes_4 b0 b1 b2 b3) as [Eb Hs]; [ranges; lia .. |].
  rewrite bind_cons, Eb, IH1. split; [done|]. by constructor.
Qed.

(** * Strings *)

Lemma hex_val_digit d : 0 <= d < 16 -> hex_val (hex_digit d) = Some d.
Proof.
  intros H. assert (d = Z.of_nat (Z.to_nat d)) as -> by lia. assert (Z.to_nat d < 16)%nat as Hn by lia.
  revert Hn. generalize (Z.to_nat d) as n. intros n Hn. do 16 (destruct n as [|n]; [reflexivity|]). lia.
Qed.

Lemma read_hex4_ok v : 0 <= v < 65536 ->
  read_hex4 (hex_digit (v / 4096 mod 16)) (hex_digit (v / 256 mod 16)) (hex_digit (v / 16 mod 16)) (hex_digit (v mod 16)) = Some v.
Proof.
  intros Hv. unfold read_hex4. rewrite !hex_val_digit by (apply Z.mod_pos_bound; lia). cbn. f_equal. divmod.
Qed.

Lemma scan_u_escape v rest : 0 <= v < 65536 -> ~ 0xd800 <= v <= 0xdbff ->
  scan_string (u_escape v ++ rest) = push (utf8_bytes v) (scan_string rest).
Proof.
  intros Hv Hs. unfold u_escape, hex4.
  cbn [app scan_string]. change (x5c =b x22) with false. change (x5c =b x5c) with true.
  change (x75 =b x75) with true. cbv iota. rewrite (read_hex4_ok v Hv).
  assert ((0xd800 <=? v) && (v <=? 0xdbff) = false) as -> by lia. cbn [andb].
  by destruct rest as [|? [|? [|? [|? [|? [|? ?]]]]]].
Qed.

Lemma surrogates v : 0 <= v < 0x100000 ->
  let hi := Z.lor 0xd800 (Z.land (Z.shiftr v 10) 0x3ff) in let lo := Z.lor 0xdc00 (Z.land v 0x3ff) in
  0xd800 <= hi <= 0xdbff /\ 0xdc00 <= lo <= 0xdfff /\ Z.lor (Z.shiftl (hi - 0xd800) 10) (lo - 0xdc00) = v.
Proof.
  intros Hv hi lo.
  assert (forall k x, 0 <= x < 1024 -> k mod 1024 = 0 -> Z.lor k x = k + x) as Hadd.
  { intros k x Hx Hk. rewrite <- Z.lxor_lor, <- Z.add_nocarry_lxor; try reflexivity;
      apply Z.bits_inj'; intros n Hn; rewrite Z.land_spec, Z.bits_0;
      (destruct (Z_lt_ge_dec n 10) as [Hn10|Hn10];
       [ replace (Z.testbit k n) with false; [done|];
         rewrite (Z.div_mod k 1024), Hk, Z.add_0_r by lia; change 1024 with (2 ^ 10);
         rewrite Z.mul_comm, Z.mul_pow2_bits_low by lia; done
       | replace (Z.testbit x n) with false; [by rewrite andb_false_r|];
         symmetry; destruct (Z.eq_dec x 0) as [->|]; [apply Z.bits_0|];
         apply Z.bits_above_log2; [lia|]; apply Z.log2_lt_pow2; [lia|];
         apply Z.lt_le_trans with (2 ^ 10); [lia|]; apply Z.pow_le_mono_r; lia ]). }
  assert (Z.land (Z.shiftr v 10) 0x3ff = v / 1024) as E1.
  { change 0x3ff with (Z.ones 10). rewrite Z.land_ones, Z.shiftr_div_pow2 by lia. change (2 ^ 10) with 1024.
    apply Z.mod_small. divmod. }
  assert (Z.land v 0x3ff = v mod 1024) as E2 by (change 0x3ff with (Z.ones 10); by rewrite Z.land_ones by lia).
  unfold hi, lo. rewrite E1, E2, !Hadd by (done || divmod).
  split_and!; [divmod | divmod | divmod | divmod |].
  replace (0xd800 + v / 1024 - 0xd800) with (v / 1024) by lia.
  replace (0xdc00 + v mod 1024 - 0xdc00) with (v mod 1024) by lia.
  rewrite Z.shiftl_mul_pow2 by lia. change (2 ^ 10) with 1024. rewrite Hadd; [divmod | divmod |].
  apply Z.mod_mul. lia.
Qed.

Lemma scan_escape cp rest : scalar cp ->
  scan_string (escape_point cp ++ rest) = push (utf8_bytes cp) (scan_string rest).
Proof.
  intros Hs. destruct (Z_lt_ge_dec cp 128) as [Hlt|Hge].
  { assert (cp = Z.of_nat (Z.to_nat cp)) as -> by (unfold scalar in Hs; lia).
    assert (Z.to_nat cp < 128)%nat as Hn by lia. revert Hn. generalize (Z.to_nat cp) as n. intros n Hn.
    do 128 (destruct n as [|n]; [destruct rest as [|? [|? [|? [|? [|? [|? ?]]]]]]; reflexivity|]). lia. }
  unfold escape_point. unfold scalar in Hs.
  replace (cp =? 34) with false by lia. replace (cp =? 92) with false by lia. replace (cp =? 10) with false by lia.
  replace (cp =? 13) with false by lia. replace (cp =? 9) with false by lia. replace (cp =? 12) with false by lia.
  replace (cp =? 8) with false by lia. replace ((32 <=? cp) && (cp <=? 126)) with false by lia.
  destruct (Z.ltb_spec cp 0x10000) as [Hb|Hb]; [apply scan_u_escape; lia|].
  destruct (surrogates (cp - 0x10000) ltac:(lia)) as (Hhi & Hlo & Hjoin). cbv zeta in *.
  set (hi := Z.lor 0xd800 _) in *. set (lo := Z.lor 0xdc00 _) in *. rewrite <- app_assoc.
  unfold u_escape, hex4. cbn [app scan_string].
  change (x5c =b x22) with false. change (x5c =b x5c) with true. change (x75 =b x75) with true. cbv iota.
  rewrite (read_hex4_ok hi), (read_hex4_ok lo) by lia.
  replace ((0xd800 <=? hi) && (hi <=? 0xdbff)) with true by lia. cbn [andb].
  replace ((0xdc00 <=? lo) && (lo <=? 0xdfff)) with true by lia. rewrite Hjoin. do 2 f_equal. lia.
Qed.

Lemma scan_escapes cps rest : Forall scalar cps ->
  scan_string ((cps ≫= escape_point) ++ x22 :: rest) = Ok (cps ≫= utf8_bytes, rest).
Proof.
  induction 1 as [|cp cps Hcp _ IH]; [reflexivity|].
  rewrite !bind_cons, <- app_assoc, scan_escape by done. rewrite IH. reflexivity.
Qed.

Definition str_ok (s : string) : bool := utf8_valid (str_encode s).

Lemma scan_dump_str s rest : str_ok s = true ->
  exists l, dump_str s ++ rest = x22 :: l /\ scan_string l = Ok (str_encode s, rest).
Proof.
  intros Hs. destruct (utf8_points_bytes _ Hs) as [E Hp]. 
  exists ((utf8_points (str_encode s) ≫= escape_point) ++ x22 :: rest). split.
  - unfold dump_str. cbn [app]. by rewrite <- app_assoc.
  - by rewrite scan_escapes, E by done.
Qed.

Lemma str_encode_inv s : String.string_of_list_byte (str_encode s) = s.
Proof. apply String.string_of_list_byte_of_string. Qed.

(** * Numbers *)

(** What may follow a value in a document. *)
Definition stops (rest : text) : bool :=
  match rest with [] => true | b :: _ => (b =b x2c) || (b =b x5d) || (b =b x7d) || (b =b x0a) end.

(** Case analysis on the character a document continues with. *)
Ltac stops rest H :=
  let b := fresh "b" in
  destruct rest as [|b rest]; [| cbn [stops] in H;
    repeat (apply orb_prop in H as [H|H]); apply Byte.byte_dec_bl in H; subst b].

Lemma span_digits_app l rest : stops rest = true ->
  span_digits (l ++ rest) = (fst (span_digits l), snd (span_digits l) ++ rest).
Proof.
  intros Hr. induction l as [|b l IH]; cbn [app span_digits].
  - stops rest Hr; reflexivity.
  - destruct (byte_is_digit b); [| done]. rewrite IH. by destruct (span_digits l).
Qed.

Lemma scan_int_app l rest ip r : stops rest = true -> scan_int l = Some (ip, r) -> scan_int (l ++ rest) = Some (ip, r ++ rest).
Proof.
  intros Hr Hl. destruct l as [|b l]; [done|]. cbn [app scan_int] in *.
  destruct (b =b x30); [by simplify_eq|]. destruct (in_range b 49 57); [| done].
  rewrite span_digits_app by done. destruct (span_digits l). by simplify_eq.
Qed.

Lemma scan_frac_app l rest : stops rest = true ->
  scan_frac (l ++ rest) = (fst (scan_frac l), snd (scan_frac l) ++ rest).
Proof.
  intros Hr. destruct l as [|b l]; cbn [app scan_frac].
  - stops rest Hr; reflexivity.
  - destruct (b =b x2e); [| done]. rewrite span_digits_app by done. by destruct (span_digits l) as [[|? ?] ?].
Qed.

Lemma scan_exp_app l rest : stops rest = true ->
  scan_exp (l ++ rest) = (fst (scan_exp l), snd (scan_exp l) ++ rest).
Proof.
  intros Hr. destruct l as [|b l]; cbn [app scan_exp].
  - stops rest Hr; reflexivity.
  - destruct ((b =b x65) || (b =b x45)); [| done]. destruct l as [|c l]; cbn [app].
    + stops rest Hr; reflexivity.
    + destruct ((c =b x2d) || (c =b x2b)).
      * rewrite span_digits_app by done. by destruct (span_digits l) as [[|? ?] ?].
      * rewrite app_comm_cons, span_digits_app by done. by destruct (span_digits (c :: l)) as [[|? ?] ?].
Qed.

Lemma scan_number_app l rest j r : stops rest = true -> scan_number l = Ok (j, r) -> scan_number (l ++ rest) = Ok (j, r ++ rest).
Proof.
  intros Hr Hl. unfold scan_number in *. destruct (scan_minus l) as [neg l1] eqn:Em.
  destruct (scan_int l1) as [[ip l2]|] eqn:Ei; [| done].
  assert (scan_minus (l ++ rest) = (neg, l1 ++ rest)) as ->.
  { destruct l as [|b l]; cbn [app scan_minus] in *; [by simplify_eq|]. by destruct (b =b x2d); simplify_eq. }
  rewrite (scan_int_app _ _ _ _ Hr Ei).
  rewrite scan_frac_app by done. destruct (scan_frac l2) as [fp l3]. cbn [fst snd].
  rewrite scan_exp_app by done. destruct (scan_exp l3) as [ep l4]. cbn [fst snd].
  destruct (fp ++ ep); [by apply Ok_inj in Hl as [= <- <-]|].
  destruct (float_of_str _); [| done]. cbn in Hl |- *. by apply Ok_inj in Hl as [= <- <-].
Qed.

(** A number starts with a digit, or with a minus and a digit. *)
Lemma scan_number_head l j r : scan_number l = Ok (j, r) ->
  exists b l', l = b :: l' /\ (byte_is_digit b = true \/ b = x2d /\ exists c l2, l' = c :: l2 /\ byte_is_digit c = true).
Proof.
  intros H. unfold scan_number in H.
  assert (forall l ip r, scan_int l = Some (ip, r) -> exists b l', l = b :: l' /\ byte_is_digit b = true) as Hint.
  { intros [|b l'] ip r' E; [done|]. exists b, l'. split; [done|]. cbn [scan_int] in E. unfold byte_is_digit.
    destruct (b =b x30) eqn:Eb; [apply Byte.byte_dec_bl in Eb; by subst b|].
    destruct (in_range b 49 57) eqn:Er; [| done]. ranges. apply in_range_spec. lia. }
  destruct l as [|b l]; [done|]. exists b, l. split; [done|]. cbn [scan_minus] in H.
  destruct (b =b x2d) eqn:Eb.
  - right. apply Byte.byte_dec_bl in Eb. split; [done|].
    destruct (scan_int l) as [[ip l2]|] eqn:Ei; [| done]. destruct (Hint _ _ _ Ei) as (c & l3 & -> & Hc). eauto.
  - left. destruct (scan_int (b :: l)) as [[ip l2]|] eqn:Ei; [| done]. by destruct (Hint _ _ _ Ei) as (c & l3 & [= <- <-] & Hc).
Qed.

Lemma digit_not_eq b c : byte_is_digit b = true -> byte_is_digit c = false -> b =b c = false.
Proof.
  intros Hb Hc. destruct (b =b c) eqn:E; [| done]. apply Byte.byte_dec_bl in E. congruence.
Qed.

(** ** Decimal integers *)

Lemma digits_val_app ds b : digits_val (ds ++ [b]) = digits_val ds * 10 + (Z_of_byte b - 48).
Proof. unfold digits_val. by rewrite foldl_app. Qed.

Lemma pretty_byte_digit x : (x < 10)%N ->
  byte_is_digit (Ascii.byte_of_ascii (pretty_N_char x)) = true /\
  Z_of_byte (Ascii.byte_of_ascii (pretty_N_char x)) = 48 + Z.of_N x.
Proof.
  intros H. assert (x = N.of_nat (N.to_nat x)) as -> by lia. assert (N.to_nat x < 10)%nat as Hn by lia.
  revert Hn. generalize (N.to_nat x) as n. intros n Hn. do 10 (destruct n as [|n]; [split; reflexivity|]). lia.
Qed.

Lemma pretty_go_byte_digits x s : exists ds,
  str_encode (pretty_N_go x s) = ds ++ str_encode s /\ forallb byte_is_digit ds = true /\
  digits_val ds = Z.of_N x /\ ((0 < x)%N -> exists b ds', ds = b :: ds' /\ in_range b 49 57 = true).
Proof.
  revert s. induction (N.lt_wf_0 x) as [x _ IH]. intros s.
  destruct (N.eq_dec x 0) as [->|Hx]; [exists []; split_and!; (done || lia)|].
  rewrite pretty_N_go_step by lia.
  destruct (IH (x / 10)%N ltac:(apply N.div_lt; lia) (String (pretty_N_char (x mod 10)) s)) as (ds & E & Hd & Hv & Hz).
  pose proof (N.mod_lt x 10 ltac:(lia)) as Hm. destruct (pretty_byte_digit (x mod 10) Hm) as [Hc1 Hc2].
  set (b := Ascii.byte_of_ascii (pretty_N_char (x mod 10))) in *.
  exists (ds ++ [b]). split_and!.
  - rewrite E, <- app_assoc. reflexivity.
  - rewrite forallb_app. cbn. by rewrite Hd, Hc1.
  - rewrite digits_val_app, Hv, Hc2. pose proof (N.div_mod x 10 ltac:(lia)). lia.
  - intros _. destruct (N.eq_dec (x / 10) 0) as [E0|E0].
    + assert (ds = []) as ->.
      { destruct ds as [|c ds]; [done|]. rewrite E0, pretty_N_go_0 in E.
        apply (f_equal length) in E. rewrite length_app in E. simpl in E. lia. }
      exists b, []. split; [done|]. apply in_range_spec. rewrite Hc2.
      pose proof (N.div_mod x 10 ltac:(lia)). lia.
    + destruct (Hz (proj1 (N.neq_0_lt_0 _) E0)) as (c & ds' & -> & Hc). exists c, (ds' ++ [b]). done.
Qed.

Lemma span_digits_all ds : forallb byte_is_digit ds = true -> span_digits ds = (ds, []).
Proof.
  induction ds as [|b ds IH]; cbn [forallb span_digits]; [done|]. intros [Hb Hd]%andb_prop. by rewrite Hb, IH.
Qed.

Lemma scan_number_nat x : exists ds, str_encode (pretty (Z.of_N x)) = ds /\ scan_int ds = Some (ds, []) /\ digits_val ds = Z.of_N x.
Proof.
  assert (pretty (Z.of_N x) = pretty x) as -> by (by destruct x).
  exists (str_encode (pretty x)). split; [done|]. unfold pretty, pretty_N. case_decide as E.
  - subst. split; reflexivity.
  - destruct (pretty_go_byte_digits x "") as (ds & Ed & Hd & Hv & Hz). rewrite Ed, app_nil_r. split; [| done].
    destruct (Hz ltac:(lia)) as (b & ds' & -> & Hb). cbn [scan_int forallb] in *. apply andb_prop in Hd as [_ Hd].
    destruct (b =b x30) eqn:E0.
    { apply Byte.byte_dec_bl in E0. subst b. done. }
    rewrite Hb, (span_digits_all _ Hd). done.
Qed.

Lemma scan_number_int z : scan_number (str_encode (pretty z)) = Ok (JInt z, []).
Proof.
  destruct (Z_lt_ge_dec z 0) as [Hz|Hz].
  - assert (str_encode (pretty z) = x2d :: str_encode (pretty (Z.of_N (Z.to_N (- z))))) as ->.
    { destruct z as [|p|p]; [lia | lia |]. reflexivity. }
    destruct (scan_number_nat (Z.to_N (- z))) as (ds & -> & Hs & Hv). unfold scan_number. cbn [scan_minus].
    change (x2d =b x2d) with true. cbv iota. rewrite Hs. cbn [scan_frac scan_exp app]. rewrite Hv. do 3 f_equal. lia.
  - replace z with (Z.of_N (Z.to_N z)) at 1 by lia.
    destruct (scan_number_nat (Z.to_N z)) as (ds & -> & Hs & Hv). unfold scan_number.
    assert (scan_minus ds = (false, ds)) as ->.
    { destruct ds as [|b ds]; [done|]. cbn [scan_minus]. destruct (b =b x2d) eqn:E; [| done].
      apply Byte.byte_dec_bl in E. subst b. done. }
    rewrite Hs. cbn [scan_frac scan_exp app]. rewrite Hv. do 3 f_equal. lia.
Qed.

(** * Round trip *)

Definition ascii_text (t : text) : bool := forallb (fun b => in_range b 0 0x7F) t.

(** A float whose [repr] reads back as the same float; decided by evaluation. *)
Definition float_ok (bits : Z) : bool :=
  ascii_text (dump_float bits) &&
  match float_decode bits with
  | S754_infinity _ | S754_nan => bits =? float_encode (float_decode bits)
  | _ => match scan_number (dump_float bits) with Ok (JFloat b, []) => b =? bits | _ => false end
  end.

(** Documents Python can hold: text is Unicode, keys of a dict are distinct. *)
Fixpoint json_ok (j : json) : bool :=
  match j with
  | JFloat bits => float_ok bits
  | JStr s => str_ok s
  | JArr l => forallb json_ok l
  | JObj l => forallb (fun kv => str_ok (fst kv) && json_ok (snd kv)) l && bool_decide (NoDup l.*1)
  | _ => true
  end.

Lemma json_induction (P : json -> Prop) :
  P JNull -> (forall b, P (JBool b)) -> (forall z, P (JInt z)) -> (forall f, P (JFloat f)) -> (forall s, P (JStr s)) ->
  (forall l, Forall P l -> P (JArr l)) -> (forall l, Forall (fun kv => P (snd kv)) l -> P (JObj l)) -> forall j, P j.
Proof.
  intros H1 H2 H3 H4 H5 H6 H7. fix IH 1. intros [| | | | | l | l]; [done | done | done | done | done | |].
  - apply H6. induction l as [|x l IHl]; constructor; [apply IH | exact IHl].
  - apply H7. induction l as [|x l IHl]; constructor; [apply IH | exact IHl].
Qed.

(** The first character of a value. *)
Definition opens (b : byte) : bool :=
  byte_is_digit b || (b =b x2d) || (b =b x22) || (b =b x5b) || (b =b x7b) || (b =b x6e) || (b =b x74) ||
  (b =b x66) || (b =b x4e) || (b =b x49).

Lemma opens_spec b l : opens b = true -> skip_ws (b :: l) = b :: l /\ b =b x5d = false /\ b =b x7d = false.
Proof. intros H. cbn [skip_ws]. by destruct b. Qed.

Lemma float_text bits : float_ok bits = true ->
  (exists t, In (t, JFloat bits) constants /\ dump_float bits = t) \/ scan_number (dump_float bits) = Ok (JFloat bits, []).
Proof.
  unfold float_ok. intros [_ H]%andb_prop. unfold dump_float in *. destruct (float_decode bits) as [s|[]| |s m e] eqn:E.
  - right. destruct (scan_number _) as [[[] [|]]|]; try done. apply Z.eqb_eq in H. by subst.
  - left. eexists. split; [| reflexivity]. apply Z.eqb_eq in H. rewrite H. cbn. tauto.
  - left. eexists. split; [| reflexivity]. apply Z.eqb_eq in H. rewrite H. cbn. tauto.
  - left. eexists. split; [| reflexivity]. apply Z.eqb_eq in H. rewrite H. cbn. tauto.
  - right. destruct (scan_number _) as [[[] [|]]|]; try done. apply Z.eqb_eq in H. by subst.
Qed.

Lemma number_opens l j r : scan_number l = Ok (j, r) -> exists b l', l = b :: l' /\ opens b = true.
Proof.
  intros (b & l' & -> & Hb)%scan_number_head. exists b, l'. split; [done|]. unfold opens.
  destruct Hb as [->|[-> _]]; done.
Qed.

Lemma enclose_head ind a b l : exists t, enclose ind a b l = a :: t.
Proof. destruct l; cbn [enclose]; eauto. Qed.
Lemma dumps_head ind j : json_ok j = true -> exists b l, json_text ind j = b :: l /\ opens b = true.
Proof.
  destruct j as [|[]|z|bits|s|l|l]; intros H; try (eexists _, _; split; reflexivity).
  - eapply number_opens, scan_number_int.
  - destruct (float_text bits H) as [(t & Ht & Ed)|Hn]; [| by eapply number_opens]. cbn [json_text]. rewrite Ed.
    cbn in Ht. destruct_or!; simplify_eq; eexists _, _; split; reflexivity.
  - cbn [json_text]. destruct (enclose_head ind x5b x5d (map (json_text (S <$> ind)) l)) as [t ->]. by exists x5b, t.
  - cbn [json_text]. destruct (enclose_head ind x7b x7d (map (fun kv => dump_str (fst kv) ++ colon ind ++ json_text (S <$> ind) (snd kv)) l)) as [t ->].
    by exists x7b, t.
Qed.

Lemma skip_gap ind l : skip_ws (gap ind ++ l) = skip_ws l.
Proof. destruct ind as [n|]; [| done]. cbn [gap app skip_ws]. change (skip_ws (replicate (2 * n) x20 ++ l) = skip_ws l). induction (2 * n)%nat as [|k IH]; [done | exact IH]. Qed.
Lemma dumps_not_ws ind j rest : json_ok j = true -> skip_ws (json_text ind j ++ rest) = json_text ind j ++ rest.
Proof. intros H. destruct (dumps_head ind j H) as (b & l & -> & Hb). by apply opens_spec. Qed.

Lemma strip_prefix_app t r : strip_prefix t (t ++ r) = Some r.
Proof. induction t as [|b t IH]; [done|]. cbn [app strip_prefix]. by rewrite Byte.byte_dec_lb by done. Qed.

Lemma parse_constant t j rest fuel : In (t, j) constants -> parse_value (S fuel) (t ++ rest) = Ok (j, rest).
Proof. intros H. cbn in H. destruct_or!; simplify_eq; reflexivity. Qed.

Lemma parse_number l j rest fuel : scan_number l = Ok (j, []) -> stops rest = true ->
  parse_value (S fuel) (l ++ rest) = Ok (j, rest).
Proof.
  intros Hl Hr. pose proof (scan_number_app _ _ _ _ Hr Hl) as Ha. cbn [app] in Ha.
  destruct (scan_number_head _ _ _ Hl) as (b & l' & -> & Hb). cbn [app] in *. cbn [parse_value].
  destruct Hb as [Hb|[-> (c & l2 & -> & Hc)]].
  - rewrite !(digit_not_eq b) by done.
    assert (scan_constant constants (b :: l' ++ rest) = None) as ->; [| done]. by destruct b.
  - assert (scan_constant constants (x2d :: c :: l2 ++ rest) = None) as E; [by destruct c|].
    cbn [app] in *. rewrite E. exact Ha.
Qed.

(** ** Lists of items *)

Definition fuel_for (t : text) : nat := 2 * length t + 1.

Definition reads_back (ind : option nat) (j : json) : Prop := forall fuel rest,
  (fuel_for (json_text ind j) <= fuel)%nat -> stops rest = true -> parse_value fuel (json_text ind j ++ rest) = Ok (j, rest).

Lemma commas_cons ind t l : l <> [] -> commas ind (t :: l) = t ++ x2c :: gap ind ++ commas ind l.
Proof. destruct l as [|u l]; [done|]. intros _. unfold commas. rewrite bind_cons. cbn [app]. by rewrite <- app_assoc. Qed.

(** The items of a list, up to what closes it. *)
Definition closes (c : byte) (tail rest : text) : Prop := skip_ws tail = c :: rest /\ stops tail = true.
Lemma closes_gap ind c rest : c = x5d \/ c = x7d -> closes c (gap ind ++ c :: rest) rest.
Proof. intros [-> | ->]; (split; [by rewrite skip_gap | by destruct ind]). Qed.

Lemma parse_elems_ok ind l : Forall (reads_back ind) l -> forallb json_ok l = true -> l <> [] ->
  forall fuel tail rest, closes x5d tail rest -> (fuel_for (commas ind (map (json_text ind) l)) + 1 <= fuel)%nat ->
  parse_elems fuel (commas ind (map (json_text ind) l) ++ tail) = Ok (l, rest).
Proof.
  induction 1 as [|j l Hj Hl IH]; intros Hok Hne fuel tail rest [Ht Hst] Hf; [done|].
  cbn [forallb map] in *. apply andb_prop in Hok as [Hj1 Hl1].
  destruct fuel as [|fuel]; [unfold fuel_for in Hf; lia|]. cbn [parse_elems].
  destruct l as [|j2 l].
  - cbn [map commas mbind list_bind] in *. rewrite app_nil_r in *. rewrite Hj by (done || lia). cbn [mbind result_bind fst snd]. by rewrite Ht.
  - rewrite (commas_cons ind (json_text ind j) (map (json_text ind) (j2 :: l))) in Hf |- * by done. rewrite <- app_assoc. cbn [app].
    unfold fuel_for in *. rewrite length_app in Hf. cbn [length] in Hf. rewrite length_app in Hf.
    rewrite Hj by (done || (unfold fuel_for; lia)). cbn [mbind result_bind fst snd].
    change (skip_ws (x2c :: ?l)) with (x2c :: l). change (x2c =b x2c) with true. cbv iota. rewrite <- app_assoc, skip_gap.
    assert (skip_ws (commas ind (map (json_text ind) (j2 :: l)) ++ tail) = commas ind (map (json_text ind) (j2 :: l)) ++ tail) as ->.
    { cbn [map commas]. rewrite <- app_assoc. cbn [forallb] in Hl1. apply andb_prop in Hl1 as [Hj2 _].
      by apply dumps_not_ws. }
    by rewrite (IH Hl1 ltac:(done) fuel tail rest) by (done || lia).
Qed.

Definition dump_item (ind : option nat) (kv : string * json) : text := dump_str (fst kv) ++ colon ind ++ json_text (S <$> ind) (snd kv).
Definition item_ok (kv : string * json) : bool := str_ok (fst kv) && json_ok (snd kv).

Lemma skip_colon ind l : exists r, colon ind ++ l = x3a :: r /\ skip_ws r = skip_ws l.
Proof. destruct ind; cbn [colon app]; eauto. Qed.

Lemma parse_members_step ind k j fuel after :
  item_ok (k, j) = true -> reads_back (S <$> ind) j -> (fuel_for (json_text (S <$> ind) j) <= fuel)%nat -> stops after = true ->
  parse_members (S fuel) (dump_item ind (k, j) ++ after) =
    match skip_ws after with
    | c2 :: r2 =>
        if c2 =b x2c then q ← parse_members fuel (skip_ws r2); Ok ((k, j) :: fst q, snd q)
        else if c2 =b x7d then Ok ([(k, j)], r2) else bad
    | [] => bad
    end.
Proof.
  intros [Hk Hj]%andb_prop Hr Hf Ha. unfold dump_item. cbn [fst snd] in *. rewrite <- !app_assoc.
  destruct (skip_colon ind (json_text (S <$> ind) j ++ after)) as (r & -> & Er).
  destruct (scan_dump_str k (x3a :: r) Hk) as (l & -> & Hl).
  cbn [parse_members]. change (x22 =b x22) with true. cbv iota. rewrite Hl. cbn [mbind result_bind fst snd].
  change (skip_ws (x3a :: ?l)) with (x3a :: l). change (x3a =b x3a) with true. cbv iota.
  rewrite Er, dumps_not_ws, Hr by done. cbn [mbind result_bind fst snd]. by rewrite str_encode_inv.
Qed.

Lemma parse_members_ok ind l : Forall (fun kv => reads_back (S <$> ind) (snd kv)) l -> forallb item_ok l = true -> l <> [] ->
  forall fuel tail rest, closes x7d tail rest -> (fuel_for (commas (S <$> ind) (map (dump_item ind) l)) + 1 <= fuel)%nat ->
  parse_members fuel (commas (S <$> ind) (map (dump_item ind) l) ++ tail) = Ok (l, rest).
Proof.
  induction 1 as [|[k j] l Hj Hl IH]; intros Hok Hne fuel tail rest [Ht Hst] Hf; [done|].
  cbn [forallb map snd] in *. apply andb_prop in Hok as [Hj1 Hl1].
  assert (length (dump_item ind (k, j)) >= length (json_text (S <$> ind) j))%nat as Hlen.
  { unfold dump_item. rewrite !length_app. cbn [snd]. lia. }
  destruct fuel as [|fuel]; [unfold fuel_for in Hf; lia|].
  destruct l as [|kv2 l].
  - cbn [map commas mbind list_bind] in *. rewrite app_nil_r in *.
    rewrite parse_members_step by (done || (unfold fuel_for in *; lia)). by rewrite Ht.
  - rewrite (commas_cons (S <$> ind) (dump_item ind (k, j)) (map (dump_item ind) (kv2 :: l))) in Hf |- * by done. rewrite <- app_assoc. cbn [app].
    unfold fuel_for in Hf. rewrite length_app in Hf. cbn [length] in Hf. rewrite length_app in Hf.
    rewrite parse_members_step by (done || (unfold fuel_for; lia)).
    change (skip_ws (x2c :: ?l)) with (x2c :: l). change (x2c =b x2c) with true. cbv iota. rewrite <- app_assoc, skip_gap.
    assert (forall r, skip_ws (commas (S <$> ind) (map (dump_item ind) (kv2 :: l)) ++ r) = commas (S <$> ind) (map (dump_item ind) (kv2 :: l)) ++ r) as -> by done.
    by rewrite (IH Hl1 ltac:(done) fuel tail rest) by (done || (unfold fuel_for; lia)).
Qed.

(** ** Dicts *)

Lemma dict_set_new d k v : k ∉ d.*1 -> dict_set d k v = d ++ [(k, v)].
Proof.
  induction d as [|[k' v'] d IH]; intros H; [done|]. cbn [dict_set app].
  rewrite fmap_cons, not_elem_of_cons in H. destruct H as [H1 H2].
  destruct (String.eqb_spec k' k); [cbn in *; congruence | by rewrite IH].
Qed.

Lemma dict_of_pairs_id l : NoDup l.*1 -> dict_of_pairs l = l.
Proof.
  unfold dict_of_pairs. intros Hnd. change l with ([] ++ l) in Hnd |- * at 2.
  generalize (@nil (string * json)) Hnd. clear Hnd. induction l as [|[k v] l IH]; intros d Hnd; cbn [foldl].
  - by rewrite app_nil_r.
  - rewrite fmap_app, fmap_cons in Hnd. cbn [fst snd]. rewrite dict_set_new.
    + rewrite IH; [by rewrite <- app_assoc|]. by rewrite fmap_app, fmap_app, <- app_assoc.
    + apply NoDup_app in Hnd as (_ & Hd & _). intros Hin. eapply Hd; [done|]. left.
Qed.

Lemma text_obj ind l : json_text ind (JObj l) = enclose ind x7b x7d (map (dump_item ind) l).
Proof. reflexivity. Qed.
Lemma dumps_obj kv l : exists t, json_dumps (JObj (kv :: l)) = x7b :: t.
Proof. unfold json_dumps. rewrite text_obj. apply enclose_head. Qed.

(** Every document reads back, in any context. *)
Lemma json_reads_back j : json_ok j = true -> forall ind, reads_back ind j.
Proof.
  induction j as [|b|z|bits|s|l IH|l IH] using json_induction; intros Hok ind fuel rest Hf Hr;
    (destruct fuel as [|fuel]; [unfold fuel_for in Hf; lia|]).
  - apply parse_constant. cbn. tauto.
  - cbn [json_text]. apply parse_constant. destruct b; cbn; tauto.
  - apply parse_number; [apply scan_number_int | done].
  - cbn [json_text]. destruct (float_text bits Hok) as [(t & Ht & ->)|Hn]; [by apply parse_constant | by apply parse_number].
  - cbn [json_text]. destruct (scan_dump_str s rest Hok) as (l & -> & Hl).
    cbn [parse_value]. change (x22 =b x22) with true. cbv iota. rewrite Hl. cbn [mbind result_bind fst snd].
    by rewrite str_encode_inv.
  - cbn [json_ok json_text] in *. destruct l as [|j l]; [reflexivity|].
    assert (Forall (reads_back (S <$> ind)) (j :: l)) as Hl.
    { clear Hf. induction IH as [|x xs Hx _ IHx]; [constructor|]. cbn [forallb] in Hok. apply andb_prop in Hok as [H1 H2].
      constructor; auto. }
    cbn [enclose map] in *. set (items := json_text (S <$> ind) j :: map (json_text (S <$> ind)) l) in *.
    cbn [app]. rewrite <- !app_assoc. cbn [app].
    unfold fuel_for in Hf. cbn [length] in Hf. rewrite !length_app in Hf. cbn [length] in Hf.
    cbn [forallb] in Hok. pose proof Hok as [Hj _]%andb_prop.
    destruct (dumps_head (S <$> ind) j Hj) as (b & t & Eb & Hb).
    assert (exists t', commas (S <$> ind) items ++ gap ind ++ x5d :: rest = b :: t') as [t' Et].
    { unfold items. cbn [commas]. rewrite Eb. cbn [app]. eauto. }
    cbn [parse_value]. change (x5b =b x22) with false. change (x5b =b x7b) with false. change (x5b =b x5b) with true.
    cbv iota. rewrite skip_gap, Et. destruct (opens_spec b t' Hb) as (-> & -> & _). rewrite <- Et.
    unfold items. change (json_text (S <$> ind) j :: map ?f l) with (map f (j :: l)).
    rewrite (parse_elems_ok (S <$> ind) (j :: l) Hl Hok ltac:(done) fuel _ rest (closes_gap ind x5d rest (or_introl eq_refl))); [reflexivity|].
    unfold fuel_for. fold items. cbn [map]. fold items. lia.
  - rewrite text_obj in Hf |- *. cbn [json_ok] in Hok. apply andb_prop in Hok as [Hok Hnd]. apply bool_decide_eq_true in Hnd.
    destruct l as [|kv l]; [reflexivity|].
    assert (Forall (fun kv => reads_back (S <$> ind) (snd kv)) (kv :: l)) as Hl.
    { clear Hf Hnd. induction IH as [|x xs Hx _ IHx]; [constructor|]. cbn [forallb] in Hok. apply andb_prop in Hok as [H1 H2].
      apply andb_prop in H1 as [_ H1]. constructor; auto. }
    cbn [enclose map] in *. set (items := dump_item ind kv :: map (dump_item ind) l) in *.
    cbn [app]. rewrite <- !app_assoc. cbn [app]. fold item_ok in Hok.
    unfold fuel_for in Hf. cbn [length] in Hf. rewrite !length_app in Hf. cbn [length] in Hf.
    assert (exists t', commas (S <$> ind) items ++ gap ind ++ x7d :: rest = x22 :: t') as [t' Et].
    { unfold items. cbn [commas]. unfold dump_item at 1, dump_str. cbn [app]. eauto. }
    cbn [parse_value]. change (x7b =b x22) with false. change (x7b =b x7b) with true.
    cbv iota. rewrite skip_gap, Et. change (skip_ws (x22 :: t')) with (x22 :: t'). change (x22 =b x7d) with false. cbv iota. rewrite <- Et.
    unfold items. change (dump_item ind kv :: map ?f l) with (map f (kv :: l)).
    rewrite (parse_members_ok ind (kv :: l) Hl Hok ltac:(done) fuel _ rest (closes_gap ind x7d rest (or_intror eq_refl))).
    + cbn [mbind result_bind fst snd]. by rewrite dict_of_pairs_id.
    + unfold fuel_for. cbn [map]. fold items. lia.
Qed.

(** ** Whole documents *)

Lemma ascii_text_app t u : ascii_text (t ++ u) = ascii_text t && ascii_text u.
Proof. apply forallb_app. Qed.

Lemma ascii_text_concat {A} (f : A -> text) l :
  (forall x, x ∈ l -> ascii_text (f x) = true) -> ascii_text (l ≫= f) = true.
Proof.
  induction l as [|x l IH]; intros H; [done|]. rewrite bind_cons, ascii_text_app, (H x (list_elem_of_here _ _)), IH; [done|]. intros y Hy. apply H. by apply list_elem_of_further.
Qed.

Lemma ascii_valid t : ascii_text t = true -> utf8_valid t = true.
Proof.
  induction t as [|b t IH]; [done|]. cbn [ascii_text forallb utf8_valid]. intros [-> H]%andb_prop. by apply IH.
Qed.

Lemma byte_of_Z_ascii z : 0 <= z < 128 -> in_range (byte_of_Z z) 0 0x7F = true.
Proof. intros H. apply in_range_spec. rewrite Z_of_byte_of_Z, Z.mod_small; lia. Qed.

Lemma u_escape_ascii v : ascii_text (u_escape v) = true.
Proof.
  assert (forall d, 0 <= d < 16 -> in_range (hex_digit d) 0 0x7F = true) as H.
  { intros d Hd. unfold hex_digit. apply byte_of_Z_ascii. destruct (d <? 10); lia. }
  unfold u_escape, hex4, ascii_text. cbn [forallb]. rewrite !H by (apply Z.mod_pos_bound; lia). reflexivity.
Qed.

Lemma escape_ascii cp : 0 <= cp -> ascii_text (escape_point cp) = true.
Proof.
  intros H. unfold escape_point. do 7 (case_match; [reflexivity|]).
  destruct ((32 <=? cp) && (cp <=? 126)) eqn:E.
  - cbn. rewrite byte_of_Z_ascii by lia. done.
  - case_match; [apply u_escape_ascii|]. by rewrite ascii_text_app, !u_escape_ascii.
Qed.

Lemma dump_str_ascii s : str_ok s = true -> ascii_text (dump_str s) = true.
Proof.
  intros Hs. destruct (utf8_points_bytes _ Hs) as [_ Hp]. unfold dump_str.
  change (ascii_text (?a :: ?t)) with (ascii_text ([a] ++ t)). rewrite !ascii_text_app, ascii_text_concat; [done|].
  intros cp Hcp. apply escape_ascii. rewrite Forall_forall in Hp. specialize (Hp cp Hcp). unfold scalar in Hp. lia.
Qed.

Lemma gap_ascii ind : ascii_text (gap ind) = true.
Proof. destruct ind as [n|]; [| done]. cbn [gap]. change (ascii_text (replicate (2 * n) x20) = true). induction (2 * n)%nat as [|k IH]; [done | exact IH]. Qed.
Lemma commas_ascii ind l : Forall (fun t => ascii_text t = true) l -> ascii_text (commas ind l) = true.
Proof.
  intros H. destruct l as [|t l]; [done|]. inversion H as [|? ? H1 H2]; subst. cbn [commas].
  rewrite ascii_text_app, H1, ascii_text_concat; [done|]. intros u Hu. rewrite Forall_forall in H2.
  change (x2c :: gap ind ++ u) with ([x2c] ++ gap ind ++ u). rewrite !ascii_text_app, gap_ascii. cbn. by apply H2.
Qed.
Lemma enclose_ascii ind a b l : ascii_text [a; b] = true -> Forall (fun t => ascii_text t = true) l -> ascii_text (enclose ind a b l) = true.
Proof.
  intros Hab H. destruct l as [|t l]; [done|]. cbn [enclose]. change (a :: ?t) with ([a] ++ t).
  change [a; b] with ([a] ++ [b]) in Hab. rewrite ascii_text_app in Hab. apply andb_prop in Hab as [Ha Hb].
  by rewrite !ascii_text_app, !gap_ascii, commas_ascii, Ha, Hb by done.
Qed.

Lemma digits_ascii ds : forallb byte_is_digit ds = true -> ascii_text ds = true.
Proof.
  unfold ascii_text. rewrite !forallb_forall. intros H b Hb. specialize (H b Hb). unfold byte_is_digit in H.
  ranges. apply in_range_spec. lia.
Qed.

Lemma pretty_ascii (z : Z) : ascii_text (str_encode (pretty z)) = true.
Proof.
  assert (forall n : N, ascii_text (str_encode (pretty n)) = true) as HN.
  { intros n. unfold pretty, pretty_N. case_decide; [done|]. destruct (pretty_go_byte_digits n "") as (ds & -> & Hd & _).
    rewrite app_nil_r. by apply digits_ascii. }
  destruct z as [|p|p]; [done | apply (HN (Npos p)) |].
  change (str_encode (pretty (Zneg p))) with ([x2d] ++ str_encode (pretty (Npos p))). by rewrite ascii_text_app, HN.
Qed.

Lemma text_ascii j : json_ok j = true -> forall ind, ascii_text (json_text ind j) = true.
Proof.
  induction j as [|b|z|bits|s|l IH|l IH] using json_induction; intros Hok ind; cbn [json_ok] in Hok.
  - done.
  - by destruct b.
  - apply pretty_ascii.
  - cbn [json_text]. unfold float_ok in Hok. by apply andb_prop in Hok as [? _].
  - by apply dump_str_ascii.
  - cbn [json_text]. apply enclose_ascii; [done|]. rewrite forallb_forall in Hok. apply Forall_forall.
    intros t (j & <- & Hj)%list_elem_of_In%in_map_iff. rewrite Forall_forall in IH. apply IH; [by apply list_elem_of_In | auto].
  - rewrite text_obj. apply andb_prop in Hok as [Hok _]. apply enclose_ascii; [done|]. rewrite forallb_forall in Hok. apply Forall_forall.
    intros t (kv & <- & Hkv)%list_elem_of_In%in_map_iff. rewrite Forall_forall in IH.
    specialize (Hok kv Hkv). apply andb_prop in Hok as [H1 H2]. unfold dump_item.
    rewrite !ascii_text_app, dump_str_ascii by done. rewrite (IH kv); [by destruct ind | by apply list_elem_of_In | done].
Qed.

(** Both layouts read back. *)
Lemma json_text_roundtrip ind j : json_ok j = true -> json_loads (json_text ind j) = Ok j.
Proof.
  intros Hok. unfold json_loads, str_decode. rewrite (ascii_valid _ (text_ascii j Hok ind)).
  cbn [mbind result_bind]. pose proof (dumps_not_ws ind j [] Hok) as Hws. rewrite app_nil_r in Hws. rewrite Hws.
  pose proof (json_reads_back j Hok ind (2 * length (json_text ind j) + 1)%nat [] ltac:(reflexivity) eq_refl) as Hp.
  rewrite app_nil_r in Hp. rewrite Hp. reflexivity.
Qed.
Lemma json_roundtrip j : json_ok j = true -> json_loads (json_dumps j) = Ok j.
Proof. apply json_text_roundtrip. Qed.

(** * Termination *)

(** A result that is not the mark of exhausted fuel, and consumes input. *)
Definition shrinks {A} (l : text) (r : result (A * text)) : Prop :=
  match r with Ok (_, l') => (length l' < length l)%nat | Raise e => e <> Diverges end.

Lemma shrinks_mono {A} l l' (r : result (A * text)) : (length l <= length l')%nat -> shrinks l r -> shrinks l' r.
Proof. destruct r as [[a t]|e]; simpl; [lia | done]. Qed.

Lemma shrinks_push bs l r : shrinks l r -> shrinks l (push bs r).
Proof. by destruct r as [[t l']|e]. Qed.

Lemma shrinks_bad {A} l : shrinks l (@bad (A * text)).
Proof. done. Qed.

(** A step of the form [p <- r; k p] shrinks when [r] does and [k] keeps what it is given. *)
Lemma shrinks_bind {A B} l l1 (r : result (A * text)) (k : A * text -> result (B * text)) :
  shrinks l1 r -> (forall a t, (length t < length l1)%nat -> shrinks l (k (a, t))) -> shrinks l (r ≫= k).
Proof. destruct r as [[a t]|e]; intros Hr Hk; [by apply Hk | done]. Qed.

Lemma skip_ws_length l : (length (skip_ws l) <= length l)%nat.
Proof. induction l as [|b l IH]; cbn [skip_ws length]; [lia|]. case_match; cbn [length]; lia. Qed.

Lemma scan_string_shrinks l : shrinks l (scan_string l).
Proof.
  remember (length l) as n eqn:En. revert l En. induction (lt_wf n) as [n _ IH]. intros l ->.
  assert (forall l', (length l' < length l)%nat -> shrinks l (scan_string l')) as Hs.
  { intros l' Hl. apply (shrinks_mono l'); [lia|]. by apply (IH (length l')). }
  destruct l as [|b r]; [done|]. cbn [scan_string].
  repeat (case_match; subst; try (apply shrinks_bad); try (apply shrinks_push, Hs; simpl; lia)). simpl. lia.
Qed.

Lemma span_digits_length l : length l = (length (fst (span_digits l)) + length (snd (span_digits l)))%nat.
Proof.
  induction l as [|b l IH]; cbn [span_digits]; [done|]. destruct (byte_is_digit b); [| done].
  destruct (span_digits l) as [ds r]. cbn [fst snd length] in *. lia.
Qed.

Lemma scan_frac_length l : (length (snd (scan_frac l)) <= length l)%nat.
Proof.
  destruct l as [|b l]; cbn [scan_frac snd]; [done|]. destruct (b =b x2e); [| done].
  pose proof (span_digits_length l). destruct (span_digits l) as [[|d ds] r]; cbn [fst snd length] in *; lia.
Qed.

Lemma scan_exp_length l : (length (snd (scan_exp l)) <= length l)%nat.
Proof.
  destruct l as [|b l]; cbn [scan_exp snd]; [done|]. destruct (_ || _); [| done].
  assert (exists sg r1, match l with c :: r1 => if (c =b x2d) || (c =b x2b) then ([c], r1) else ([], l) | [] => ([], l) end
    = (sg, r1) /\ (length r1 <= length l)%nat) as (sg & r1 & -> & Hr).
  { destruct l as [|c l]; [by eexists _, _|]. destruct (_ || _); eexists _, _; split; (reflexivity || (cbn; lia)). }
  pose proof (span_digits_length r1). destruct (span_digits r1) as [[|d ds] r]; cbn [fst snd length] in *; lia.
Qed.

Lemma float_of_str_no_div s : float_of_str s <> Raise Diverges.
Proof.
  unfold float_of_str. destruct (scan_sign _) as [neg l].
  repeat (case_match; try done).
Qed.

Lemma scan_number_shrinks l : shrinks l (scan_number l).
Proof.
  unfold scan_number. destruct (scan_minus l) as [neg l1] eqn:Em.
  assert (length l1 <= length l)%nat as H1.
  { destruct l as [|b l]; cbn in Em; [by simplify_eq|]. destruct (b =b x2d); simplify_eq; cbn; lia. }
  destruct (scan_int l1) as [[ip l2]|] eqn:Ei; [| apply shrinks_bad].
  assert (length l2 < length l1)%nat as H2.
  { destruct l1 as [|b l1]; [done|]. cbn [scan_int] in Ei. destruct (b =b x30); [simplify_eq; cbn; lia|].
    destruct (in_range b 49 57); [| done]. pose proof (span_digits_length l1).
    destruct (span_digits l1). simplify_eq. cbn [fst snd length] in *. lia. }
  pose proof (scan_frac_length l2). destruct (scan_frac l2) as [fp l3].
  pose proof (scan_exp_length l3). destruct (scan_exp l3) as [ep l4]. cbn [snd] in *.
  destruct (fp ++ ep); [cbn; lia|].
  destruct (float_of_str _) as [f|e] eqn:Ef; cbn; [lia|]. intros ->. by apply float_of_str_no_div in Ef.
Qed.

Lemma strip_prefix_length t l r : strip_prefix t l = Some r -> length l = (length t + length r)%nat.
Proof.
  revert l. induction t as [|a t IH]; intros [|b l] H; cbn [strip_prefix] in H; try done; [by simplify_eq | by simplify_eq|].
  destruct (a =b b); [| done]. apply IH in H. cbn [length]. lia.
Qed.

Lemma scan_constant_length cs l j r : Forall (fun c => fst c <> []) cs -> scan_constant cs l = Some (j, r) -> (length r < length l)%nat.
Proof.
  induction 1 as [|[t c] cs Ht _ IH]; cbn [scan_constant]; [done|]. intros H.
  destruct (strip_prefix t l) as [r'|] eqn:E; [| auto]. simplify_eq. apply strip_prefix_length in E.
  cbn in Ht. destruct t; [done|]. cbn [length] in E. lia.
Qed.

Lemma parse_shrinks fuel :
  (forall l, (fuel_for l <= fuel)%nat -> shrinks l (parse_value fuel l)) /\
  (forall l, (fuel_for l + 1 <= fuel)%nat -> shrinks l (parse_elems fuel l)) /\
  (forall l, (fuel_for l + 1 <= fuel)%nat -> shrinks l (parse_members fuel l)).
Proof.
  unfold fuel_for. induction fuel as [|fuel (IHv & IHe & IHm)]; [split_and!; intros; lia|]. split_and!; intros l Hf.
  - cbn [parse_value]. destruct l as [|b r]; [done|]. cbn [length] in Hf. pose proof (skip_ws_length r) as Hws.
    destruct (b =b x22); [| destruct (b =b x7b); [| destruct (b =b x5b)]].
    + eapply shrinks_bind; [apply scan_string_shrinks|]. intros a t Ht. cbn. lia.
    + destruct (skip_ws r) as [|c r']; [done|]. cbn [length] in Hws. destruct (c =b x7d); [cbn; lia|].
      eapply shrinks_bind; [apply (IHm (c :: r')); cbn [length]; lia|]. intros a t Ht. cbn [length shrinks fst snd] in *. lia.
    + destruct (skip_ws r) as [|c r']; [done|]. cbn [length] in Hws. destruct (c =b x5d); [cbn; lia|].
      eapply shrinks_bind; [apply (IHe (c :: r')); cbn [length]; lia|]. intros a t Ht. cbn [length shrinks fst snd] in *. lia.
    + destruct (scan_constant constants (b :: r)) as [[j t]|] eqn:E; [| apply scan_number_shrinks].
      cbn [shrinks]. eapply scan_constant_length; [| done]. repeat constructor; done.
  - cbn [parse_elems]. eapply shrinks_bind; [apply IHv; lia|]. intros j t Ht. cbn [fst snd].
    pose proof (skip_ws_length t). destruct (skip_ws t) as [|c r]; [done|]. cbn [length] in *.
    destruct (c =b x2c).
    + pose proof (skip_ws_length r). eapply shrinks_bind; [apply IHe; lia|]. intros a u Hu. cbn. lia.
    + destruct (c =b x5d); [cbn; lia | done].
  - cbn [parse_members]. destruct l as [|b r0]; [done|]. destruct (b =b x22); [| done]. cbn [length] in Hf.
    eapply shrinks_bind; [apply scan_string_shrinks|]. intros k t Ht. cbn [fst snd].
    pose proof (skip_ws_length t). destruct (skip_ws t) as [|c r1]; [done|]. cbn [length] in *.
    destruct (c =b x3a); [| done]. pose proof (skip_ws_length r1).
    eapply shrinks_bind; [apply IHv; lia|]. intros j u Hu. cbn [fst snd].
    pose proof (skip_ws_length u). destruct (skip_ws u) as [|c2 r2]; [done|]. cbn [length] in *.
    destruct (c2 =b x2c).
    + pose proof (skip_ws_length r2). eapply shrinks_bind; [apply IHm; lia|]. intros a w Hw. cbn. lia.
    + destruct (c2 =b x7d); [cbn; lia | done].
Qed.

(** [json_loads] returns or raises on every input: the fuel is enough. *)
Lemma json_loads_terminates body : json_loads body <> Raise Diverges.
Proof.
  unfold json_loads, str_decode. destruct (utf8_valid body); cbn [mbind result_bind]; [| done].
  destruct (parse_shrinks (2 * length (skip_ws body) + 1)) as [H _]. specialize (H (skip_ws body) ltac:(unfold fuel_for; lia)).
  destruct (parse_value _ _) as [[j t]|e]; cbn in *; [by destruct (skip_ws t) | congruence].
Qed.
