(* ===== verification/Wal.v ===== *)
(** The write-ahead log ([src/minirel/wal.py]). The file is what the operating
    system has: a durable part and a part written since the last [fsync]; the
    bytes still in Python's file buffer come behind it. Reading opens the path
    again and sees the file only. *)
From stdpp Require Import base numbers list strings.
From Stdlib Require Import ZArith Lia Strings.Byte.
From S2P Require Import Prelude PyNum Types Json.

Local Open Scope Z_scope.

(** * Definitions *)

Inductive RecordType : Set := BEGIN | OP | COMMIT | ABORT | CHECKPOINT.

#[global] Instance RecordType_eq_dec : EqDecision RecordType.
Proof. solve_decision. Defined.

Definition RecordType_code (t : RecordType) : Z :=
  match t with BEGIN => 1 | OP => 2 | COMMIT => 3 | ABORT => 4 | CHECKPOINT => 5 end.
Definition RecordType_of (z : Z) : result RecordType :=
  if z =? 1 then Ok BEGIN else if z =? 2 then Ok OP else if z =? 3 then Ok COMMIT
  else if z =? 4 then Ok ABORT else if z =? 5 then Ok CHECKPOINT else Raise ValueError.

Record LogRecord : Type := mkRecord {
  lr_offset : Z; lr_type : RecordType; lr_txn_id : Z; lr_payload : json }.

Definition WAL_HEADER_SIZE : Z := 9.

Record WriteAheadLog : Type := mkWal {
  wal_durable : list byte;
  wal_written : list byte;
  wal_buffer : list byte;
  wal_open : bool }.

Definition wal_init (existing : option (list byte)) : WriteAheadLog := mkWal (default [] existing) [] [] true.

(** What a reader of the path sees. *)
Definition wal_file (w : WriteAheadLog) : list byte := wal_durable w ++ wal_written w.
Definition wal_log (w : WriteAheadLog) : list byte := wal_file w ++ wal_buffer w.

(** Any use of a closed file object raises. *)
Definition wal_check_open : M WriteAheadLog unit :=
  open ← gets wal_open; if open : bool then mret tt else raise ValueError.

Definition wal_write (bs : list byte) : M WriteAheadLog unit :=
  wal_check_open;;
  modify (fun w => mkWal (wal_durable w) (wal_written w) (wal_buffer w ++ bs) (wal_open w)).

(** [json.dumps(payload, ...).encode("utf-8") if payload else b""] *)
Definition payload_body (payload : json) : list byte :=
  match payload with JObj [] => [] | _ => json_dumps payload end.

Definition pack_header (t : RecordType) (txn_id len : Z) : result (list byte) :=
  a ← pack_u 1 (RecordType_code t); b ← pack_u 4 txn_id; c ← pack_u 4 len; Ok (a ++ b ++ c).

Definition wal_append (record_type : RecordType) (txn_id : Z) (payload : json) : M WriteAheadLog Z :=
  let body := payload_body payload in
  wal_check_open;;
  offset ← gets (fun w => blen (wal_log w));
  header ← lift_result (pack_header record_type txn_id (blen body));
  wal_write header;;
  wal_write body;;
  mret offset.

Definition wal_flush : M WriteAheadLog unit :=
  wal_check_open;;
  modify (fun w => mkWal (wal_log w) [] [] (wal_open w)).

Definition log_begin (txn_id : Z) : M WriteAheadLog Z := wal_append BEGIN txn_id (JObj []).
Definition log_operation (txn_id : Z) (kind : string) (fields : list (string * json)) : M WriteAheadLog Z :=
  wal_append OP txn_id (JObj (("kind"%string, JStr kind) :: fields)).
Definition log_commit (txn_id : Z) : M WriteAheadLog Z :=
  offset ← wal_append COMMIT txn_id (JObj []); wal_flush;; mret offset.
Definition log_abort (txn_id : Z) : M WriteAheadLog Z := wal_append ABORT txn_id (JObj []).
Definition log_checkpoint : M WriteAheadLog Z :=
  offset ← wal_append CHECKPOINT 0 (JObj []); wal_flush;; mret offset.

(** Closing hands the buffer to the operating system, without [fsync]. *)
Definition wal_close : M WriteAheadLog unit :=
  modify (fun w => mkWal (wal_durable w) (wal_written w ++ wal_buffer w) [] false).

(** The loop reads a header, a body, and goes on behind them. *)
Fixpoint iter_records (fuel : nat) (offset : Z) (bs : list byte) : result (list LogRecord) :=
  match fuel with
  | O => Raise Diverges
  | S fuel' =>
      if blen bs <? WAL_HEADER_SIZE then Ok [] else
      record_type ← unpack_u 1 bs 0;
      txn_id ← unpack_u 4 bs 1;
      payload_len ← unpack_u 4 bs 5;
      let rest := drop 9 bs in
      let body := take (Z.to_nat payload_len) rest in
      if blen body <? payload_len then Ok [] else
      payload ← match body with [] => Ok (JObj []) | _ => json_loads body end;
      ty ← RecordType_of record_type;
      rs ← iter_records fuel' (offset + WAL_HEADER_SIZE + payload_len) (drop (Z.to_nat payload_len) rest);
      Ok (mkRecord offset ty txn_id payload :: rs)
  end.

(** Every record is at least a header long. *)
Definition read_records (bs : list byte) : result (list LogRecord) := iter_records (S (length bs)) 0 bs.

Definition read_all : M WriteAheadLog (list LogRecord) :=
  bs ← gets wal_file; lift_result (read_records bs).

(** The index of the last CHECKPOINT record. *)
Fixpoint last_checkpoint_from (rs : list LogRecord) (i : nat) (last : option nat) : option nat :=
  match rs with
  | [] => last
  | r :: rs' => last_checkpoint_from rs' (S i) (if decide (lr_type r = CHECKPOINT) then Some i else last)
  end.

Definition since_last_checkpoint (all_records : list LogRecord) : list LogRecord :=
  match last_checkpoint_from all_records 0 None with
  | None => all_records
  | Some i => drop (i + 1) all_records
  end.

Definition read_since_last_checkpoint : M WriteAheadLog (list LogRecord) :=
  all_records ← read_all; mret (since_last_checkpoint all_records).

(** * Entries and their encoding *)

Record entry : Type := mkEntry { en_type : RecordType; en_txn : Z; en_payload : json }.

Definition entry_of (r : LogRecord) : entry := mkEntry (lr_type r) (lr_txn_id r) (lr_payload r).

Definition encode_entry (e : entry) : list byte :=
  le_enc 1 (RecordType_code (en_type e)) ++ le_enc 4 (en_txn e) ++
  le_enc 4 (blen (payload_body (en_payload e))) ++ payload_body (en_payload e).
Definition encode_log (es : list entry) : list byte := es ≫= encode_entry.

(** What [wal_append] accepts: 32-bit fields, and a dict JSON can represent. *)
Definition is_dict (j : json) : bool := match j with JObj _ => json_ok j | _ => false end.
Record entry_ok (e : entry) : Prop := {
  eo_txn : 0 <= en_txn e < 2 ^ 32;
  eo_len : blen (payload_body (en_payload e)) < 2 ^ 32;
  eo_payload : is_dict (en_payload e) = true }.

(** The records of a log, each with the offset it was written at. *)
Fixpoint place (off : Z) (es : list entry) : list LogRecord :=
  match es with
  | [] => []
  | e :: es' => mkRecord off (en_type e) (en_txn e) (en_payload e) :: place (off + blen (encode_entry e)) es'
  end.

(** How many entries lie completely within the first [k] bytes. *)
Fixpoint whole (k : Z) (es : list entry) : nat :=
  match es with
  | [] => 0
  | e :: es' => if blen (encode_entry e) <=? k then S (whole (k - blen (encode_entry e)) es') else 0
  end.

Lemma blen_encode_entry e : blen (encode_entry e) = 9 + blen (payload_body (en_payload e)).
Proof. unfold encode_entry. blen. Qed.

Lemma RecordType_of_code t : RecordType_of (RecordType_code t) = Ok t.
Proof. by destruct t. Qed.

Lemma RecordType_code_range t : 0 <= RecordType_code t < 256.
Proof. destruct t; simpl; lia. Qed.

(** The three header fields, wherever the record is cut behind them. *)
Lemma header_fields e rest : entry_ok e ->
  let bs := le_enc 1 (RecordType_code (en_type e)) ++ le_enc 4 (en_txn e) ++
            le_enc 4 (blen (payload_body (en_payload e))) ++ rest in
  unpack_u 1 bs 0 = Ok (RecordType_code (en_type e)) /\ unpack_u 4 bs 1 = Ok (en_txn e) /\
  unpack_u 4 bs 5 = Ok (blen (payload_body (en_payload e))) /\ drop 9 bs = rest.
Proof.
  intros [Ht Hl _] bs. pose proof (blen_nonneg (payload_body (en_payload e))). unfold bs. split_and!.
  - apply (unpack_u_app 1 [] (RecordType_code (en_type e))). apply RecordType_code_range.
  - apply (unpack_u_app 4 (le_enc 1 _)). exact Ht.
  - rewrite app_assoc. apply (unpack_u_app 4 (le_enc 1 _ ++ le_enc 4 _)). split; [done | exact Hl].
  - rewrite (app_assoc (le_enc 4 _)), (app_assoc (le_enc 1 _)). apply drop_app_length'.
    rewrite !length_app, !length_le_enc. reflexivity.
Qed.

Lemma read_body e : entry_ok e ->
  match payload_body (en_payload e) with [] => Ok (JObj []) | _ => json_loads (payload_body (en_payload e)) end =
  Ok (en_payload e).
Proof.
  intros [_ _ Hd]. destruct (en_payload e) as [| | | | | |l] eqn:E; try done. destruct l as [|kv l]; [done|].
  cbn [payload_body is_dict] in *. rewrite <- (json_roundtrip _ Hd). destruct (dumps_obj kv l) as [t ->]. reflexivity.
Qed.

(** * Reading *)

Lemma iter_step fuel off e rest : entry_ok e ->
  iter_records (S fuel) off (encode_entry e ++ rest) =
    (rs ← iter_records fuel (off + blen (encode_entry e)) rest;
     Ok (mkRecord off (en_type e) (en_txn e) (en_payload e) :: rs)).
Proof.
  intros He. pose proof (blen_encode_entry e) as Hb. pose proof (blen_nonneg (payload_body (en_payload e))).
  cbn [iter_records]. rewrite blen_app, Hb.
  pose proof (blen_nonneg rest). replace (_ <? WAL_HEADER_SIZE) with false by (unfold WAL_HEADER_SIZE; lia).
  unfold encode_entry. rewrite <- !app_assoc.
  destruct (header_fields e (payload_body (en_payload e) ++ rest) He) as (-> & -> & -> & ->).
  cbn [mbind result_bind]. rewrite take_app_length' by (unfold blen; lia).
  rewrite Z.ltb_irrefl, (read_body e He). cbn [mbind result_bind]. rewrite RecordType_of_code.
  cbn [mbind result_bind]. rewrite drop_app_length' by (unfold blen; lia).
  replace (off + WAL_HEADER_SIZE + _) with (off + (9 + blen (payload_body (en_payload e)))) by (unfold WAL_HEADER_SIZE; lia).
  reflexivity.
Qed.

Lemma iter_torn fuel off e k : entry_ok e -> 0 <= k < blen (encode_entry e) ->
  iter_records (S fuel) off (take (Z.to_nat k) (encode_entry e)) = Ok [].
Proof.
  intros He Hk. pose proof (blen_encode_entry e) as Hb. cbn [iter_records].
  rewrite blen_take by lia. destruct (Z.ltb_spec k WAL_HEADER_SIZE) as [Hlt|Hge]; [done|]. unfold WAL_HEADER_SIZE in Hge.
  assert (take (Z.to_nat k) (encode_entry e) = le_enc 1 (RecordType_code (en_type e)) ++ le_enc 4 (en_txn e) ++
    le_enc 4 (blen (payload_body (en_payload e))) ++ take (Z.to_nat (k - 9)) (payload_body (en_payload e))) as ->.
  { unfold encode_entry. rewrite !take_app, !length_le_enc, !take_ge by (rewrite ?length_le_enc; lia).
    do 4 f_equal. lia. }
  destruct (header_fields e (take (Z.to_nat (k - 9)) (payload_body (en_payload e))) He) as (-> & -> & -> & ->).
  cbn [mbind result_bind]. rewrite take_take. unfold blen at 1. rewrite length_take.
  replace (_ <? _) with true; [done|]. symmetry. apply Z.ltb_lt. unfold blen in *. lia.
Qed.

(** A log cut anywhere reads back as the entries that are complete. *)
Lemma iter_prefix es : Forall entry_ok es -> forall k fuel off, 0 <= k <= blen (encode_log es) ->
  (length (take (Z.to_nat k) (encode_log es)) < fuel)%nat ->
  iter_records fuel off (take (Z.to_nat k) (encode_log es)) = Ok (place off (take (whole k es) es)).
Proof.
  induction 1 as [|e es He Hes IH]; intros k fuel off Hk Hf; (destruct fuel as [|fuel]; [lia|]).
  { cbn [encode_log mbind list_bind]. by rewrite take_nil. }
  unfold encode_log in *. rewrite bind_cons in *. rewrite take_app in *. cbn [whole].
  pose proof (blen_encode_entry e) as Hb. pose proof (blen_nonneg (payload_body (en_payload e))).
  destruct (Z.leb_spec (blen (encode_entry e)) k) as [Hle|Hgt].
  - rewrite take_ge in Hf |- * by (unfold blen in *; lia). rewrite iter_step by done.
    replace (Z.to_nat k - length (encode_entry e))%nat with (Z.to_nat (k - blen (encode_entry e))) in * by (unfold blen; lia).
    rewrite length_app in Hf. rewrite blen_app in Hk. rewrite IH.
    + reflexivity.
    + lia.
    + unfold blen in *. lia.
  - replace (Z.to_nat k - length (encode_entry e))%nat with 0%nat by (unfold blen in *; lia).
    rewrite take_0, app_nil_r, iter_torn by (done || lia). reflexivity.
Qed.

Lemma whole_all es : forall k, blen (encode_log es) <= k -> whole k es = length es.
Proof.
  induction es as [|e es IH]; intros k Hk; [done|]. unfold encode_log in *. rewrite bind_cons, blen_app in Hk. cbn [whole length].
  pose proof (blen_nonneg (es ≫= encode_entry)). replace (blen (encode_entry e) <=? k) with true by lia.
  f_equal. apply IH. lia.
Qed.

Lemma whole_app es es' k : blen (encode_log es) <= k -> (length es <= whole k (es ++ es'))%nat.
Proof.
  revert k. induction es as [|e es IH]; intros k Hk; cbn [length app whole]; [lia|].
  unfold encode_log in Hk. rewrite bind_cons, blen_app in Hk.
  pose proof (blen_nonneg (es ≫= encode_entry)). replace (blen (encode_entry e) <=? k) with true by lia.
  apply le_n_S. apply IH. unfold encode_log. lia.
Qed.

Lemma whole_le k es : (whole k es <= length es)%nat.
Proof. revert k. induction es as [|e es IH]; intros k; cbn [whole length]; [done|]. case_match; [apply le_n_S, IH | lia]. Qed.

Lemma read_records_log es : Forall entry_ok es -> read_records (encode_log es) = Ok (place 0 es).
Proof.
  intros Hes. unfold read_records.
  pose proof (iter_prefix es Hes (blen (encode_log es)) (S (length (encode_log es))) 0) as H.
  assert (take (Z.to_nat (blen (encode_log es))) (encode_log es) = encode_log es) as E by (apply take_ge; unfold blen; lia).
  rewrite E in H. rewrite H, whole_all, firstn_all; [done | lia | pose proof (blen_nonneg (encode_log es)); lia | lia].
Qed.

Lemma entry_of_place off es : entry_of <$> place off es = es.
Proof. revert off. induction es as [|[t x p] es IH]; intros off; cbn [place]; [done|]. by rewrite fmap_cons, IH. Qed.

(** [iter_records] returns or raises on any bytes. *)
Lemma iter_terminates fuel off bs : (length bs < fuel)%nat -> iter_records fuel off bs <> Raise Diverges.
Proof.
  revert off bs. induction fuel as [|fuel IH]; intros off bs Hf; [lia|]. cbn [iter_records].
  destruct (Z.ltb_spec (blen bs) WAL_HEADER_SIZE) as [|Hge]; [done|]. unfold WAL_HEADER_SIZE, blen in Hge.
  assert (forall w o, unpack_u w bs o <> Raise Diverges) as Hu.
  { intros w o. unfold unpack_u. by destruct (_ <=? _). }
  destruct (unpack_u 1 bs 0) eqn:E1; cbn [mbind result_bind]; [| intros [= ->]; by apply (Hu 1%nat 0) in E1].
  destruct (unpack_u 4 bs 1) eqn:E2; cbn [mbind result_bind]; [| intros [= ->]; by apply (Hu 4%nat 1) in E2].
  destruct (unpack_u 4 bs 5) as [len|] eqn:E3; cbn [mbind result_bind]; [| intros [= ->]; by apply (Hu 4%nat 5) in E3].
  destruct (_ <? len); [done|].
  assert (forall b, match b with [] => Ok (JObj []) | _ => json_loads b end <> Raise Diverges) as Hj.
  { intros [|? ?]; [done | apply json_loads_terminates]. }
  specialize (Hj (take (Z.to_nat len) (drop 9 bs))). destruct (match take _ _ with [] => _ | _ => _ end); cbn [mbind result_bind]; [| congruence].
  assert (RecordType_of a <> Raise Diverges) as Ht by (unfold RecordType_of; repeat case_match; done).
  destruct (RecordType_of a); cbn [mbind result_bind]; [| congruence].
  specialize (IH (off + WAL_HEADER_SIZE + len) (drop (Z.to_nat len) (drop 9 bs))).
  destruct (iter_records fuel _ _); cbn [mbind result_bind]; [done|]. rewrite !length_drop in IH. intros [= ->]. apply IH; [lia | done].
Qed.

(** * Writing *)

(** [w] holds the bytes [base] and then the entries [es], the first [n] of
    which are durable. *)
Record wal_is (base : list byte) (w : WriteAheadLog) (es : list entry) (n : nat) : Prop := {
  wi_open : wal_open w = true;
  wi_log : wal_log w = base ++ encode_log es;
  wi_durable : wal_durable w = base ++ encode_log (take n es);
  wi_len : (n <= length es)%nat;
  wi_entries : Forall entry_ok es }.

Lemma encode_log_app es es' : encode_log (es ++ es') = encode_log es ++ encode_log es'.
Proof. apply bind_app. Qed.

Lemma pack_header_ok e : entry_ok e ->
  exists h, pack_header (en_type e) (en_txn e) (blen (payload_body (en_payload e))) = Ok h /\
    h ++ payload_body (en_payload e) = encode_entry e.
Proof.
  intros [Ht Hl _]. pose proof (blen_nonneg (payload_body (en_payload e))). unfold pack_header.
  rewrite (pack_u_in_range 1) by apply RecordType_code_range.
  rewrite (pack_u_in_range 4 (en_txn e)) by exact Ht.
  rewrite (pack_u_in_range 4 (blen _)) by (split; [done | exact Hl]).
  cbn [mbind result_bind]. eexists. split; [reflexivity|]. unfold encode_entry. by rewrite <- !app_assoc.
Qed.

(** The effect on the log of an append and of a flush. *)
Lemma append_runs w e : wal_open w = true -> entry_ok e ->
  runs (wal_append (en_type e) (en_txn e) (en_payload e)) w (fun off w' =>
    off = blen (wal_log w) /\ wal_open w' = true /\ wal_log w' = wal_log w ++ encode_entry e /\ wal_durable w' = wal_durable w).
Proof.
  intros Ho Hok. destruct (pack_header_ok e Hok) as (h & Eh & Ehb).
  unfold wal_append, wal_write, wal_check_open. repeat rstep. rewrite Ho. repeat rstep.
  eapply runs_lift_result; [exact Eh|]. repeat rstep. rewrite Ho. repeat rstep. cbn [wal_open]. rewrite Ho. repeat rstep.
  split_and!; [done | done | | done]. rewrite <- Ehb. unfold wal_log, wal_file. cbn. by rewrite !app_assoc.
Qed.

Lemma flush_runs w : wal_open w = true ->
  runs wal_flush w (fun _ w' => wal_open w' = true /\ wal_log w' = wal_log w /\ wal_durable w' = wal_log w /\ wal_file w' = wal_log w).
Proof.
  intros Ho. unfold wal_flush, wal_check_open. repeat rstep. rewrite Ho. repeat rstep.
  split_and!; try done; unfold wal_log, wal_file; cbn; by rewrite ?app_nil_r.
Qed.

Lemma append_ok base w es n e : wal_is base w es n -> entry_ok e ->
  runs (wal_append (en_type e) (en_txn e) (en_payload e)) w (fun off w' =>
    off = blen base + blen (encode_log es) /\ wal_is base w' (es ++ [e]) n).
Proof.
  intros [Ho Hl Hd Hn He] Hok. eapply runs_mono; [by apply append_runs|]. intros off w' (-> & Ho' & Hl' & Hd').
  split; [by rewrite Hl, blen_app|]. constructor; [done | | | |].
  - rewrite Hl', Hl, encode_log_app, app_assoc. cbn [encode_log mbind list_bind]. by rewrite app_nil_r.
  - by rewrite Hd', Hd, take_app_le.
  - rewrite length_app. lia.
  - apply Forall_app. split; [done | by apply Forall_singleton].
Qed.

Lemma flush_ok base w es n : wal_is base w es n -> runs wal_flush w (fun _ w' => wal_is base w' es (length es)).
Proof.
  intros [Ho Hl Hd Hn He]. eapply runs_mono; [by apply flush_runs|]. intros [] w' (Ho' & Hl' & Hd' & _).
  constructor; [done | congruence | by rewrite Hd', Hl, firstn_all | done | done].
Qed.

(** ** Histories *)

(** What happens to a log: the calls of the transaction manager, and the file
    buffer being handed to the operating system at any point. *)
Inductive wal_event : Type :=
| EBegin (t : Z)
| EOp (t : Z) (kind : string) (fields : list (string * json))
| ECommit (t : Z)
| EAbort (t : Z)
| ECheckpoint
| EFlush
| ESpill (n : nat).

Definition wal_spill (n : nat) : M WriteAheadLog unit :=
  modify (fun w => mkWal (wal_durable w) (wal_written w ++ take n (wal_buffer w)) (drop n (wal_buffer w)) (wal_open w)).

Definition run_event (ev : wal_event) : M WriteAheadLog unit :=
  match ev with
  | EBegin t => log_begin t;; mret tt
  | EOp t kind fields => log_operation t kind fields;; mret tt
  | ECommit t => log_commit t;; mret tt
  | EAbort t => log_abort t;; mret tt
  | ECheckpoint => log_checkpoint;; mret tt
  | EFlush => wal_flush
  | ESpill n => wal_spill n
  end.
Fixpoint run_events (evs : list wal_event) : M WriteAheadLog unit :=
  match evs with [] => mret tt | ev :: evs' => run_event ev;; run_events evs' end.

Definition event_entry (ev : wal_event) : option entry :=
  match ev with
  | EBegin t => Some (mkEntry BEGIN t (JObj []))
  | EOp t kind fields => Some (mkEntry OP t (JObj (("kind"%string, JStr kind) :: fields)))
  | ECommit t => Some (mkEntry COMMIT t (JObj []))
  | EAbort t => Some (mkEntry ABORT t (JObj []))
  | ECheckpoint => Some (mkEntry CHECKPOINT 0 (JObj []))
  | EFlush | ESpill _ => None
  end.
Definition event_syncs (ev : wal_event) : bool :=
  match ev with ECommit _ | ECheckpoint | EFlush => true | _ => false end.
Definition event_ok (ev : wal_event) : Prop := forall e, event_entry ev = Some e -> entry_ok e.

(** The abstract log: all entries, and how many of them were promised durable. *)
Definition abs_event (st : list entry * nat) (ev : wal_event) : list entry * nat :=
  let es := fst st ++ option_list (event_entry ev) in
  (es, if event_syncs ev then length es else snd st).
Definition abs_events (evs : list wal_event) (st : list entry * nat) : list entry * nat := foldl abs_event st evs.

Lemma run_event_ok base w es n ev : wal_is base w es n -> event_ok ev ->
  runs (run_event ev) w (fun _ w' => wal_is base w' (fst (abs_event (es, n) ev)) (snd (abs_event (es, n) ev))).
Proof.
  intros Hw Hok. unfold abs_event. cbn [fst snd].
  destruct ev as [t|t kind fields|t|t| | |k]; cbn [event_entry event_syncs option_list run_event].
  - rstep. eapply runs_mono; [by apply (append_ok base w es n (mkEntry BEGIN t (JObj []))); auto|].
    intros off w' [_ H]. by rstep.
  - rstep. eapply runs_mono; [apply (append_ok base w es n (mkEntry OP t (JObj (("kind"%string, JStr kind) :: fields)))); auto|].
    intros off w' [_ H]. by rstep.
  - rstep. unfold log_commit. rstep. eapply runs_mono; [apply (append_ok base w es n (mkEntry COMMIT t (JObj []))); auto|].
    intros off w' [_ H]. rstep. eapply runs_mono; [by eapply flush_ok|]. intros ? w2 H2. by repeat rstep.
  - rstep. eapply runs_mono; [apply (append_ok base w es n (mkEntry ABORT t (JObj []))); auto|].
    intros off w' [_ H]. by rstep.
  - rstep. unfold log_checkpoint. rstep. eapply runs_mono; [apply (append_ok base w es n (mkEntry CHECKPOINT 0 (JObj []))); auto|].
    intros off w' [_ H]. rstep. eapply runs_mono; [by eapply flush_ok|]. intros ? w2 H2. by repeat rstep.
  - rewrite app_nil_r. by eapply flush_ok.
  - rewrite app_nil_r. unfold wal_spill. rstep. destruct Hw as [Ho Hl Hd Hn He]. constructor; try done.
    rewrite <- Hl. unfold wal_log, wal_file. cbn [wal_durable wal_written wal_buffer].
    by rewrite <- !app_assoc, take_drop.
Qed.

Lemma run_events_ok base evs w es n : wal_is base w es n -> Forall event_ok evs ->
  runs (run_events evs) w (fun _ w' => wal_is base w' (fst (abs_events evs (es, n))) (snd (abs_events evs (es, n)))).
Proof.
  intros Hw Hok. revert w es n Hw. induction Hok as [|ev evs Hev _ IH]; intros w es n Hw; cbn [run_events].
  - by rstep.
  - rstep. eapply runs_mono; [by apply run_event_ok|]. intros ? w' H.
    unfold abs_events in *. cbn [foldl]. destruct (abs_event (es, n) ev) as [es' n'] eqn:E. by apply IH.
Qed.

Lemma wal_init_is base : wal_is base (wal_init (Some base)) [] 0.
Proof.
  constructor; try done; unfold wal_log, wal_file; cbn; by rewrite ?app_nil_r.
Qed.

Lemma wal_init_log es : Forall entry_ok es -> wal_is [] (wal_init (Some (encode_log es))) es (length es).
Proof.
  intros H. constructor; try done; unfold wal_log, wal_file; cbn; by rewrite ?app_nil_r, ?firstn_all.
Qed.

(** C20: a log that is cut anywhere behind its last [fsync] reads back without
    error, as a prefix of what was logged that contains every entry logged up
    to the last COMMIT, CHECKPOINT or flush. It starts from any existing log,
    and the file buffer may reach the disk at any moment. *)
Theorem wal_crash_safe es0 evs :
  Forall entry_ok es0 -> Forall event_ok evs ->
  exists w, run_events evs (wal_init (Some (encode_log es0))) = (Ok tt, w) /\
    forall k, blen (wal_durable w) <= k <= blen (wal_log w) ->
    exists rs, read_records (take (Z.to_nat k) (wal_log w)) = Ok rs /\
      (entry_of <$> rs) `prefix_of` fst (abs_events evs (es0, length es0)) /\
      take (snd (abs_events evs (es0, length es0))) (fst (abs_events evs (es0, length es0))) `prefix_of` (entry_of <$> rs).
Proof.
  intros H0 Hev. destruct (run_events_ok [] evs _ _ _ (wal_init_log es0 H0) Hev) as ([] & w & Hrun & [_ Hl Hd Hn He]).
  set (es := fst (abs_events evs (es0, length es0))) in *. set (n := snd (abs_events evs (es0, length es0))) in *.
  exists w. split; [done|]. intros k Hk. rewrite Hl, Hd in Hk. rewrite Hl. cbn [app] in *.
  pose proof (blen_nonneg (encode_log (take n es))).
  exists (place 0 (take (whole k es) es)). split_and!.
  - unfold read_records. apply iter_prefix; [done | lia | lia].
  - rewrite entry_of_place. apply prefix_take.
  - rewrite entry_of_place. pose proof (whole_app (take n es) (drop n es) k ltac:(lia)) as Hw.
    rewrite take_drop, length_take_le in Hw by done.
    replace (take n es) with (take n (take (whole k es) es)) by (rewrite take_take; f_equal; lia). apply prefix_take.
Qed.

Definition sample_events : list wal_event :=
  [EBegin 1; EOp 1 "heap_set_xmax" [("table"%string, JStr "t"); ("rid"%string, JArr [JInt 0; JInt 3]); ("xmax"%string, JInt 1)];
   ESpill 10; ECommit 1; EBegin 2; EAbort 2].

(** The conditions on an entry, decided. *)
Definition entry_okb (e : entry) : bool :=
  (0 <=? en_txn e) && (en_txn e <? 2 ^ 32) && (blen (payload_body (en_payload e)) <? 2 ^ 32) && is_dict (en_payload e).
Lemma entry_okb_ok e : entry_okb e = true -> entry_ok e.
Proof. unfold entry_okb. intros [[[H1 H2]%andb_prop H3]%andb_prop H4]%andb_prop. constructor; [lia | lia | done]. Qed.

Lemma events_okb evs : forallb (fun ev => match event_entry ev with Some e => entry_okb e | None => true end) evs = true ->
  Forall event_ok evs.
Proof.
  rewrite forallb_forall. intros H. apply Forall_forall. intros ev Hev e He.
  specialize (H ev (proj1 (list_elem_of_In _ _) Hev)). rewrite He in H. by apply entry_okb_ok.
Qed.

Lemma wal_crash_safe_witness :
  exists w, run_events sample_events (wal_init (Some (encode_log []))) = (Ok tt, w) /\
    forall k, blen (wal_durable w) <= k <= blen (wal_log w) ->
    exists rs, read_records (take (Z.to_nat k) (wal_log w)) = Ok rs /\
      (entry_of <$> rs) `prefix_of` fst (abs_events sample_events ([], length (@nil entry))) /\
      take (snd (abs_events sample_events ([], length (@nil entry)))) (fst (abs_events sample_events ([], length (@nil entry))))
        `prefix_of` (entry_of <$> rs).
Proof. apply wal_crash_safe; [constructor | apply events_okb; vm_compute; reflexivity]. Defined.

(** What is logged and flushed is read back: the same entries, in order,
    each with the file offset its logging call returned it at. *)
Theorem wal_roundtrip es0 evs :
  Forall entry_ok es0 -> Forall event_ok evs ->
  exists w, (run_events evs;; wal_flush;; read_all) (wal_init (Some (encode_log es0))) =
    (Ok (place 0 (fst (abs_events evs (es0, length es0)))), w).
Proof.
  intros H0 Hev. destruct (run_events_ok [] evs _ _ _ (wal_init_log es0 H0) Hev) as ([] & w & Hrun & Hw).
  destruct (flush_ok _ _ _ _ Hw) as ([] & w2 & Hf & [_ Hl Hd Hn He]). exists w2.
  rewrite (bind_ok _ _ _ _ _ Hrun), (bind_ok _ _ _ _ _ Hf). unfold read_all. rewrite bind_gets. unfold lift_result.
  f_equal. rewrite firstn_all in Hd. unfold wal_log, wal_file in Hl. rewrite Hd in Hl. unfold wal_file. rewrite Hd.
  assert (wal_written w2 = []) as ->.
  { apply (f_equal length) in Hl. rewrite !length_app in Hl. destruct (wal_written w2); [done | simpl in Hl; lia]. }
  rewrite app_nil_r. by apply read_records_log.
Qed.

Lemma wal_roundtrip_witness :
  exists w, (run_events sample_events;; wal_flush;; read_all) (wal_init (Some (encode_log []))) =
    (Ok (place 0 (fst (abs_events sample_events ([], length (@nil entry))))), w).
Proof. apply wal_roundtrip; [constructor | apply events_okb; vm_compute; reflexivity]. Defined.

(** Reading a log terminates on any bytes whatsoever, with records or with
    an exception. *)
Theorem read_records_terminates bs : read_records bs <> Raise Diverges.
Proof. apply iter_terminates. lia. Qed.

(** * Behind a torn record *)

Lemma place_app off es es' : place off (es ++ es') = place off es ++ place (off + blen (encode_log es)) es'.
Proof.
  revert off. induction es as [|e es IH]; intros off.
  - cbn. by rewrite Z.add_0_r.
  - cbn [app place]. rewrite IH. unfold encode_log. rewrite bind_cons, blen_app. by rewrite Z.add_assoc.
Qed.

Lemma iter_log es : Forall entry_ok es -> forall fuel off rest,
  iter_records (length es + fuel) off (encode_log es ++ rest) =
    (rs ← iter_records fuel (off + blen (encode_log es)) rest; Ok (place off es ++ rs)).
Proof.
  induction 1 as [|e es He _ IH]; intros fuel off rest.
  - cbn. rewrite Z.add_0_r. by destruct (iter_records fuel off rest).
  - unfold encode_log in *. rewrite bind_cons, <- app_assoc. cbn [length Nat.add place app]. rewrite iter_step, IH by done.
    rewrite blen_app, Z.add_assoc. by destruct (iter_records fuel _ rest).
Qed.

Lemma encode_log_length es : (length es <= length (encode_log es))%nat.
Proof.
  induction es as [|e es IH]; [done|]. unfold encode_log in *. rewrite bind_cons, length_app. cbn [length].
  pose proof (blen_encode_entry e). pose proof (blen_nonneg (payload_body (en_payload e))). unfold blen in *. lia.
Qed.

(** A record whose header survived, with fewer bytes behind it than its body needs. *)
Lemma iter_short fuel off e rest : entry_ok e -> blen rest < blen (payload_body (en_payload e)) ->
  iter_records (S fuel) off (take 9 (encode_entry e) ++ rest) = Ok [].
Proof.
  intros He Hr. cbn [iter_records]. pose proof (blen_nonneg rest).
  assert (take 9 (encode_entry e) ++ rest = le_enc 1 (RecordType_code (en_type e)) ++ le_enc 4 (en_txn e) ++
    le_enc 4 (blen (payload_body (en_payload e))) ++ rest) as ->.
  { unfold encode_entry. rewrite !take_app, !length_le_enc, !take_ge by (rewrite ?length_le_enc; lia).
    cbn [Nat.sub]. rewrite take_0, app_nil_r. by rewrite <- !app_assoc. }
  destruct (header_fields e rest He) as (-> & -> & -> & ->). case_match; [done|]. cbn [mbind result_bind].
  rewrite take_ge by (unfold blen in *; lia). by replace (blen rest <? _) with true by lia.
Qed.

(** Opening the log after a crash appends behind the torn record, which is
    never removed: when the header of a record survived the crash, a later
    transaction can be committed and flushed and still be invisible to every
    reader, because its bytes are taken for the missing body. *)
Theorem torn_tail_hides_commit es e j t :
  Forall entry_ok es -> entry_ok e -> 0 <= j -> j + 18 < blen (payload_body (en_payload e)) -> 0 <= t < 2 ^ 32 ->
  let img := encode_log es ++ take (9 + Z.to_nat j) (encode_entry e) in
  read_records img = Ok (place 0 es) /\
  exists w, (log_begin t;; log_commit t;; read_all) (wal_init (Some img)) = (Ok (place 0 es), w) /\
    wal_durable w = img ++ encode_log [mkEntry BEGIN t (JObj []); mkEntry COMMIT t (JObj [])].
Proof.
  intros Hes He Hj Hlen Ht img. pose proof (blen_encode_entry e) as Hb.
  assert (take (9 + Z.to_nat j) (encode_entry e) = take 9 (encode_entry e) ++ take (Z.to_nat j) (payload_body (en_payload e))) as E.
  { rewrite <- take_take_drop. do 2 f_equal. }
  assert (forall rest, blen rest + j < blen (payload_body (en_payload e)) -> read_records (img ++ rest) = Ok (place 0 es)) as Hread.
  { intros rest Hrest. unfold read_records, img. pose proof (encode_log_length es).
    rewrite <- app_assoc, E, <- app_assoc. set (r := take (Z.to_nat j) _ ++ rest).
    assert (blen r < blen (payload_body (en_payload e))) as Hr by (unfold r; rewrite blen_app, blen_take by (pose proof (blen_nonneg rest); lia); lia).
    assert (exists m, S (length (encode_log es ++ take 9 (encode_entry e) ++ r)) = (length es + S m)%nat) as [m ->].
    { exists (length (encode_log es ++ take 9 (encode_entry e) ++ r) - length es)%nat. rewrite length_app. lia. }
    rewrite iter_log, iter_short by done. cbn [mbind result_bind]. by rewrite app_nil_r. }
  split; [rewrite <- (app_nil_r img); apply Hread; rewrite blen_nil; lia|].
  assert (entry_ok (mkEntry BEGIN t (JObj []))) as H1 by (by constructor).
  assert (entry_ok (mkEntry COMMIT t (JObj []))) as H2 by (by constructor).
  destruct (append_ok img _ _ _ _ (wal_init_is img) H1) as (o1 & w1 & Hr1 & _ & Hw1).
  destruct (append_ok img _ _ _ _ Hw1 H2) as (o2 & w2 & Hr2 & _ & Hw2).
  destruct (flush_ok _ _ _ _ Hw2) as ([] & w3 & Hr3 & [_ Hl3 Hd3 _ _]). exists w3.
  rewrite firstn_all in Hd3. cbn [app] in *. split; [| done].
  unfold log_begin. rewrite (bind_ok _ _ _ _ _ Hr1). unfold log_commit.
  rewrite (bind_ok _ _ _ o2 w3) by (rewrite (bind_ok _ _ _ _ _ Hr2), (bind_ok _ _ _ _ _ Hr3); reflexivity).
  unfold read_all. rewrite bind_gets. unfold lift_result. f_equal. unfold wal_log, wal_file in *. rewrite Hd3 in Hl3 |- *.
  assert (wal_written w3 = []) as ->.
  { apply (f_equal length) in Hl3. rewrite !length_app in Hl3. destruct (wal_written w3); [done | simpl in Hl3; lia]. }
  rewrite app_nil_r. apply Hread. change (blen (encode_log _)) with 18. lia.
Qed.

Lemma torn_tail_hides_commit_witness :
  let e := mkEntry OP 1 (JObj [("kind"%string, JStr "heap_insert"); ("table"%string, JStr "t")]) in
  let img := encode_log [mkEntry BEGIN 1 (JObj [])] ++ take (9 + Z.to_nat 5) (encode_entry e) in
  read_records img = Ok (place 0 [mkEntry BEGIN 1 (JObj [])]) /\
  exists w, (log_begin 2;; log_commit 2;; read_all) (wal_init (Some img)) = (Ok (place 0 [mkEntry BEGIN 1 (JObj [])]), w) /\
    wal_durable w = img ++ encode_log [mkEntry BEGIN 2 (JObj []); mkEntry COMMIT 2 (JObj [])].
Proof.
  apply (torn_tail_hides_commit [mkEntry BEGIN 1 (JObj [])]
    (mkEntry OP 1 (JObj [("kind"%string, JStr "heap_insert"); ("table"%string, JStr "t")])) 5 2).
  - apply Forall_singleton. apply entry_okb_ok. vm_compute. reflexivity.
  - apply entry_okb_ok. vm_compute. reflexivity.
  - done.
  - vm_compute. reflexivity.
  - done.
Defined.

(** * The suffix behind the last checkpoint *)

Lemma last_checkpoint_snoc rs r i last :
  last_checkpoint_from (rs ++ [r]) i last =
    if decide (lr_type r = CHECKPOINT) then Some (i + length rs)%nat else last_checkpoint_from rs i last.
Proof.
  revert i last. induction rs as [|x rs IH]; intros i last; cbn [app last_checkpoint_from length].
  - by rewrite Nat.add_0_r.
  - rewrite IH. case_decide; [f_equal; lia | done].
Qed.

Lemma last_checkpoint_bound rs i last j : last_checkpoint_from rs i last = Some j -> last = Some j \/ (i <= j < i + length rs)%nat.
Proof.
  revert i last. induction rs as [|x rs IH]; intros i last H; cbn [last_checkpoint_from length] in *; [by left|].
  apply IH in H as [H|H]; [| right; lia]. case_decide; [simplify_eq; right; lia | by left].
Qed.

Lemma since_snoc rs r : since_last_checkpoint (rs ++ [r]) =
  if decide (lr_type r = CHECKPOINT) then [] else since_last_checkpoint rs ++ [r].
Proof.
  unfold since_last_checkpoint. rewrite last_checkpoint_snoc. case_decide.
  - apply drop_ge. rewrite length_app. simpl. lia.
  - destruct (last_checkpoint_from rs 0 None) as [j|] eqn:E; [| done].
    apply last_checkpoint_bound in E as [E|E]; [done|]. apply drop_app_le. lia.
Qed.

(** [read_since_last_checkpoint] keeps exactly the records behind the last
    CHECKPOINT: a suffix without checkpoints that is preceded by one, or by nothing. *)
Theorem since_checkpoint_suffix rs :
  exists pre, rs = pre ++ since_last_checkpoint rs /\
    Forall (fun r => lr_type r <> CHECKPOINT) (since_last_checkpoint rs) /\
    (pre = [] \/ exists c, last pre = Some c /\ lr_type c = CHECKPOINT).
Proof.
  induction rs as [|r rs IH] using rev_ind; [exists []; split_and!; (done || by left)|].
  destruct IH as (pre & E & Hf & Hp). rewrite since_snoc. case_decide as Hr.
  - exists (rs ++ [r]). split_and!; [by rewrite app_nil_r | constructor | right]. exists r. by rewrite last_snoc.
  - exists pre. split_and!; [by rewrite app_assoc, <- E | | done]. apply Forall_app. split; [done | by apply Forall_singleton].
Qed.

(** Every operation on a closed log raises, and writes nothing. *)
Lemma wal_append_closed w t x p : wal_open w = false -> wal_append t x p w = (Raise ValueError, w).
Proof.
  intros H. unfold wal_append, wal_check_open. rewrite (bind_raise _ _ _ ValueError w); [done|].
  rewrite bind_gets, H. reflexivity.
Qed.

Lemma append_refused w t x p :
  wal_open w = true -> ~ (0 <= x < 2 ^ 32 /\ blen (payload_body p) < 2 ^ 32) ->
  wal_append t x p w = (Raise StructError, w).
Proof.
  intros Ho Hbad. unfold wal_append, wal_check_open. rewrite (bind_ok _ _ _ tt w) by (by rewrite bind_gets, Ho).
  rewrite bind_gets. rewrite (bind_raise _ _ _ StructError w); [done|]. unfold lift_result, pack_header.
  rewrite (pack_u_in_range 1) by apply RecordType_code_range. cbn [mbind result_bind].
  unfold pack_u. pose proof (blen_nonneg (payload_body p)). change (256 ^ Z.of_nat 4) with (2 ^ 32).
  destruct ((0 <=? x) && (x <? 2 ^ 32)) eqn:E; cbn [mbind result_bind]; [| done].
  replace ((0 <=? blen (payload_body p)) && (blen (payload_body p) <? 2 ^ 32)) with false by lia. done.
Qed.

(** A record that does not fit its 32-bit header fields is refused, and
    not one byte of it reaches the log. *)
Theorem wal_append_error w t x p :
  wal_open w = true -> ~ (0 <= x < 2 ^ 32 /\ blen (payload_body p) < 2 ^ 32) ->
  wal_append t x p w = (Raise StructError, w).
Proof. apply append_refused. Qed.

Lemma wal_append_error_witness : wal_append BEGIN (-1) (JObj []) (wal_init None) = (Raise StructError, wal_init None).
Proof. apply wal_append_error; [done | lia]. Defined.
