(* ===== verification/Transaction.v ===== *)
(** Transactions and recovery decisions ([src/minirel/transaction.py]). The
    Transaction objects a manager handed out live in a store of the model,
    under their id (a manager never hands out an id twice), so that [commit]
    and [abort] change the object their caller holds. *)
From stdpp Require Import base numbers list gmap strings.
From Stdlib Require Import ZArith Lia Strings.Byte.
From S2P Require Import Prelude PyNum Types Json Wal.

Local Open Scope Z_scope.

(** * Definitions *)

Inductive TxnState : Set := ACTIVE | COMMITTED | ABORTED.

#[global] Instance TxnState_eq_dec : EqDecision TxnState.
Proof. solve_decision. Defined.

Record Snapshot : Type := mkSnapshot { xid : Z; active_xids : gset Z }.

Definition committed_before (s : Snapshot) (other_xid : Z) : bool :=
  (other_xid <? xid s) && negb (bool_decide (other_xid ∈ active_xids s)).

Record Transaction : Type := mkTxn { txn_id : Z; snapshot : Snapshot; state : TxnState }.

Record TransactionManager : Type := mkTM {
  tm_wal : WriteAheadLog;
  tm_next_txn_id : Z;
  tm_active_xids : gset Z;
  tm_aborted_xids : gset Z;
  tm_txns : gmap Z Transaction }.

Definition tm_init (wal : WriteAheadLog) (next_txn_id : Z) (initial_aborted_xids : gset Z) : TransactionManager :=
  mkTM wal next_txn_id ∅ initial_aborted_xids ∅.

Definition set_wal w m := mkTM w (tm_next_txn_id m) (tm_active_xids m) (tm_aborted_xids m) (tm_txns m).
Definition set_next n m := mkTM (tm_wal m) n (tm_active_xids m) (tm_aborted_xids m) (tm_txns m).
Definition set_active a m := mkTM (tm_wal m) (tm_next_txn_id m) a (tm_aborted_xids m) (tm_txns m).
Definition set_aborted a m := mkTM (tm_wal m) (tm_next_txn_id m) (tm_active_xids m) a (tm_txns m).
Definition set_txn i t m := mkTM (tm_wal m) (tm_next_txn_id m) (tm_active_xids m) (tm_aborted_xids m) (<[i := t]> (tm_txns m)).

(** A call of the log the manager shares. *)
Definition on_wal {A} (op : M WriteAheadLog A) : M TransactionManager A := fun m =>
  let '(r, w) := op (tm_wal m) in (r, set_wal w m).

Definition has_active_transactions (m : TransactionManager) : bool := negb (bool_decide (tm_active_xids m = ∅)).

Definition begin : M TransactionManager Z :=
  txn_id ← gets tm_next_txn_id;
  modify (set_next (txn_id + 1));;
  active ← gets tm_active_xids;
  let snapshot := mkSnapshot txn_id active in
  modify (set_active ({[txn_id]} ∪ active));;
  on_wal (log_begin txn_id);;
  modify (set_txn txn_id (mkTxn txn_id snapshot ACTIVE));;
  mret txn_id.

(** The object behind a reference. *)
Definition get_txn (i : Z) : M TransactionManager Transaction :=
  txns ← gets tm_txns;
  match txns !! i with Some t => mret t | None => raise KeyError end.

Definition commit (i : Z) : M TransactionManager unit :=
  txn ← get_txn i;
  if decide (state txn = ACTIVE) then
    on_wal (log_commit (txn_id txn));;
    modify (fun m => set_active (tm_active_xids m ∖ {[txn_id txn]}) m);;
    modify (set_txn i (mkTxn (txn_id txn) (snapshot txn) COMMITTED))
  else raise ValueError.

Definition abort (i : Z) : M TransactionManager unit :=
  txn ← get_txn i;
  if decide (state txn = ACTIVE) then
    on_wal (log_abort (txn_id txn));;
    modify (fun m => set_active (tm_active_xids m ∖ {[txn_id txn]}) m);;
    modify (fun m => set_aborted ({[txn_id txn]} ∪ tm_aborted_xids m) m);;
    modify (set_txn i (mkTxn (txn_id txn) (snapshot txn) ABORTED))
  else raise ValueError.

(** [Transaction.log_operation] *)
Definition txn_log_operation (i : Z) (kind : string) (fields : list (string * json)) : M TransactionManager unit :=
  txn ← get_txn i;
  on_wal (log_operation (txn_id txn) kind fields);; mret tt.

Definition is_visible (m : TransactionManager) (xmin xmax : Z) (s : Snapshot) : bool :=
  if bool_decide (xmin ∈ tm_aborted_xids m) then false else
  let xmin_visible := (xmin =? xid s) || committed_before s xmin in
  if negb xmin_visible then false else
  if (xmax =? INFINITY_TXN) || bool_decide (xmax ∈ tm_aborted_xids m) then true else
  let xmax_visible := (xmax =? xid s) || committed_before s xmax in
  negb xmax_visible.

Definition check_write_conflict (m : TransactionManager) (txn : Transaction) (current_xmax : Z) : result unit :=
  if current_xmax =? INFINITY_TXN then Ok tt
  else if current_xmax =? txn_id txn then Ok tt
  else if bool_decide (current_xmax ∈ tm_aborted_xids m) then Ok tt
  else Raise WriteConflictError.

(** ** What recovery reads off the log *)

Definition ids_of (t : RecordType) (records : list LogRecord) : gset Z :=
  list_to_set (lr_txn_id <$> filter (fun r => lr_type r = t) records).

Definition committed_operations (records : list LogRecord) : list LogRecord :=
  let committed_txns := ids_of COMMIT records in
  filter (fun r => lr_type r = OP /\ lr_txn_id r ∈ committed_txns) records.

Definition committed_operations_since_checkpoint : M WriteAheadLog (list LogRecord) :=
  records ← read_since_last_checkpoint; mret (committed_operations records).

Definition uncommitted_txn_ids (records : list LogRecord) : gset Z :=
  ids_of BEGIN records ∖ ids_of COMMIT records.

Definition uncommitted_txn_ids_since_checkpoint : M WriteAheadLog (gset Z) :=
  records ← read_since_last_checkpoint; mret (uncommitted_txn_ids records).

Definition max_txn_id (records : list LogRecord) : Z := foldl (fun mx r => Z.max mx (lr_txn_id r)) 0 records.

Definition next_txn_id_after_recovery : M WriteAheadLog Z :=
  records ← read_all; mret (max_txn_id records + 1).

(** The part of [Database.__init__] that builds the manager. *)
Definition recovered_manager : M WriteAheadLog TransactionManager :=
  next_id ← next_txn_id_after_recovery;
  aborted ← uncommitted_txn_ids_since_checkpoint;
  w ← gets id;
  mret (tm_init w next_id aborted).

(** * Histories *)

Inductive hist_event : Type :=
| HBegin (i : Z)
| HCommit (i : Z)
| HAbort (i : Z)
| HLog (i : Z) (kind : string) (fields : list (string * json)).

Definition payload_of (kind : string) (fields : list (string * json)) : json :=
  JObj (("kind"%string, JStr kind) :: fields).

(** A manager's states, with the successful calls that led there. *)
Inductive tm_reach (m0 : TransactionManager) : list hist_event -> TransactionManager -> Prop :=
| tr_init : tm_reach m0 [] m0
| tr_begin h m i m' : tm_reach m0 h m -> begin m = (Ok i, m') -> tm_reach m0 (h ++ [HBegin i]) m'
| tr_commit h m i m' : tm_reach m0 h m -> commit i m = (Ok tt, m') -> tm_reach m0 (h ++ [HCommit i]) m'
| tr_abort h m i m' : tm_reach m0 h m -> abort i m = (Ok tt, m') -> tm_reach m0 (h ++ [HAbort i]) m'
| tr_log h m i kind fields m' : tm_reach m0 h m -> is_dict (payload_of kind fields) = true ->
    txn_log_operation i kind fields m = (Ok tt, m') -> tm_reach m0 (h ++ [HLog i kind fields]) m'.

(** The part of a history before a transaction began. *)
Fixpoint hist_before (i : Z) (h : list hist_event) : list hist_event :=
  match h with
  | [] => []
  | e :: h' => match e with
               | HBegin j => if decide (j = i) then [] else e :: hist_before i h'
               | _ => e :: hist_before i h'
               end
  end.

Definition in_flight (h : list hist_event) (x : Z) : Prop := HBegin x ∈ h /\ HCommit x ∉ h /\ HAbort x ∉ h.

(** What a manager started with [first] and [ab0] is after history [h]. *)
Record tm_inv (first : Z) (ab0 : gset Z) (h : list hist_event) (m : TransactionManager) : Prop := {
  ti_begun x : HBegin x ∈ h <-> first <= x < tm_next_txn_id m;
  ti_first : first <= tm_next_txn_id m;
  ti_active x : x ∈ tm_active_xids m <-> in_flight h x;
  ti_aborted x : x ∈ tm_aborted_xids m <-> x ∈ ab0 \/ HAbort x ∈ h;
  ti_commit_begun x : HCommit x ∈ h -> HBegin x ∈ h /\ HAbort x ∉ h;
  ti_abort_begun x : HAbort x ∈ h -> HBegin x ∈ h;
  ti_log_begun x k f : HLog x k f ∈ h -> HBegin x ∈ h;
  ti_txn i t : tm_txns m !! i = Some t ->
    txn_id t = i /\ HBegin i ∈ h /\ xid (snapshot t) = i /\
    (forall x, x ∈ active_xids (snapshot t) <-> in_flight (hist_before i h) x) /\
    (forall x, (HBegin x ∈ hist_before i h <-> first <= x < i) /\
               (HCommit x ∈ hist_before i h -> HBegin x ∈ hist_before i h)) /\
    match state t with
    | ACTIVE => HCommit i ∉ h /\ HAbort i ∉ h
    | COMMITTED => HCommit i ∈ h
    | ABORTED => HAbort i ∈ h
    end }.

(** ** The effect of each successful call *)

Lemma on_wal_eq {A} (op : M WriteAheadLog A) m : on_wal op m = (fst (op (tm_wal m)), set_wal (snd (op (tm_wal m))) m).
Proof. unfold on_wal. by destruct (op (tm_wal m)). Qed.

Lemma begin_inv m i m' : begin m = (Ok i, m') ->
  exists off w, i = tm_next_txn_id m /\ log_begin i (tm_wal m) = (Ok off, w) /\
    m' = mkTM w (i + 1) ({[i]} ∪ tm_active_xids m) (tm_aborted_xids m)
           (<[i := mkTxn i (mkSnapshot i (tm_active_xids m)) ACTIVE]> (tm_txns m)).
Proof.
  unfold begin. mstep. cbn [set_next tm_active_xids]. unfold mbind at 1, M_bind.
  rewrite on_wal_eq. cbn [tm_wal set_active set_next]. destruct (log_begin (tm_next_txn_id m) (tm_wal m)) as [[off|e] w] eqn:E;
    cbn [fst snd]; cbv iota beta; [| done]. intros [= <- <-]. by exists off, w.
Qed.

Lemma get_txn_Some i m t : tm_txns m !! i = Some t -> get_txn i m = (Ok t, m).
Proof. intros H. unfold get_txn. rewrite bind_gets, H. done. Qed.

Lemma get_txn_None i m : tm_txns m !! i = None -> get_txn i m = (Raise KeyError, m).
Proof. intros H. unfold get_txn. rewrite bind_gets, H. done. Qed.

Lemma commit_inv m i m' : commit i m = (Ok tt, m') ->
  exists t off w, tm_txns m !! i = Some t /\ state t = ACTIVE /\ log_commit (txn_id t) (tm_wal m) = (Ok off, w) /\
    m' = mkTM w (tm_next_txn_id m) (tm_active_xids m ∖ {[txn_id t]}) (tm_aborted_xids m)
           (<[i := mkTxn (txn_id t) (snapshot t) COMMITTED]> (tm_txns m)).
Proof.
  unfold commit. destruct (tm_txns m !! i) as [t|] eqn:Et;
    [rewrite (bind_ok _ _ _ _ _ (get_txn_Some _ _ _ Et)) | by rewrite (bind_raise _ _ _ _ _ (get_txn_None _ _ Et))].
  case_decide as Hs; [| done]. unfold mbind at 1, M_bind. rewrite on_wal_eq.
  destruct (log_commit (txn_id t) (tm_wal m)) as [[off|e] w] eqn:E; cbn [fst snd]; cbv iota beta; [| done].
  intros [= <-]. by exists t, off, w.
Qed.

Lemma abort_inv m i m' : abort i m = (Ok tt, m') ->
  exists t off w, tm_txns m !! i = Some t /\ state t = ACTIVE /\ log_abort (txn_id t) (tm_wal m) = (Ok off, w) /\
    m' = mkTM w (tm_next_txn_id m) (tm_active_xids m ∖ {[txn_id t]}) ({[txn_id t]} ∪ tm_aborted_xids m)
           (<[i := mkTxn (txn_id t) (snapshot t) ABORTED]> (tm_txns m)).
Proof.
  unfold abort. destruct (tm_txns m !! i) as [t|] eqn:Et;
    [rewrite (bind_ok _ _ _ _ _ (get_txn_Some _ _ _ Et)) | by rewrite (bind_raise _ _ _ _ _ (get_txn_None _ _ Et))].
  case_decide as Hs; [| done]. unfold mbind at 1, M_bind. rewrite on_wal_eq.
  destruct (log_abort (txn_id t) (tm_wal m)) as [[off|e] w] eqn:E; cbn [fst snd]; cbv iota beta; [| done].
  intros [= <-]. by exists t, off, w.
Qed.

Lemma log_inv m i kind fields m' : txn_log_operation i kind fields m = (Ok tt, m') ->
  exists t off w, tm_txns m !! i = Some t /\ log_operation (txn_id t) kind fields (tm_wal m) = (Ok off, w) /\ m' = set_wal w m.
Proof.
  unfold txn_log_operation. destruct (tm_txns m !! i) as [t|] eqn:Et;
    [rewrite (bind_ok _ _ _ _ _ (get_txn_Some _ _ _ Et)) | by rewrite (bind_raise _ _ _ _ _ (get_txn_None _ _ Et))].
  unfold mbind at 1, M_bind. rewrite on_wal_eq.
  destruct (log_operation (txn_id t) kind fields (tm_wal m)) as [[off|e] w] eqn:E; cbn [fst snd]; cbv iota beta; [| done].
  intros [= <-]. by exists t, off, w.
Qed.

(** ** Histories grow at the end *)

Lemma hist_before_new i h : HBegin i ∉ h -> hist_before i (h ++ [HBegin i]) = h.
Proof.
  induction h as [|e h IH]; intros H; cbn [app hist_before]; [by rewrite decide_True|].
  apply not_elem_of_cons in H as [H1 H2]. rewrite IH by done. destruct e; try done. by rewrite decide_False by congruence.
Qed.

Lemma hist_before_snoc i h e : HBegin i ∈ h -> hist_before i (h ++ [e]) = hist_before i h.
Proof.
  induction h as [|e' h IH]; intros H; [by apply not_elem_of_nil in H|]. cbn [app hist_before].
  apply elem_of_cons in H as [<-|H]; [by rewrite !decide_True|]. rewrite IH by done. done.
Qed.

Lemma hist_before_sub i h e : e ∈ hist_before i h -> e ∈ h.
Proof.
  induction h as [|e' h IH]; cbn [hist_before]; [done|]. intros H. apply elem_of_cons.
  destruct e'; try (apply elem_of_cons in H as [->|H]; [by left | right; auto]).
  case_decide; [by apply not_elem_of_nil in H|]. apply elem_of_cons in H as [->|H]; [by left | right; auto].
Qed.

Lemma tm_init_inv w first ab0 : tm_inv first ab0 [] (tm_init w first ab0).
Proof.
  constructor; cbn [tm_init tm_next_txn_id tm_active_xids tm_aborted_xids tm_txns].
  - intros x. rewrite elem_of_nil. lia.
  - lia.
  - intros x. unfold in_flight. rewrite elem_of_nil, elem_of_empty. tauto.
  - intros x. rewrite elem_of_nil. tauto.
  - intros x. rewrite elem_of_nil. tauto.
  - intros x. rewrite elem_of_nil. tauto.
  - intros x k f. rewrite elem_of_nil. tauto.
  - intros i t. by rewrite lookup_empty.
Qed.

Lemma elem_snoc_other (e e' : hist_event) h : e <> e' -> e ∈ h ++ [e'] <-> e ∈ h.
Proof. intros Hne. rewrite elem_of_app, list_elem_of_singleton. tauto. Qed.

Lemma elem_snoc (e e' : hist_event) h : e ∈ h ++ [e'] <-> e ∈ h \/ e = e'.
Proof. by rewrite elem_of_app, list_elem_of_singleton. Qed.

Lemma begin_keeps first ab0 h m i m' : tm_inv first ab0 h m -> begin m = (Ok i, m') ->
  tm_inv first ab0 (h ++ [HBegin i]) m'.
Proof.
  intros [Hb Hf Ha Hab Hcb Hxb Hlb Ht] (off & w & -> & _ & ->)%begin_inv. set (i := tm_next_txn_id m) in *.
  assert (HBegin i ∉ h) as Hi by (rewrite Hb; lia).
  assert (HCommit i ∉ h) as Hic by (intros H; apply Hcb in H as [? _]; auto).
  assert (HAbort i ∉ h) as Hia by (intros H; apply Hxb in H; auto).
  constructor; cbn [tm_next_txn_id tm_active_xids tm_aborted_xids tm_txns]; unfold in_flight.
  - intros x. rewrite elem_snoc, Hb. split; [intros [?|[= ->]]; unfold i in *; lia|].
    intros Hx. destruct (decide (x = i)) as [->|]; [by right | left; lia].
  - unfold i in *. lia.
  - intros x. rewrite elem_of_union, elem_of_singleton, Ha, elem_snoc, !elem_snoc_other by done. unfold in_flight. split.
    + intros [->|(H1 & H2 & H3)]; [| tauto]. split_and!; auto.
    + intros ([H1|[= ->]] & H2 & H3); [by right | by left].
  - intros x. by rewrite Hab, elem_snoc_other.
  - intros x. rewrite (elem_snoc (HBegin x)), !elem_snoc_other by done. intros H. destruct (Hcb x H). auto.
  - intros x. rewrite (elem_snoc (HBegin x)), !elem_snoc_other by done. auto.
  - intros x k f. rewrite (elem_snoc (HBegin x)), !elem_snoc_other by done. eauto.
  - intros j t Hj. destruct (decide (i = j)) as [<-|Hne].
    + rewrite lookup_insert_eq in Hj. injection Hj as <-. cbn [txn_id snapshot xid active_xids state].
      rewrite (hist_before_new i h), elem_snoc, !elem_snoc_other by done. split_and!; auto.
      intros x. split; [apply Hb | intros H; by apply Hcb].
    + rewrite lookup_insert_ne in Hj by done. destruct (Ht j t Hj) as (H1 & H2 & H3 & H4 & H5 & H6).
      rewrite hist_before_snoc by done.
      split_and!; auto; [rewrite elem_snoc; auto | destruct (state t); by rewrite !elem_snoc_other by done].
Qed.

(** Ending a transaction: the common part of [commit] and [abort]. *)
Section finish.
Context (first : Z) (ab0 : gset Z) (h : list hist_event) (m : TransactionManager) (i : Z) (t : Transaction).
Context (Hinv : tm_inv first ab0 h m) (Ht : tm_txns m !! i = Some t) (Hact : state t = ACTIVE).

Lemma finish_facts : txn_id t = i /\ HBegin i ∈ h /\ HCommit i ∉ h /\ HAbort i ∉ h.
Proof using All. destruct (ti_txn _ _ _ _ Hinv i t Ht) as (H1 & H2 & _ & _ & _ & H6). rewrite Hact in H6. tauto. Qed.

(** The other objects are unaffected by an event about [i]. *)
Lemma finish_other e st j u :
  (forall x, e = HCommit x -> x = i) -> (forall x, e = HAbort x -> x = i) -> (forall x, e <> HBegin x) ->
  match st with ACTIVE => False | COMMITTED => e = HCommit i | ABORTED => e = HAbort i end ->
  <[i := mkTxn (txn_id t) (snapshot t) st]> (tm_txns m) !! j = Some u ->
  txn_id u = j /\ HBegin j ∈ h ++ [e] /\ xid (snapshot u) = j /\
  (forall x, x ∈ active_xids (snapshot u) <-> in_flight (hist_before j (h ++ [e])) x) /\
  (forall x, (HBegin x ∈ hist_before j (h ++ [e]) <-> first <= x < j) /\
             (HCommit x ∈ hist_before j (h ++ [e]) -> HBegin x ∈ hist_before j (h ++ [e]))) /\
  match state u with
  | ACTIVE => HCommit j ∉ h ++ [e] /\ HAbort j ∉ h ++ [e]
  | COMMITTED => HCommit j ∈ h ++ [e]
  | ABORTED => HAbort j ∈ h ++ [e]
  end.
Proof using All.
  intros Hc Hx Hn Hst Hj. destruct (decide (i = j)) as [<-|Hne].
  - rewrite lookup_insert_eq in Hj. injection Hj as <-. cbn [txn_id snapshot state].
    destruct (ti_txn _ _ _ _ Hinv i t Ht) as (H1 & H2 & H3 & H4 & H5 & _). rewrite hist_before_snoc by done.
    split_and!; auto; [rewrite elem_snoc; auto|]. destruct st; rewrite ?elem_snoc; auto; done.
  - rewrite lookup_insert_ne in Hj by done. destruct (ti_txn _ _ _ _ Hinv j u Hj) as (H1 & H2 & H3 & H4 & H5 & H6).
    rewrite hist_before_snoc by done. split_and!; auto; [rewrite elem_snoc; auto|].
    destruct (state u); rewrite !elem_snoc; auto. destruct H6 as [H6 H7].
    split; (intros [?|E]; [done|]); [apply Hne; symmetry; by apply Hc | apply Hne; symmetry; by apply Hx].
Qed.
End finish.

Lemma commit_keeps first ab0 h m i m' : tm_inv first ab0 h m -> commit i m = (Ok tt, m') ->
  tm_inv first ab0 (h ++ [HCommit i]) m'.
Proof.
  intros Hinv (t & off & w & Ht & Hs & _ & ->)%commit_inv.
  destruct (finish_facts _ _ _ _ _ _ Hinv Ht Hs) as (Ei & H1 & H2 & H3).
  pose proof (finish_other _ _ _ _ _ _ Hinv Ht Hs (HCommit i) COMMITTED) as Hother.
  destruct Hinv as [Hb Hf Ha Hab Hcb Hxb Hlb _].
  constructor; cbn [tm_next_txn_id tm_active_xids tm_aborted_xids tm_txns]; unfold in_flight.
  - intros x. by rewrite elem_snoc_other.
  - done.
  - intros x. rewrite elem_of_difference, elem_of_singleton, Ha, Ei, (elem_snoc (HCommit x)), !elem_snoc_other by done.
    unfold in_flight. split.
    + intros ((Hx1 & Hx2 & Hx3) & Hne). split_and!; try done. intros [?|[= ->]]; done.
    + intros (Hx1 & Hx2 & Hx3). split_and!; try done; [by intros ?; apply Hx2; left | intros ->; apply Hx2; by right].
  - intros x. by rewrite Hab, elem_snoc_other.
  - intros x. rewrite (elem_snoc (HCommit x)), !elem_snoc_other by done. intros [H|[= ->]]; [by apply Hcb | done].
  - intros x. rewrite !elem_snoc_other by done. auto.
  - intros x k f. rewrite !elem_snoc_other by done. eauto.
  - intros j u. apply Hother; [by intros ? [= ->] | by intros ? [=] | done | done].
Qed.

Lemma abort_keeps first ab0 h m i m' : tm_inv first ab0 h m -> abort i m = (Ok tt, m') ->
  tm_inv first ab0 (h ++ [HAbort i]) m'.
Proof.
  intros Hinv (t & off & w & Ht & Hs & _ & ->)%abort_inv.
  destruct (finish_facts _ _ _ _ _ _ Hinv Ht Hs) as (Ei & H1 & H2 & H3).
  pose proof (finish_other _ _ _ _ _ _ Hinv Ht Hs (HAbort i) ABORTED) as Hother.
  destruct Hinv as [Hb Hf Ha Hab Hcb Hxb Hlb _].
  constructor; cbn [tm_next_txn_id tm_active_xids tm_aborted_xids tm_txns]; unfold in_flight.
  - intros x. by rewrite elem_snoc_other.
  - done.
  - intros x. rewrite elem_of_difference, elem_of_singleton, Ha, Ei, (elem_snoc (HAbort x)), !elem_snoc_other by done.
    unfold in_flight. split.
    + intros ((Hx1 & Hx2 & Hx3) & Hne). split_and!; try done. intros [?|[= ->]]; done.
    + intros (Hx1 & Hx2 & Hx3). split_and!; try done; [by intros ?; apply Hx3; left | intros ->; apply Hx3; by right].
  - intros x. rewrite elem_of_union, elem_of_singleton, Hab, Ei, elem_snoc. split; [| intros [?|[?|[= ->]]]; auto].
    intros [->|[?|?]]; auto.
  - intros x. rewrite (elem_snoc (HAbort x)), !elem_snoc_other by done. intros H. destruct (Hcb x H) as [Hc1 Hc2].
    split; [done|]. intros [?|[= ->]]; done.
  - intros x. rewrite (elem_snoc (HAbort x)), !elem_snoc_other by done. intros [H|[= ->]]; [auto | done].
  - intros x k f. rewrite !elem_snoc_other by done. eauto.
  - intros j u. apply Hother; [by intros ? [=] | by intros ? [= ->] | done | done].
Qed.

Lemma log_keeps first ab0 h m i kind fields m' : tm_inv first ab0 h m -> txn_log_operation i kind fields m = (Ok tt, m') ->
  tm_inv first ab0 (h ++ [HLog i kind fields]) m'.
Proof.
  intros Hinv (t & off & w & Ht & _ & ->)%log_inv. destruct Hinv as [Hb Hf Ha Hab Hcb Hxb Hlb Htx].
  constructor; cbn [set_wal tm_next_txn_id tm_active_xids tm_aborted_xids tm_txns]; unfold in_flight.
  - intros x. by rewrite elem_snoc_other.
  - done.
  - intros x. by rewrite !elem_snoc_other.
  - intros x. by rewrite elem_snoc_other.
  - intros x. rewrite !elem_snoc_other by done. auto.
  - intros x. rewrite !elem_snoc_other by done. auto.
  - intros x k f. rewrite elem_snoc, elem_snoc_other by done. intros [H|[= -> -> ->]]; [by eapply Hlb|].
    by destruct (Htx i t Ht) as (_ & ? & _).
  - intros j u Hj. destruct (Htx j u Hj) as (H1 & H2 & H3 & H4 & H5 & H6). rewrite hist_before_snoc by done.
    split_and!; try done; [by rewrite elem_snoc_other|]. destruct (state u); by rewrite !elem_snoc_other.
Qed.

(** The invariant holds in every reachable state. *)
Lemma reach_inv w first ab0 h m : tm_reach (tm_init w first ab0) h m -> tm_inv first ab0 h m.
Proof.
  remember (tm_init w first ab0) as m0 eqn:E. induction 1; subst.
  - apply tm_init_inv.
  - eapply begin_keeps; eauto.
  - eapply commit_keeps; eauto.
  - eapply abort_keeps; eauto.
  - eapply log_keeps; eauto.
Qed.

(** * Visibility *)

Definition is_commit (x : Z) (e : hist_event) : Prop := match e with HCommit i => i = x | _ => False end.

#[local] Instance is_commit_dec x e : Decision (is_commit x e).
Proof. destruct e; cbn; apply _. Defined.

#[local] Instance commit_in_dec x (h : list hist_event) : Decision (HCommit x ∈ h).
Proof.
  destruct (decide (Exists (is_commit x) h)) as [H|H]; [left | right; intros Hin; apply H]; rewrite Exists_exists in *.
  - destruct H as ([i|i|i|i k f] & Hin & E); try done. by cbn in E; subst i.
  - by exists (HCommit x).
Defined.

(** The effects transaction [s] has in its snapshot: its own, those of a
    transaction of an earlier run that is not known to have failed, and those
    of a transaction that committed before [s] began. *)
Definition sees (first : Z) (ab0 : gset Z) (h : list hist_event) (s x : Z) : Prop :=
  (x = s /\ HAbort s ∉ h) \/ (x < first /\ x ∉ ab0) \/ HCommit x ∈ hist_before s h.

Section visibility.
Context (first : Z) (ab0 : gset Z) (h : list hist_event) (m : TransactionManager) (s : Z) (t : Transaction).
Context (Hab0 : forall x, x ∈ ab0 -> x < first) (Hinv : tm_inv first ab0 h m) (Ht : tm_txns m !! s = Some t).

Lemma sees_iff x :
  (x ∉ tm_aborted_xids m /\ ((x =? xid (snapshot t)) || committed_before (snapshot t) x = true)) <-> sees first ab0 h s x.
Proof using All.
  pose proof Hinv as [Hb Hf Ha Hab Hcb Hxb _ Htx]. destruct (Htx s t Ht) as (_ & Hs & Exid & Hact & Hbef & _).
  pose proof (proj1 (Hb s) Hs) as Hsr. unfold committed_before, sees. rewrite Hab.
  rewrite Exid, orb_true_iff, andb_true_iff, negb_true_iff, bool_decide_eq_false, Hact, Z.eqb_eq, Z.ltb_lt. split.
  - intros [Hna [->|[Hlt Hnf]]]; [left; tauto | right].
    destruct (Z_lt_ge_dec x first) as [Hx|Hx]; [left; tauto | right].
    destruct (decide (HCommit x ∈ hist_before s h)) as [|Hnc]; [done|]. exfalso. apply Hnf.
    unfold in_flight. split_and!; [apply (proj1 (Hbef x)); lia | done |].
    intros Hx'. apply Hna. right. by eapply hist_before_sub.
  - intros [[-> Hna]|[[Hx Hna]|Hc]].
    + split; [| by left]. intros [?%Hab0|?]; [lia | done].
    + split; [intros [?|Hx'%Hxb%Hb]; [done | lia]|]. right. split; [lia|].
      intros (Hx' & _). apply (proj1 (Hbef x)) in Hx'. lia.
    + destruct (Hbef x) as [Hbx Hcx]. pose proof (Hcx Hc) as Hbg. pose proof (proj1 Hbx Hbg).
      pose proof (hist_before_sub _ _ _ Hc) as Hch. destruct (Hcb x Hch) as [_ Hnx].
      split; [intros [?%Hab0|?]; [lia | done]|]. right. split; [lia|]. unfold in_flight. tauto.
Qed.

Lemma visible_iff xmin xmax :
  is_visible m xmin xmax (snapshot t) = true <->
  sees first ab0 h s xmin /\ (xmax = INFINITY_TXN \/ ~ sees first ab0 h s xmax).
Proof using All.
  rewrite <- !sees_iff. unfold is_visible.
  destruct (bool_decide_reflect (xmin ∈ tm_aborted_xids m)) as [Hm|Hm]; [split; [done | tauto]|].
  destruct ((xmin =? _) || _); cbn [negb]; [| split; [done | intros [[_ ?] _]; done]].
  destruct (Z.eqb_spec xmax INFINITY_TXN) as [->|Hx]; cbn [orb]; [tauto|].
  destruct (bool_decide_reflect (xmax ∈ tm_aborted_xids m)) as [Hxa|Hxa]; [tauto|].
  destruct ((xmax =? _) || _); cbn [negb]; [| naive_solver].
  split; [done|]. intros [_ [?|H]]; [done|]. exfalso. by apply H.
Qed.
End visibility.

(** C2: in every state a manager can reach, the (xmin, xmax) test decides
    snapshot isolation: a row version is visible to a transaction exactly when
    its creator is the transaction itself (and it did not abort), committed
    before the transaction began, or belongs to an earlier run that recovery
    did not mark as failed, and the same cannot be said of its deleter. *)
Theorem visibility_is_snapshot w first ab0 h m s t xmin xmax :
  (forall x, x ∈ ab0 -> x < first) -> tm_reach (tm_init w first ab0) h m -> tm_txns m !! s = Some t ->
  is_visible m xmin xmax (snapshot t) = true <->
  sees first ab0 h s xmin /\ (xmax = INFINITY_TXN \/ ~ sees first ab0 h s xmax).
Proof. intros Hab Hr Ht. apply visible_iff; [done | by eapply reach_inv | done]. Qed.

(** ** Longer histories *)

Lemma reach_trans m0 h m h2 m2 : tm_reach m0 h m -> tm_reach m h2 m2 -> tm_reach m0 (h ++ h2) m2.
Proof.
  intros Hr. induction 1; rewrite ?app_nil_r, ?app_assoc; [done | | | |]; econstructor; eauto.
Qed.

Lemma hist_before_app i h h2 : HBegin i ∈ h -> hist_before i (h ++ h2) = hist_before i h.
Proof.
  intros Hi. induction h2 as [|e h2 IH] using rev_ind; [by rewrite app_nil_r|].
  rewrite app_assoc, hist_before_snoc, IH; [done|]. apply elem_of_app. by left.
Qed.

(** An object's snapshot never changes. *)
Lemma reach_snapshot m h2 m2 : tm_reach m h2 m2 ->
  (forall i, is_Some (tm_txns m !! i) -> i < tm_next_txn_id m) ->
  tm_next_txn_id m <= tm_next_txn_id m2 /\
  forall i t, tm_txns m !! i = Some t -> exists t2, tm_txns m2 !! i = Some t2 /\ snapshot t2 = snapshot t /\ txn_id t2 = txn_id t.
Proof.
  intros Hr Hids. induction Hr as [|h m1 i m1' Hr IH Hb|h m1 i m1' Hr IH Hc|h m1 i m1' Hr IH Ha|h m1 i k f m1' Hr IH Hd Hl];
    [split; [lia | eauto] | destruct IH as [Hn IH] ..].
  - apply begin_inv in Hb as (off & w & -> & _ & ->). cbn [tm_next_txn_id tm_txns]. split; [lia|]. intros j t Hj.
    assert (j < tm_next_txn_id m) by (apply Hids; eauto). rewrite lookup_insert_ne by lia. auto.
  - apply commit_inv in Hc as (u & off & w & Hu & _ & _ & ->). cbn [tm_next_txn_id tm_txns]. split; [lia|]. intros j t Hj.
    destruct (IH j t Hj) as (t2 & H1 & H2 & H3). destruct (decide (i = j)) as [<-|]; [| rewrite lookup_insert_ne by done; eauto].
    rewrite lookup_insert_eq. eexists. split; [done|]. cbn. simplify_eq. done.
  - apply abort_inv in Ha as (u & off & w & Hu & _ & _ & ->). cbn [tm_next_txn_id tm_txns]. split; [lia|]. intros j t Hj.
    destruct (IH j t Hj) as (t2 & H1 & H2 & H3). destruct (decide (i = j)) as [<-|]; [| rewrite lookup_insert_ne by done; eauto].
    rewrite lookup_insert_eq. eexists. split; [done|]. cbn. simplify_eq. done.
  - apply log_inv in Hl as (u & off & w & _ & _ & ->). cbn [set_wal tm_next_txn_id tm_txns]. done.
Qed.

Lemma inv_ids first ab0 h m i : tm_inv first ab0 h m -> is_Some (tm_txns m !! i) -> i < tm_next_txn_id m.
Proof. intros Hinv [t Ht]. destruct (ti_txn _ _ _ _ Hinv i t Ht) as (_ & Hb%(ti_begun _ _ _ _ Hinv) & _). lia. Qed.

(** C18: repeatable reads: whatever other transactions do afterwards (begin,
    commit, abort, log), every row version stays as visible or invisible to a
    transaction as it was, until the transaction itself aborts. *)
Theorem snapshot_stable w first ab0 h m h2 m2 s t :
  (forall x, x ∈ ab0 -> x < first) -> tm_reach (tm_init w first ab0) h m -> tm_txns m !! s = Some t ->
  tm_reach m h2 m2 -> HAbort s ∉ h2 ->
  exists t2, tm_txns m2 !! s = Some t2 /\ snapshot t2 = snapshot t /\
    forall xmin xmax, is_visible m2 xmin xmax (snapshot t2) = is_visible m xmin xmax (snapshot t).
Proof.
  intros Hab Hr Ht Hr2 Hna. pose proof (reach_inv _ _ _ _ _ Hr) as Hinv.
  pose proof (reach_inv _ _ _ _ _ (reach_trans _ _ _ _ _ Hr Hr2)) as Hinv2.
  destruct (reach_snapshot m h2 m2 Hr2) as [_ Hsn]; [intros i; by eapply inv_ids|].
  destruct (Hsn s t Ht) as (t2 & Ht2 & Es & _). exists t2. split_and!; [done | done|]. intros xmin xmax.
  destruct (ti_txn _ _ _ _ Hinv s t Ht) as (_ & Hs & _).
  assert (forall x, sees first ab0 (h ++ h2) s x <-> sees first ab0 h s x) as Hsees.
  { intros x. unfold sees. rewrite hist_before_app, elem_of_app by done. tauto. }
  apply eq_true_iff_eq. rewrite (visible_iff _ _ _ _ _ _ Hab Hinv2 Ht2), (visible_iff _ _ _ _ _ _ Hab Hinv Ht).
  by rewrite !Hsees.
Qed.

(** * Write conflicts *)

(** One row version: its xmax and the transactions that stamped it, each after
    its conflict check passed; other calls happen in between. *)
Inductive row_reach (m0 : TransactionManager) : TransactionManager -> Z -> list Z -> Prop :=
| rr_init h m : tm_reach m0 h m -> row_reach m0 m INFINITY_TXN []
| rr_step m x st h m' : row_reach m0 m x st -> tm_reach m h m' -> row_reach m0 m' x st
| rr_stamp m x st s t : row_reach m0 m x st -> tm_txns m !! s = Some t -> state t = ACTIVE ->
    check_write_conflict m t x = Ok tt -> row_reach m0 m (txn_id t) (s :: st).

Lemma reach_aborted_mono m h m' : tm_reach m h m' -> tm_aborted_xids m ⊆ tm_aborted_xids m'.
Proof.
  induction 1 as [|h m1 i m1' Hr IH Hb|h m1 i m1' Hr IH Hc|h m1 i m1' Hr IH Ha|h m1 i k f m1' Hr IH Hd Hl]; [done | ..].
  - apply begin_inv in Hb as (off & w & -> & _ & ->). done.
  - apply commit_inv in Hc as (u & off & w & Hu & _ & _ & ->). done.
  - apply abort_inv in Ha as (u & off & w & Hu & _ & _ & ->). cbn [tm_aborted_xids]. set_solver.
  - apply log_inv in Hl as (u & off & w & _ & _ & ->). done.
Qed.

(** The last stamp of a transaction that has not aborted is still there. *)
Lemma row_inv w first ab0 m x st : row_reach (tm_init w first ab0) m x st -> tm_next_txn_id m <= INFINITY_TXN ->
  (exists h, tm_reach (tm_init w first ab0) h m) /\
  (forall a, a ∈ st -> a ∉ tm_aborted_xids m -> x = a) /\ (forall a, a ∈ st -> a < tm_next_txn_id m).
Proof.
  intros Hrow. induction Hrow as [h m Hr|m x st h m' Hrow IH Hr|m x st s t Hrow IH Ht Hact Hck]; intros Hn.
  - split_and!; [by exists h | intros a Ha; by apply not_elem_of_nil in Ha ..].
  - assert (tm_next_txn_id m <= tm_next_txn_id m' /\ exists h0, tm_reach (tm_init w first ab0) h0 m) as [Hle _].
    { assert (exists h0, tm_reach (tm_init w first ab0) h0 m) as [h0 Hr0].
      { clear -Hrow. induction Hrow as [h m Hr|m x st h m' Hrow [h0 IH] Hr|]; [by exists h | | done].
        exists (h0 ++ h). by eapply reach_trans. }
      split; [| eauto]. eapply reach_snapshot; [done|]. intros i. eapply inv_ids, reach_inv, Hr0. }
    destruct IH as ((h0 & Hr0) & IH1 & IH2); [lia|]. split_and!.
    + exists (h0 ++ h). by eapply reach_trans.
    + intros a Ha Hna. apply IH1; [done|]. intros Hin. apply Hna. by apply (reach_aborted_mono _ _ _ Hr).
    + intros a Ha. specialize (IH2 a Ha). lia.
  - destruct (IH Hn) as ((h0 & Hr0) & IH1 & IH2). pose proof (reach_inv _ _ _ _ _ Hr0) as Hinv.
    destruct (ti_txn _ _ _ _ Hinv s t Ht) as (Es & _). split_and!.
    + by exists h0.
    + intros a Ha Hna. apply elem_of_cons in Ha as [->|Ha]; [done|]. specialize (IH1 a Ha Hna). subst x.
      specialize (IH2 a Ha). unfold check_write_conflict in Hck.
      destruct (Z.eqb_spec a INFINITY_TXN); [lia|]. destruct (Z.eqb_spec a (txn_id t)) as [|Hne]; [done|].
      rewrite bool_decide_eq_false_2 in Hck by done. done.
    + intros a Ha. apply elem_of_cons in Ha as [->|Ha]; [| auto]. eapply inv_ids; eauto.
Qed.

(** C19: no lost updates: of all transactions that stamped the same row version,
    each after its own conflict check passed, at most one ends up committed,
    in any interleaving with other transactions. *)
Theorem at_most_one_committed_writer w first ab0 m x st a b ta tb :
  (forall x, x ∈ ab0 -> x < first) -> row_reach (tm_init w first ab0) m x st -> tm_next_txn_id m <= INFINITY_TXN ->
  a ∈ st -> b ∈ st -> tm_txns m !! a = Some ta -> tm_txns m !! b = Some tb ->
  state ta = COMMITTED -> state tb = COMMITTED -> a = b.
Proof.
  intros Hab0 Hrow Hn Ha Hb Hta Htb Hsa Hsb. destruct (row_inv _ _ _ _ _ _ Hrow Hn) as ((h & Hr) & Hst & _).
  pose proof (reach_inv _ _ _ _ _ Hr) as Hinv.
  assert (forall c tc, tm_txns m !! c = Some tc -> state tc = COMMITTED -> c ∉ tm_aborted_xids m) as Hnc.
  { intros c tc Hc Hs. destruct (ti_txn _ _ _ _ Hinv c tc Hc) as (_ & Hbg & _ & _ & _ & H6). rewrite Hs in H6.
    rewrite (ti_aborted _ _ _ _ Hinv). intros [?%Hab0|?].
    - apply (ti_begun _ _ _ _ Hinv) in Hbg. lia.
    - by destruct (ti_commit_begun _ _ _ _ Hinv c H6). }
  rewrite <- (Hst a Ha (Hnc _ _ Hta Hsa)). apply (Hst b Hb (Hnc _ _ Htb Hsb)).
Qed.

(** * Calls that raise *)

(** A transaction ends once: committing or aborting one that is not active
    raises ValueError, and neither the log nor any state changes. *)
Theorem finish_twice_raises m i t :
  tm_txns m !! i = Some t -> state t <> ACTIVE ->
  commit i m = (Raise ValueError, m) /\ abort i m = (Raise ValueError, m).
Proof.
  intros Ht Hs. unfold commit, abort. rewrite !(bind_ok _ _ _ _ _ (get_txn_Some _ _ _ Ht)).
  by rewrite !decide_False.
Qed.

(** * Recovery *)

Lemma elem_of_ids t rs x : x ∈ ids_of t rs <-> exists e, e ∈ entry_of <$> rs /\ en_type e = t /\ en_txn e = x.
Proof.
  unfold ids_of. rewrite elem_of_list_to_set, list_elem_of_fmap. split.
  - intros (r & -> & [Hr Hin]%list_elem_of_filter). exists (entry_of r). split_and!; [| done | done].
    apply list_elem_of_fmap. eauto.
  - intros (e & (r & -> & Hr)%list_elem_of_fmap & He & <-). exists r. split; [done|]. by apply list_elem_of_filter.
Qed.

Lemma max_txn_id_snoc rs r : max_txn_id (rs ++ [r]) = Z.max (max_txn_id rs) (lr_txn_id r).
Proof. unfold max_txn_id. by rewrite foldl_app. Qed.

Lemma max_txn_id_bound rs : Forall (fun e => en_txn e <= max_txn_id rs) (entry_of <$> rs) /\ 0 <= max_txn_id rs /\
  forall b, 0 <= b -> Forall (fun e => en_txn e <= b) (entry_of <$> rs) -> max_txn_id rs <= b.
Proof.
  induction rs as [|r rs (IH1 & IH2 & IH3)] using rev_ind; [split_and!; (done || constructor)|].
  rewrite fmap_app, max_txn_id_snoc. split_and!; [| lia |].
  - apply Forall_app. split; [eapply Forall_impl; [exact IH1|]; intros e He; cbv beta in *; lia | apply Forall_singleton; cbn; lia].
  - intros b Hb [H1 H2]%Forall_app. specialize (IH3 b Hb H1). inversion H2 as [|? ? H3]. cbn in H3. lia.
Qed.

Lemma since_app rs rs2 : Forall (fun r => lr_type r <> CHECKPOINT) rs2 ->
  since_last_checkpoint (rs ++ rs2) = since_last_checkpoint rs ++ rs2.
Proof.
  induction rs2 as [|r rs2 IH] using rev_ind; intros H; [by rewrite !app_nil_r|].
  apply Forall_app in H as [H1 H2]. rewrite Forall_singleton in H2.
  by rewrite !app_assoc, since_snoc, decide_False, IH by done.
Qed.

Lemma since_sub rs e : e ∈ entry_of <$> since_last_checkpoint rs -> e ∈ entry_of <$> rs.
Proof.
  intros (r & -> & Hr)%list_elem_of_fmap. apply list_elem_of_fmap. exists r. split; [done|].
  unfold since_last_checkpoint in Hr. destruct (last_checkpoint_from rs 0 None) as [j|]; [| done].
  rewrite <- (take_drop (j + 1) rs). apply elem_of_app. by right.
Qed.

Lemma recovered_of_records img rs : read_records img = Ok rs ->
  recovered_manager (wal_init (Some img)) =
    (Ok (tm_init (wal_init (Some img)) (max_txn_id rs + 1) (uncommitted_txn_ids (since_last_checkpoint rs))),
     wal_init (Some img)).
Proof.
  intros Hr. assert (read_all (wal_init (Some img)) = (Ok rs, wal_init (Some img))) as Ha.
  { unfold read_all. rewrite bind_gets. change (wal_file (wal_init (Some img))) with (img ++ []).
    unfold lift_result. by rewrite app_nil_r, Hr. }
  unfold recovered_manager, next_txn_id_after_recovery, uncommitted_txn_ids_since_checkpoint, read_since_last_checkpoint.
  rewrite (bind_ok _ _ _ (max_txn_id rs + 1) (wal_init (Some img))) by (by rewrite (bind_ok _ _ _ _ _ Ha)).
  rewrite (bind_ok _ _ _ (uncommitted_txn_ids (since_last_checkpoint rs)) (wal_init (Some img))).
  2: { rewrite (bind_ok _ _ _ (since_last_checkpoint rs) (wal_init (Some img))) by (by rewrite (bind_ok _ _ _ _ _ Ha)). done. }
  done.
Qed.

Lemma uncommitted_below rs x : x ∈ uncommitted_txn_ids (since_last_checkpoint rs) -> x < max_txn_id rs + 1.
Proof.
  unfold uncommitted_txn_ids. rewrite elem_of_difference, elem_of_ids. intros [(e & He%since_sub & _ & <-) _].
  destruct (max_txn_id_bound rs) as (H & _). rewrite Forall_forall in H. specialize (H e He). lia.
Qed.

Lemma uncommitted_begun rs x : x ∈ uncommitted_txn_ids (since_last_checkpoint rs) -> x ∈ ids_of BEGIN rs.
Proof. unfold uncommitted_txn_ids. rewrite elem_of_difference, !elem_of_ids. intros [(e & He%since_sub & ?) _]. by exists e. Qed.

(** ** The log of a run *)

Definition hist_entry (e : hist_event) : entry :=
  match e with
  | HBegin i => mkEntry BEGIN i (JObj [])
  | HCommit i => mkEntry COMMIT i (JObj [])
  | HAbort i => mkEntry ABORT i (JObj [])
  | HLog i kind fields => mkEntry OP i (payload_of kind fields)
  end.

Lemma append_accepted t x p w off w' : wal_append t x p w = (Ok off, w') ->
  0 <= x < 2 ^ 32 /\ blen (payload_body p) < 2 ^ 32.
Proof.
  intros H. destruct (wal_open w) eqn:Ho; [| by rewrite wal_append_closed in H].
  destruct (Z_le_dec 0 x), (Z_lt_dec x (2 ^ 32)), (Z_lt_dec (blen (payload_body p)) (2 ^ 32)); try (split; lia);
    (rewrite append_refused in H; [done | done | lia]).
Qed.

Lemma append_step base w es n t x p off w' : wal_is base w es n -> is_dict p = true ->
  wal_append t x p w = (Ok off, w') -> wal_is base w' (es ++ [mkEntry t x p]) n.
Proof.
  intros Hw Hp Ha. destruct (append_accepted _ _ _ _ _ _ Ha) as [H1 H2].
  destruct (append_ok base w es n (mkEntry t x p) Hw ltac:(by constructor)) as (o & w2 & E & _ & Hw2).
  cbn [en_type en_txn en_payload] in E. rewrite Ha in E. by simplify_eq.
Qed.

Lemma commit_step base w es n x off w' : wal_is base w es n -> log_commit x w = (Ok off, w') ->
  wal_is base w' (es ++ [mkEntry COMMIT x (JObj [])]) (length es + 1).
Proof.
  intros Hw Hc. unfold log_commit in Hc.
  destruct (wal_append COMMIT x (JObj []) w) as [[o|e] w1] eqn:Ea; [| by rewrite (bind_raise _ _ _ _ _ Ea) in Hc].
  rewrite (bind_ok _ _ _ _ _ Ea) in Hc. pose proof (append_step _ _ _ _ _ _ (JObj []) _ _ Hw eq_refl Ea) as Hw1.
  destruct (flush_ok _ _ _ _ Hw1) as ([] & w2 & Ef & Hw2). rewrite (bind_ok _ _ _ _ _ Ef) in Hc.
  injection Hc as _ <-. rewrite length_app in Hw2. done.
Qed.

(** The log of a manager holds its history behind what it started from, and
    every commit is in the durable part. *)
Definition log_is (es0 : list entry) (h : list hist_event) (m : TransactionManager) : Prop :=
  exists n, wal_is [] (tm_wal m) (es0 ++ (hist_entry <$> h)) (length es0 + n) /\ forall x, HCommit x ∈ h -> HCommit x ∈ take n h.

Lemma log_is_snoc es0 h m m' e : log_is es0 h m -> (forall x, e <> HCommit x) ->
  (forall n, wal_is [] (tm_wal m) (es0 ++ (hist_entry <$> h)) n ->
     wal_is [] (tm_wal m') ((es0 ++ (hist_entry <$> h)) ++ [hist_entry e]) n) -> log_is es0 (h ++ [e]) m'.
Proof.
  intros (n & Hw & Hc) He Hstep. exists n. split; [rewrite fmap_app, app_assoc; by apply Hstep|].
  intros x Hx. rewrite elem_snoc_other in Hx by (intros E; by apply (He x)).
  pose proof (wi_len _ _ _ _ Hw) as Hl. rewrite length_app, length_fmap in Hl.
  rewrite take_app_le by lia. auto.
Qed.

Lemma reach_log w first ab0 es0 h m : wal_is [] w es0 (length es0) ->
  tm_reach (tm_init w first ab0) h m -> log_is es0 h m.
Proof.
  intros Hw0 Hr. remember (tm_init w first ab0) as m0 eqn:E0.
  induction Hr as [|h m i m' Hr IH Hb|h m i m' Hr IH Hc|h m i m' Hr IH Ha|h m i k f m' Hr IH Hd Hl]; subst;
    try (pose proof (reach_inv _ _ _ _ _ Hr) as Hinv).
  - exists 0%nat. split; [by rewrite app_nil_r, Nat.add_0_r|]. intros x Hx. by apply not_elem_of_nil in Hx.
  - apply begin_inv in Hb as (off & w' & -> & Hlog & ->). apply (log_is_snoc _ _ m); [done | done|].
    intros n Hw. cbn [tm_wal]. by eapply append_step.
  - apply commit_inv in Hc as (t & off & w' & Ht & _ & Hlog & ->). destruct (ti_txn _ _ _ _ Hinv i t Ht) as (<- & _).
    destruct IH as (n & Hw & _). exists (length h + 1)%nat. split.
    + pose proof (commit_step _ _ _ _ _ _ _ Hw Hlog) as Hw2. rewrite length_app, length_fmap in Hw2. cbn [tm_wal].
      rewrite fmap_app, app_assoc, Nat.add_assoc. done.
    + intros x Hx. rewrite take_ge by (rewrite length_app; simpl; lia). done.
  - apply abort_inv in Ha as (t & off & w' & Ht & _ & Hlog & ->). destruct (ti_txn _ _ _ _ Hinv i t Ht) as (<- & _).
    apply (log_is_snoc _ _ m); [done | done|]. intros n Hw. cbn [tm_wal]. by eapply append_step.
  - apply log_inv in Hl as (t & off & w' & Ht & Hlog & ->). destruct (ti_txn _ _ _ _ Hinv i t Ht) as (<- & _).
    apply (log_is_snoc _ _ m); [done | done|]. intros n Hw. cbn [tm_wal set_wal]. by eapply append_step.
Qed.

Lemma reach_prefix m0 h m j : tm_reach m0 h m -> exists mj, tm_reach m0 (take j h) mj.
Proof.
  induction 1 as [|h m i m' Hr IH Hb|h m i m' Hr IH Hc|h m i m' Hr IH Ha|h m i k f m' Hr IH Hd Hl];
    [exists m0; rewrite take_nil; constructor | ..];
    (destruct (decide (j <= length h)%nat);
     [ rewrite take_app_le by done; exact IH
     | rewrite take_ge by (rewrite length_app; simpl; lia); exists m'; econstructor; eauto ]).
Qed.

(** The snapshot the next transaction of a manager would take. *)
Definition new_snapshot (m : TransactionManager) : Snapshot := mkSnapshot (tm_next_txn_id m) (tm_active_xids m).

Lemma new_visible w next ab x : x ∉ ab -> x < next ->
  is_visible (tm_init w next ab) x INFINITY_TXN (new_snapshot (tm_init w next ab)) = true.
Proof.
  intros Ha Hx. unfold is_visible, committed_before, new_snapshot, tm_init. cbn [tm_aborted_xids tm_next_txn_id tm_active_xids xid active_xids].
  rewrite bool_decide_eq_false_2 by done. rewrite (bool_decide_eq_false_2 (x ∈ ∅)) by set_solver.
  replace (x <? next) with true by lia. by rewrite orb_true_r.
Qed.

(** The same to a transaction that begins later, for as long as the process runs. *)
Lemma later_visible w next ab h m x : tm_reach (tm_init w next ab) h m -> x ∉ ab -> x < next ->
  is_visible m x INFINITY_TXN (new_snapshot m) = true.
Proof.
  intros [Hb Hf Ha Hab _ Hxb _ _]%reach_inv Hx Hlt. assert (HBegin x ∉ h) as Hn by (intros [? _]%Hb; lia).
  unfold is_visible, committed_before, new_snapshot. cbn [xid active_xids].
  rewrite bool_decide_eq_false_2 by (intros [?|?%Hxb]%Hab; done). rewrite (bool_decide_eq_false_2 (x ∈ _)) by (by intros [? _]%Ha).
  replace (x <? tm_next_txn_id m) with true by lia. by rewrite orb_true_r.
Qed.
Lemma later_aborted w next ab h m x : tm_reach (tm_init w next ab) h m -> x ∈ ab -> x ∈ tm_aborted_xids m.
Proof. intros [_ _ _ Hab _ _ _ _]%reach_inv Hx. apply Hab. by left. Qed.

(** What recovery reads when the first [j] events of a run survived. *)
Section survivors.
Context (es0 : list entry) (w : WriteAheadLog) (h : list hist_event) (m : TransactionManager) (j : nat).
Let first := max_txn_id (place 0 es0) + 1.
Let ab0 := uncommitted_txn_ids (since_last_checkpoint (place 0 es0)).
Context (Hr : tm_reach (tm_init w first ab0) h m).
Let rs := place 0 (es0 ++ (hist_entry <$> take j h)).
Let hs := take j h.

Lemma survivors_since : exists old, entry_of <$> since_last_checkpoint rs = old ++ (hist_entry <$> hs) /\
  Forall (fun e => en_txn e < first) old.
Proof using Type.
  unfold rs. rewrite place_app, since_app.
  - rewrite fmap_app, entry_of_place. eexists. split; [done|]. apply Forall_forall. intros e He%since_sub.
    destruct (max_txn_id_bound (place 0 es0)) as (H & _). rewrite Forall_forall in H. specialize (H e He). unfold first. lia.
  - apply Forall_forall. intros r Hin. assert (entry_of r ∈ hist_entry <$> hs) as Hin'.
    { rewrite <- (entry_of_place (0 + blen (encode_log es0)) (hist_entry <$> hs)). apply list_elem_of_fmap. eauto. }
    apply list_elem_of_fmap in Hin' as (e & E & _). intros Ht. by destruct e; apply (f_equal en_type) in E; cbn in E; rewrite Ht in E.
Qed.

Lemma survivors_all : entry_of <$> rs = es0 ++ (hist_entry <$> hs).
Proof using Type. apply entry_of_place. Qed.

Lemma survivors_commit x : HCommit x ∈ hs -> x ∉ uncommitted_txn_ids (since_last_checkpoint rs) /\ x < max_txn_id rs + 1.
Proof using Type.
  intros Hx. destruct survivors_since as (old & Es & _).
  assert (mkEntry COMMIT x (JObj []) ∈ hist_entry <$> hs) as Hin by (apply list_elem_of_fmap; by exists (HCommit x)).
  split.
  - unfold uncommitted_txn_ids. rewrite elem_of_difference. intros [_ H]. apply H. apply elem_of_ids.
    exists (mkEntry COMMIT x (JObj [])). split_and!; [| done | done]. rewrite Es. apply elem_of_app. by right.
  - destruct (max_txn_id_bound rs) as (H & _). rewrite survivors_all, Forall_app in H. destruct H as [_ H].
    rewrite Forall_forall in H. specialize (H _ Hin). cbn in H. lia.
Qed.

Lemma survivors_open x : HBegin x ∈ h -> HCommit x ∉ h ->
  x ∈ uncommitted_txn_ids (since_last_checkpoint rs) \/ max_txn_id rs + 1 <= x.
Proof using Hr.
  intros Hb Hnc. pose proof (reach_inv _ _ _ _ _ Hr) as Hinv. apply (ti_begun _ _ _ _ Hinv) in Hb.
  destruct (reach_prefix _ _ _ j Hr) as (mj & Hrj). pose proof (reach_inv _ _ _ _ _ Hrj) as Hj. fold hs in Hj.
  destruct (max_txn_id_bound (place 0 es0)) as (Hmax & Hm0 & _). rewrite entry_of_place in Hmax.
  assert (first = max_txn_id (place 0 es0) + 1) as Ef by reflexivity.
  destruct (Z_lt_ge_dec x (tm_next_txn_id mj)) as [Hlt|Hge].
  - left. assert (HBegin x ∈ hs) as Hx by (apply (ti_begun _ _ _ _ Hj); lia).
    destruct survivors_since as (old & Es & Hold). unfold uncommitted_txn_ids. rewrite elem_of_difference, !elem_of_ids, Es. split.
    + exists (mkEntry BEGIN x (JObj [])). split_and!; [| done | done]. apply elem_of_app. right.
      apply list_elem_of_fmap. by exists (HBegin x).
    + intros (e & [He|(ev & -> & Hev)%list_elem_of_fmap]%elem_of_app & Ht & Hid).
      * rewrite Forall_forall in Hold. specialize (Hold e He). lia.
      * destruct ev; cbn in Ht, Hid; try done. subst. apply Hnc. unfold hs in Hev.
        rewrite <- (take_drop j h). apply elem_of_app. by left.
  - right. destruct (max_txn_id_bound rs) as (_ & _ & H). enough (max_txn_id rs <= x - 1) by lia.
    apply H; [lia|]. rewrite survivors_all. apply Forall_app. split.
    + eapply Forall_impl; [exact Hmax|]. intros e He. cbv beta in *. lia.
    + apply Forall_forall. intros e (ev & -> & Hev)%list_elem_of_fmap.
      assert (forall i, HBegin i ∈ hs -> i <= x - 1) as Hi by (intros i Hi%(ti_begun _ _ _ _ Hj); lia).
      destruct ev as [i|i|i|i kd f]; cbn [hist_entry en_txn]; apply Hi.
      * done.
      * by apply (ti_commit_begun _ _ _ _ Hj).
      * by apply (ti_abort_begun _ _ _ _ Hj).
      * by apply (ti_log_begun _ _ _ _ Hj i kd f).
Qed.
End survivors.

Lemma elem_take_mono {A} (x : A) l n j : (n <= j)%nat -> x ∈ take n l -> x ∈ take j l.
Proof.
  intros Hn Hx. replace (take n l) with (take n (take j l)) in Hx by (rewrite take_take; f_equal; lia).
  rewrite <- (take_drop n (take j l)). apply elem_of_app. by left.
Qed.

Lemma aborted_invisible m x xmax sn : x ∈ tm_aborted_xids m -> is_visible m x xmax sn = false.
Proof. intros H. unfold is_visible. by rewrite bool_decide_eq_true_2. Qed.

(** C1: crash recovery. The log of a run of the manager (begins, commits, aborts and
    operations, from any existing log, without a checkpoint in between) is cut at
    any byte behind the last [fsync] and opened again: recovery succeeds, and
    whatever the new process does next, a transaction that committed is visible
    to every transaction that begins, and one that did not is invisible to all of
    them if its BEGIN record is in the part of the log that survived. If that
    record is lost, the recovered manager does not know the id and will give it
    away again: [unflushed_begin_reuses_id] shows that this can go wrong. *)
Theorem crash_recovery_sound es0 m0 w0 h m k :
  Forall entry_ok es0 -> recovered_manager (wal_init (Some (encode_log es0))) = (Ok m0, w0) ->
  tm_reach m0 h m -> blen (wal_durable (tm_wal m)) <= k <= blen (wal_log (tm_wal m)) ->
  let img := take (Z.to_nat k) (wal_log (tm_wal m)) in
  exists m' recs, read_records img = Ok recs /\ recovered_manager (wal_init (Some img)) = (Ok m', wal_init (Some img)) /\
    (forall x h2 m2, HCommit x ∈ h -> tm_reach m' h2 m2 -> is_visible m2 x INFINITY_TXN (new_snapshot m2) = true) /\
    (forall x, HBegin x ∈ h -> HCommit x ∉ h ->
       (x ∈ ids_of BEGIN recs -> forall h2 m2, tm_reach m' h2 m2 -> forall xmax sn, is_visible m2 x xmax sn = false) /\
       (x ∉ ids_of BEGIN recs -> tm_next_txn_id m' <= x)).
Proof.
  intros H0 Hrec Hr Hk img. rewrite (recovered_of_records _ _ (read_records_log es0 H0)) in Hrec. injection Hrec as <- <-.
  destruct (reach_log _ _ _ es0 _ _ (wal_init_log es0 H0) Hr) as (n & [_ Hl Hd Hn He] & Hcom). cbn [app] in Hl, Hd.
  rewrite Hl, Hd in Hk. rewrite length_app, length_fmap in Hn.
  rewrite take_app_ge, encode_log_app, blen_app in Hk by lia.
  replace (length es0 + n - length es0)%nat with n in Hk by lia. rewrite <- fmap_take in Hk.
  set (es := es0 ++ (hist_entry <$> h)) in *.
  assert (exists j, take (whole k es) es = es0 ++ (hist_entry <$> take j h) /\ (n <= j)%nat) as (j & Ej & Hnj).
  { exists (whole k es - length es0)%nat.
    assert (length es0 + n <= whole k es)%nat as Hwh.
    { unfold es at 1. rewrite <- (take_drop n h), fmap_app, app_assoc.
      pose proof (whole_app (es0 ++ (hist_entry <$> take n h)) (hist_entry <$> drop n h) k) as Hw.
      rewrite encode_log_app, blen_app, length_app, length_fmap, length_take_le in Hw by lia. apply Hw. lia. }
    split; [| lia]. unfold es at 2. rewrite take_app_ge by lia. by rewrite fmap_take. }
  assert (read_records img = Ok (place 0 (es0 ++ (hist_entry <$> take j h)))) as Hread.
  { unfold img, read_records. rewrite Hl, <- Ej. apply iter_prefix; [done | | lia].
    pose proof (blen_nonneg (encode_log es0)). pose proof (blen_nonneg (encode_log (hist_entry <$> take n h))). lia. }
  eexists _, _. split; [exact Hread|]. split; [by apply recovered_of_records|]. split.
  - intros x h2 m2 Hx Hr2. apply Hcom in Hx. destruct (survivors_commit es0 h j x) as [H1 H2]; [by eapply elem_take_mono | by eapply later_visible].
  - intros x Hb Hnc. cbn [tm_init tm_next_txn_id]. destruct (survivors_open es0 _ h m j Hr x Hb Hnc) as [Hx|Hx].
    + split; [intros _ h2 m2 Hr2 xmax sn; by eapply aborted_invisible, later_aborted|]. intros Hout. destruct Hout. by apply uncommitted_begun.
    + split; [| done]. intros Hin%elem_of_ids. destruct Hin as (en & Hen & _ & <-).
      destruct (max_txn_id_bound (place 0 (es0 ++ (hist_entry <$> take j h)))) as (Hm & _). rewrite Forall_forall in Hm. specialize (Hm en Hen). lia.
Qed.

(** An id can be handed out twice. When the process dies before the BEGIN
    record of a transaction was flushed, the recovered manager starts with that
    very id: rows the dead transaction left in data pages that had already been
    evicted to disk belong to the new transaction, and commit with it. *)
Theorem unflushed_begin_reuses_id es0 m0 w0 x m1 :
  Forall entry_ok es0 -> recovered_manager (wal_init (Some (encode_log es0))) = (Ok m0, w0) ->
  begin m0 = (Ok x, m1) ->
  let img := wal_durable (tm_wal m1) in
  exists m', recovered_manager (wal_init (Some img)) = (Ok m', wal_init (Some img)) /\
    tm_next_txn_id m' = x /\ x ∉ tm_aborted_xids m' /\
    is_visible m' x INFINITY_TXN (new_snapshot m') = true.
Proof.
  intros H0 Hrec Hb img. pose proof (recovered_of_records _ _ (read_records_log es0 H0)) as Hr. rewrite Hr in Hrec. injection Hrec as <- <-.
  pose proof (tr_begin _ _ _ _ _ (tr_init _) Hb) as Hreach. apply begin_inv in Hb as (off & w & -> & Hlog & ->).
  pose proof (append_step [] _ es0 _ _ _ (JObj []) _ _ (wal_init_log es0 H0) eq_refl Hlog) as [_ _ Hd _ _].
  cbn [tm_init tm_next_txn_id tm_wal] in *. unfold img. rewrite Hd, take_app_length. cbn [app].
  rewrite Hr. eexists. split; [done|]. cbn [tm_init tm_next_txn_id tm_aborted_xids]. split; [done|].
  assert (max_txn_id (place 0 es0) + 1 ∉ uncommitted_txn_ids (since_last_checkpoint (place 0 es0))) as Hn
    by (intros H%uncommitted_below; lia).
  split; [done|]. unfold is_visible, new_snapshot, tm_init. cbn [tm_aborted_xids tm_next_txn_id xid].
  rewrite bool_decide_eq_false_2 by done. by rewrite Z.eqb_refl.
Qed.

(** C40: a checkpoint makes recovery forget aborts. The recovered manager only
    learns of transactions that began behind the last CHECKPOINT, so a row of
    a transaction that was aborted before it is visible to every transaction
    after a restart. *)
Theorem checkpoint_forgets_aborts es x p :
  Forall entry_ok es -> mkEntry ABORT x p ∈ es ->
  let img := encode_log (es ++ [mkEntry CHECKPOINT 0 (JObj [])]) in
  exists m', recovered_manager (wal_init (Some img)) = (Ok m', wal_init (Some img)) /\
    tm_aborted_xids m' = ∅ /\ is_visible m' x INFINITY_TXN (new_snapshot m') = true.
Proof.
  intros Hes Hx img. assert (Forall entry_ok (es ++ [mkEntry CHECKPOINT 0 (JObj [])])) as Hok.
  { apply Forall_app. split; [done|]. apply Forall_singleton. by constructor. }
  eexists. split; [by apply recovered_of_records, read_records_log|].
  assert (uncommitted_txn_ids (since_last_checkpoint (place 0 (es ++ [mkEntry CHECKPOINT 0 (JObj [])]))) = ∅) as E.
  { rewrite place_app. cbn [place]. rewrite since_snoc. cbn [lr_type]. rewrite decide_True by done. reflexivity. }
  rewrite E. split; [done|]. apply new_visible; [set_solver|].
  destruct (max_txn_id_bound (place 0 (es ++ [mkEntry CHECKPOINT 0 (JObj [])]))) as (H & _).
  rewrite entry_of_place, Forall_app in H. destruct H as [H _]. rewrite Forall_forall in H.
  specialize (H _ Hx). cbn [en_txn] in H. lia.
Qed.

(** Recovery replays exactly the operations of committed transactions, in
    log order: an OP record is replayed if and only if a COMMIT of the same
    transaction stands in the log behind the last checkpoint. *)
Theorem replays_committed_only rs :
  committed_operations rs `sublist_of` rs /\
  forall r, r ∈ committed_operations rs <->
    r ∈ rs /\ lr_type r = OP /\ exists c, c ∈ rs /\ lr_type c = COMMIT /\ lr_txn_id c = lr_txn_id r.
Proof.
  unfold committed_operations. split; [apply sublist_filter|]. intros r.
  rewrite list_elem_of_filter, elem_of_ids. split.
  - intros [[Ht (e & (c & -> & Hc)%list_elem_of_fmap & H1 & H2)] Hr]. split_and!; [done | done|]. by exists c.
  - intros (Hr & Ht & c & Hc & H1 & H2). split; [| done]. split; [done|]. exists (entry_of c). split_and!; [| done | done].
    apply list_elem_of_fmap. eauto.
Qed.

(** A manager built after recovery never hands out an id that appears in
    the log it recovered from: every id it assigns is above all of them. *)
Theorem recovered_ids_fresh img m0 w0 rs h m x :
  read_records img = Ok rs -> recovered_manager (wal_init (Some img)) = (Ok m0, w0) ->
  tm_reach m0 h m -> HBegin x ∈ h -> Forall (fun r => lr_txn_id r < x) rs.
Proof.
  intros Hrs Hrec Hr Hx. rewrite (recovered_of_records _ _ Hrs) in Hrec. injection Hrec as <- <-.
  apply (ti_begun _ _ _ _ (reach_inv _ _ _ _ _ Hr)) in Hx.
  destruct (max_txn_id_bound rs) as (H & _). rewrite Forall_forall in H. apply Forall_forall. intros r Hin.
  assert (en_txn (entry_of r) <= max_txn_id rs) as Hle by (apply H, list_elem_of_fmap; eauto). cbn in Hle. lia.
Qed.

(** * Concrete runs *)

Definition tm0 : TransactionManager := tm_init (wal_init None) 1 ∅.
Definition tm1 : TransactionManager := snd (begin tm0).
Definition tm2 : TransactionManager := snd (begin tm1).
Definition tm3 : TransactionManager := snd (commit 1 tm2).
Definition tm4 : TransactionManager := snd (begin tm3).

Definition run4 : list hist_event := [HBegin 1; HBegin 2; HCommit 1; HBegin 3].

Lemma reach2 : tm_reach tm0 [HBegin 1; HBegin 2] tm2.
Proof.
  apply (tr_begin tm0 [HBegin 1] tm1 2 tm2); [| vm_compute; reflexivity].
  apply (tr_begin tm0 [] tm0 1 tm1); [constructor | vm_compute; reflexivity].
Qed.

Lemma reach4 : tm_reach tm0 run4 tm4.
Proof.
  apply (tr_begin tm0 [HBegin 1; HBegin 2; HCommit 1] tm3 3 tm4); [| vm_compute; reflexivity].
  apply (tr_commit tm0 [HBegin 1; HBegin 2] tm2 1 tm3); [apply reach2 | vm_compute; reflexivity].
Qed.

Lemma reach2_4 : tm_reach tm2 [HCommit 1; HBegin 3] tm4.
Proof.
  apply (tr_begin tm2 [HCommit 1] tm3 3 tm4); [| vm_compute; reflexivity].
  apply (tr_commit tm2 [] tm2 1 tm3); [constructor | vm_compute; reflexivity].
Qed.

(** Transaction 3 sees what 1 wrote and not what 2 writes. *)
Lemma visibility_is_snapshot_witness :
  is_visible tm4 1 2 (mkSnapshot 3 {[2]}) = true <->
  sees 1 ∅ run4 3 1 /\ (2 = INFINITY_TXN \/ ~ sees 1 ∅ run4 3 2).
Proof.
  apply (visibility_is_snapshot (wal_init None) 1 ∅ run4 tm4 3 (mkTxn 3 (mkSnapshot 3 {[2]}) ACTIVE));
    [set_solver | apply reach4 | vm_compute; reflexivity].
Defined.

Lemma snapshot_stable_witness :
  exists t2, tm_txns tm4 !! 2 = Some t2 /\ snapshot t2 = mkSnapshot 2 {[1]} /\
    forall xmin xmax, is_visible tm4 xmin xmax (snapshot t2) = is_visible tm2 xmin xmax (mkSnapshot 2 {[1]}).
Proof.
  apply (snapshot_stable (wal_init None) 1 ∅ [HBegin 1; HBegin 2] tm2 [HCommit 1; HBegin 3] tm4 2 (mkTxn 2 (mkSnapshot 2 {[1]}) ACTIVE));
    [set_solver | apply reach2 | vm_compute; reflexivity | apply reach2_4 |].
  intros H. repeat (apply elem_of_cons in H as [H|H]; [discriminate|]). by apply not_elem_of_nil in H.
Defined.

(** Transaction 1 stamps a row and aborts; then 2 stamps it and commits. *)
Definition tm_a : TransactionManager := snd (abort 1 tm2).
Definition tm_c : TransactionManager := snd (commit 2 tm_a).

Lemma at_most_one_committed_writer_witness :
  row_reach tm0 tm_c 2 [2; 1] /\ tm_txns tm_c !! 2 = Some (mkTxn 2 (mkSnapshot 2 {[1]}) COMMITTED) /\ (2 : Z) = 2.
Proof.
  assert (row_reach tm0 tm_c 2 [2; 1]) as Hrow.
  { apply (rr_step _ tm_a 2 [2; 1] [HCommit 2]).
    2: { apply (tr_commit tm_a [] tm_a 2 tm_c); [constructor | vm_compute; reflexivity]. }
    apply (rr_stamp _ tm_a 1 [1] 2 (mkTxn 2 (mkSnapshot 2 {[1]}) ACTIVE)); [| vm_compute; reflexivity .. ].
    apply (rr_step _ tm2 1 [1] [HAbort 1]).
    2: { apply (tr_abort tm2 [] tm2 1 tm_a); [constructor | vm_compute; reflexivity]. }
    apply (rr_stamp _ tm2 INFINITY_TXN [] 1 (mkTxn 1 (mkSnapshot 1 ∅) ACTIVE)); [| vm_compute; reflexivity ..].
    apply (rr_init _ [HBegin 1; HBegin 2]), reach2. }
  split; [exact Hrow|]. split; [vm_compute; reflexivity|].
  apply (at_most_one_committed_writer (wal_init None) 1 ∅ tm_c 2 [2; 1] 2 2
    (mkTxn 2 (mkSnapshot 2 {[1]}) COMMITTED) (mkTxn 2 (mkSnapshot 2 {[1]}) COMMITTED)).
  - set_solver.
  - exact Hrow.
  - vm_compute. discriminate.
  - set_solver.
  - set_solver.
  - vm_compute. reflexivity.
  - vm_compute. reflexivity.
  - reflexivity.
  - reflexivity.
Defined.

Lemma finish_twice_raises_witness : commit 1 tm4 = (Raise ValueError, tm4) /\ abort 1 tm4 = (Raise ValueError, tm4).
Proof.
  apply (finish_twice_raises tm4 1 (mkTxn 1 (mkSnapshot 1 ∅) COMMITTED)); [vm_compute; reflexivity | discriminate].
Defined.

Definition sample_log : list entry := [mkEntry BEGIN 1 (JObj []); mkEntry ABORT 1 (JObj [])].
Lemma sample_log_ok : Forall entry_ok sample_log.
Proof. apply Forall_cons; split; [by constructor|]. apply Forall_singleton. by constructor. Qed.

Definition tm_after_log : TransactionManager := tm_init (wal_init (Some (encode_log sample_log))) 2 {[1]}.
Lemma tm_after_log_eq : recovered_manager (wal_init (Some (encode_log sample_log))) =
  (Ok tm_after_log, wal_init (Some (encode_log sample_log))).
Proof. vm_compute. reflexivity. Qed.

Definition crashed : TransactionManager := snd (begin (snd (commit 2 (snd (begin tm_after_log))))).
Lemma crashed_reach : tm_reach tm_after_log [HBegin 2; HCommit 2; HBegin 3] crashed.
Proof.
  apply (tr_begin tm_after_log [HBegin 2; HCommit 2] (snd (commit 2 (snd (begin tm_after_log))))); [| vm_compute; reflexivity].
  apply (tr_commit tm_after_log [HBegin 2] (snd (begin tm_after_log))); [| vm_compute; reflexivity].
  apply (tr_begin tm_after_log [] tm_after_log); [constructor | vm_compute; reflexivity].
Qed.

(** Four bytes of the third transaction's BEGIN record reach the disk. *)
Lemma crash_recovery_sound_witness :
  let img := take (Z.to_nat 40) (wal_log (tm_wal crashed)) in
  exists m' recs, read_records img = Ok recs /\ recovered_manager (wal_init (Some img)) = (Ok m', wal_init (Some img)) /\
    (forall x h2 m2, HCommit x ∈ [HBegin 2; HCommit 2; HBegin 3] -> tm_reach m' h2 m2 -> is_visible m2 x INFINITY_TXN (new_snapshot m2) = true) /\
    (forall x, HBegin x ∈ [HBegin 2; HCommit 2; HBegin 3] -> HCommit x ∉ [HBegin 2; HCommit 2; HBegin 3] ->
       (x ∈ ids_of BEGIN recs -> forall h2 m2, tm_reach m' h2 m2 -> forall xmax sn, is_visible m2 x xmax sn = false) /\
       (x ∉ ids_of BEGIN recs -> tm_next_txn_id m' <= x)).
Proof.
  apply (crash_recovery_sound sample_log tm_after_log (wal_init (Some (encode_log sample_log))) [HBegin 2; HCommit 2; HBegin 3] crashed 40).
  - apply sample_log_ok.
  - apply tm_after_log_eq.
  - apply crashed_reach.
  - vm_compute. split; discriminate.
Defined.

Lemma unflushed_begin_reuses_id_witness :
  let img := wal_durable (tm_wal (snd (begin tm_after_log))) in
  exists m', recovered_manager (wal_init (Some img)) = (Ok m', wal_init (Some img)) /\
    tm_next_txn_id m' = 2 /\ 2 ∉ tm_aborted_xids m' /\
    is_visible m' 2 INFINITY_TXN (new_snapshot m') = true.
Proof.
  apply (unflushed_begin_reuses_id sample_log tm_after_log (wal_init (Some (encode_log sample_log))) 2 (snd (begin tm_after_log)));
    [apply sample_log_ok | apply tm_after_log_eq | vm_compute; reflexivity].
Defined.

Lemma checkpoint_forgets_aborts_witness :
  let img := encode_log (sample_log ++ [mkEntry CHECKPOINT 0 (JObj [])]) in
  exists m', recovered_manager (wal_init (Some img)) = (Ok m', wal_init (Some img)) /\
    tm_aborted_xids m' = ∅ /\ is_visible m' 1 INFINITY_TXN (new_snapshot m') = true.
Proof. apply (checkpoint_forgets_aborts sample_log 1 (JObj [])); [apply sample_log_ok | right; left]. Defined.

Lemma recovered_ids_fresh_witness : Forall (fun r => lr_txn_id r < 3) (place 0 sample_log).
Proof.
  apply (recovered_ids_fresh (encode_log sample_log) tm_after_log (wal_init (Some (encode_log sample_log))) (place 0 sample_log)
    [HBegin 2; HCommit 2; HBegin 3] crashed 3).
  - apply read_records_log, sample_log_ok.
  - apply tm_after_log_eq.
  - apply crashed_reach.
  - set_solver.
Defined.
