(* ===== verification/Ast.v ===== *)
(** The syntax trees of [src/minirel/sql/ast.py]: expressions and one node per
    kind of statement. Operators and function names are strings, as in the
    source; the [value] of a literal is a Python [None], bool, int, float or str. *)
From stdpp Require Import base numbers list strings.
From Stdlib Require Import ZArith.
From S2P Require Import Prelude PyNum Types.

Local Open Scope Z_scope.

(** * Expressions *)

Inductive Expr : Set :=
| Literal (v : value)
| ColumnRef (name : string) (table : option string)
| Star
| UnaryOp (op : string) (operand : Expr)
| BinaryOp (op : string) (left right : Expr)
| FunctionCall (name : string) (arg : Expr).

#[global] Instance Expr_eq_dec : EqDecision Expr.
Proof. solve_decision. Defined.

(** * Statements *)

Record ColumnDef : Set := mkColumnDef { cd_name : string; cd_type : string }.

Record SelectItem : Set := mkSelectItem { si_expr : Expr; si_alias : option string }.
Record JoinClause : Set := mkJoinClause { jc_table : string; jc_on : Expr; jc_alias : option string }.
Record OrderByItem : Set := mkOrderByItem { ob_expr : Expr; ob_descending : bool }.

Record Select : Set := mkSelect {
  sel_items : list SelectItem;
  sel_table : string;
  sel_table_alias : option string;
  sel_join : option JoinClause;
  sel_where : option Expr;
  sel_group_by : list string;
  sel_order_by : list OrderByItem;
  sel_limit : option Z }.

Record CreateTable : Set := mkCreateTable { ct_table : string; ct_columns : list ColumnDef }.
Record CreateIndex : Set := mkCreateIndex {
  ci_index_name : string; ci_table : string; ci_column : string; ci_unique : bool }.
Record Insert : Set := mkInsert {
  ins_table : string; ins_columns : option (list string); ins_rows : list (list Expr) }.
Record Update : Set := mkUpdate {
  upd_table : string; upd_assignments : list (string * Expr); upd_where : option Expr }.
Record Delete : Set := mkDelete { del_table : string; del_where : option Expr }.

Inductive Statement : Set :=
| SCreateTable (s : CreateTable)
| SCreateIndex (s : CreateIndex)
| SInsert (s : Insert)
| SSelect (s : Select)
| SUpdate (s : Update)
| SDelete (s : Delete).
