(* ===== verification/Lexer.v ===== *)
(** The tokenizer of [src/minirel/sql/lexer.py]: the alternatives of its master
    regular expression, tried in order at each position, and the loop of
    [tokenize]. Characters are those of the text's UTF-8 bytes; [pos] counts
    code points, as Python does. Outside quoted literals and comments the
    source also takes non-ASCII spaces and digits ([\s], [\d]); here they are
    unexpected characters. *)
From stdpp Require Import base numbers list strings pretty.
From Stdlib Require Import ZArith Lia Strings.Ascii.
From S2P Require Import Prelude PyNum Types.

Local Open Scope Z_scope.

(** * Tokens *)

Definition KEYWORDS : list string :=
  ["CREATE"; "TABLE"; "INDEX"; "ON"; "UNIQUE"; "INSERT"; "INTO"; "VALUES";
   "SELECT"; "FROM"; "WHERE"; "AND"; "OR"; "NOT"; "ORDER"; "BY"; "ASC";
   "DESC"; "LIMIT"; "GROUP"; "JOIN"; "UPDATE"; "SET"; "DELETE"; "AS";
   "TRUE"; "FALSE"; "NULL"; "INT"; "FLOAT"; "TEXT"; "BOOL"]%string.

Inductive TokenKind : Set := KEYWORD | IDENT | NUMBER | STRING | OP | EOF.
#[global] Instance TokenKind_eq_dec : EqDecision TokenKind.
Proof. solve_decision. Defined.

Record Token : Set := mkToken { tk_kind : TokenKind; tk_value : string; tk_pos : Z }.

(** The named groups of the master expression. *)
Inductive LexGroup : Set := GWhitespace | GComment | GNumber | GString | GIdent | GOp.

(** * Characters *)

Definition to_upper (c : ascii) : ascii :=
  let n := nat_of_ascii c in
  if (97 <=? n)%nat && (n <=? 122)%nat then ascii_of_nat (n - 32) else c.
Definition is_alpha (c : ascii) : bool :=
  let n := nat_of_ascii c in
  ((65 <=? n)%nat && (n <=? 90)%nat) || ((97 <=? n)%nat && (n <=? 122)%nat).
Definition ident_start (c : ascii) : bool := is_alpha c || Ascii.eqb c "_"%char.
Definition ident_char (c : ascii) : bool := ident_start c || is_digit c.
Definition quote : ascii := ascii_of_nat 39.

(** [str.upper] on ASCII letters. *)
Definition upper (s : string) : string :=
  String.string_of_list_ascii (to_upper <$> String.list_ascii_of_string s).

(** Code points in a UTF-8 text: the bytes that do not continue one. *)
Definition continues (c : ascii) : bool := let n := nat_of_ascii c in (128 <=? n)%nat && (n <=? 191)%nat.
Definition code_points (l : chars) : Z := blen (filter (fun c => continues c = false) l).

(** * The master expression *)

(** The longest prefix of characters that pass the test, and the rest. *)
Fixpoint span (p : ascii -> bool) (l : chars) : chars * chars :=
  match l with
  | c :: l' => if p c then let '(a, b) := span p l' in (c :: a, b) else ([], l)
  | [] => ([], [])
  end.

Definition match_whitespace (l : chars) : option chars :=
  match fst (span is_space l) with [] => None | t => Some t end.

Definition match_comment (l : chars) : option chars :=
  match l with
  | "-"%char :: "-"%char :: l' =>
      Some ("-"%char :: "-"%char :: fst (span (fun c => negb (Ascii.eqb c (ascii_of_nat 10))) l'))
  | _ => None
  end.

(** [\d+\.\d+|\d+] *)
Definition match_number (l : chars) : option chars :=
  match span is_digit l with
  | ([], _) => None
  | (ip, "."%char :: l') =>
      match fst (span is_digit l') with [] => Some ip | fp => Some (ip ++ "."%char :: fp) end
  | (ip, _) => Some ip
  end.

(** What [(?:[^']|'')*'] matches. At a doubled quote the repetition goes on
    first; when no closing quote follows it backtracks to close there. *)
Fixpoint string_body (l : chars) : option chars :=
  match l with
  | [] => None
  | c :: l' =>
      if Ascii.eqb c quote then
        match l' with
        | d :: l'' =>
            if Ascii.eqb d quote then
              match string_body l'' with Some t => Some (c :: d :: t) | None => Some [c] end
            else Some [c]
        | [] => Some [c]
        end
      else t ← string_body l'; Some (c :: t)
  end.
Definition match_string (l : chars) : option chars :=
  match l with
  | c :: l' => if Ascii.eqb c quote then t ← string_body l'; Some (c :: t) else None
  | [] => None
  end.

Definition match_ident (l : chars) : option chars :=
  match l with
  | c :: l' => if ident_start c then Some (c :: fst (span ident_char l')) else None
  | [] => None
  end.

(** [<=|>=|<>|!=|[=<>(),;.*-]] *)
Definition single_op (c : ascii) : bool :=
  bool_decide (c ∈ String.list_ascii_of_string "=<>(),;.*-"%string).
Definition double_op (c d : ascii) : bool :=
  bool_decide ((c, d) ∈ [("<", "="); (">", "="); ("<", ">"); ("!", "=")]%char).
Definition match_op (l : chars) : option chars :=
  match l with
  | c :: d :: _ => if double_op c d then Some [c; d] else if single_op c then Some [c] else None
  | [c] => if single_op c then Some [c] else None
  | [] => None
  end.

(** [_MASTER_RE.match]: [lastgroup] and the text of the first alternative that matches. *)
Definition match_token (l : chars) : option (LexGroup * chars) :=
  match match_whitespace l with Some t => Some (GWhitespace, t) | None =>
  match match_comment l with Some t => Some (GComment, t) | None =>
  match match_number l with Some t => Some (GNumber, t) | None =>
  match match_string l with Some t => Some (GString, t) | None =>
  match match_ident l with Some t => Some (GIdent, t) | None =>
  match match_op l with Some t => Some (GOp, t) | None => None
  end end end end end end.

(** * [tokenize] *)

Definition text_of (l : chars) : string := String.string_of_list_ascii l.

(** [text.replace("''", "'")] *)
Fixpoint undouble (l : chars) : chars :=
  match l with
  | c :: l' =>
      match l' with
      | d :: l'' => if Ascii.eqb c quote && Ascii.eqb d quote then c :: undouble l'' else c :: undouble l'
      | [] => [c]
      end
  | [] => []
  end.

(** [text[1:-1]] *)
Definition unquote (t : chars) : chars := take (length t - 2) (drop 1 t).

Definition token_of (g : LexGroup) (t : chars) (pos : Z) : list Token :=
  match g with
  | GWhitespace | GComment => []
  | GIdent =>
      if bool_decide (upper (text_of t) ∈ KEYWORDS) then [mkToken KEYWORD (upper (text_of t)) pos]
      else [mkToken IDENT (text_of t) pos]
  | GString => [mkToken STRING (text_of (undouble (unquote t))) pos]
  | GNumber => [mkToken NUMBER (text_of t) pos]
  | GOp => [mkToken OP (text_of t) pos]
  end.

Fixpoint tokenize_from (fuel : nat) (l : chars) (pos : Z) : result (list Token) :=
  match l with
  | [] => Ok [mkToken EOF ""%string pos]
  | _ =>
      match fuel with
      | O => Raise Diverges
      | S fuel' =>
          match match_token l with
          | None => Raise LexError
          | Some (g, t) =>
              ts ← tokenize_from fuel' (drop (length t) l) (pos + code_points t);
              Ok (token_of g t pos ++ ts)
          end
      end
  end.

Definition tokenize (sql : string) : result (list Token) :=
  let l := String.list_ascii_of_string sql in tokenize_from (length l) l 0.

(** ** Writing tokens *)

Definition kv (t : Token) : TokenKind * string := (tk_kind t, tk_value t).

(** A string literal with its quotes doubled. *)
Fixpoint double_quotes (l : chars) : chars :=
  match l with
  | c :: l' => if Ascii.eqb c quote then c :: c :: double_quotes l' else c :: double_quotes l'
  | [] => []
  end.
Definition render_token (t : TokenKind * string) : chars :=
  let l := String.list_ascii_of_string (snd t) in
  match fst t with STRING => quote :: double_quotes l ++ [quote] | _ => l end.
Definition render (ts : list (TokenKind * string)) : chars :=
  ts ≫= (fun t => render_token t ++ [" "%char]).

Definition OPS : list string :=
  ["<="; ">="; "<>"; "!="; "="; "<"; ">"; "("; ")"; ","; ";"; "."; "*"; "-"]%string.
Definition ident_ok (v : string) : bool :=
  match String.list_ascii_of_string v with c :: l => ident_start c && forallb ident_char l | [] => false end &&
  negb (bool_decide (upper v ∈ KEYWORDS)).
(** The tokens that [tokenize] can produce, the end marker aside. *)
Definition token_ok (t : TokenKind * string) : bool :=
  match fst t with
  | KEYWORD => bool_decide (snd t ∈ KEYWORDS)
  | IDENT => ident_ok (snd t)
  | NUMBER => bool_decide (match_number (String.list_ascii_of_string (snd t)) = Some (String.list_ascii_of_string (snd t)))
  | STRING => true
  | OP => bool_decide (snd t ∈ OPS)
  | EOF => false
  end.

Example tokenize_ex :
  tokenize "select a.b <> 'it''s' -- x"%string =
  Ok [mkToken KEYWORD "SELECT" 0; mkToken IDENT "a" 7; mkToken OP "." 8; mkToken IDENT "b" 9; mkToken OP "<>" 11;
      mkToken STRING "it's" 14; mkToken EOF "" 26]%string.
Proof. vm_compute. reflexivity. Qed.
Example tokenize_backtrack_ex : tokenize "'a''b"%string = Raise LexError.
Proof. vm_compute. reflexivity. Qed.

(** * Every step consumes a character *)

Lemma span_prefix p l : l = fst (span p l) ++ snd (span p l).
Proof. induction l as [|c l IH]; [done|]. cbn [span]. destruct (p c); [| done]. destruct (span p l). cbn in *. by f_equal. Qed.

Lemma string_body_prefix l t : string_body l = Some t -> exists r, l = t ++ r.
Proof.
  remember (length l) as n eqn:Hn. revert l t Hn. induction (lt_wf n) as [n _ IH]. intros [|c l] t -> H; [done|].
  cbn [string_body] in H. destruct (Ascii.eqb c quote).
  - destruct l as [|d l]; [simplify_eq; by eexists|]. destruct (Ascii.eqb d quote); [| simplify_eq; by eexists].
    destruct (string_body l) as [u|] eqn:E; simplify_eq; [| by eexists].
    destruct (IH (length l) ltac:(cbn; lia) l u eq_refl E) as [r ->]. by exists r.
  - apply bind_Some in H as (u & E & [= <-]). destruct (IH (length l) ltac:(cbn; lia) l u eq_refl E) as [r ->]. by exists r.
Qed.

(** The text of a match is a non-empty prefix of what is left. *)
Definition matched (l t : chars) : Prop := t <> [] /\ exists r, l = t ++ r.

Lemma matched_cons c l t r : l = t ++ r -> matched (c :: l) (c :: t).
Proof. intros ->. split; [done | by exists r]. Qed.
#[local] Hint Resolve matched_cons span_prefix : core.

Lemma match_whitespace_matched l t : match_whitespace l = Some t -> matched l t.
Proof. unfold match_whitespace. pose proof (span_prefix is_space l) as E. destruct (fst _); [done|]. intros [= <-]. split; [done | eauto]. Qed.

Lemma match_comment_matched l t : match_comment l = Some t -> matched l t.
Proof.
  unfold match_comment. intros H. repeat (case_match; try done). simplify_eq.
  split; [done|]. eexists. cbn. do 2 f_equal. apply span_prefix.
Qed.

Lemma match_number_cases l t : match_number l = Some t ->
  exists ip r, span is_digit l = (ip, r) /\ ip <> [] /\
    (t = ip \/ exists fp r' r2, r = "."%char :: r' /\ span is_digit r' = (fp, r2) /\ fp <> [] /\ t = ip ++ "."%char :: fp).
Proof.
  unfold match_number. destruct (span is_digit l) as [[|c ip] r]; [done|]. intros H. exists (c :: ip), r. split_and!; [done..|].
  repeat (case_match; simplify_eq; try by left). right. destruct (span is_digit _) as [fp r2] eqn:E. simpl in *. subst fp.
  by eexists _, _, _.
Qed.
Lemma match_number_matched l t : match_number l = Some t -> matched l t.
Proof.
  intros (ip & r & E & Hne & H)%match_number_cases. pose proof (span_prefix is_digit l) as El. rewrite E in El. cbn in El.
  destruct H as [->|(fp & r' & r2 & -> & E2 & _ & ->)]; [split; eauto|].
  pose proof (span_prefix is_digit r') as Er. rewrite E2 in Er. cbn in Er. split; [by destruct ip|].
  exists r2. rewrite El, Er at 1. by rewrite <- app_assoc.
Qed.

Lemma match_string_matched l t : match_string l = Some t -> matched l t.
Proof.
  destruct l as [|c l]; [done|]. cbn [match_string]. destruct (Ascii.eqb c quote); [| done].
  intros (u & [r ->]%string_body_prefix & [= <-])%bind_Some. eauto.
Qed.

Lemma match_ident_matched l t : match_ident l = Some t -> matched l t.
Proof. destruct l as [|c l]; [done|]. cbn [match_ident]. destruct (ident_start c); [| done]. intros [= <-]. eauto. Qed.

Lemma match_op_matched l t : match_op l = Some t -> matched l t.
Proof. destruct l as [|c [|d l]]; [done | |]; cbn [match_op]; intros H; repeat (case_match; simplify_eq); split; try done; by eexists. Qed.

Lemma match_token_matched l g t : match_token l = Some (g, t) -> matched l t.
Proof.
  unfold match_token. intros H. repeat (case_match; simplify_eq);
    eauto using match_whitespace_matched, match_comment_matched, match_number_matched, match_string_matched,
      match_ident_matched, match_op_matched.
Qed.

Lemma tokenize_exn sql e : tokenize sql = Raise e -> e = LexError.
Proof.
  unfold tokenize. generalize (String.list_ascii_of_string sql) as l. intros l.
  assert (forall fuel l pos, (length l <= fuel)%nat -> tokenize_from fuel l pos = Raise e -> e = LexError) as H; [| by apply H].
  clear l. induction fuel as [|fuel IH]; intros [|c l] pos Hl; cbn [length tokenize_from] in *; try done; [lia|].
  destruct (match_token (c :: l)) as [[g t]|] eqn:E; [| congruence].
  apply match_token_matched in E as [Hne _]. destruct t as [|d t]; [done|]. cbn [length drop] in *.
  specialize (IH (drop (length t) l) (pos + code_points (d :: t)) ltac:(rewrite length_drop; lia)).
  destruct (tokenize_from fuel _ _) as [|e']; [done|]. intros [= <-]. by apply IH.
Qed.

(** Tokenizing any text terminates: it yields tokens or [LexError]. *)
Theorem tokenize_total sql : (exists toks, tokenize sql = Ok toks) \/ tokenize sql = Raise LexError.
Proof.
  destruct (tokenize sql) as [toks|e] eqn:E; [by left; exists toks|]. right. f_equal. by apply (tokenize_exn sql).
Qed.

(** * Reading back what was written *)

Definition not_in (p : ascii -> bool) (l : chars) : Prop := match l with c :: _ => p c = false | [] => True end.

Lemma span_app p l r : not_in p r -> span p (l ++ r) = (fst (span p l), snd (span p l) ++ r).
Proof.
  intros Hr. induction l as [|c l IH]; cbn [app span].
  - destruct r as [|c r]; [done|]. cbn in *. by rewrite Hr.
  - destruct (p c); [| done]. rewrite IH. by destruct (span p l).
Qed.
Lemma span_all p l : forallb p l = true -> span p l = (l, []).
Proof. induction l as [|c l IH]; [done|]. cbn [forallb span]. intros [-> Hl]%andb_prop. by rewrite IH. Qed.

Lemma string_body_double v r : not_in (fun c => Ascii.eqb c quote) r ->
  string_body (double_quotes v ++ quote :: r) = Some (double_quotes v ++ [quote]).
Proof.
  intros Hr. induction v as [|c v IH].
  - cbn. destruct r as [|d r]; [done|]. cbn in Hr. by rewrite Hr.
  - cbn [double_quotes]. destruct (Ascii.eqb c quote) eqn:E; cbn [app string_body]; rewrite ?E, IH; done.
Qed.
Lemma undouble_double v : undouble (double_quotes v) = v.
Proof.
  induction v as [|c v IH]; [done|]. cbn [double_quotes]. destruct (Ascii.eqb c quote) eqn:E.
  - cbn [undouble]. rewrite E. cbn [andb]. by rewrite IH.
  - destruct (double_quotes v) as [|d l] eqn:Ev; [by rewrite <- IH|]. cbn [undouble] in *. rewrite E. cbn [andb].
    by rewrite <- IH.
Qed.

(** The text of a token, followed by a space, is matched whole. *)
Definition group_of (k : TokenKind) : LexGroup :=
  match k with NUMBER => GNumber | STRING => GString | OP => GOp | KEYWORD | IDENT | EOF => GIdent end.

Lemma ident_start_class c : ident_start c = true ->
  is_space c = false /\ Ascii.eqb c "-"%char = false /\ is_digit c = false /\ Ascii.eqb c quote = false.
Proof. destruct c as [[] [] [] [] [] [] [] []]; vm_compute; done. Qed.
Lemma digit_class c : is_digit c = true -> is_space c = false /\ Ascii.eqb c "-"%char = false.
Proof. destruct c as [[] [] [] [] [] [] [] []]; vm_compute; done. Qed.

Lemma skip_space_comment c l : is_space c = false -> Ascii.eqb c "-"%char = false ->
  match_whitespace (c :: l) = None /\ match_comment (c :: l) = None.
Proof.
  intros Hs Hd. unfold match_whitespace, match_comment. cbn [span]. rewrite Hs. split; [done|].
  repeat case_match; done.
Qed.
Lemma match_number_not c l : is_digit c = false -> match_number (c :: l) = None.
Proof. intros H. unfold match_number. cbn [span]. by rewrite H. Qed.

Lemma match_token_ident c l r : ident_start c = true -> forallb ident_char l = true ->
  match_token ((c :: l) ++ " "%char :: r) = Some (GIdent, c :: l).
Proof.
  intros Hc Hl. destruct (ident_start_class c Hc) as (H1 & H2 & H3 & H4). unfold match_token. cbn [app].
  destruct (skip_space_comment c (l ++ " "%char :: r) H1 H2) as [-> ->]. rewrite match_number_not by done.
  cbn [match_string match_ident]. rewrite H4, Hc, span_app, (span_all _ _ Hl) by done. done.
Qed.

Lemma match_token_number v r : match_number v = Some v -> match_token (v ++ " "%char :: r) = Some (GNumber, v).
Proof.
  intros H. assert (match_number (v ++ " "%char :: r) = Some v) as E.
  { pose proof H as (ip & q & Es & Hne & Hv)%match_number_cases. unfold match_number.
    rewrite span_app, Es by done. cbn [fst snd]. destruct ip as [|c ip]; [done|].
    destruct Hv as [->|(fp & r' & r2 & -> & E2 & Hfp & ->)].
    - pose proof (span_prefix is_digit (c :: ip)) as Ep. rewrite Es in Ep. cbn in Ep.
      assert (q = []) as ->; [| done]. assert (length (c :: ip) = length (c :: ip ++ q)) as El by (by f_equal).
      cbn in El. rewrite length_app in El. destruct q; [done | cbn in El; lia].
    - cbn [app]. rewrite span_app, E2 by done. cbn [fst]. destruct fp; done. }
  pose proof H as (ip & q & Es & Hne & _)%match_number_cases.
  destruct v as [|c v]; [cbn in Es; by simplify_eq|].
  assert (is_digit c = true) as Hc by (cbn in Es; destruct (is_digit c); [done | by simplify_eq]).
  destruct (digit_class c Hc) as [H1 H2]. unfold match_token.
  destruct (skip_space_comment c (v ++ " "%char :: r) H1 H2) as [E1 E2]. cbn [app] in *. by rewrite E1, E2, E.
Qed.

Lemma match_token_string v r :
  match_token (quote :: double_quotes v ++ quote :: " "%char :: r) = Some (GString, quote :: double_quotes v ++ [quote]).
Proof. unfold match_token. cbn -[string_body double_quotes]. by rewrite string_body_double. Qed.

Lemma match_token_op v r : v ∈ OPS -> match_token (String.list_ascii_of_string v ++ " "%char :: r) = Some (GOp, String.list_ascii_of_string v).
Proof. intros H. unfold OPS in H. repeat (apply elem_of_cons in H as [->|H]; [reflexivity|]). by apply elem_of_nil in H. Qed.

Lemma keyword_ident v : v ∈ KEYWORDS -> upper v = v /\
  match String.list_ascii_of_string v with c :: l => ident_start c && forallb ident_char l | [] => false end = true.
Proof. intros H. unfold KEYWORDS in H. repeat (apply elem_of_cons in H as [->|H]; [by vm_compute|]). by apply elem_of_nil in H. Qed.

Lemma text_of_list s : text_of (String.list_ascii_of_string s) = s.
Proof. apply String.string_of_list_ascii_of_string. Qed.

(** One token and the space behind it. *)
Lemma match_render t r : token_ok t = true ->
  exists g, match_token (render_token t ++ " "%char :: r) = Some (g, render_token t) /\
    forall pos, kv <$> token_of g (render_token t) pos = [t].
Proof.
  destruct t as [k v]. unfold token_ok, render_token. cbn [fst snd]. destruct k; intros H.
  - apply bool_decide_eq_true in H. destruct (keyword_ident v H) as [Hu Hl]. exists GIdent.
    destruct (String.list_ascii_of_string v) as [|c l] eqn:Ev; [done|]. apply andb_prop in Hl as [Hc Hl].
    split; [by apply match_token_ident|]. intros pos. rewrite <- Ev. cbn [token_of]. rewrite text_of_list, Hu, bool_decide_true by done. done.
  - unfold ident_ok in H. apply andb_prop in H as [Hl Hk]. exists GIdent.
    destruct (String.list_ascii_of_string v) as [|c l] eqn:Ev; [done|]. apply andb_prop in Hl as [Hc Hl].
    split; [by apply match_token_ident|]. intros pos. rewrite <- Ev. cbn [token_of]. rewrite text_of_list.
    by destruct (bool_decide (upper v ∈ KEYWORDS)).
  - apply bool_decide_eq_true in H. exists GNumber. split; [by apply match_token_number|].
    intros pos. cbn. by rewrite text_of_list.
  - exists GString. split.
    + cbn [app]. rewrite <- app_assoc. apply match_token_string.
    + intros pos. cbn [token_of fmap list_fmap]. unfold unquote. cbn [length drop]. rewrite length_app. cbn [length].
      rewrite drop_0, take_app_length', undouble_double by lia. unfold kv. cbn. by rewrite text_of_list.
  - apply bool_decide_eq_true in H. exists GOp. split; [by apply match_token_op|]. intros pos. cbn. by rewrite text_of_list.
  - done.
Qed.

Lemma render_token_head t : token_ok t = true -> exists c l, render_token t = c :: l /\ is_space c = false.
Proof.
  destruct t as [k v]. unfold token_ok, render_token. cbn [fst snd]. destruct k; intros H; try done.
  - apply bool_decide_eq_true, keyword_ident in H as [_ Hl]. destruct (String.list_ascii_of_string v) as [|c l]; [done|].
    apply andb_prop in Hl as [Hc _]. exists c, l. split; [done | by apply ident_start_class].
  - unfold ident_ok in H. apply andb_prop in H as [Hl _]. destruct (String.list_ascii_of_string v) as [|c l]; [done|].
    apply andb_prop in Hl as [Hc _]. exists c, l. split; [done | by apply ident_start_class].
  - apply bool_decide_eq_true, match_number_cases in H as (ip & q & Es & Hne & _).
    destruct (String.list_ascii_of_string v) as [|c l]; [cbn in Es; by simplify_eq|]. exists c, l. split; [done|].
    apply digit_class. cbn in Es. destruct (is_digit c); [done | by simplify_eq].
  - eexists _, _. split; [done|]. reflexivity.
  - apply bool_decide_eq_true in H. unfold OPS in H.
    repeat (apply elem_of_cons in H as [->|H]; [eexists _, _; split; reflexivity|]). by apply elem_of_nil in H.
Qed.

Lemma render_head ts : Forall (fun t => token_ok t = true) ts -> not_in is_space (render ts).
Proof. intros [|t l Ht _]; [done|]. destruct (render_token_head t Ht) as (c & u & E & Hc). cbn. by rewrite E. Qed.

Lemma tokenize_written ts : Forall (fun t => token_ok t = true) ts ->
  exists toks, tokenize (text_of (render ts)) = Ok toks /\ kv <$> toks = ts ++ [(EOF, ""%string)].
Proof.
  intros Hts. unfold tokenize, text_of. rewrite String.list_ascii_of_string_of_list_ascii.
  assert (forall fuel pos, (length (render ts) <= fuel)%nat ->
    exists toks, tokenize_from fuel (render ts) pos = Ok toks /\ kv <$> toks = ts ++ [(EOF, ""%string)]) as H; [| by apply H].
  induction Hts as [|t ts Ht Hts IH]; intros fuel pos Hf.
  - eexists. by destruct fuel.
  - change (render (t :: ts)) with ((render_token t ++ [" "%char]) ++ render ts) in *.
    rewrite !length_app in Hf. cbn [length] in Hf. rewrite <- app_assoc. cbn [app].
    destruct (match_render t (render ts) Ht) as (g & Em & Ek). destruct (render_token_head t Ht) as (c & l & Et & _).
    rewrite Et in *. cbn [app] in *. destruct fuel as [|[|fuel]]; [cbn in Hf; lia..|].
    cbn [tokenize_from]. rewrite Em. cbn [length drop]. rewrite drop_app_length.
    assert (match_token (" "%char :: render ts) = Some (GWhitespace, [" "%char])) as ->.
    { unfold match_token, match_whitespace. pose proof (render_head ts Hts) as Hh. cbn [span].
      change (is_space " "%char) with true. cbv iota. destruct (render ts) as [|d u]; [done|]. cbn in Hh. cbn [span]. by rewrite Hh. }
    cbn [length]. change (drop 1 (" "%char :: render ts)) with (drop 0 (render ts)). rewrite drop_0. destruct (IH fuel (pos + code_points (c :: l) + code_points [" "%char])) as (toks & -> & Hk); [cbn in Hf; lia|].
    eexists. split; [reflexivity|]. cbn [token_of app]. by rewrite fmap_app, Ek, Hk.
Qed.

(** Tokens written out with spaces between them, string literals with their
    quotes doubled, are read back as the same tokens, in order, with the end
    marker behind them. *)
Theorem tokenize_render ts : Forall (fun t => token_ok t = true) ts ->
  exists toks, tokenize (text_of (render ts)) = Ok toks /\ kv <$> toks = ts ++ [(EOF, ""%string)].
Proof. apply tokenize_written. Qed.

Lemma tokenize_render_witness :
  let ts := [(KEYWORD, "SELECT"); (IDENT, "a_1"); (OP, "<>"); (STRING, "it's"); (NUMBER, "2.50"); (OP, "-")]%string in
  exists toks, tokenize (text_of (render ts)) = Ok toks /\ kv <$> toks = ts ++ [(EOF, ""%string)].
Proof. apply tokenize_render. repeat constructor. Defined.
