(* ===== verification/Parser.v ===== *)
(** The recursive-descent parser of [src/minirel/sql/parser.py]. The state of a
    [Parser] is the rest of its token list, [self.tokens[self.pos:]]; looking
    past the end of the list raises [IndexError]. Productions call each other
    with fuel: between two tokens consumed there are at most eight calls. *)
From stdpp Require Import base numbers list strings.
From Stdlib Require Import ZArith Lia Strings.Ascii.
From S2P Require Import Prelude PyNum Types Ast Lexer.

Local Open Scope Z_scope.

Definition COMPARISON_OPS : list string := ["="; "<>"; "!="; "<"; "<="; ">"; ">="]%string.

Definition Parser : Type := list Token.

(** * The token stream *)

Definition peek : M Parser Token := fun ts =>
  match ts with t :: _ => (Ok t, ts) | [] => (Raise IndexError, ts) end.
Definition advance : M Parser Token := fun ts =>
  match ts with t :: ts' => (Ok t, ts') | [] => (Raise IndexError, ts) end.
Definition check (kind : TokenKind) (v : option string) : M Parser bool :=
  tok ← peek;
  mret (bool_decide (tk_kind tok = kind) && match v with None => true | Some v => (tk_value tok =? v)%string end).
(** [_match], for its truth value; the token it returns is never used. *)
Definition match_ (kind : TokenKind) (v : option string) : M Parser bool :=
  b ← check kind v; if b : bool then advance;; mret true else mret false.
Definition expect (kind : TokenKind) (v : option string) : M Parser Token :=
  b ← check kind v; if b : bool then advance else raise ParseError.

(** * Expressions *)

(** [-operand.value] of a number; booleans are integers. *)
Definition negate (v : value) : option value :=
  match v with
  | VInt z => Some (VInt (- z))
  | VBool b => Some (VInt (- (if b then 1 else 0)))
  | VFloat f => Some (VFloat (float_neg f))
  | VNone | VStr _ => None
  end.

Definition number_value (text : string) : result value :=
  if bool_decide ("."%char ∈ String.list_ascii_of_string text)
  then f ← float_of_str text; Ok (VFloat f) else z ← int_of_str text; Ok (VInt z).

(** The body of [_parse_primary], given the productions it calls. *)
Definition primary_body (primary or_ : M Parser Expr) : M Parser Expr :=
  tok ← peek;
  minus ← check OP (Some "-"%string);
  if minus : bool then
    advance;;
    operand ← primary;
    match operand with
    | Literal v => match negate v with Some v' => mret (Literal v') | None => raise ParseError end
    | _ => raise ParseError
    end
  else
  match tk_kind tok with
  | NUMBER => advance;; v ← lift_result (number_value (tk_value tok)); mret (Literal v)
  | STRING => advance;; mret (Literal (VStr (tk_value tok)))
  | _ =>
      b ← check KEYWORD (Some "TRUE"%string);
      if b : bool then advance;; mret (Literal (VBool true)) else
      b ← check KEYWORD (Some "FALSE"%string);
      if b : bool then advance;; mret (Literal (VBool false)) else
      b ← check KEYWORD (Some "NULL"%string);
      if b : bool then advance;; mret (Literal VNone) else
      b ← match_ OP (Some "("%string);
      if b : bool then
        inner ← or_;
        expect OP (Some ")"%string);;
        mret inner
      else
      b ← check OP (Some "*"%string);
      if b : bool then advance;; mret Star else
      match tk_kind tok with
      | IDENT =>
          advance;;
          b ← check OP (Some "("%string);
          if b : bool then
            advance;;
            star ← check OP (Some "*"%string);
            arg ← (if star : bool then mret Star else or_);
            (match arg with Star => match_ OP (Some "*"%string);; mret tt | _ => mret tt end);;
            expect OP (Some ")"%string);;
            mret (FunctionCall (upper (tk_value tok)) arg)
          else
          b ← match_ OP (Some "."%string);
          if b : bool then
            column ← expect IDENT None;
            mret (ColumnRef (tk_value column) (Some (tk_value tok)))
          else mret (ColumnRef (tk_value tok) None)
      | _ => raise ParseError
      end
  end.

Fixpoint parse_or (fuel : nat) : M Parser Expr :=
  match fuel with
  | O => raise Diverges
  | S fuel => left ← parse_and fuel; or_loop fuel left
  end
with or_loop (fuel : nat) (left : Expr) : M Parser Expr :=
  match fuel with
  | O => raise Diverges
  | S fuel =>
      b ← match_ KEYWORD (Some "OR"%string);
      if b : bool then right ← parse_and fuel; or_loop fuel (BinaryOp "OR" left right) else mret left
  end
with parse_and (fuel : nat) : M Parser Expr :=
  match fuel with
  | O => raise Diverges
  | S fuel => left ← parse_not fuel; and_loop fuel left
  end
with and_loop (fuel : nat) (left : Expr) : M Parser Expr :=
  match fuel with
  | O => raise Diverges
  | S fuel =>
      b ← match_ KEYWORD (Some "AND"%string);
      if b : bool then right ← parse_not fuel; and_loop fuel (BinaryOp "AND" left right) else mret left
  end
with parse_not (fuel : nat) : M Parser Expr :=
  match fuel with
  | O => raise Diverges
  | S fuel =>
      b ← match_ KEYWORD (Some "NOT"%string);
      if b : bool then e ← parse_not fuel; mret (UnaryOp "NOT" e) else parse_comparison fuel
  end
with parse_comparison (fuel : nat) : M Parser Expr :=
  match fuel with
  | O => raise Diverges
  | S fuel =>
      left ← parse_primary fuel;
      b ← check OP None;
      tok ← peek;
      if (b : bool) && bool_decide (tk_value tok ∈ COMPARISON_OPS) then
        op ← advance;
        let op := if (tk_value op =? "!=")%string then "<>"%string else tk_value op in
        right ← parse_primary fuel;
        mret (BinaryOp op left right)
      else mret left
  end
with parse_primary (fuel : nat) : M Parser Expr :=
  match fuel with
  | O => raise Diverges
  | S fuel =>
      primary_body (parse_primary fuel) (parse_or fuel)
  end.

(** Enough fuel for the tokens that are left. *)
Definition parse_expr : M Parser Expr := n ← gets length; parse_or (8 * n + 6).

(** * Lists *)

(** [while self._match("OP", ","): xs.append(item())] *)
Fixpoint more {A} (fuel : nat) (item : M Parser A) (xs : list A) : M Parser (list A) :=
  match fuel with
  | O => raise Diverges
  | S fuel =>
      b ← match_ OP (Some ","%string);
      if b : bool then x ← item; more fuel item (xs ++ [x]) else mret xs
  end.
Definition comma_list {A} (item : M Parser A) : M Parser (list A) :=
  x ← item; n ← gets length; more (S n) item [x].

Definition ident : M Parser string := t ← expect IDENT None; mret (tk_value t).

(** * Statements *)

Definition parse_column_def : M Parser ColumnDef :=
  name ← ident;
  type_tok ← advance;
  if bool_decide (upper (tk_value type_tok) ∈ ["INT"; "FLOAT"; "TEXT"; "BOOL"]%string)
  then mret (mkColumnDef name (upper (tk_value type_tok)))
  else raise ParseError.

Definition parse_create : M Parser Statement :=
  expect KEYWORD (Some "CREATE"%string);;
  unique ← match_ KEYWORD (Some "UNIQUE"%string);
  b ← match_ KEYWORD (Some "TABLE"%string);
  if b : bool then
    table ← ident;
    expect OP (Some "("%string);;
    columns ← comma_list parse_column_def;
    expect OP (Some ")"%string);;
    mret (SCreateTable (mkCreateTable table columns))
  else
    expect KEYWORD (Some "INDEX"%string);;
    index_name ← ident;
    expect KEYWORD (Some "ON"%string);;
    table ← ident;
    expect OP (Some "("%string);;
    column ← ident;
    expect OP (Some ")"%string);;
    mret (SCreateIndex (mkCreateIndex index_name table column unique)).

Definition parse_value_row : M Parser (list Expr) :=
  expect OP (Some "("%string);;
  values ← comma_list parse_expr;
  expect OP (Some ")"%string);;
  mret values.

Definition parse_insert : M Parser Statement :=
  expect KEYWORD (Some "INSERT"%string);;
  expect KEYWORD (Some "INTO"%string);;
  table ← ident;
  b ← match_ OP (Some "("%string);
  columns ← (if b : bool then
               names ← comma_list ident;
               expect OP (Some ")"%string);;
               mret (Some names)
             else mret None);
  expect KEYWORD (Some "VALUES"%string);;
  rows ← comma_list parse_value_row;
  mret (SInsert (mkInsert table columns rows)).

Definition parse_optional_alias : M Parser (option string) :=
  b ← match_ KEYWORD (Some "AS"%string);
  if b : bool then a ← ident; mret (Some a) else
  b ← check IDENT None;
  if b : bool then t ← advance; mret (Some (tk_value t)) else mret None.

Definition parse_select_item : M Parser SelectItem :=
  expr ← parse_expr;
  b ← match_ KEYWORD (Some "AS"%string);
  alias ← (if b : bool then a ← ident; mret (Some a) else mret None);
  mret (mkSelectItem expr alias).

Definition parse_select_items : M Parser (list SelectItem) :=
  b ← match_ OP (Some "*"%string);
  if b : bool then mret [mkSelectItem Star None] else comma_list parse_select_item.

Definition parse_order_item : M Parser OrderByItem :=
  expr ← parse_expr;
  b ← match_ KEYWORD (Some "DESC"%string);
  if b : bool then mret (mkOrderByItem expr true)
  else match_ KEYWORD (Some "ASC"%string);; mret (mkOrderByItem expr false).

(** [if self._match("KEYWORD", kw): clause()] *)
Definition optional {A} (kw : string) (clause : M Parser A) : M Parser (option A) :=
  b ← match_ KEYWORD (Some kw);
  if b : bool then x ← clause; mret (Some x) else mret None.

Definition parse_join : M Parser JoinClause :=
  table ← ident;
  alias ← parse_optional_alias;
  expect KEYWORD (Some "ON"%string);;
  on ← parse_expr;
  mret (mkJoinClause table on alias).

Definition by_list {A} (item : M Parser A) : M Parser (list A) :=
  expect KEYWORD (Some "BY"%string);; comma_list item.

Definition parse_limit : M Parser Z :=
  t ← expect NUMBER None; lift_result (int_of_str (tk_value t)).

Definition parse_select : M Parser Statement :=
  expect KEYWORD (Some "SELECT"%string);;
  items ← parse_select_items;
  expect KEYWORD (Some "FROM"%string);;
  table ← ident;
  table_alias ← parse_optional_alias;
  join ← optional "JOIN" parse_join;
  where_ ← optional "WHERE" parse_expr;
  group_by ← optional "GROUP" (by_list ident);
  order_by ← optional "ORDER" (by_list parse_order_item);
  limit ← optional "LIMIT" parse_limit;
  mret (SSelect (mkSelect items table table_alias join where_
    (default [] group_by) (default [] order_by) limit)).

Definition parse_assignment : M Parser (string * Expr) :=
  name ← ident;
  expect OP (Some "="%string);;
  e ← parse_expr;
  mret (name, e).

Definition parse_update : M Parser Statement :=
  expect KEYWORD (Some "UPDATE"%string);;
  table ← ident;
  expect KEYWORD (Some "SET"%string);;
  assignments ← comma_list parse_assignment;
  where_ ← optional "WHERE" parse_expr;
  mret (SUpdate (mkUpdate table assignments where_)).

Definition parse_delete : M Parser Statement :=
  expect KEYWORD (Some "DELETE"%string);;
  expect KEYWORD (Some "FROM"%string);;
  table ← ident;
  where_ ← optional "WHERE" parse_expr;
  mret (SDelete (mkDelete table where_)).

Definition parse_statement : M Parser Statement :=
  create ← check KEYWORD (Some "CREATE"%string);
  insert ← check KEYWORD (Some "INSERT"%string);
  select ← check KEYWORD (Some "SELECT"%string);
  update ← check KEYWORD (Some "UPDATE"%string);
  delete ← check KEYWORD (Some "DELETE"%string);
  stmt ← (if create : bool then parse_create
          else if insert : bool then parse_insert
          else if select : bool then parse_select
          else if update : bool then parse_update
          else if delete : bool then parse_delete
          else raise ParseError);
  match_ OP (Some ";"%string);;
  expect EOF None;;
  mret stmt.

Definition parse (sql : string) : result Statement :=
  toks ← tokenize sql; fst (parse_statement toks).
