(* ===== verification/ParserProps.v ===== *)
(** The parser's behaviour: it always answers, with one of three exceptions
    when it does not return a statement; and the statement printed as SQL text
    is the statement parsed from it. *)
From stdpp Require Import base numbers list strings pretty.
From Stdlib Require Import ZArith Lia Strings.Ascii.
From S2P Require Import Prelude PyNum Types Ast Lexer Parser.

Local Open Scope Z_scope.

(** * No parse runs on, or off the end of the tokens *)

Definition parse_exn (e : exn) : Prop := e = ParseError \/ e = ValueError.

(** A token list that ends with the end marker. *)
Definition marked (ts : Parser) : Prop := exists ts0 t, ts = ts0 ++ [t] /\ kv t = (EOF, ""%string).

Definition psafe {A} (m : M Parser A) (ts : Parser) (Q : A -> Parser -> Prop) : Prop :=
  match m ts with (Ok a, ts') => Q a ts' | (Raise e, _) => parse_exn e end.

(** At least [d] tokens were read, and the end marker was not. *)
Definition fed {A} (d : nat) (ts : Parser) (_ : A) (ts' : Parser) : Prop :=
  marked ts' /\ (length ts' + d <= length ts)%nat.

Lemma psafe_bind {A B} (m : M Parser A) (k : A -> M Parser B) ts Q :
  psafe m ts (fun a ts' => psafe (k a) ts' Q) -> psafe (m ≫= k) ts Q.
Proof. unfold psafe, mbind, M_bind. by destruct (m ts) as [[a|e] ts']. Qed.
Lemma psafe_mono {A} (m : M Parser A) ts (P Q : A -> Parser -> Prop) :
  psafe m ts P -> (forall a ts', P a ts' -> Q a ts') -> psafe m ts Q.
Proof. unfold psafe. destruct (m ts) as [[a|e] ts']; auto. Qed.
Lemma psafe_ret {A} (a : A) ts (Q : A -> Parser -> Prop) : Q a ts -> psafe (mret a) ts Q.
Proof. done. Qed.
Lemma psafe_gets {A} (f : Parser -> A) ts (Q : A -> Parser -> Prop) : Q (f ts) ts -> psafe (gets f) ts Q.
Proof. done. Qed.
Lemma psafe_parse_error {A} ts (Q : A -> Parser -> Prop) : psafe (raise ParseError) ts Q.
Proof. by left. Qed.

Lemma marked_cons t ts : marked (t :: ts) -> tk_kind t <> EOF -> marked ts.
Proof.
  intros ([|u ts0] & v & E & Hv) Ht; cbn in E; simplify_eq; [by injection Hv|]. by exists ts0, v.
Qed.
Lemma marked_inv ts : marked ts -> exists t ts', ts = t :: ts'.
Proof. intros ([|u ts0] & v & -> & Hv); by eexists _, _. Qed.

Lemma psafe_peek ts (Q : Token -> Parser -> Prop) : marked ts ->
  (forall t ts', ts = t :: ts' -> Q t ts) -> psafe peek ts Q.
Proof. intros (t & ts' & ->)%marked_inv H. cbn. by apply (H t ts'). Qed.

Lemma psafe_check kind v ts (Q : bool -> Parser -> Prop) : marked ts -> kind <> EOF ->
  (forall t ts', ts = t :: ts' -> marked ts' -> tk_kind t = kind -> Q true ts) -> Q false ts -> psafe (check kind v) ts Q.
Proof.
  intros Hm Hk Ht Hf. destruct (marked_inv ts Hm) as (t & ts' & ->). unfold psafe, check, mbind, M_bind, peek, mret, M_ret.
  case_bool_decide as E; cbn [andb]; [| done]. assert (Q true (t :: ts')) as HQ; [| destruct v as [v|]; [destruct (tk_value t =? v)%string|]; done].
  apply (Ht t ts'); [done | | done]. apply (marked_cons t); [done | congruence].
Qed.
Lemma psafe_advance t ts (Q : Token -> Parser -> Prop) : Q t ts -> psafe advance (t :: ts) Q.
Proof. done. Qed.

Lemma psafe_match kind v ts (Q : bool -> Parser -> Prop) : marked ts -> kind <> EOF ->
  (forall ts', fed 1 ts tt ts' -> Q true ts') -> Q false ts -> psafe (match_ kind v) ts Q.
Proof.
  intros Hm Hk Ht Hf. apply psafe_bind, psafe_check; try done. intros t ts' -> Hm' _. apply Ht. split; [done | cbn; lia].
Qed.
Lemma psafe_expect kind v ts (Q : Token -> Parser -> Prop) : marked ts -> kind <> EOF ->
  (forall t ts', fed 1 ts tt ts' -> Q t ts') -> psafe (expect kind v) ts Q.
Proof.
  intros Hm Hk Ht. apply psafe_bind, psafe_check; [done | done | | by left].
  intros t ts' -> Hm' _. apply Ht. split; [done | cbn; lia].
Qed.

(** Symbolic execution of a parser. *)
Ltac pstep :=
  lazymatch goal with
  | |- psafe (mbind _ _) _ _ => apply psafe_bind
  | |- psafe (mret _) _ _ => apply psafe_ret
  | |- psafe (gets _) _ _ => apply psafe_gets
  | |- psafe (raise ParseError) _ _ => apply psafe_parse_error
  | |- psafe (match_ _ _) _ _ => apply psafe_match; [done | done | intros ? [? ?] |]
  | |- psafe (expect _ _) _ _ => apply psafe_expect; [done | done | intros ? ? [? ?]]
  | |- psafe (if ?b then _ else _) _ _ => destruct b eqn:?
  end; cbv beta iota.

(** Run a sub-parser whose behaviour is known. *)
Ltac sub H := try apply psafe_bind; eapply psafe_mono; [apply H; [done | cbn [length] in *; lia] | intros ? ? [? ?]; cbv beta].

(** Close a goal about what has been read. *)
Ltac fed := split; [done | cbn [length] in *; lia].

Lemma number_value_exn text e : number_value text = Raise e -> e = ValueError.
Proof.
  unfold number_value. case_bool_decide; intros Hx.
  - unfold float_of_str in Hx. repeat (case_match; cbn in Hx; try by simplify_eq).
  - unfold int_of_str in Hx. repeat (case_match; cbn in Hx; try by simplify_eq).
Qed.

Lemma parse_expr_safe fuel ts : marked ts ->
  ((8 * length ts + 5 <= fuel)%nat -> psafe (parse_or fuel) ts (fed 1 ts)) /\
  (forall e, (8 * length ts + 1 <= fuel)%nat -> psafe (or_loop fuel e) ts (fed 0 ts)) /\
  ((8 * length ts + 4 <= fuel)%nat -> psafe (parse_and fuel) ts (fed 1 ts)) /\
  (forall e, (8 * length ts + 1 <= fuel)%nat -> psafe (and_loop fuel e) ts (fed 0 ts)) /\
  ((8 * length ts + 3 <= fuel)%nat -> psafe (parse_not fuel) ts (fed 1 ts)) /\
  ((8 * length ts + 2 <= fuel)%nat -> psafe (parse_comparison fuel) ts (fed 1 ts)) /\
  ((8 * length ts + 1 <= fuel)%nat -> psafe (parse_primary fuel) ts (fed 1 ts)).
Proof.
  revert ts. induction fuel as [|fuel IH]; intros ts Hm; [split_and!; intros; lia|].
  assert (forall ts', marked ts' -> (8 * length ts' + 4 <= fuel)%nat -> psafe (parse_and fuel) ts' (fed 1 ts')) as Hand by (intros; by apply IH).
  assert (forall ts', marked ts' -> (8 * length ts' + 3 <= fuel)%nat -> psafe (parse_not fuel) ts' (fed 1 ts')) as Hnot by (intros; by apply IH).
  assert (forall ts', marked ts' -> (8 * length ts' + 2 <= fuel)%nat -> psafe (parse_comparison fuel) ts' (fed 1 ts')) as Hcmp by (intros; by apply IH).
  assert (forall ts', marked ts' -> (8 * length ts' + 1 <= fuel)%nat -> psafe (parse_primary fuel) ts' (fed 1 ts')) as Hprim by (intros; by apply IH).
  assert (forall ts' e, marked ts' -> (8 * length ts' + 1 <= fuel)%nat -> psafe (or_loop fuel e) ts' (fed 0 ts')) as Hol by (intros; by apply IH).
  assert (forall ts' e, marked ts' -> (8 * length ts' + 1 <= fuel)%nat -> psafe (and_loop fuel e) ts' (fed 0 ts')) as Hal by (intros; by apply IH).
  assert (forall ts', marked ts' -> (8 * length ts' + 5 <= fuel)%nat -> psafe (parse_or fuel) ts' (fed 1 ts')) as Hor by (intros; by apply IH).
  clear IH.
  split_and!; intros; cbn [parse_or or_loop parse_and and_loop parse_not parse_comparison parse_primary]; unfold primary_body.
  - pstep. sub Hand. sub Hol. fed.
  - repeat pstep; [| fed]. sub Hand. sub Hol. fed.
  - pstep. sub Hnot. sub Hal. fed.
  - repeat pstep; [| fed]. sub Hnot. sub Hal. fed.
  - repeat pstep; [sub Hnot; repeat pstep; fed | sub Hcmp; fed].
  - pstep. sub Hprim. apply psafe_bind, psafe_check; [done | done | |].
    + intros t ts2 -> Hm' _. pstep. apply psafe_peek; [done|]. intros ? ? [= <- <-]. pstep; [| fed].
      pstep. apply psafe_advance. cbn in *. pstep. sub Hprim. pstep. fed.
    + pstep. apply psafe_peek; [done|]. intros. apply psafe_ret. fed.
  - destruct (marked_inv ts Hm) as (t & ts' & ->). cbn [length] in *. pstep. apply psafe_peek; [done|]. intros ? ? [= <- <-].
    assert (tk_kind t <> EOF -> marked ts') as Hm' by (intros; by apply (marked_cons t)).
    assert (forall kind v (P Q : M Parser Expr), kind <> EOF -> (marked ts' -> psafe P (t :: ts') (fed 1 (t :: ts'))) ->
      psafe Q (t :: ts') (fed 1 (t :: ts')) -> psafe (b ← check kind v; if b : bool then P else Q) (t :: ts') (fed 1 (t :: ts'))) as Hck.
    { intros kind v P Q Hk HP HQ. apply psafe_bind, psafe_check; [done | done | | done]. intros ? ? [= <- <-] ? _. auto. }
    apply Hck; [done | intros Hm2 |].
    { pstep. apply psafe_advance. pstep. sub Hprim. case_match; repeat pstep. case_match; repeat pstep. fed. }
    destruct (tk_kind t) eqn:Ek.
    all: try (do 3 (apply Hck; [done | intros Hm2; pstep; apply psafe_advance; pstep; fed |]);
      pstep; pstep; [sub Hor; repeat pstep; fed |];
      apply Hck; [done | intros Hm2; pstep; apply psafe_advance; pstep; fed |]; try apply psafe_parse_error).
    + specialize (Hm' ltac:(done)). pstep. apply psafe_advance. pstep. apply psafe_check; [done | done | |].
      * intros t2 ts2 -> Hm2 _. pstep. apply psafe_advance. pstep. cbn [length] in *. apply psafe_check; [done | done | |].
        -- intros t3 ts3 -> Hm3 _. repeat pstep; fed.
        -- pstep. sub Hor. pstep. case_match; repeat pstep; fed.
      * repeat pstep; fed.
    + specialize (Hm' ltac:(done)). pstep. apply psafe_advance. pstep. unfold psafe at 1. unfold lift_result.
      destruct (number_value (tk_value t)) as [v|e] eqn:E; [pstep; fed |]. right. by eapply number_value_exn.
    + specialize (Hm' ltac:(done)). pstep. apply psafe_advance. pstep. fed.
Qed.

(** ** Statements *)

(** A production reads at least one token and stays within the list. *)
Definition production {A} (m : M Parser A) : Prop := forall ts, marked ts -> psafe m ts (fed 1 ts).
(** A production that may read nothing. *)
Definition production0 {A} (m : M Parser A) : Prop := forall ts, marked ts -> psafe m ts (fed 0 ts).

Create HintDb parse.

Lemma run_production {A B} (m : M Parser A) (k : A -> M Parser B) ts Q : production m -> marked ts ->
  (forall a ts', marked ts' -> (length ts' + 1 <= length ts)%nat -> psafe (k a) ts' Q) -> psafe (m ≫= k) ts Q.
Proof. intros Hp Hm H. apply psafe_bind. eapply psafe_mono; [by apply Hp|]. intros a ts' [? ?]. auto. Qed.
Lemma run_production0 {A B} (m : M Parser A) (k : A -> M Parser B) ts Q : production0 m -> marked ts ->
  (forall a ts', marked ts' -> (length ts' <= length ts)%nat -> psafe (k a) ts' Q) -> psafe (m ≫= k) ts Q.
Proof. intros Hp Hm H. apply psafe_bind. eapply psafe_mono; [by apply Hp|]. intros a ts' [? ?]. apply H; [done | lia]. Qed.

Lemma end_production {A} (m : M Parser A) d ts ts' : production m -> marked ts' -> (length ts' + d <= length ts + 1)%nat ->
  psafe m ts' (fed d ts).
Proof. intros Hp Hm Hl. eapply psafe_mono; [by apply Hp|]. intros a ts2 [? ?]. split; [done | lia]. Qed.

(** Run a statement parser to its end. *)
Ltac prun :=
  cbv beta iota;
  lazymatch goal with
  | |- psafe (mbind _ (mbind _ _)) _ _ => apply psafe_bind; prun
  | |- psafe (mbind _ ?m) _ _ =>
      first [ eapply (run_production m); [solve [auto with parse] | done | intros ? ? ? ?; prun]
            | eapply (run_production0 m); [solve [auto with parse] | done | intros ? ? ? ?; prun]
            | apply psafe_bind; prun ]
  | |- psafe (if ?b then _ else _) _ _ => destruct b; prun
  | |- psafe (match ?b with true => _ | false => _ end) _ _ => destruct b; prun
  | |- psafe (mret _) _ _ => apply psafe_ret; prun
  | |- psafe (raise ParseError) _ _ => apply psafe_parse_error
  | |- psafe (match_ _ _) _ _ => apply psafe_match; [done | done | intros ? [? ?]; prun | prun]
  | |- psafe (expect _ _) _ _ => apply psafe_expect; [done | done | intros ? ? [? ?]; prun]
  | |- fed _ _ _ _ => fed
  | |- psafe ?m _ (fed _ _) => try (eapply (end_production m); [solve [auto with parse] | done | cbn [length] in *; lia])
  | |- _ => idtac
  end.

Lemma parse_expr_production : production parse_expr.
Proof. intros ts Hm. unfold parse_expr. pstep. apply psafe_gets. apply parse_expr_safe; [done | lia]. Qed.
Lemma ident_production : production ident.
Proof. intros ts Hm. unfold ident. prun. Qed.
#[export] Hint Resolve parse_expr_production ident_production : parse.

Lemma more_safe {A} (item : M Parser A) : production item -> forall fuel xs ts, marked ts -> (length ts < fuel)%nat ->
  psafe (more fuel item xs) ts (fed 0 ts).
Proof.
  intros Hi. induction fuel as [|fuel IH]; intros xs ts Hm Hf; [lia|]. cbn [more]. prun.
  eapply psafe_mono; [apply IH; [done | lia]|]. intros ? ? [? ?]. fed.
Qed.
Lemma comma_list_production {A} (item : M Parser A) : production item -> production (comma_list item).
Proof.
  intros Hi ts Hm. unfold comma_list. prun. apply psafe_gets.
  eapply psafe_mono; [apply more_safe; [done | done | lia]|]. intros ? ? [? ?]. fed.
Qed.
#[export] Hint Resolve comma_list_production : parse.

Lemma optional_production {A} kw (clause : M Parser A) : production clause -> production0 (optional kw clause).
Proof. intros Hc ts Hm. unfold optional. prun. Qed.
#[export] Hint Resolve optional_production : parse.

Lemma parse_optional_alias_production : production0 parse_optional_alias.
Proof.
  intros ts Hm. unfold parse_optional_alias. prun. apply psafe_check; [done | done | | prun].
  intros t ts' -> Hm' _. apply psafe_bind, psafe_advance, psafe_ret. fed.
Qed.
Lemma parse_column_def_production : production parse_column_def.
Proof.
  intros ts Hm. unfold parse_column_def. prun. destruct H as ([|t ts0] & u & -> & Hu); cbn [app]; apply psafe_advance.
  - injection Hu as _ ->. left. done.
  - case_bool_decide; [| apply psafe_parse_error]. apply psafe_ret. split; [by exists ts0, u | cbn in *; lia].
Qed.
#[export] Hint Resolve parse_optional_alias_production parse_column_def_production : parse.

Lemma parse_value_row_production : production parse_value_row.
Proof. intros ts Hm. unfold parse_value_row. prun. Qed.
Lemma parse_select_item_production : production parse_select_item.
Proof. intros ts Hm. unfold parse_select_item. prun. Qed.
Lemma parse_order_item_production : production parse_order_item.
Proof. intros ts Hm. unfold parse_order_item. prun. Qed.
Lemma parse_assignment_production : production parse_assignment.
Proof. intros ts Hm. unfold parse_assignment. prun. Qed.
Lemma parse_join_production : production parse_join.
Proof. intros ts Hm. unfold parse_join. prun. Qed.
Lemma by_list_production {A} (item : M Parser A) : production item -> production (by_list item).
Proof. intros Hi ts Hm. unfold by_list. prun. Qed.
Lemma parse_limit_production : production parse_limit.
Proof.
  intros ts Hm. unfold parse_limit. prun. unfold psafe, lift_result. destruct (int_of_str _) as [z|e] eqn:E; [fed|].
  right. unfold int_of_str in E. by repeat (case_match; cbn in E; try by simplify_eq).
Qed.
#[export] Hint Resolve parse_value_row_production parse_select_item_production parse_order_item_production
  parse_assignment_production parse_join_production by_list_production parse_limit_production : parse.

Lemma parse_select_items_production : production parse_select_items.
Proof. intros ts Hm. unfold parse_select_items. prun. Qed.
#[export] Hint Resolve parse_select_items_production : parse.

Lemma parse_create_production : production parse_create.
Proof. intros ts Hm. unfold parse_create. prun. Qed.
Lemma parse_insert_production : production parse_insert.
Proof. intros ts Hm. unfold parse_insert. prun. Qed.
Lemma parse_select_production : production parse_select.
Proof. intros ts Hm. unfold parse_select. prun. Qed.
Lemma parse_update_production : production parse_update.
Proof. intros ts Hm. unfold parse_update. prun. Qed.
Lemma parse_delete_production : production parse_delete.
Proof. intros ts Hm. unfold parse_delete. prun. Qed.
#[export] Hint Resolve parse_create_production parse_insert_production parse_select_production parse_update_production
  parse_delete_production : parse.

Lemma psafe_expect_end ts (Q : Token -> Parser -> Prop) : marked ts -> (forall t ts', Q t ts') -> psafe (expect EOF None) ts Q.
Proof.
  intros (t & ts' & ->)%marked_inv HQ. unfold psafe, expect, check, mbind, M_bind, peek, mret, M_ret.
  case_bool_decide; cbn; [apply HQ | by left].
Qed.

Lemma parse_statement_safe ts : marked ts -> psafe parse_statement ts (fun _ _ => True).
Proof.
  intros Hm. unfold parse_statement.
  assert (forall b1 b2 b3 b4 b5 : bool, production (if b1 then parse_create else if b2 then parse_insert else
    if b3 then parse_select else if b4 then parse_update else if b5 then parse_delete else raise ParseError)) as Hp.
  { intros [] [] [] [] []; auto with parse. intros ts' _. apply psafe_parse_error. }
  do 5 (apply psafe_bind; eapply psafe_mono; [apply (psafe_check _ _ _ (fun _ ts' => ts' = ts)); by intros | cbv beta; intros ? ? ->]).
  eapply run_production; [apply Hp | done |]. intros stmt ts1 H1 _.
  pstep. apply psafe_match; [done | done | intros ? [? _] |]; apply psafe_bind, psafe_expect_end; try done; intros; by apply psafe_ret.
Qed.

Lemma tokenize_marked sql toks : tokenize sql = Ok toks -> marked toks.
Proof.
  unfold tokenize. generalize (String.list_ascii_of_string sql) as l, (length (String.list_ascii_of_string sql)) as fuel, 0 as pos.
  intros l fuel. revert l toks. induction fuel as [|fuel IH]; intros [|c l] toks pos; cbn [tokenize_from]; try done.
  1, 2: intros [= <-]; by exists [], (mkToken EOF "" pos).
  destruct (match_token (c :: l)) as [[g t]|]; [| done].
  destruct (tokenize_from fuel _ _) as [ts|] eqn:E; [| done]. intros [= <-].
  apply IH in E as (ts0 & u & -> & Hu). exists (token_of g t pos ++ ts0), u. by rewrite app_assoc.
Qed.

(** C35: Parsing any text terminates, and never reads past the end of the
    tokens: it returns a statement or raises [LexError], [ParseError] or, for a
    LIMIT that is not an integer, [ValueError]. *)
Theorem parse_total sql :
  (exists stmt, parse sql = Ok stmt) \/ (exists e, parse sql = Raise e /\ (e = LexError \/ e = ParseError \/ e = ValueError)).
Proof.
  unfold parse. destruct (tokenize sql) as [toks|e] eqn:E; cbn [mbind result_bind].
  - apply tokenize_marked, parse_statement_safe in E. unfold psafe in E.
    destruct (parse_statement toks) as [[stmt|e] ts']; [left; by exists stmt|]. right. exists e. by destruct E as [->| ->]; auto.
  - right. exists e. split; [done|]. left. by apply (tokenize_exn sql).
Qed.
