(* ===== verification/SqlPrint.v ===== *)
(** Statements written as SQL: the printer, and the proof that the parser reads
    back every statement it writes. Expressions get parentheses only where the
    grammar needs them, so the proof covers precedence and associativity. *)
From stdpp Require Import base numbers list strings pretty sets.
From Stdlib Require Import ZArith Lia Strings.Ascii.
From S2P Require Import Prelude PyNum Types Ast Lexer Parser ParserProps.

Local Open Scope Z_scope.

(** * The printer *)

(** A token to write: its kind and its text. *)
Definition lexeme : Set := TokenKind * string.
Definition kw (v : string) : lexeme := (KEYWORD, v).
Definition op (v : string) : lexeme := (OP, v).
Definition id_ (v : string) : lexeme := (IDENT, v).

Definition print_literal (v : value) : list lexeme :=
  match v with
  | VNone => [kw "NULL"]
  | VBool b => [kw (if b then "TRUE" else "FALSE")]
  | VInt z => if z <? 0 then [op "-"; (NUMBER, pretty (- z))] else [(NUMBER, pretty z)]
  | VFloat f => if Z.testbit f 63 then [op "-"; (NUMBER, str_of_float (float_neg f))] else [(NUMBER, str_of_float f)]
  | VStr s => [(STRING, s)]
  end.

(** How tightly an expression binds: OR 0, AND 1, NOT 2, comparisons 3, the rest 4. *)
Definition prec (e : Expr) : nat :=
  match e with
  | BinaryOp o _ _ => if (o =? "OR")%string then 0 else if (o =? "AND")%string then 1 else 3
  | UnaryOp _ _ => 2
  | _ => 4
  end.

Definition paren (ts : list lexeme) : list lexeme := op "(" :: ts ++ [op ")"].

Fixpoint print_expr (level : nat) (e : Expr) : list lexeme :=
  let body :=
    match e with
    | Literal v => print_literal v
    | ColumnRef name None => [id_ name]
    | ColumnRef name (Some table) => [id_ table; op "."; id_ name]
    | Star => [op "*"]
    | UnaryOp o e1 => kw o :: print_expr 2 e1
    | BinaryOp o l r =>
        if (o =? "OR")%string then print_expr 0 l ++ kw o :: print_expr 1 r
        else if (o =? "AND")%string then print_expr 1 l ++ kw o :: print_expr 2 r
        else print_expr 4 l ++ op o :: print_expr 4 r
    | FunctionCall name arg => id_ name :: paren (print_expr 0 arg)
    end in
  if (prec e <? level)%nat then paren body else body.

(** Expressions the grammar has: identifiers that are not keywords, upper-case
    function names, the grammar's operators, [*] only as the argument of a
    function, and float literals with a decimal point that read back. *)
Definition literal_ok (v : value) : bool :=
  match v with
  | VFloat f =>
      let g := if Z.testbit f 63 then float_neg f else f in
      token_ok (NUMBER, str_of_float g) && bool_decide (number_value (str_of_float g) = Ok (VFloat g))
  | _ => true
  end.
Fixpoint expr_ok (e : Expr) : bool :=
  match e with
  | Literal v => literal_ok v
  | ColumnRef name table => ident_ok name && from_option ident_ok true table
  | Star => false
  | UnaryOp o e1 => (o =? "NOT")%string && expr_ok e1
  | BinaryOp o l r => bool_decide (o ∈ ["OR"; "AND"; "="; "<>"; "<"; "<="; ">"; ">="]%string) && expr_ok l && expr_ok r
  | FunctionCall name arg =>
      ident_ok name && (upper name =? name)%string && (bool_decide (arg = Star) || expr_ok arg)
  end.

(** * Parsing with enough fuel *)

(** With any fuel from some point on, the outcome is [r]. *)
Definition ev {A} (p : nat -> M Parser A) (ts : Parser) (r : result A * Parser) : Prop :=
  exists f, forall g, (f <= g)%nat -> p g ts = r.

Lemma ev_step {A} (p q : nat -> M Parser A) ts r : (forall g, p (S g) = q g) -> ev q ts r -> ev p ts r.
Proof. intros E [f Hf]. exists (S f). intros [|g] Hg; [lia|]. rewrite E. apply Hf. lia. Qed.
Lemma ev_const {A} (m : M Parser A) ts r : m ts = r -> ev (fun _ => m) ts r.
Proof. intros H. by exists 0%nat. Qed.
Lemma ev_bind {A B} (m : nat -> M Parser A) (k : nat -> A -> M Parser B) ts a ts' r :
  ev m ts (Ok a, ts') -> ev (fun g => k g a) ts' r -> ev (fun g => m g ≫= k g) ts r.
Proof.
  intros [f1 H1] [f2 H2]. exists (f1 `max` f2)%nat. intros g Hg. rewrite (bind_ok _ _ _ a ts') by (apply H1; lia). apply H2. lia.
Qed.
Lemma ev_head {A B} (m : M Parser A) (k : nat -> A -> M Parser B) ts a ts' r :
  m ts = (Ok a, ts') -> ev (fun g => k g a) ts' r -> ev (fun g => m ≫= k g) ts r.
Proof. intros H. by apply (ev_bind (fun _ => m)), ev_const. Qed.

(** More fuel never changes an outcome. *)
Definition refines {A} (m m' : M Parser A) : Prop := forall ts, fst (m ts) = Raise Diverges \/ m ts = m' ts.
Lemma refines_refl {A} (m : M Parser A) : refines m m.
Proof. by right. Qed.
Lemma refines_bind {A B} (m m' : M Parser A) (k k' : A -> M Parser B) :
  refines m m' -> (forall a, refines (k a) (k' a)) -> refines (m ≫= k) (m' ≫= k').
Proof.
  intros Hm Hk ts. unfold mbind, M_bind. destruct (Hm ts) as [H|H].
  - destruct (m ts) as [[x|x] ts']; cbn in H; simplify_eq. by left.
  - rewrite H. destruct (m' ts) as [[x|x] ts']; [apply Hk | by right].
Qed.
Lemma refines_diverges {A} (m : M Parser A) : refines (raise Diverges) m.
Proof. by left. Qed.

Lemma parse_mono fuel :
  refines (parse_or fuel) (parse_or (S fuel)) /\ (forall e, refines (or_loop fuel e) (or_loop (S fuel) e)) /\
  refines (parse_and fuel) (parse_and (S fuel)) /\ (forall e, refines (and_loop fuel e) (and_loop (S fuel) e)) /\
  refines (parse_not fuel) (parse_not (S fuel)) /\ refines (parse_comparison fuel) (parse_comparison (S fuel)) /\
  refines (parse_primary fuel) (parse_primary (S fuel)).
Proof.
  induction fuel as [|fuel (H1 & H2 & H3 & H4 & H5 & H6 & H7)]; [split_and!; intros; apply refines_diverges|].
  split_and!; intros; cbn [parse_or or_loop parse_and and_loop parse_not parse_comparison parse_primary]; unfold primary_body;
    repeat first [ assumption | apply refines_refl | apply refines_bind; [|intros ?] | auto; fail
                 | match goal with |- refines (match ?x with _ => _ end) _ => destruct x end ].
Qed.

(** * What may follow an expression *)

(** [stops level a]: the lexeme [a] does not continue an expression of that level. *)
Definition stops (level : nat) (a : lexeme) : bool :=
  negb (bool_decide (a = op "(") || bool_decide (a = op ".")) &&
  ((3 <? level)%nat || negb (bool_decide (fst a = OP) && bool_decide (snd a ∈ COMPARISON_OPS))) &&
  ((1 <? level)%nat || negb (bool_decide (a = kw "AND"))) &&
  ((0 <? level)%nat || negb (bool_decide (a = kw "OR"))).

(** The rest of the tokens begins with one that passes the test. *)
Definition follow (F : lexeme -> bool) (ts : Parser) : Prop :=
  match ts with t :: _ => F (kv t) = true | [] => False end.

Lemma follow_impl F G ts : (forall a, F a = true -> G a = true) -> follow F ts -> follow G ts.
Proof. destruct ts; cbn; auto. Qed.
Lemma stops_le i j a : (i <= j)%nat -> stops i a = true -> stops j a = true.
Proof.
  intros Hij. unfold stops. rewrite !andb_true_iff, !orb_true_iff, !Nat.ltb_lt. intuition (try lia).
Qed.
Lemma follow_stops i j ts : (i <= j)%nat -> follow (stops i) ts -> follow (stops j) ts.
Proof. intros Hij. apply follow_impl. intros a. by apply stops_le. Qed.

(** ** Tokens with a given text *)

Lemma check_some kind v t ts : check kind (Some v) (t :: ts) = (Ok (bool_decide (kv t = (kind, v))), t :: ts).
Proof.
  unfold check, mbind, M_bind, peek, mret, M_ret. do 2 f_equal. destruct t as [k u p]. unfold kv. cbn [tk_kind tk_value].
  destruct (String.eqb_spec u v) as [->|Hne].
  - rewrite andb_true_r. apply bool_decide_ext. split; congruence.
  - rewrite andb_false_r. symmetry. apply bool_decide_eq_false. congruence.
Qed.
Lemma check_none kind t ts : check kind None (t :: ts) = (Ok (bool_decide (fst (kv t) = kind)), t :: ts).
Proof. unfold check, mbind, M_bind, peek, mret, M_ret. by rewrite andb_true_r. Qed.
Lemma match_some kind v t ts : match_ kind (Some v) (t :: ts) =
  if bool_decide (kv t = (kind, v)) then (Ok true, ts) else (Ok false, t :: ts).
Proof. unfold match_. rewrite (bind_ok _ _ _ _ _ (check_some kind v t ts)). by case_bool_decide. Qed.
Lemma expect_some kind v t ts : kv t = (kind, v) -> expect kind (Some v) (t :: ts) = (Ok t, ts).
Proof. intros H. unfold expect. rewrite (bind_ok _ _ _ _ _ (check_some kind v t ts)). by rewrite bool_decide_true. Qed.
Lemma expect_none kind t ts : fst (kv t) = kind -> expect kind None (t :: ts) = (Ok t, ts).
Proof. intros H. unfold expect. rewrite (bind_ok _ _ _ _ _ (check_none kind t ts)). by rewrite bool_decide_true. Qed.

(** ** The equations of the productions *)

Lemma parse_or_S g : parse_or (S g) = left ← parse_and g; or_loop g left.
Proof. reflexivity. Qed.
Lemma or_loop_S e g : or_loop (S g) e =
  b ← match_ KEYWORD (Some "OR"%string);
  if b : bool then right ← parse_and g; or_loop g (BinaryOp "OR" e right) else mret e.
Proof. reflexivity. Qed.
Lemma parse_and_S g : parse_and (S g) = left ← parse_not g; and_loop g left.
Proof. reflexivity. Qed.
Lemma and_loop_S e g : and_loop (S g) e =
  b ← match_ KEYWORD (Some "AND"%string);
  if b : bool then right ← parse_not g; and_loop g (BinaryOp "AND" e right) else mret e.
Proof. reflexivity. Qed.
Lemma parse_not_S g : parse_not (S g) =
  b ← match_ KEYWORD (Some "NOT"%string);
  if b : bool then e ← parse_not g; mret (UnaryOp "NOT" e) else parse_comparison g.
Proof. reflexivity. Qed.
Lemma parse_comparison_S g : parse_comparison (S g) =
  left ← parse_primary g;
  b ← check OP None;
  tok ← peek;
  if (b : bool) && bool_decide (tk_value tok ∈ COMPARISON_OPS) then
    op ← advance;
    right ← parse_primary g;
    mret (BinaryOp (if (tk_value op =? "!=")%string then "<>"%string else tk_value op) left right)
  else mret left.
Proof. reflexivity. Qed.

Lemma ev_true {A} (b : bool) (p q : nat -> M Parser A) ts r : b = true -> ev p ts r -> ev (fun g => if b then p g else q g) ts r.
Proof. by intros ->. Qed.
Lemma ev_false {A} (b : bool) (p q : nat -> M Parser A) ts r : b = false -> ev q ts r -> ev (fun g => if b then p g else q g) ts r.
Proof. by intros ->. Qed.
Lemma ev_at {A} (m : M Parser A) ts ts2 r : ts = ts2 -> m ts2 = r -> ev (fun _ => m) ts r.
Proof. intros -> H. by apply ev_const. Qed.

(** ** One level of the grammar reads [T] as [e] *)

Definition reads_prim (T : list lexeme) (e : Expr) : Prop := forall toks rest,
  kv <$> toks = T -> follow (stops 4) rest -> ev parse_primary (toks ++ rest) (Ok e, rest).
Definition reads_cmp (T : list lexeme) (e : Expr) : Prop := forall toks rest,
  kv <$> toks = T -> follow (stops 3) rest -> ev parse_comparison (toks ++ rest) (Ok e, rest).
Definition reads_not (T : list lexeme) (e : Expr) : Prop := forall toks rest,
  kv <$> toks = T -> follow (stops 2) rest -> ev parse_not (toks ++ rest) (Ok e, rest).
(** The loops go on behind [e], which they have on their left. *)
Definition reads_and (T : list lexeme) (e : Expr) : Prop := forall toks rest r,
  kv <$> toks = T -> follow (stops 2) rest -> ev (fun g => and_loop g e) rest r -> ev parse_and (toks ++ rest) r.
Definition reads_or (T : list lexeme) (e : Expr) : Prop := forall toks rest r,
  kv <$> toks = T -> follow (stops 1) rest -> ev (fun g => or_loop g e) rest r -> ev parse_or (toks ++ rest) r.

Lemma not_kv (a b : lexeme) F : F a = false -> F b = true -> a <> b.
Proof. congruence. Qed.

Lemma lift_cmp T e : reads_prim T e -> reads_cmp T e.
Proof.
  intros H toks rest Ht Hr. eapply ev_step; [apply parse_comparison_S|].
  eapply ev_bind; [apply (H toks rest Ht); by apply (follow_stops 3); [lia|]|].
  destruct rest as [|t rest]; [done|]. eapply ev_head; [apply check_none|]. eapply ev_head; [reflexivity|].
  apply ev_false; [| by apply ev_const]. cbn in Hr. unfold stops in Hr.
  apply andb_prop in Hr as [[[_ Hr]%andb_prop _]%andb_prop _]. by apply negb_true_iff in Hr.
Qed.

Lemma lift_not T e : reads_cmp T e -> head T <> Some (kw "NOT") -> T <> [] -> reads_not T e.
Proof.
  intros H Hh Hne toks rest Ht Hr. eapply ev_step; [apply parse_not_S|].
  destruct toks as [|t toks]; [by subst|]. cbn [app]. assert (kv t <> kw "NOT") as Hk by (intros E; subst; cbn in Hh; congruence).
  eapply ev_head; [rewrite match_some, bool_decide_false by done; reflexivity|]. apply ev_false; [done|].
  apply (H (t :: toks) rest Ht). exact Hr.
Qed.

Lemma lift_and T e : reads_not T e -> reads_and T e.
Proof.
  intros H toks rest r Ht Hr Hl. eapply ev_step; [apply parse_and_S|].
  eapply ev_bind; [by apply (H toks rest Ht)|]. done.
Qed.

Lemma and_end e rest : follow (stops 1) rest -> ev (fun g => and_loop g e) rest (Ok e, rest).
Proof.
  intros Hr. destruct rest as [|t rest]; [done|]. eapply ev_step; [intros; apply and_loop_S|].
  eapply ev_head; [rewrite match_some, bool_decide_false; [reflexivity|]|by apply ev_false, ev_const].
  intros E. cbn in Hr. by rewrite E in Hr.
Qed.
Lemma or_end e rest : follow (stops 0) rest -> ev (fun g => or_loop g e) rest (Ok e, rest).
Proof.
  intros Hr. destruct rest as [|t rest]; [done|]. eapply ev_step; [intros; apply or_loop_S|].
  eapply ev_head; [rewrite match_some, bool_decide_false; [reflexivity|]|by apply ev_false, ev_const].
  intros E. cbn in Hr. by rewrite E in Hr.
Qed.

Lemma lift_or T e : reads_and T e -> reads_or T e.
Proof.
  intros H toks rest r Ht Hr Hl. eapply ev_step; [apply parse_or_S|].
  eapply ev_bind; [apply (H toks rest _ Ht); [by apply (follow_stops 1); [lia|] | by apply and_end]|]. done.
Qed.

(** ** Primary expressions *)

Lemma parse_primary_S g : parse_primary (S g) = primary_body (parse_primary g) (parse_or g).
Proof. reflexivity. Qed.

(** Run one test or step of a production on a known token. *)
Ltac tok_test := first [ rewrite bool_decide_false by (unfold kv; cbn; congruence) | rewrite bool_decide_true by (unfold kv; cbn; congruence) ].
Ltac pc :=
  eapply ev_head;
  [ first [ rewrite check_some; tok_test; reflexivity
          | rewrite match_some; tok_test; reflexivity
          | rewrite expect_some by (unfold kv; cbn; congruence); reflexivity
          | rewrite expect_none by (unfold kv; cbn; congruence); reflexivity
          | reflexivity ]
  | cbv beta iota; cbn [tk_kind tk_value] ].
(** The tokens of a known text. *)
Ltac inv_toks Ht :=
  repeat match type of Ht with
  | _ = _ :: _ =>
      let E := fresh in
      apply fmap_cons_inv in Ht as ([? ? ?] & ? & E & Ht & ->); unfold kv, kw, op, id_ in E; cbn [tk_kind tk_value] in E;
      injection E as <- <-; symmetry in Ht
  end;
  try (apply fmap_nil_inv in Ht as ->); cbn [app].

Ltac start_prim := intros toks rest Ht Hr; eapply ev_step; [apply parse_primary_S|]; unfold primary_body; inv_toks Ht.

Lemma prim_number s v : number_value s = Ok v -> reads_prim [(NUMBER, s)] (Literal v).
Proof. intros Hv. start_prim. do 3 pc. eapply ev_head; [unfold lift_result; by rewrite Hv|]. by apply ev_const. Qed.
Lemma prim_string s : reads_prim [(STRING, s)] (Literal (VStr s)).
Proof. start_prim. do 3 pc. by apply ev_const. Qed.
Lemma prim_null : reads_prim [kw "NULL"] (Literal VNone).
Proof. start_prim. do 6 pc. by apply ev_const. Qed.
Lemma prim_bool (b : bool) : reads_prim [kw (if b then "TRUE" else "FALSE")] (Literal (VBool b)).
Proof. destruct b; start_prim; [do 4 pc | do 5 pc]; by apply ev_const. Qed.

Lemma prim_minus T v v' : reads_prim T (Literal v) -> negate v = Some v' -> reads_prim (op "-" :: T) (Literal v').
Proof.
  intros H Hv toks rest Ht Hr. eapply ev_step; [apply parse_primary_S|]. unfold primary_body.
  apply fmap_cons_inv in Ht as ([k u p] & toks' & E & Ht & ->). injection E as <- <-. cbn [app].
  do 3 pc. eapply ev_bind; [apply (H toks' rest); done|]. cbv beta iota. rewrite Hv. by apply ev_const.
Qed.

Lemma prim_paren T e : reads_or T e -> reads_prim (paren T) e.
Proof.
  intros H toks rest Ht Hr. eapply ev_step; [apply parse_primary_S|]. unfold primary_body, paren in *.
  apply fmap_cons_inv in Ht as ([k u p] & toks' & E & Ht & ->). injection E as <- <-. cbn [app].
  symmetry in Ht. apply fmap_app_inv in Ht as (t1 & t2 & HT & Ht & ->). symmetry in Ht. inv_toks Ht. rewrite <- app_assoc. cbn [app].
  do 6 pc. eapply ev_bind; [apply (H t1); [done | reflexivity | by apply or_end]|]. cbv beta.
  pc. by apply ev_const.
Qed.

Lemma prim_column name : reads_prim [id_ name] (ColumnRef name None).
Proof.
  start_prim. destruct rest as [|t rest]; [done|]. cbn in Hr. unfold stops in Hr.
  apply andb_prop in Hr as [[[Hr _]%andb_prop _]%andb_prop _].
  apply negb_true_iff, orb_false_iff in Hr as [Hr1%bool_decide_eq_false Hr2%bool_decide_eq_false].
  do 8 pc. eapply ev_head; [rewrite check_some, bool_decide_false by done; reflexivity|]. cbv beta iota.
  eapply ev_head; [rewrite match_some, bool_decide_false by done; reflexivity|]. by apply ev_const.
Qed.
Lemma prim_qualified table name : reads_prim [id_ table; op "."; id_ name] (ColumnRef name (Some table)).
Proof. start_prim. do 11 pc. by apply ev_const. Qed.

Lemma prim_call_star name : reads_prim (id_ name :: paren [op "*"]) (FunctionCall (upper name) Star).
Proof. unfold paren. cbn [app]. start_prim. do 14 pc. by apply ev_const. Qed.

Lemma prim_call name T e : reads_or T e -> head T <> Some (op "*") -> T <> [] -> e <> Star ->
  reads_prim (id_ name :: paren T) (FunctionCall (upper name) e).
Proof.
  intros H Hh Hne He toks rest Ht Hr. eapply ev_step; [apply parse_primary_S|]. unfold primary_body, paren in *.
  apply fmap_cons_inv in Ht as ([k u p] & toks' & E & Ht & ->). injection E as <- <-.
  symmetry in Ht. apply fmap_cons_inv in Ht as ([k u p2] & toks2 & E & Ht & ->). injection E as <- <-. cbn [app].
  symmetry in Ht. apply fmap_app_inv in Ht as (t1 & t2 & HT & Ht & ->). symmetry in Ht. inv_toks Ht. rewrite <- app_assoc. cbn [app].
  do 10 pc. destruct t1 as [|t t1]; [by subst|]. cbn [app].
  eapply ev_head; [rewrite check_some, bool_decide_false; [reflexivity|]|].
  { intros E. apply Hh. rewrite HT. cbn. by rewrite E. }
  cbv beta iota. eapply ev_bind; [apply (H (t :: t1)); [done | reflexivity | by apply or_end]|]. cbv beta.
  eapply ev_head; [destruct e; done|]. pc. by apply ev_const.
Qed.

(** ** Operators *)

Lemma cmp_op o Tl Tr l r : o ∈ ["="; "<>"; "<"; "<="; ">"; ">="]%string -> reads_prim Tl l -> reads_prim Tr r ->
  reads_cmp (Tl ++ op o :: Tr) (BinaryOp o l r).
Proof.
  intros Ho Hl Hr toks rest Ht Hf. eapply ev_step; [apply parse_comparison_S|].
  apply fmap_app_inv in Ht as (t1 & t2 & HT & Ht & ->).
  symmetry in Ht. apply fmap_cons_inv in Ht as ([k u p] & toks' & E & Ht & ->). injection E as <- <-.
  rewrite <- app_assoc. cbn [app].
  assert (stops 4 (op o) = true /\ bool_decide (o ∈ COMPARISON_OPS) = true /\ (o =? "!=")%string = false) as (H1 & H2 & H3).
  { clear -Ho. repeat (apply elem_of_cons in Ho as [->|Ho]; [by vm_compute|]). by apply elem_of_nil in Ho. }
  eapply ev_bind; [apply (Hl t1); done|]. cbv beta.
  eapply ev_head; [apply check_none|]. eapply ev_head; [reflexivity|]. apply ev_true; [exact H2|].
  eapply ev_head; [reflexivity|]. cbn [tk_value]. rewrite H3.
  eapply ev_bind; [apply (Hr toks'); [done | by apply (follow_stops 3); [lia|]]|]. by apply ev_const.
Qed.

Lemma not_op T e : reads_not T e -> reads_not (kw "NOT" :: T) (UnaryOp "NOT" e).
Proof.
  intros H toks rest Ht Hf. eapply ev_step; [apply parse_not_S|].
  apply fmap_cons_inv in Ht as ([k u p] & toks' & E & Ht & ->). injection E as <- <-. cbn [app].
  pc. eapply ev_bind; [by apply (H toks')|]. by apply ev_const.
Qed.

Lemma and_op Tl Tr l r : reads_and Tl l -> reads_not Tr r -> reads_and (Tl ++ kw "AND" :: Tr) (BinaryOp "AND" l r).
Proof.
  intros Hl Hr toks rest res Ht Hf Hres. apply fmap_app_inv in Ht as (t1 & t2 & HT & Ht & ->).
  symmetry in Ht. apply fmap_cons_inv in Ht as ([k u p] & toks' & E & Ht & ->). injection E as <- <-.
  rewrite <- app_assoc. cbn [app]. apply (Hl t1); [done | reflexivity |].
  eapply ev_step; [intros; apply and_loop_S|]. pc. eapply ev_bind; [by apply (Hr toks')|]. done.
Qed.
Lemma or_op Tl Tr l r : reads_or Tl l -> reads_and Tr r -> reads_or (Tl ++ kw "OR" :: Tr) (BinaryOp "OR" l r).
Proof.
  intros Hl Hr toks rest res Ht Hf Hres. apply fmap_app_inv in Ht as (t1 & t2 & HT & Ht & ->).
  symmetry in Ht. apply fmap_cons_inv in Ht as ([k u p] & toks' & E & Ht & ->). injection E as <- <-.
  rewrite <- app_assoc. cbn [app]. apply (Hl t1); [done | reflexivity |].
  eapply ev_step; [intros; apply or_loop_S|]. pc.
  eapply ev_bind; [apply (Hr toks'); [done | by apply (follow_stops 1); [lia|] | by apply and_end]|]. done.
Qed.

(** * Printing and parsing expressions *)

Lemma print_level level e : print_expr level e = if (prec e <? level)%nat then paren (print_expr 0 e) else print_expr 0 e.
Proof. by destruct e. Qed.

(** What an expression reads as at its own level. *)
Definition reads_own (T : list lexeme) (e : Expr) : Prop :=
  match prec e with
  | 0 => reads_or T e | 1 => reads_and T e | 2 => reads_not T e | 3 => reads_cmp T e | _ => reads_prim T e
  end%nat.

Record printed (e : Expr) : Prop := {
  pr_own : reads_own (print_expr 0 e) e;
  pr_not : (2 < prec e)%nat -> head (print_expr 0 e) <> Some (kw "NOT");
  pr_star : head (print_expr 0 e) <> Some (op "*");
  pr_nil : print_expr 0 e <> [] }.

Lemma printed_or e : printed e -> reads_or (print_expr 0 e) e.
Proof.
  intros [H Hn _ He]. unfold reads_own in H. destruct (prec e) as [|[|[|[|]]]] eqn:Ep;
    auto using lift_or, lift_and, lift_not, lift_cmp with lia.
Qed.
Lemma printed_prim e : printed e -> reads_prim (print_expr 4 e) e.
Proof.
  intros Hp. pose proof Hp as [H Hn _ He]. rewrite print_level. destruct (Nat.ltb_spec (prec e) 4) as [Hl|Hl].
  - by apply prim_paren, printed_or.
  - unfold reads_own in H. destruct (prec e) as [|[|[|[|]]]]; (done || lia).
Qed.
Lemma printed_not e : printed e -> reads_not (print_expr 2 e) e.
Proof.
  intros Hp. pose proof Hp as [H Hn _ He]. rewrite print_level. destruct (Nat.ltb_spec (prec e) 2) as [Hl|Hl].
  - apply lift_not; [by apply lift_cmp, prim_paren, printed_or | done | done].
  - unfold reads_own in H. destruct (prec e) as [|[|[|[|]]]]; try lia; auto using lift_not, lift_cmp with lia.
Qed.
Lemma printed_and e : printed e -> reads_and (print_expr 1 e) e.
Proof.
  intros Hp. pose proof Hp as [H Hn _ He]. rewrite print_level. destruct (Nat.ltb_spec (prec e) 1) as [Hl|Hl].
  - apply lift_and, lift_not; [by apply lift_cmp, prim_paren, printed_or | done | done].
  - unfold reads_own in H. destruct (prec e) as [|[|[|[|]]]]; try lia; auto using lift_and, lift_not, lift_cmp with lia.
Qed.

(** ** Numbers *)

Definition digits_val (ds : chars) : Z := foldl (fun a c => a * 10 + digit_val c) 0 ds.

Lemma scan_digits_all ds : forallb is_digit ds = true -> forall acc cnt b,
  scan_digits ds acc cnt b = (foldl (fun a c => a * 10 + digit_val c) acc ds, cnt + blen ds, []).
Proof.
  induction ds as [|c ds IH]; intros H acc cnt b; cbn [scan_digits foldl forallb] in *.
  - do 2 f_equal. rewrite blen_nil. lia.
  - apply andb_prop in H as [-> H]. rewrite IH by done. do 2 f_equal. rewrite blen_cons. lia.
Qed.

Lemma pretty_char_digit x : (x < 10)%N ->
  is_digit (pretty_N_char x) = true /\ digit_val (pretty_N_char x) = Z.of_N x.
Proof.
  intros H. assert (x = N.of_nat (N.to_nat x)) as -> by lia. assert (N.to_nat x < 10)%nat as Hn by lia.
  revert Hn. generalize (N.to_nat x) as n. intros n Hn. do 10 (destruct n as [|n]; [split; reflexivity|]). lia.
Qed.

Lemma pretty_go_digits x s : exists ds,
  String.list_ascii_of_string (pretty_N_go x s) = ds ++ String.list_ascii_of_string s /\
  forallb is_digit ds = true /\ digits_val ds = Z.of_N x /\ ((0 < x)%N -> ds <> []).
Proof.
  revert s. induction (N.lt_wf_0 x) as [x _ IH]. intros s.
  destruct (N.eq_dec x 0) as [->|Hx]; [exists []; split_and!; (done || lia)|].
  rewrite pretty_N_go_step by lia.
  destruct (IH (x / 10)%N ltac:(apply N.div_lt; lia) (String (pretty_N_char (x mod 10)) s)) as (ds & E & Hd & Hv & _).
  pose proof (N.mod_lt x 10 ltac:(lia)) as Hm. destruct (pretty_char_digit (x mod 10) Hm) as [Hc1 Hc2].
  exists (ds ++ [pretty_N_char (x mod 10)]). split_and!.
  - rewrite E, <- app_assoc. reflexivity.
  - rewrite forallb_app. cbn. by rewrite Hd, Hc1.
  - unfold digits_val in *. rewrite foldl_app, Hv. cbn [foldl]. rewrite Hc2. pose proof (N.div_mod x 10 ltac:(lia)). lia.
  - intros _. by destruct ds.
Qed.

Lemma pretty_digits z : 0 <= z -> exists c ds,
  String.list_ascii_of_string (pretty z) = c :: ds /\ forallb is_digit (c :: ds) = true /\ digits_val (c :: ds) = z.
Proof.
  intros Hz. assert (exists ds, String.list_ascii_of_string (pretty z) = ds /\ forallb is_digit ds = true /\ digits_val ds = z /\ ds <> []) as H.
  { replace (pretty z) with (pretty (Z.to_N z)) by (destruct z; [done | done | lia]). unfold pretty, pretty_N. case_decide as E.
    - replace z with 0 by lia. eexists. split; [reflexivity|]. done.
    - destruct (pretty_go_digits (Z.to_N z) "") as (ds & Ed & Hd & Hv & Hne). rewrite Ed, app_nil_r. exists ds.
      split_and!; [done | done | lia | apply Hne; lia]. }
  destruct H as ([|c ds] & E & Hd & Hv & Hne); [done|]. by exists c, ds.
Qed.

Lemma digit_not_sign c l : is_digit c = true -> scan_sign (c :: l) = (false, c :: l).
Proof. destruct c as [[] [] [] [] [] [] [] []]; vm_compute; done. Qed.

Lemma lstrip_digits ds : forallb is_digit ds = true -> lstrip ds = ds.
Proof. destruct ds as [|c ds]; [done|]. cbn [forallb lstrip]. intros [Hc _]%andb_prop. by destruct (digit_class c Hc) as [-> _]. Qed.
Lemma forallb_reverse {A} (p : A -> bool) l : forallb p l = true -> forallb p (reverse l) = true.
Proof. rewrite !forallb_forall. intros H x Hx. apply H. apply list_elem_of_In, elem_of_reverse. by apply list_elem_of_In. Qed.

Lemma int_of_pretty z : 0 <= z -> int_of_str (pretty z) = Ok z.
Proof.
  intros Hz. destruct (pretty_digits z Hz) as (c & ds & E & Hd & Hv). unfold int_of_str, strip.
  rewrite E, (lstrip_digits _ Hd), (lstrip_digits _ (forallb_reverse _ _ Hd)), reverse_involutive.
  rewrite digit_not_sign by (by apply andb_prop in Hd as [? _]). rewrite (scan_digits_all _ Hd). fold (digits_val (c :: ds)).
  rewrite Hv, blen_cons. pose proof (blen_nonneg ds). by destruct (Z.ltb_spec 0 (0 + (1 + blen ds))); [| lia].
Qed.

Lemma number_value_pretty z : 0 <= z -> number_value (pretty z) = Ok (VInt z).
Proof.
  intros Hz. unfold number_value. rewrite bool_decide_false, int_of_pretty; [done | done |].
  destruct (pretty_digits z Hz) as (c & ds & -> & Hd & _). intros Hin.
  rewrite forallb_forall in Hd. apply list_elem_of_In in Hin. by apply Hd in Hin.
Qed.

Lemma pretty_token z : 0 <= z -> token_ok (NUMBER, pretty z) = true.
Proof.
  intros Hz. unfold token_ok. cbn [fst snd]. apply bool_decide_eq_true.
  destruct (pretty_digits z Hz) as (c & ds & -> & Hd & _). unfold match_number. by rewrite (span_all _ _ Hd).
Qed.

(** ** Literals *)

Lemma float_neg_twice f : float_neg (float_neg f) = f.
Proof. unfold float_neg. rewrite Z.lxor_assoc, Z.lxor_nilpotent. apply Z.lxor_0_r. Qed.

Lemma literal_reads v : literal_ok v = true -> reads_prim (print_literal v) (Literal v).
Proof.
  destruct v as [|b|z|f|s]; intros H; cbn [print_literal literal_ok] in *.
  - apply prim_null.
  - apply prim_bool.
  - destruct (Z.ltb_spec z 0).
    + eapply prim_minus; [apply prim_number, number_value_pretty; lia|]. cbn. do 2 f_equal. lia.
    + apply prim_number, number_value_pretty. lia.
  - destruct (Z.testbit f 63).
    + apply andb_prop in H as [_ H%bool_decide_eq_true]. eapply prim_minus; [by apply prim_number|]. cbn. by rewrite float_neg_twice.
    + apply andb_prop in H as [_ H%bool_decide_eq_true]. by apply prim_number.
  - apply prim_string.
Qed.
Lemma literal_tokens v : literal_ok v = true -> Forall (fun t => token_ok t = true) (print_literal v).
Proof.
  destruct v as [|b|z|f|s]; intros H; cbn [print_literal literal_ok] in *.
  - by repeat constructor.
  - destruct b; by repeat constructor.
  - destruct (Z.ltb_spec z 0); repeat constructor; apply pretty_token; lia.
  - apply andb_prop in H as [H _]. destruct (Z.testbit f 63); by repeat constructor.
  - by repeat constructor.
Qed.

Lemma expr_printed e : expr_ok e = true -> printed e.
Proof.
  induction e as [v|name table| |o e IH|o l IHl r IHr|name arg IH]; cbn [expr_ok]; intros Hok; try done.
  - split; cbn [print_expr prec].
    + by apply literal_reads.
    + destruct v as [|[]|z|f|s]; cbn; repeat case_match; done.
    + destruct v as [|[]|z|f|s]; cbn; repeat case_match; done.
    + destruct v as [|[]|z|f|s]; cbn; repeat case_match; done.
  - destruct table; split; cbn; try done; [apply prim_qualified | apply prim_column].
  - apply andb_prop in Hok as [->%String.eqb_eq Hok]. specialize (IH Hok). split; try done.
    + apply not_op. by apply printed_not.
    + cbn. lia.
  - apply andb_prop in Hok as [[Ho%bool_decide_eq_true Hl]%andb_prop Hr]. specialize (IHl Hl). specialize (IHr Hr).
    assert (forall n, head (print_expr n l) <> Some (op "*") /\ print_expr n l <> [] /\ (n = 4%nat -> head (print_expr n l) <> Some (kw "NOT"))) as Hh.
    { intros n. rewrite print_level. destruct IHl as [_ ? ? ?]. destruct (Nat.ltb_spec (prec l) n); [done|]. split_and!; [done..|].
      intros ->. auto with lia. }
    assert (forall n T, head (print_expr n l ++ T) = head (print_expr n l)) as Hha.
    { intros n T. destruct (Hh n) as (_ & Hne & _). by destruct (print_expr n l). }
    unfold reads_own. cbn [print_expr prec].
    repeat (apply elem_of_cons in Ho as [->|Ho]; [split; cbn;
      [ unfold reads_own; cbn;
        first [ apply or_op; [by apply printed_or | by apply printed_and] | apply and_op; [by apply printed_and | by apply printed_not]
              | apply cmp_op; [by apply (bool_decide_unpack _) | by apply printed_prim | by apply printed_prim] ]
      | try lia; intros _; rewrite Hha; by apply Hh | rewrite Hha; apply Hh | by intros [_ ?]%app_eq_nil ] |]).
    by apply elem_of_nil in Ho.
  - apply andb_prop in Hok as [[Hn Hu%String.eqb_eq]%andb_prop Ha].
    destruct (decide (arg = Star)) as [->|Hs]; [|rewrite bool_decide_false in Ha by done; specialize (IH Ha)]; (split; [|done..]).
    + cbn [reads_own prec]. pose proof (prim_call_star name) as Hp. by rewrite Hu in Hp.
    + pose proof (prim_call name (print_expr 0 arg) arg) as Hp. rewrite Hu in Hp.
      apply Hp; [by apply printed_or | apply IH | apply IH | done].
Qed.

(** * Reading back with the parser's own fuel *)

(** The parser [m] reads [T] as [x] when what follows passes the test [F]. *)
Definition reads {A} (m : M Parser A) (T : list lexeme) (x : A) (F : lexeme -> bool) : Prop :=
  forall toks rest, kv <$> toks = T -> marked rest -> follow F rest -> m (toks ++ rest) = (Ok x, rest).

(** What comes next passes the test: the first lexeme of [T], or of what follows it. *)
Definition starts (F : lexeme -> bool) (T : list lexeme) (F2 : lexeme -> bool) : Prop :=
  match T with a :: _ => F a = true | [] => forall a, F2 a = true -> F a = true end.
Definition any (_ : lexeme) : bool := true.

Lemma marked_app toks rest : marked rest -> marked (toks ++ rest).
Proof. intros (ts0 & t & -> & Ht). exists (toks ++ ts0), t. by rewrite app_assoc. Qed.

Lemma parse_or_le f g : (f <= g)%nat -> refines (parse_or f) (parse_or g).
Proof.
  induction 1 as [|g _ IH]; [apply refines_refl|]. intros ts. destruct (IH ts) as [H| ->]; [by left|]. apply parse_mono.
Qed.

Lemma reads_expr e : expr_ok e = true -> reads parse_expr (print_expr 0 e) e (stops 0).
Proof.
  intros He toks rest Ht Hm Hr. pose proof (printed_or e (expr_printed e He) toks rest _ Ht
    (follow_stops 0 1 rest ltac:(lia) Hr) (or_end e rest Hr)) as [f Hf].
  unfold parse_expr. rewrite bind_gets. set (n := (8 * length (toks ++ rest) + 6)%nat).
  destruct (parse_or_le n (n `max` f)%nat ltac:(lia) (toks ++ rest)) as [H|H]; [| rewrite H; apply Hf; lia].
  pose proof (proj1 (parse_expr_safe n _ (marked_app toks rest Hm)) ltac:(lia)) as Hs. unfold psafe in Hs.
  destruct (parse_or n (toks ++ rest)) as [[x|x] ts']; cbn in H; simplify_eq. by destruct Hs.
Qed.

(** ** Combinators *)

Lemma starts_any T F2 : starts any T F2.
Proof. by destruct T. Qed.
Lemma follow_starts F1 T2 F2 toks rest : starts F1 T2 F2 -> kv <$> toks = T2 -> follow F2 rest -> follow F1 (toks ++ rest).
Proof. intros Hs <- Hr. destruct toks as [|t toks]; [| done]. destruct rest as [|u rest]; [done|]. by apply Hs. Qed.

Lemma reads_ret {A} (x : A) F : reads (mret x) [] x F.
Proof. intros toks rest Ht _ _. by apply fmap_nil_inv in Ht as ->. Qed.
Lemma reads_bind {A B} (m : M Parser A) (k : A -> M Parser B) T1 T2 x y F1 F2 :
  reads m T1 x F1 -> reads (k x) T2 y F2 -> starts F1 T2 F2 -> reads (m ≫= k) (T1 ++ T2) y F2.
Proof.
  intros H1 H2 Hs toks rest Ht Hm Hr. apply fmap_app_inv in Ht as (t1 & t2 & -> & -> & ->). rewrite <- app_assoc.
  rewrite (bind_ok _ _ _ x (t2 ++ rest)); [by apply H2|]. apply H1; [done | by apply marked_app | by eapply follow_starts].
Qed.
Lemma reads_bind_end {A B} (m : M Parser A) (k : A -> M Parser B) T x y F1 F2 :
  reads m T x F1 -> (forall a, F2 a = true -> F1 a = true) -> k x = mret y -> reads (m ≫= k) T y F2.
Proof. intros H HF Hk. rewrite <- (app_nil_r T). eapply reads_bind; [done | rewrite Hk; apply reads_ret | done]. Qed.

Lemma reads_expect {A} kind v (k : Token -> M Parser A) T x F :
  (forall t, reads (k t) T x F) -> reads (expect kind (Some v) ≫= k) ((kind, v) :: T) x F.
Proof.
  intros H toks rest Ht Hm Hr. apply fmap_cons_inv in Ht as (t & toks' & E & Ht & ->). cbn [app].
  rewrite (bind_ok _ _ _ t (toks' ++ rest)) by (by apply expect_some). by apply H.
Qed.
Lemma reads_match {A} kind v (k : bool -> M Parser A) T x F :
  reads (k true) T x F -> reads (match_ kind (Some v) ≫= k) ((kind, v) :: T) x F.
Proof.
  intros H toks rest Ht Hm Hr. apply fmap_cons_inv in Ht as (t & toks' & E & Ht & ->). cbn [app].
  rewrite (bind_ok _ _ _ true (toks' ++ rest)); [by apply H|]. rewrite match_some. by rewrite bool_decide_true by congruence.
Qed.
(** A keyword or sign that is not there. *)
Lemma reads_no_match {A} kind v (k : bool -> M Parser A) T x F :
  reads (k false) T x F -> starts (fun a => negb (bool_decide (a = (kind, v)))) T F ->
  reads (match_ kind (Some v) ≫= k) T x F.
Proof.
  intros H Hs toks rest Ht Hm Hr. pose proof (follow_starts _ _ _ _ _ Hs Ht Hr) as Hf.
  rewrite (bind_ok _ _ _ false (toks ++ rest)); [by apply H|].
  destruct (toks ++ rest) as [|t ts]; [done|]. cbn in Hf. apply negb_true_iff, bool_decide_eq_false in Hf.
  rewrite match_some. by rewrite bool_decide_false by done.
Qed.
Lemma reads_ident v : reads ident [id_ v] v any.
Proof.
  intros toks rest Ht Hm Hr. apply fmap_cons_inv in Ht as ([k u p] & toks' & E & Ht & ->). injection E as <- <-.
  symmetry in Ht. apply fmap_nil_inv in Ht as ->. unfold ident. cbn [app]. by rewrite (bind_ok _ _ _ _ _ (expect_none IDENT (mkToken IDENT v p) rest eq_refl)).
Qed.

(** ** Lists *)

Definition print_list {A} (f : A -> list lexeme) (l : list A) : list lexeme :=
  match l with [] => [] | x :: l' => f x ++ (l' ≫= fun y => op "," :: f y) end.

Definition or_comma (F : lexeme -> bool) (a : lexeme) : bool := bool_decide (a = op ",") || F a.

Lemma more_cons {A} (f : A -> list lexeme) y l : ((y :: l) ≫= fun y => op "," :: f y) = op "," :: f y ++ (l ≫= fun y => op "," :: f y).
Proof. reflexivity. Qed.

Lemma reads_more {A} (item : M Parser A) (f : A -> list lexeme) l F fuel acc :
  Forall (fun x => reads item (f x) x (or_comma F)) l -> F (op ",") = false -> (length l < fuel)%nat ->
  reads (more fuel item acc) (l ≫= fun y => op "," :: f y) (acc ++ l) F.
Proof.
  intros Hl HF. revert fuel acc. induction Hl as [|y l Hy Hl IH]; intros [|fuel] acc Hf; cbn [length] in Hf; try lia; cbn [more].
  - apply reads_no_match; [rewrite app_nil_r; apply reads_ret|]. intros a Ha. apply negb_true_iff, bool_decide_eq_false. intros ->. unfold op in HF. congruence.
  - rewrite more_cons. apply reads_match. eapply reads_bind; [exact Hy | |].
    + replace (acc ++ y :: l) with ((acc ++ [y]) ++ l) by (by rewrite <- app_assoc). apply IH. lia.
    + destruct l; [| done]. intros a Ha. unfold or_comma. by rewrite Ha, orb_true_r.
Qed.

Lemma length_more {A} (f : A -> list lexeme) l : (length l <= length (l ≫= fun y => op "," :: f y))%nat.
Proof. induction l as [|y l IH]; [done|]. rewrite more_cons. cbn [length]. rewrite length_app. lia. Qed.

Lemma reads_comma_list {A} (item : M Parser A) (f : A -> list lexeme) l F :
  Forall (fun x => reads item (f x) x (or_comma F)) l -> F (op ",") = false -> l <> [] ->
  reads (comma_list item) (print_list f l) l F.
Proof.
  intros [|x l' Hx Hl] HF Hne; [done|]. unfold comma_list, print_list. eapply reads_bind; [exact Hx | |].
  - intros toks rest Ht Hm Hr. rewrite bind_gets. apply (reads_more item f l' F (S (length (toks ++ rest))) [x]); try done.
    pose proof (length_more f l'). rewrite <- Ht, length_fmap in H. rewrite length_app. lia.
  - destruct l'; [| done]. intros a Ha. unfold or_comma. by rewrite Ha, orb_true_r.
Qed.

(** * Statements *)

Definition print_alias (a : option string) : list lexeme :=
  match a with Some v => [kw "AS"; id_ v] | None => [] end.
Definition print_opt {A} (k : string) (f : A -> list lexeme) (o : option A) : list lexeme :=
  match o with Some x => kw k :: f x | None => [] end.
(** An empty list is an absent clause. *)
Definition some_list {A} (l : list A) : option (list A) := match l with [] => None | _ => Some l end.
Definition print_by {A} (f : A -> list lexeme) (l : list A) : list lexeme := kw "BY" :: print_list f l.
Definition print_id (v : string) : list lexeme := [id_ v].
Definition print_column_def (c : ColumnDef) : list lexeme := [id_ (cd_name c); kw (cd_type c)].
Definition print_item (i : SelectItem) : list lexeme := print_expr 0 (si_expr i) ++ print_alias (si_alias i).
Definition print_order (o : OrderByItem) : list lexeme :=
  print_expr 0 (ob_expr o) ++ (if ob_descending o then [kw "DESC"] else []).
Definition print_join (j : JoinClause) : list lexeme :=
  id_ (jc_table j) :: print_alias (jc_alias j) ++ kw "ON" :: print_expr 0 (jc_on j).
Definition print_assignment (a : string * Expr) : list lexeme := id_ (fst a) :: op "=" :: print_expr 0 (snd a).
Definition print_row (r : list Expr) : list lexeme := paren (print_list (print_expr 0) r).
Definition print_items (l : list SelectItem) : list lexeme :=
  if bool_decide ((si_expr <$> l) = [Star]) then [op "*"] else print_list print_item l.

Definition print_statement (s : Statement) : list lexeme :=
  match s with
  | SCreateTable s =>
      kw "CREATE" :: kw "TABLE" :: id_ (ct_table s) :: paren (print_list print_column_def (ct_columns s))
  | SCreateIndex s =>
      kw "CREATE" :: (if ci_unique s then [kw "UNIQUE"] else []) ++
      kw "INDEX" :: id_ (ci_index_name s) :: kw "ON" :: id_ (ci_table s) :: paren [id_ (ci_column s)]
  | SInsert s =>
      kw "INSERT" :: kw "INTO" :: id_ (ins_table s) ::
      (match ins_columns s with Some l => paren (print_list print_id l) | None => [] end) ++
      kw "VALUES" :: print_list print_row (ins_rows s)
  | SSelect s =>
      kw "SELECT" :: print_items (sel_items s) ++ kw "FROM" :: id_ (sel_table s) :: print_alias (sel_table_alias s) ++
      print_opt "JOIN" print_join (sel_join s) ++ print_opt "WHERE" (print_expr 0) (sel_where s) ++
      print_opt "GROUP" (print_by print_id) (some_list (sel_group_by s)) ++
      print_opt "ORDER" (print_by print_order) (some_list (sel_order_by s)) ++
      print_opt "LIMIT" (fun n => [(NUMBER, pretty n)]) (sel_limit s)
  | SUpdate s =>
      kw "UPDATE" :: id_ (upd_table s) :: kw "SET" :: print_list print_assignment (upd_assignments s) ++
      print_opt "WHERE" (print_expr 0) (upd_where s)
  | SDelete s =>
      kw "DELETE" :: kw "FROM" :: id_ (del_table s) :: print_opt "WHERE" (print_expr 0) (del_where s)
  end.

(** Statements with non-empty lists, identifiers, and expressions of the grammar. *)
Definition nonempty {A} (l : list A) : bool := match l with [] => false | _ => true end.
Definition item_ok (i : SelectItem) : bool := expr_ok (si_expr i) && from_option ident_ok true (si_alias i).
Definition items_ok (l : list SelectItem) : bool :=
  match l with [mkSelectItem Star None] => true | _ => nonempty l && forallb item_ok l end.
Definition statement_ok (s : Statement) : bool :=
  match s with
  | SCreateTable s =>
      ident_ok (ct_table s) && nonempty (ct_columns s) &&
      forallb (fun c => ident_ok (cd_name c) && bool_decide (cd_type c ∈ ["INT"; "FLOAT"; "TEXT"; "BOOL"]%string)) (ct_columns s)
  | SCreateIndex s => ident_ok (ci_index_name s) && ident_ok (ci_table s) && ident_ok (ci_column s)
  | SInsert s =>
      ident_ok (ins_table s) && from_option (fun l => nonempty l && forallb ident_ok l) true (ins_columns s) &&
      nonempty (ins_rows s) && forallb (fun r => nonempty r && forallb expr_ok r) (ins_rows s)
  | SSelect s =>
      items_ok (sel_items s) && ident_ok (sel_table s) && from_option ident_ok true (sel_table_alias s) &&
      from_option (fun j => ident_ok (jc_table j) && expr_ok (jc_on j) && from_option ident_ok true (jc_alias j)) true (sel_join s) &&
      from_option expr_ok true (sel_where s) && forallb ident_ok (sel_group_by s) &&
      forallb (fun o => expr_ok (ob_expr o)) (sel_order_by s) && from_option (fun n => 0 <=? n) true (sel_limit s)
  | SUpdate s =>
      ident_ok (upd_table s) && nonempty (upd_assignments s) &&
      forallb (fun a => ident_ok (fst a) && expr_ok (snd a)) (upd_assignments s) && from_option expr_ok true (upd_where s)
  | SDelete s => ident_ok (del_table s) && from_option expr_ok true (del_where s)
  end.

(** The end of the text, or one of the keywords in [l]. *)
Definition after (l : list string) (a : lexeme) : bool := bool_decide (a = (EOF, ""%string)) || bool_decide (a ∈ kw <$> l).

Lemma after_inv l a : after l a = true -> a = (EOF, ""%string) \/ exists k, k ∈ l /\ a = kw k.
Proof.
  unfold after. rewrite orb_true_iff, !bool_decide_eq_true. intros [H|H]; [by left|]. right.
  apply list_elem_of_fmap in H as (k & -> & Hk). eauto.
Qed.
Lemma after_mono l l' a : l ⊆ l' -> after l a = true -> after l' a = true.
Proof.
  intros Hl [->|(k & Hk & ->)]%after_inv; [done|]. unfold after. apply orb_true_iff. right. apply bool_decide_eq_true.
  apply list_elem_of_fmap. eauto.
Qed.

(** Every lexeme that may follow passes the test [G]. *)
Definition within (l : list string) (G : lexeme -> bool) : Prop := G (EOF, ""%string) = true /\ Forall (fun k => G (kw k) = true) l.
Lemma within_after l G : within l G -> forall a, after l a = true -> G a = true.
Proof. intros [H1 H2] a [->|(k & Hk & ->)]%after_inv; [done|]. rewrite Forall_forall in H2. auto. Qed.

Lemma reads_mono {A} (m : M Parser A) T x F G : reads m T x F -> (forall a, G a = true -> F a = true) -> reads m T x G.
Proof. intros H HG toks rest Ht Hm Hr. apply H; [done | done |]. by apply (follow_impl G). Qed.

(** ** Clauses *)

Lemma reads_optional {A} k (clause : M Parser A) f o l :
  (forall x, o = Some x -> reads clause (f x) x (after l)) -> k ∉ l -> reads (optional k clause) (print_opt k f o) o (after l).
Proof.
  intros H Hk. unfold optional, print_opt. destruct o as [x|].
  - apply reads_match. eapply reads_bind_end; [by apply H | done | done].
  - apply reads_no_match; [apply reads_ret|]. intros a [->|(k' & Hk' & ->)]%after_inv; apply negb_true_iff, bool_decide_eq_false; [done|].
    unfold kw. congruence.
Qed.

Lemma starts_opt {A} G k (f : A -> list lexeme) o T F2 : G (kw k) = true -> starts G T F2 -> starts G (print_opt k f o ++ T) F2.
Proof. by destruct o. Qed.
Lemma starts_end {A} G k (f : A -> list lexeme) o F2 : G (kw k) = true -> (forall a, F2 a = true -> G a = true) -> starts G (print_opt k f o) F2.
Proof. by destruct o. Qed.

Definition no_alias (a : lexeme) : bool := negb (bool_decide (a = kw "AS") || bool_decide (fst a = IDENT)).
Lemma reads_alias a : reads parse_optional_alias (print_alias a) a no_alias.
Proof.
  unfold parse_optional_alias, print_alias. destruct a as [v|].
  - apply reads_match. eapply reads_bind_end; [apply reads_ident | done | done].
  - apply reads_no_match.
    + intros toks rest Ht Hm Hr. apply fmap_nil_inv in Ht as ->. cbn [app]. destruct rest as [|t rest]; [done|].
      rewrite (bind_ok _ _ _ _ _ (check_none IDENT t rest)). cbn in Hr. unfold no_alias in Hr.
      apply negb_true_iff, orb_false_iff in Hr as [_ Hr]. by rewrite Hr.
    + intros a Ha. unfold no_alias in Ha. apply negb_true_iff, orb_false_iff in Ha as [Ha _]. unfold kw in Ha. by rewrite Ha.
Qed.

(** An expression is ended by a clause, a comma, a parenthesis or the end. *)
Definition closes (a : lexeme) : bool := stops 0 a.

Lemma reads_list {A} (item : M Parser A) f (l : list A) (ok : A -> bool) F :
  (forall x, ok x = true -> reads item (f x) x (or_comma F)) -> forallb ok l = true -> F (op ",") = false -> nonempty l = true ->
  reads (comma_list item) (print_list f l) l F.
Proof.
  intros H Hl HF Hne. apply reads_comma_list; [| done | by destruct l].
  rewrite forallb_forall in Hl. apply Forall_forall. intros x Hx%list_elem_of_In. auto.
Qed.

(** A parenthesised list, as columns, rows and column definitions have. *)
Definition is_close (a : lexeme) : bool := bool_decide (a = op ")").

Lemma or_comma_inv F a : or_comma F a = true -> a = op "," \/ F a = true.
Proof. unfold or_comma. rewrite orb_true_iff, bool_decide_eq_true. done. Qed.
Lemma stops_close a : or_comma is_close a = true -> stops 0 a = true.
Proof. intros [->|H%bool_decide_eq_true]%or_comma_inv; [done|]. by subst. Qed.
Lemma stops_after l a : within l (stops 0) -> or_comma (after l) a = true -> stops 0 a = true.
Proof. intros Hw [->|H]%or_comma_inv; [done|]. by apply (within_after l). Qed.

Lemma reads_close {A B} (m : M Parser A) (k : Token -> M Parser B) T x y T2 F :
  reads m T x is_close -> (forall t, reads (k t) T2 y F) ->
  reads (m ≫= fun a => expect OP (Some ")"%string) ≫= fun t => k t) (T ++ op ")" :: T2) y F.
Proof. intros Hm Hk. eapply reads_bind; [exact Hm | by apply reads_expect |]. done. Qed.

Lemma reads_row r : nonempty r = true -> forallb expr_ok r = true -> forall F, reads parse_value_row (print_row r) r F.
Proof.
  intros Hne Hr F. unfold parse_value_row, print_row, paren. apply reads_expect. intros _.
  eapply reads_bind; [eapply (reads_list _ _ _ expr_ok is_close) | apply reads_expect; intros _; apply reads_ret |]; try done.
  intros x Hx. eapply reads_mono; [by apply reads_expr|]. apply stops_close.
Qed.

Lemma reads_column_def c F : bool_decide (cd_type c ∈ ["INT"; "FLOAT"; "TEXT"; "BOOL"]%string) = true ->
  reads parse_column_def (print_column_def c) c F.
Proof.
  intros Hty%bool_decide_eq_true. unfold parse_column_def, print_column_def.
  change [id_ (cd_name c); kw (cd_type c)] with ([id_ (cd_name c)] ++ [kw (cd_type c)]).
  eapply reads_bind; [apply reads_ident | | apply starts_any].
  intros toks rest Ht Hm Hr. apply fmap_cons_inv in Ht as ([k u p] & toks' & E & Ht & ->). injection E as <- <-.
  symmetry in Ht. apply fmap_nil_inv in Ht as ->. cbn [app]. rewrite (bind_ok _ _ _ (mkToken KEYWORD (cd_type c) p) rest) by done. cbn [tk_value].
  assert (upper (cd_type c) = cd_type c) as ->.
  { clear -Hty. repeat (apply elem_of_cons in Hty as [->|Hty]; [reflexivity|]). by apply elem_of_nil in Hty. }
  rewrite bool_decide_true by done. by destruct c.
Qed.

Lemma reads_item i F : item_ok i = true -> (forall a, F a = true -> stops 0 a = true /\ a <> kw "AS") ->
  reads parse_select_item (print_item i) i F.
Proof.
  intros [He Ha]%andb_prop HF. unfold parse_select_item, print_item. destruct i as [e [v|]]; cbn [si_expr si_alias] in *.
  - eapply reads_bind; [by apply reads_expr | | done]. apply reads_match.
    eapply (reads_bind_end _ _ _ (Some v) _ any); [| done | reflexivity].
    eapply (reads_bind_end _ _ _ v); [apply reads_ident | done | reflexivity].
  - eapply reads_bind; [by apply reads_expr | | intros a Ha'; by apply HF].
    apply reads_no_match; [apply (reads_ret _)|]. intros a Ha'. apply negb_true_iff, bool_decide_eq_false. by apply HF.
Qed.

Lemma reads_order o F : expr_ok (ob_expr o) = true -> (forall a, F a = true -> stops 0 a = true /\ a <> kw "DESC" /\ a <> kw "ASC") ->
  reads parse_order_item (print_order o) o F.
Proof.
  intros He HF. unfold parse_order_item, print_order. destruct o as [e []]; cbn [ob_expr ob_descending] in *.
  - eapply reads_bind; [by apply reads_expr | apply reads_match, reads_ret | done].
  - eapply reads_bind; [by apply reads_expr | | intros a Ha; by apply HF].
    do 2 (apply reads_no_match; [| intros a Ha; apply negb_true_iff, bool_decide_eq_false; by apply HF]). apply reads_ret.
Qed.

Lemma reads_assignment a F : ident_ok (fst a) && expr_ok (snd a) = true -> (forall a, F a = true -> stops 0 a = true) ->
  reads parse_assignment (print_assignment a) a F.
Proof.
  intros [_ He]%andb_prop HF. unfold parse_assignment, print_assignment. destruct a as [n e]. cbn [fst snd] in *.
  change (id_ n :: op "=" :: print_expr 0 e) with ([id_ n] ++ op "=" :: print_expr 0 e).
  eapply reads_bind; [apply reads_ident | apply reads_expect; intros _ | apply starts_any].
  eapply reads_bind_end; [by apply reads_expr | done | done].
Qed.

Lemma reads_join j l : expr_ok (jc_on j) = true -> within l (stops 0) -> reads parse_join (print_join j) j (after l).
Proof.
  intros He Hw. unfold parse_join, print_join. destruct j as [t e a]. cbn [jc_table jc_on jc_alias] in *.
  change (id_ t :: ?T) with ([id_ t] ++ T). eapply reads_bind; [apply reads_ident | | apply starts_any].
  eapply reads_bind; [apply reads_alias | apply reads_expect; intros _ | done].
  eapply reads_bind_end; [by apply reads_expr | by apply within_after | done].
Qed.

Lemma reads_by {A} (item : M Parser A) f l ok ks :
  (forall x, ok x = true -> reads item (f x) x (or_comma (after ks))) -> forallb ok l = true -> nonempty l = true ->
  reads (by_list item) (print_by f l) l (after ks).
Proof.
  intros H Hl Hne. unfold by_list, print_by. apply reads_expect. intros _. eapply reads_list; try done.
  unfold after. rewrite bool_decide_false by done. rewrite bool_decide_false; [done|].
  intros (k & E & _)%list_elem_of_fmap. done.
Qed.

Lemma reads_limit n F : 0 <= n -> reads parse_limit [(NUMBER, pretty n)] n F.
Proof.
  intros Hn toks rest Ht Hm Hr. inv_toks Ht. unfold parse_limit.
  erewrite (bind_ok _ _ _ _ rest) by (by apply expect_none). cbn [tk_value]. unfold lift_result. by rewrite int_of_pretty.
Qed.

(** ** The six statements *)

Ltac side := first [ done | intros ? ?%bool_decide_eq_true; by subst | by vm_compute ].

Lemma reads_ident_then {A} (k : string -> M Parser A) v T x F : reads (k v) T x F -> reads (ident ≫= k) (id_ v :: T) x F.
Proof.
  intros H. change (id_ v :: T) with ([id_ v] ++ T). eapply reads_bind; [apply reads_ident | done | apply starts_any].
Qed.

Lemma starts_opt_after {A} G k (f : A -> list lexeme) o T F2 : G (kw k) = true -> starts G T F2 -> starts G (print_opt k f o ++ T) F2.
Proof. by destruct o. Qed.

Lemma reads_ids l F : forallb ident_ok l = true -> nonempty l = true -> F (op ",") = false ->
  reads (comma_list ident) (print_list print_id l) l F.
Proof. intros Hl Hne HF. apply (reads_list _ _ _ ident_ok); try done. intros x _. apply (reads_mono _ _ _ any); [apply reads_ident | done]. Qed.

Lemma reads_create s : statement_ok s = true -> match s with SCreateTable _ | SCreateIndex _ => True | _ => False end ->
  reads parse_create (print_statement s) s (after []).
Proof.
  destruct s as [[t cs]|[n t c u]| | | |]; try done; intros Hok _; unfold parse_create; cbn [print_statement statement_ok ct_table ct_columns ci_index_name ci_table ci_column ci_unique] in *.
  - apply andb_prop in Hok as [[Ht Hne]%andb_prop Hcs]. apply reads_expect. intros _.
    apply reads_no_match; [| done]. apply reads_match, reads_ident_then, reads_expect. intros _. cbv beta.
    eapply reads_bind; [eapply (reads_list _ _ _ _ is_close); [| exact Hcs | done | done] | apply reads_expect; intros _; apply reads_ret | done].
    intros d [_ Hd]%andb_prop. by apply reads_column_def.
  - apply reads_expect. intros _. cbn [app].
    destruct u; cbn [app]; [apply reads_match | apply reads_no_match; [| done]];
      (apply reads_no_match; [| done]); apply reads_expect; intros _; apply reads_ident_then, reads_expect; intros _;
      apply reads_ident_then, reads_expect; intros _; apply reads_ident_then, reads_expect; intros _; apply reads_ret.
Qed.

Lemma reads_insert s : statement_ok (SInsert s) = true -> reads parse_insert (print_statement (SInsert s)) (SInsert s) (after []).
Proof.
  destruct s as [t cols rows]. cbn [print_statement statement_ok ins_table ins_columns ins_rows].
  intros [[[_ Hc]%andb_prop Hne]%andb_prop Hr]%andb_prop. unfold parse_insert.
  apply reads_expect. intros _. apply reads_expect. intros _. apply reads_ident_then.
  assert (reads (rows ← comma_list parse_value_row; mret (SInsert (mkInsert t cols rows))) (print_list print_row rows) (SInsert (mkInsert t cols rows)) (after [])) as Hrows.
  { eapply reads_bind_end; [eapply (reads_list _ _ _ _ (after [])); [| exact Hr | done | done] | done | done].
    intros r [Hn Hx]%andb_prop. by apply reads_row. }
  destruct cols as [l|]; cbn [from_option] in Hc.
  - apply andb_prop in Hc as [Hn Hl]. unfold paren. cbn [app]. rewrite <- app_assoc. cbn [app]. apply reads_match. cbv beta iota.
    replace (print_list print_id l ++ op ")" :: kw "VALUES" :: print_list print_row rows)
      with ((print_list print_id l ++ [op ")"]) ++ kw "VALUES" :: print_list print_row rows) by (by rewrite <- app_assoc).
    eapply (reads_bind _ _ _ _ (Some l) _ any); [| apply reads_expect; intros _; apply Hrows | apply starts_any].
    eapply reads_bind; [by apply (reads_ids l is_close) | apply reads_expect; intros _; apply reads_ret | done].
  - apply reads_no_match; [| done]. eapply (reads_bind _ _ [] _ None _ any); [apply reads_ret | apply reads_expect; intros _; apply Hrows | done].
Qed.

Lemma reads_opt_expr k o l : from_option expr_ok true o = true -> within l (stops 0) -> k ∉ l ->
  reads (optional k parse_expr) (print_opt k (print_expr 0) o) o (after l).
Proof.
  intros Ho Hw Hk. apply reads_optional; [| done]. intros x ->. eapply reads_mono; [by apply reads_expr | by apply within_after].
Qed.

Lemma reads_delete s : statement_ok (SDelete s) = true -> reads parse_delete (print_statement (SDelete s)) (SDelete s) (after []).
Proof.
  destruct s as [t w]. cbn [print_statement statement_ok del_table del_where]. intros [_ Hw]%andb_prop. unfold parse_delete.
  apply reads_expect. intros _. apply reads_expect. intros _. apply reads_ident_then.
  eapply reads_bind_end; [apply reads_opt_expr; [done | done | apply not_elem_of_nil] | done | done].
Qed.

Lemma reads_update s : statement_ok (SUpdate s) = true -> reads parse_update (print_statement (SUpdate s)) (SUpdate s) (after []).
Proof.
  destruct s as [t a w]. cbn [print_statement statement_ok upd_table upd_assignments upd_where].
  intros [[[_ Hne]%andb_prop Ha]%andb_prop Hw]%andb_prop. unfold parse_update.
  apply reads_expect. intros _. apply reads_ident_then. apply reads_expect. intros _.
  eapply reads_bind.
  - eapply (reads_list _ _ _ _ (after ["WHERE"%string])); [| exact Ha | done | done]. intros x Hx. apply reads_assignment; [done|].
    intros y. apply stops_after. split; [done | by repeat constructor].
  - eapply reads_bind_end; [apply reads_opt_expr; [done | done | apply not_elem_of_nil] | done | done].
  - apply starts_end; [done|]. intros y. apply after_mono. set_solver.
Qed.

Lemma after_inv_nil a : after [] a = true -> a = (EOF, ""%string).
Proof. intros [->|(k & Hk & _)]%after_inv; [done|]. by apply elem_of_nil in Hk. Qed.

Lemma reads_items l F : items_ok l = true -> (forall a, F a = true -> stops 0 a = true /\ a <> kw "AS" /\ a <> op ",") ->
  reads parse_select_items (print_items l) l F.
Proof.
  intros Hok HF. unfold parse_select_items, print_items.
  assert ((l = [mkSelectItem Star None]) \/ (nonempty l = true /\ forallb item_ok l = true)) as [->|[Hne Hl]].
  { unfold items_ok in Hok. repeat case_match; simplify_eq; auto; right; by apply andb_prop in Hok. }
  - apply reads_match, reads_ret.
  - assert (forall i, item_ok i = true -> si_expr i <> Star) as Hstar.
    { intros [[] a]; try done. }
    rewrite bool_decide_false.
    2: { intros E. destruct l as [|i [|]]; try done. cbn in E. simplify_eq. cbn [forallb] in Hl. apply andb_prop in Hl as [Hi _].
      by apply (Hstar i). }
    apply reads_no_match.
    + eapply (reads_list _ _ _ item_ok F); [| done | | done].
      * intros i Hi. apply reads_item; [done|]. intros a [->|Ha]%or_comma_inv; [done|]. split; by apply HF.
      * destruct (F (op ",")) eqn:E; [| done]. exfalso. by apply (HF _ E).
    + destruct l as [|i l]; [done|]. cbn [forallb] in Hl. apply andb_prop in Hl as [[Hi _]%andb_prop _].
      destruct (expr_printed _ Hi) as [_ _ Hs He]. cbn [print_list]. unfold print_item.
      destruct (print_expr 0 (si_expr i)) as [|b T]; [done|]. cbn [app starts]. apply negb_true_iff, bool_decide_eq_false.
      cbn in Hs. unfold op in Hs. congruence.
Qed.

Lemma some_list_ok {A} (ok : A -> bool) l x : forallb ok l = true -> some_list l = Some x -> forallb ok x = true /\ nonempty x = true.
Proof. destruct l; [done|]. by intros ? [= <-]. Qed.
Lemma default_some_list {A} (l : list A) : default [] (some_list l) = l.
Proof. by destruct l. Qed.

Lemma reads_select s : statement_ok (SSelect s) = true -> reads parse_select (print_statement (SSelect s)) (SSelect s) (after []).
Proof.
  destruct s as [items t al j w g o n].
  cbn [print_statement statement_ok sel_items sel_table sel_table_alias sel_join sel_where sel_group_by sel_order_by sel_limit].
  intros [[[[[[[Hi _]%andb_prop _]%andb_prop Hj]%andb_prop Hw]%andb_prop Hg]%andb_prop Ho]%andb_prop Hn]%andb_prop.
  unfold parse_select. apply reads_expect. intros _.
  eapply (reads_bind _ _ _ _ _ _ (fun a => bool_decide (a = kw "FROM"))).
  { apply reads_items; [done|]. intros a ->%bool_decide_eq_true. done. }
  2: done.
  apply reads_expect. intros _. apply reads_ident_then.
  eapply reads_bind; [apply reads_alias | | repeat (apply starts_opt; [done|]); apply starts_end; [done|]; by intros a ->%after_inv_nil].
  eapply (reads_bind _ _ _ _ _ _ (after ["WHERE"; "GROUP"; "ORDER"; "LIMIT"]%string)).
  { apply reads_optional; [| set_solver]. intros x ->. cbn [from_option] in Hj. apply andb_prop in Hj as [[_ Hj]%andb_prop _].
    apply reads_join; [done|]. split; [done | by repeat constructor]. }
  2: { repeat (apply starts_opt; [done|]). apply starts_end; [done|]. by intros a ->%after_inv_nil. }
  eapply (reads_bind _ _ _ _ _ _ (after ["GROUP"; "ORDER"; "LIMIT"]%string)).
  { apply reads_opt_expr; [done | split; [done | by repeat constructor] | set_solver]. }
  2: { repeat (apply starts_opt; [done|]). apply starts_end; [done|]. by intros a ->%after_inv_nil. }
  eapply (reads_bind _ _ _ _ _ _ (after ["ORDER"; "LIMIT"]%string)).
  { apply reads_optional; [| set_solver]. intros x Hx. destruct (some_list_ok _ _ _ Hg Hx) as [Hgx Hne].
    apply (reads_by _ _ _ ident_ok); [| done | done]. intros y _. eapply (reads_mono _ _ _ any); [apply reads_ident | done]. }
  2: { repeat (apply starts_opt; [done|]). apply starts_end; [done|]. by intros a ->%after_inv_nil. }
  eapply (reads_bind _ _ _ _ _ _ (after ["LIMIT"]%string)).
  { apply reads_optional; [| set_solver]. intros x Hx. destruct (some_list_ok _ _ _ Ho Hx) as [Hox Hne].
    apply (reads_by _ _ _ (fun o => expr_ok (ob_expr o))); [| done | done]. intros y Hy. apply reads_order; [done|].
    intros a [->|[->|(k & ->%list_elem_of_singleton & ->)]%after_inv]%or_comma_inv; done. }
  2: { apply starts_end; [done|]. by intros a ->%after_inv_nil. }
  eapply (reads_bind_end _ _ _ _ _ (after [])); [| done | by rewrite !default_some_list].
  apply reads_optional; [| set_solver]. intros x ->. apply reads_limit. cbn in Hn. lia.
Qed.

(** ** The statement and the end of the text *)

Lemma reads_statement s toks : statement_ok s = true -> kv <$> toks = print_statement s ++ [(EOF, ""%string)] ->
  fst (parse_statement toks) = Ok s.
Proof.
  intros Hok Ht. apply fmap_app_inv in Ht as (t1 & t2 & HT & Ht & ->). symmetry in Ht.
  assert (marked t2 /\ follow (after []) t2) as [Hm Hf].
  { apply fmap_cons_inv in Ht as (u & ? & E & Ht & ->). symmetry in Ht. apply fmap_nil_inv in Ht as ->.
    split; [by exists [], u|]. cbn. by rewrite <- E. }
  unfold parse_statement.
  assert (exists k T, print_statement s = kw k :: T) as (k & T & EP) by (destruct s; by eexists _, _).
  rewrite EP in HT. symmetry in HT. pose proof HT as HT0. apply fmap_cons_inv in HT0 as ([k0 u p] & t1' & E & _ & Et1).
  assert (forall v, check KEYWORD (Some v) (t1 ++ t2) = (Ok (bool_decide (k = v)), t1 ++ t2)) as Hck.
  { intros v. subst t1. cbn [app]. rewrite check_some. do 2 f_equal. rewrite <- E. apply bool_decide_ext. unfold kw. split; congruence. }
  do 5 rewrite (bind_ok _ _ _ _ _ (Hck _)).
  set (m := if bool_decide (k = "CREATE"%string) then _ else _).
  assert (m (t1 ++ t2) = (Ok s, t2)) as Em.
  { rewrite <- EP in HT. destruct s; cbn [print_statement] in EP; injection EP as <- _; subst m.
    - exact (reads_create _ Hok I t1 t2 HT Hm Hf).
    - exact (reads_create _ Hok I t1 t2 HT Hm Hf).
    - exact (reads_insert _ Hok t1 t2 HT Hm Hf).
    - exact (reads_select _ Hok t1 t2 HT Hm Hf).
    - exact (reads_update _ Hok t1 t2 HT Hm Hf).
    - exact (reads_delete _ Hok t1 t2 HT Hm Hf). }
  rewrite (bind_ok _ _ _ _ _ Em). destruct t2 as [|t t2]; [done|]. cbn in Hf. apply after_inv_nil in Hf.
  rewrite (bind_ok _ _ _ false (t :: t2)) by (rewrite match_some; by rewrite Hf).
  rewrite (bind_ok _ _ _ t t2) by (apply expect_none; by rewrite Hf). done.
Qed.

(** ** All lexemes of a printed statement are tokens *)

Notation tokens := (Forall (fun t => token_ok t = true)).

Lemma tokens_paren T : tokens T -> tokens (paren T).
Proof. intros H. unfold paren. constructor; [done|]. apply Forall_app. split; [done | by repeat constructor]. Qed.
Lemma tokens_list {A} (f : A -> list lexeme) (ok : A -> bool) l :
  (forall x, ok x = true -> tokens (f x)) -> forallb ok l = true -> tokens (print_list f l).
Proof.
  intros H Hl. rewrite forallb_forall in Hl. destruct l as [|x l]; [constructor|]. cbn [print_list].
  apply Forall_app. split; [apply H, Hl; by left|]. apply Forall_bind, Forall_forall. intros y Hy%list_elem_of_In.
  constructor; [done|]. apply H, Hl. by right.
Qed.
Lemma tokens_opt {A} k (f : A -> list lexeme) o : k ∈ KEYWORDS -> (forall x, o = Some x -> tokens (f x)) -> tokens (print_opt k f o).
Proof. intros Hk H. destruct o; constructor; [by apply bool_decide_eq_true | by apply H]. Qed.
Lemma tokens_id v : ident_ok v = true -> tokens [id_ v].
Proof. intros H. by repeat constructor. Qed.
Lemma tokens_alias a : from_option ident_ok true a = true -> tokens (print_alias a).
Proof. destruct a; by repeat constructor. Qed.

Lemma expr_tokens e : expr_ok e = true -> forall n, tokens (print_expr n e).
Proof.
  assert (forall e, tokens (print_expr 0 e) -> forall n, tokens (print_expr n e)) as Hlev.
  { intros x H n. rewrite print_level. destruct (prec x <? n)%nat; [by apply tokens_paren | done]. }
  induction e as [v|name table| |o e IH|o l IHl r IHr|name arg IH]; cbn [expr_ok]; intros Hok; try done; apply Hlev.
  - by apply literal_tokens.
  - apply andb_prop in Hok as [Hn Ht]. destruct table; by repeat constructor.
  - apply andb_prop in Hok as [->%String.eqb_eq Hok]. constructor; [done|]. by apply IH.
  - apply andb_prop in Hok as [[Ho%bool_decide_eq_true Hl]%andb_prop Hr]. specialize (IHl Hl). specialize (IHr Hr).
    repeat (apply elem_of_cons in Ho as [->|Ho]; [cbn; apply Forall_app; split; [done | by constructor]|]). by apply elem_of_nil in Ho.
  - apply andb_prop in Hok as [[Hn _]%andb_prop Ha]. constructor; [done|]. apply tokens_paren.
    destruct (decide (arg = Star)) as [->|Hs]; [by repeat constructor|]. rewrite bool_decide_false in Ha by done. by apply IH.
Qed.

Ltac tk := repeat first [ assumption | done | apply Forall_nil; done | apply tokens_paren | apply tokens_alias; assumption
  | apply expr_tokens; assumption | apply tokens_id; assumption | apply Forall_app; split | apply Forall_cons; split ].

Lemma statement_tokens s : statement_ok s = true -> tokens (print_statement s).
Proof.
  destruct s as [[t cs]|[n t c u]|[t cols rows]|[items t al j w g o n]|[t a w]|[t w]];
    cbn [print_statement statement_ok ct_table ct_columns ci_index_name ci_table ci_column ci_unique ins_table ins_columns ins_rows
      sel_items sel_table sel_table_alias sel_join sel_where sel_group_by sel_order_by sel_limit upd_table upd_assignments upd_where
      del_table del_where]; rewrite ?andb_true_iff; intros Hok.
  - destruct Hok as [[Ht _] Hcs]. tk. eapply tokens_list; [| exact Hcs]. intros [v ty] [Hv Hty%bool_decide_eq_true]%andb_prop. cbn in *.
    tk. apply bool_decide_eq_true. clear -Hty. repeat (apply elem_of_cons in Hty as [->|Hty]; [by apply (bool_decide_unpack _)|]). by apply elem_of_nil in Hty.
  - destruct Hok as [[Hn Ht] Hc]. destruct u; tk.
  - destruct Hok as [[[Ht Hc] _] Hr]. tk.
    + destruct cols as [l|]; [| done]. apply andb_prop in Hc as [_ Hl]. tk. eapply tokens_list; [| exact Hl]. intros; tk.
    + eapply tokens_list; [| exact Hr]. intros r [_ Hx]%andb_prop. apply tokens_paren. eapply tokens_list; [| exact Hx]. intros. by apply expr_tokens.
  - destruct Hok as [[[[[[[Hi Ht] Hal] Hj] Hw] Hg] Ho] Hn]. tk.
    + unfold print_items. case_bool_decide; [tk|]. unfold items_ok in Hi.
      assert (forallb item_ok items = true) as Hit by (repeat case_match; simplify_eq; try done; by apply andb_prop in Hi as [_ ?]).
      eapply tokens_list; [| exact Hit]. intros i [He Ha]%andb_prop. unfold print_item. tk.
    + apply tokens_opt; [by apply (bool_decide_unpack _)|]. intros x ->. cbn [from_option] in Hj. rewrite !andb_true_iff in Hj.
      destruct Hj as [[H1 H2] H3]. unfold print_join. tk.
    + apply tokens_opt; [by apply (bool_decide_unpack _)|]. intros x ->. tk.
    + apply tokens_opt; [by apply (bool_decide_unpack _)|]. intros x [Hx _]%(some_list_ok _ _ _ Hg). unfold print_by. tk.
      eapply tokens_list; [| exact Hx]. intros; tk.
    + apply tokens_opt; [by apply (bool_decide_unpack _)|]. intros x [Hx _]%(some_list_ok _ _ _ Ho). unfold print_by. tk.
      eapply tokens_list; [| exact Hx]. intros [e []] He; unfold print_order; tk.
    + apply tokens_opt; [by apply (bool_decide_unpack _)|]. intros x ->. tk. apply pretty_token. cbn in Hn. lia.
  - destruct Hok as [[[Ht _] Ha] Hw]. tk.
    + eapply tokens_list; [| exact Ha]. intros [v e] [Hv He]%andb_prop. unfold print_assignment. cbn in *. tk.
    + apply tokens_opt; [by apply (bool_decide_unpack _)|]. intros x ->. tk.
  - destruct Hok as [Ht Hw]. tk. apply tokens_opt; [by apply (bool_decide_unpack _)|]. intros x ->. tk.
Qed.

(** C34: Every statement of the grammar, written out as SQL text with as few
    parentheses as precedence allows, parses back to itself: the lexer and the
    parser lose nothing, and AND, OR, NOT and the comparisons associate and
    nest as the printer says. *)
Theorem parse_print s : statement_ok s = true -> parse (text_of (render (print_statement s))) = Ok s.
Proof.
  intros Hok. unfold parse. destruct (tokenize_written (print_statement s) (statement_tokens s Hok)) as (toks & -> & Ht).
  cbn [mbind result_bind]. by apply reads_statement.
Qed.

Lemma parse_print_witness :
  let col := fun c => ColumnRef c None in
  let s := SSelect (mkSelect
    [mkSelectItem (ColumnRef "name" (Some "u")) (Some "who"); mkSelectItem (FunctionCall "COUNT" Star) None] "users" (Some "u")
    (Some (mkJoinClause "orders" (BinaryOp "=" (ColumnRef "id" (Some "u")) (ColumnRef "uid" (Some "o"))) (Some "o")))
    (Some (BinaryOp "AND" (BinaryOp "OR" (BinaryOp "<=" (col "a") (Literal (VInt (-7)))) (UnaryOp "NOT" (col "b")))
       (BinaryOp "<>" (col "c") (Literal (VStr "it's")))))
    ["name"] [mkOrderByItem (col "name") true] (Some 10))%string in
  parse (text_of (render (print_statement s))) = Ok s.
Proof. apply parse_print. vm_compute. reflexivity. Defined.
