(* ===== verification/PyDict.v ===== *)
(** Python dicts with string keys, in insertion order, as association lists
    without duplicate keys: assigning to a present key keeps its place. *)
From stdpp Require Import base numbers list strings.
From Stdlib Require Import ZArith Lia.
From S2P Require Import Prelude.

Local Open Scope Z_scope.

Section dict.
Context {A : Type}.
Implicit Types (d : list (string * A)) (k : string) (v : A).

(** [d.get(k)], [k in d], [d[k] = v] *)
Fixpoint dget d k : option A :=
  match d with [] => None | (k', v) :: d' => if (k' =? k)%string then Some v else dget d' k end.
Definition dmem d k : bool := match dget d k with Some _ => true | None => false end.
Fixpoint dset d k v : list (string * A) :=
  match d with
  | [] => [(k, v)]
  | (k', v') :: d' => if (k' =? k)%string then (k, v) :: d' else (k', v') :: dset d' k v
  end.
(** [d.update(l)], and [dict(l)] for [d = {}] *)
Definition dupdate d (l : list (string * A)) : list (string * A) := foldl (fun d kv => dset d kv.1 kv.2) d l.
Definition dict_of (l : list (string * A)) : list (string * A) := dupdate [] l.
(** [d[k]] *)
Definition dindex d k : result A := match dget d k with Some v => Ok v | None => Raise KeyError end.

(** A dict proper. *)
Definition dict_wf d : Prop := NoDup d.*1.

Lemma dget_dset d k v k' : dget (dset d k v) k' = if (k =? k')%string then Some v else dget d k'.
Proof.
  induction d as [|[q w] d IH]; cbn [dset dget]; [done|].
  destruct (String.eqb_spec q k) as [->|Hq]; cbn [dget]; [by destruct (k =? k')%string|].
  rewrite IH. destruct (String.eqb_spec q k') as [->|]; [| done]. by destruct (String.eqb_spec k k') as [->|].
Qed.
Lemma dget_dset_eq d k v : dget (dset d k v) k = Some v.
Proof. by rewrite dget_dset, String.eqb_refl. Qed.
Lemma dget_dset_ne d k v k' : k <> k' -> dget (dset d k v) k' = dget d k'.
Proof. intros H. rewrite dget_dset. by destruct (String.eqb_spec k k'). Qed.

Lemma dget_elem d k : is_Some (dget d k) <-> k ∈ d.*1.
Proof.
  induction d as [|[q w] d IH]; cbn [dget fmap list_fmap fst].
  - split; [by intros [] | by intros ?%elem_of_nil].
  - rewrite elem_of_cons, <- IH. destruct (String.eqb_spec q k) as [->|]; [naive_solver|]. naive_solver.
Qed.
Lemma dmem_elem d k : dmem d k = true <-> k ∈ d.*1.
Proof. rewrite <- dget_elem. unfold dmem, is_Some. destruct (dget d k); naive_solver. Qed.
Lemma dget_None d k : dget d k = None <-> k ∉ d.*1.
Proof. rewrite <- dget_elem, <- eq_None_not_Some. done. Qed.

Lemma dset_keys d k v : (dset d k v).*1 = if dmem d k then d.*1 else d.*1 ++ [k].
Proof.
  unfold dmem. induction d as [|[q w] d IH]; cbn [dset dget fmap list_fmap fst]; [done|].
  destruct (String.eqb_spec q k) as [->|]; [done|]. cbn [fmap list_fmap fst app]. rewrite IH. by destruct (dget d k).
Qed.
Lemma dset_new d k v : k ∉ d.*1 -> dset d k v = d ++ [(k, v)].
Proof.
  induction d as [|[q w] d IH]; cbn [dset fmap list_fmap fst]; [done|]. intros [Hq Hd]%not_elem_of_cons.
  destruct (String.eqb_spec q k); [congruence|]. by rewrite IH.
Qed.
Lemma dset_wf d k v : dict_wf d -> dict_wf (dset d k v).
Proof.
  unfold dict_wf. intros H. rewrite dset_keys. destruct (dmem d k) eqn:E; [done|]. apply NoDup_app. split_and!; [done | | apply NoDup_singleton].
  intros x Hx ->%list_elem_of_singleton. apply dmem_elem in Hx. congruence.
Qed.
Lemma dupdate_wf d l : dict_wf d -> dict_wf (dupdate d l).
Proof. revert d. induction l as [|kv l IH]; intros d H; [done|]. apply IH, dset_wf, H. Qed.
Lemma dict_of_wf l : dict_wf (dict_of l).
Proof. apply dupdate_wf. constructor. Qed.

Lemma dict_of_id l : dict_wf l -> dict_of l = l.
Proof.
  unfold dict_wf, dict_of. intros Hnd. change l with ([] ++ l) in Hnd |- * at 2. revert Hnd. generalize (@nil (string * A)) as d.
  induction l as [|[k v] l IH]; intros d Hnd; [by rewrite app_nil_r|]. cbn [dupdate foldl fst snd]. rewrite fmap_app in Hnd. cbn [fmap list_fmap fst] in Hnd.
  apply NoDup_app in Hnd as (H1 & H2 & H3). rewrite dset_new.
  - change (foldl _ ?x l) with (dupdate x l). rewrite IH; [by rewrite <- app_assoc|]. rewrite !fmap_app. cbn [fmap list_fmap fst].
    rewrite <- app_assoc. apply NoDup_app. split_and!; [done | | done]. intros x Hx. by apply H2.
  - intros Hk. eapply H2; [done | by left].
Qed.

(** The last assignment wins. *)
Lemma dget_dupdate d l k : dget (dupdate d l) k = match dget (reverse l) k with Some v => Some v | None => dget d k end.
Proof.
  revert d. induction l as [|[q w] l IH] using rev_ind; intros d; [done|].
  unfold dupdate. rewrite foldl_app. cbn [foldl fst snd]. rewrite dget_dset, reverse_app. cbn [reverse rev_append app dget].
  change (foldl _ d l) with (dupdate d l). rewrite IH. cbn [app]. change (reverse [(q, w)] ++ reverse l) with ((q, w) :: reverse l).
  cbn [dget]. by destruct (q =? k)%string.
Qed.
End dict.
