(* ===== verification/Expr.v ===== *)
(** Expression evaluation ([src/minirel/expr.py]): how a column reference finds
    its value in a row dict, and what a WHERE, ON or SELECT expression is worth
    on a row. Typed expressions never raise. *)
From stdpp Require Import base numbers list strings.
From Stdlib Require Import ZArith Lia SpecFloat.
From S2P Require Import Prelude PyNum Types PyVal Disk PyDict Ast.

Local Open Scope Z_scope.

(** * Rows *)

(** What a row dict holds: a cell's value or, under [__rid__], a row id. *)
Inductive datum : Set := DVal (v : value) | DRid (r : RID).
#[global] Instance datum_eq_dec : EqDecision datum.
Proof. solve_decision. Defined.

Definition Row : Set := list (string * datum).

Definition dtruthy (d : datum) : bool := match d with DVal v => truthy v | DRid _ => true end.
Definition is_none (d : datum) : bool := match d with DVal VNone => true | _ => false end.

(** The comparison operators; a row id can only be tested for equality. *)
Definition deq (a b : datum) : bool :=
  match a, b with
  | DVal x, DVal y => py_eq x y
  | DRid r, DRid q => bool_decide (r = q)
  | _, _ => false
  end.
Definition dcompare (cmp : value -> value -> result bool) (a b : datum) : result bool :=
  match a, b with DVal x, DVal y => cmp x y | _, _ => Raise TypeError end.

(** [k.endswith(suffix)] *)
Definition ends_with (suffix k : string) : bool :=
  let n := String.length k in let m := String.length suffix in
  (m <=? n)%nat && (String.substring (n - m) m k =? suffix)%string.

(** * Evaluation *)

Definition resolve_column (row : Row) (name : string) (table : option string) : result datum :=
  match table with
  | Some t =>
      match dget row (t +:+ "." +:+ name) with Some d => Ok d | None => Raise ColumnNotFoundError end
  | None =>
      match dget row name with
      | Some d => Ok d
      | None =>
          match filter (fun k => ends_with ("." +:+ name) k = true) row.*1 with
          | [k] => dindex row k
          | [] => Raise ColumnNotFoundError
          | _ => Raise AmbiguousColumnError
          end
      end
  end.

Definition bool_datum (b : bool) : datum := DVal (VBool b).

(** [_COMPARATORS[op](left, right)] *)
Definition comparator (o : string) (a b : datum) : result bool :=
  if (o =? "=")%string then Ok (deq a b)
  else if (o =? "<>")%string then Ok (negb (deq a b))
  else if (o =? "<")%string then dcompare py_lt a b
  else if (o =? "<=")%string then dcompare py_le a b
  else if (o =? ">")%string then dcompare py_gt a b
  else if (o =? ">=")%string then dcompare py_ge a b
  else Raise KeyError.

Fixpoint evaluate (e : Expr) (row : Row) : result datum :=
  match e with
  | Literal v => Ok (DVal v)
  | ColumnRef name table => resolve_column row name table
  | Star => Raise ValueError
  | UnaryOp o operand =>
      if (o =? "NOT")%string then d ← evaluate operand row; Ok (bool_datum (negb (dtruthy d)))
      else Raise ValueError
  | BinaryOp o e1 e2 =>
      if (o =? "AND")%string then
        l ← evaluate e1 row;
        if dtruthy l then r ← evaluate e2 row; Ok (bool_datum (dtruthy r)) else Ok (bool_datum false)
      else if (o =? "OR")%string then
        l ← evaluate e1 row;
        if dtruthy l then Ok (bool_datum true) else r ← evaluate e2 row; Ok (bool_datum (dtruthy r))
      else
        l ← evaluate e1 row;
        r ← evaluate e2 row;
        if is_none l || is_none r then Ok (bool_datum false)
        else b ← comparator o l r; Ok (bool_datum b)
  | FunctionCall _ _ => Raise ValueError
  end.

(** A WHERE or ON condition: whether the row passes. *)
Definition holds_on (e : Expr) (row : Row) : result bool := d ← evaluate e row; Ok (dtruthy d).

Example evaluate_ex :
  let row := [("t.a", DVal (VInt 3)); ("a", DVal (VInt 3)); ("u.b", DVal VNone)]%string in
  (holds_on (BinaryOp "AND" (BinaryOp "<" (ColumnRef "a" None) (Literal (VFloat 0x400C000000000000)))
     (UnaryOp "NOT" (BinaryOp "=" (ColumnRef "b" None) (Literal VNone)))) row,
   holds_on (BinaryOp "<" (ColumnRef "a" None) (Literal (VStr "x"))) row,
   holds_on (ColumnRef "a" (Some "u"%string)) row) = (Ok true, Raise TypeError, Raise ColumnNotFoundError).
Proof. reflexivity. Qed.

(** * Types *)

(** The type of an expression; [None] is that of NULL. *)
Definition etype : Set := option ColumnType.

Definition value_type (v : value) : etype :=
  match v with VNone => None | VBool _ => Some BOOL | VInt _ => Some INT | VFloat _ => Some FLOAT | VStr _ => Some TEXT end.
(** A datum of the type, or NULL. *)
Definition has_type (d : datum) (t : etype) : Prop :=
  match d with DVal v => value_type v = None \/ value_type v = t | DRid _ => False end.

Definition numeric (t : ColumnType) : bool := match t with TEXT => false | _ => true end.
Definition comparable (a b : etype) : bool :=
  match a, b with Some x, Some y => Bool.eqb (numeric x) (numeric y) | _, _ => true end.

Section typing.
(** The columns in scope. *)
Context (env : string -> option string -> option ColumnType).

Fixpoint infer (e : Expr) : option etype :=
  match e with
  | Literal v => Some (value_type v)
  | ColumnRef name table => t ← env name table; Some (Some t)
  | UnaryOp o e1 => if (o =? "NOT")%string then infer e1;; Some (Some BOOL) else None
  | BinaryOp o l r =>
      a ← infer l; b ← infer r;
      if bool_decide (o ∈ ["AND"; "OR"; "="; "<>"]%string) ||
         (bool_decide (o ∈ ["<"; "<="; ">"; ">="]%string) && comparable a b)
      then Some (Some BOOL) else None
  | Star | FunctionCall _ _ => None
  end.

(** The row has a value of the right type for every column in scope. *)
Definition row_typed (row : Row) : Prop := forall name table t, env name table = Some t ->
  exists d, resolve_column row name table = Ok d /\ has_type d (Some t).

Lemma compare_typed (cmp : value -> value -> result bool) a b ta tb :
  (forall x y, (exists c, py_compare x y = Ok c) -> exists r, cmp x y = Ok r) ->
  has_type a ta -> has_type b tb -> comparable ta tb = true -> is_none a = false -> is_none b = false ->
  exists r, dcompare cmp a b = Ok r.
Proof.
  intros Hc Ha Hb Hab Na Nb. destruct a as [a|], b as [b|]; try done. apply Hc.
  destruct a, b; try done; cbn in Ha, Hb; destruct Ha as [|<-]; try done; destruct Hb as [|<-]; try done; cbn; eauto.
Qed.

Lemma comparator_typed o a b ta tb :
  has_type a ta -> has_type b tb -> is_none a = false -> is_none b = false ->
  o ∈ ["="; "<>"]%string \/ (o ∈ ["<"; "<="; ">"; ">="]%string /\ comparable ta tb = true) ->
  exists r, comparator o a b = Ok r.
Proof.
  intros Ha Hb Na Nb Ho. unfold comparator.
  assert (forall x y, (exists c, py_compare x y = Ok c) -> (exists r, py_lt x y = Ok r) /\ (exists r, py_le x y = Ok r) /\
    (exists r, py_gt x y = Ok r) /\ (exists r, py_ge x y = Ok r)) as Hcmp.
  { intros x y [c E]. unfold py_lt, py_le, py_gt, py_ge. rewrite E. cbn. eauto 10. }
  destruct Ho as [Ho|[Ho Hab]]; repeat (apply elem_of_cons in Ho as [->|Ho]; [cbn|]); try (by apply elem_of_nil in Ho); eauto;
    eapply compare_typed; eauto; intros; by apply Hcmp.
Qed.

(** C33: A typed expression never raises: on every row of the expected columns
    it has a value, of its type or NULL. *)
Theorem evaluate_typed e t row : infer e = Some t -> row_typed row ->
  exists d, evaluate e row = Ok d /\ has_type d t.
Proof.
  intros He Hrow. revert t He.
  induction e as [v|name table| |o e IH|o l IHl r IHr|]; intros ty He; cbn [infer evaluate] in *; try done.
  - simplify_eq. eexists. split; [done|]. cbn. auto.
  - destruct (env name table) eqn:E; simplify_eq/=. by apply Hrow.
  - destruct (o =? "NOT")%string; [| done]. destruct (infer e) as [te|]; simplify_eq/=.
    destruct (IH _ eq_refl) as (d & -> & _). eexists. split; [done|]. cbn. auto.
  - destruct (infer l) as [ta|]; [| done]. destruct (infer r) as [tb|]; [| done]. cbn [mbind option_bind] in He.
    destruct (bool_decide _ || _) eqn:H1; simplify_eq.
    destruct (IHl _ eq_refl) as (a & -> & Ha), (IHr _ eq_refl) as (b & -> & Hb). cbn [mbind result_bind].
    assert (forall x, has_type (bool_datum x) (Some BOOL)) as HB by (intros []; cbn; auto).
    destruct (o =? "AND")%string eqn:Eand; [case_match; eauto|]. destruct (o =? "OR")%string eqn:Eor; [case_match; eauto|].
    destruct (is_none a || is_none b) eqn:En; [eauto|]. apply orb_false_iff in En as [Na Nb].
    destruct (comparator_typed o a b ta tb Ha Hb Na Nb) as [x ->]; [| cbn; eauto].
    apply String.eqb_neq in Eand, Eor. apply orb_prop in H1 as [Ho%bool_decide_eq_true|[Ho%bool_decide_eq_true Hc]%andb_prop]; [left | by right].
    do 2 (apply elem_of_cons in Ho as [?|Ho]; [done|]). done.
Qed.
End typing.


Lemma evaluate_typed_witness :
  let env name table := if bool_decide (name = "a"%string /\ table = Some "t"%string) then Some INT else None in
  let row := [("t.a", DVal (VInt 3)); ("a", DVal (VInt 3))]%string in
  let e := BinaryOp "OR" (BinaryOp "<" (ColumnRef "a" (Some "t"%string)) (Literal (VBool true))) (Literal VNone) in
  infer env e = Some (Some BOOL) /\ exists d, evaluate e row = Ok d /\ has_type d (Some BOOL).
Proof.
  split; [reflexivity|].
  apply (evaluate_typed (fun name table => if bool_decide (name = "a"%string /\ table = Some "t"%string) then Some INT else None)); [reflexivity|].
  intros name table t E. case_bool_decide as Hn; [| done]. destruct Hn as [-> ->]. injection E as <-.
  eexists. split; [reflexivity | right; reflexivity].
Defined.
