(* ===== verification/Executor.v ===== *)
(** The query executor ([src/minirel/executor.py]): operators with [open],
    [next] and [close], composed into a tree and pulled row by row. An operator
    object is a value of [Operator], its attributes the constructor's
    arguments; [next] returns the row with the operator's new state. [close]
    does nothing on the scans and passes on to the children otherwise, so it has
    no effect and is not a definition.

    The base scans pull from generators, [HeapFile.scan] and
    [BPlusTree.range_scan], suspended at their [yield]s: [HeapIter] and
    [TreeIter]. A heap scan keeps its page pinned while it is suspended.

    Loops carry fuel, one unit per iteration and call. Sorting and grouping are
    those of Python where keys are comparable; with NaN keys its outcome
    depends on the algorithm and on object identity. *)
From stdpp Require Import base numbers list gmap strings.
From Stdlib Require Import ZArith Lia SpecFloat Strings.Byte Strings.Ascii.
From S2P Require Import Prelude PyNum Types PyVal Disk PageStore HeapPage HeapFile BTree Wal Transaction PyDict Ast Expr.

Local Open Scope Z_scope.

(** * Rows from tuples *)

Definition row_from_tuple (alias : string) (sch : Schema) (rid : RID) (raw : list byte) : result Row :=
  values ← decode_row (tuple_payload raw) sch;
  let cells := zip (columns sch) values in
  let row := dict_of ((fun cv => (alias +:+ "." +:+ col_name cv.1, DVal cv.2)) <$> cells) in
  let row := dupdate row ((fun cv => (col_name cv.1, DVal cv.2)) <$> cells) in
  Ok (dset row "__rid__" (DRid rid)).

(** * Generators *)

Inductive HeapIter (H : Type) : Type :=
| HIPage (page_id : Z)
| HISlot (page_id next_page num_slots i : Z) (data : H)
| HIDone.
Arguments HIPage {H}.
Arguments HISlot {H}.
Arguments HIDone {H}.

Inductive TreeIter : Type :=
| TIStart
| TILeaf (leaf_id : Z)
| TIEntry (keys : list value) (rids : list RID) (next_leaf i : Z)
| TIDone.

(** * Aggregates *)

(** [a + b] and [total / count] on numbers. *)
Definition py_add (a b : value) : result value :=
  match a, b with
  | VFloat x, _ => y ← match b with VNone | VStr _ => Raise TypeError | _ => py_float b end; Ok (VFloat (float_add x y))
  | _, VFloat y => x ← match a with VNone | VStr _ => Raise TypeError | _ => py_float a end; Ok (VFloat (float_add x y))
  | VStr s, VStr t => Ok (VStr (s +:+ t))
  | VNone, _ | _, VNone | VStr _, _ | _, VStr _ => Raise TypeError
  | _, _ => x ← py_int a; y ← py_int b; Ok (VInt (x + y))
  end.
Definition py_div (a : value) (n : Z) : result value :=
  match a with
  | VFloat x => y ← float_of_Z n; Ok (VFloat (float_div x y))
  | VInt z =>
      match SFdiv 53 1024 (sf_of_Z z) (sf_of_Z n) with
      | S754_infinity _ => Raise OverflowError
      | f => Ok (VFloat (float_encode f))
      end
  | _ => Raise TypeError
  end.

Record AggState : Set := mkAgg { ag_kind : string; ag_count : Z; ag_total : value; ag_best : datum }.
Definition agg_init (kind : string) : AggState := mkAgg kind 0 (VInt 0) (DVal VNone).

Definition agg_add (st : AggState) (d : datum) : result AggState :=
  let '(mkAgg kind count total best) := st in
  if (kind =? "COUNT")%string then Ok (if is_none d then st else mkAgg kind (count + 1) total best)
  else if is_none d then Ok st
  else if (kind =? "SUM")%string then
    match d with DVal v => t ← py_add total v; Ok (mkAgg kind count t best) | DRid _ => Raise TypeError end
  else if (kind =? "AVG")%string then
    match d with DVal v => t ← py_add total v; Ok (mkAgg kind (count + 1) t best) | DRid _ => Raise TypeError end
  else if (kind =? "MIN")%string then
    if is_none best then Ok (mkAgg kind count total d)
    else b ← dcompare py_lt d best; Ok (mkAgg kind count total (if b : bool then d else best))
  else if (kind =? "MAX")%string then
    if is_none best then Ok (mkAgg kind count total d)
    else b ← dcompare py_gt d best; Ok (mkAgg kind count total (if b : bool then d else best))
  else Ok st.

Definition agg_result (st : AggState) : result datum :=
  let '(mkAgg kind count total best) := st in
  if (kind =? "COUNT")%string then Ok (DVal (VInt count))
  else if (kind =? "SUM")%string then Ok (DVal total)
  else if (kind =? "AVG")%string then
    if count =? 0 then Ok (DVal VNone) else v ← py_div total count; Ok (DVal v)
  else Ok best.

(** * Output names *)

Definition lower (s : string) : string :=
  String.string_of_list_ascii (to_lower <$> String.list_ascii_of_string s).
Definition default_column_name (item : SelectItem) : string :=
  match si_expr item with
  | ColumnRef name _ => name
  | FunctionCall name _ => lower name
  | _ => "expr"
  end.
(** [item.alias or _default_column_name(item)] *)
Definition output_name (item : SelectItem) : string :=
  match si_alias item with
  | Some a => if (a =? "")%string then default_column_name item else a
  | None => default_column_name item
  end.

(** * Projection *)

Definition has_dot (k : string) : bool := bool_decide ("."%char ∈ String.list_ascii_of_string k).
Definition star_row (row : Row) : Row :=
  filter (fun kv => negb (String.prefix "__" kv.1) && negb (has_dot kv.1) = true) row.

Fixpoint project_items (items : list SelectItem) (row out : Row) : result Row :=
  match items with
  | [] => Ok out
  | item :: items' => d ← evaluate (si_expr item) row; project_items items' row (dset out (output_name item) d)
  end.
Definition project (items : list SelectItem) (row : Row) : result Row :=
  match items with
  | [mkSelectItem Star _] => Ok (star_row row)
  | _ => project_items items row []
  end.

(** * Sorting *)

(** Stable insertion, by the [<] of the keys: on keys that [<] orders totally
    every stable sort gives the same list. Where it does not (a NaN among the
    keys) the order of CPython's merge sort is not modelled. *)
Fixpoint insert_by_key (x : datum * Row) (l : list (datum * Row)) : result (list (datum * Row)) :=
  match l with
  | [] => Ok [x]
  | y :: l' =>
      b ← dcompare py_lt x.1 y.1;
      if b : bool then Ok (x :: l) else l2 ← insert_by_key x l'; Ok (y :: l2)
  end.
Fixpoint sort_keyed (l acc : list (datum * Row)) : result (list (datum * Row)) :=
  match l with [] => Ok acc | x :: l' => acc' ← insert_by_key x acc; sort_keyed l' acc' end.

(** [rows.sort(key=..., reverse=...)] *)
Definition sort_rows (item : OrderByItem) (rows : list Row) : result (list Row) :=
  keys ← result_map (evaluate (ob_expr item)) rows;
  let keyed := zip keys rows in
  if ob_descending item then l ← sort_keyed (reverse keyed) []; Ok (reverse l).*2
  else l ← sort_keyed keyed []; Ok l.*2.
Fixpoint sort_all (items : list OrderByItem) (rows : list Row) : result (list Row) :=
  match items with [] => Ok rows | item :: items' => rows' ← sort_rows item rows; sort_all items' rows' end.

(** * Grouping *)

Record Group : Set := mkGroup { g_key : list datum; g_states : list (option AggState); g_values : Row }.

Definition row_get (row : Row) (col : string) : datum := default (DVal VNone) (dget row col).
Definition key_eq (a b : list datum) : bool := (blen a =? blen b) && forallb (fun p => deq p.1 p.2) (zip a b).

Definition new_group (group_by : list string) (items : list SelectItem) (row : Row) : Group :=
  mkGroup (row_get row <$> group_by)
    ((fun item => match si_expr item with FunctionCall f _ => Some (agg_init f) | _ => None end) <$> items)
    (dict_of ((fun col => (col, row_get row col)) <$> group_by)).

(** The aggregates of one row. *)
Fixpoint add_states (items : list SelectItem) (row : Row) (sts : list (option AggState)) : result (list (option AggState)) :=
  match items, sts with
  | item :: items', st :: sts' =>
      st' ← match si_expr item, st with
            | FunctionCall _ Star, Some a => a' ← agg_add a (DVal (VInt 1)); Ok (Some a')
            | FunctionCall _ arg, Some a => d ← evaluate arg row; a' ← agg_add a d; Ok (Some a')
            | _, _ => Ok st
            end;
      rest ← add_states items' row sts';
      Ok (st' :: rest)
  | _, _ => Ok []
  end.

Fixpoint add_row (items : list SelectItem) (row : Row) (key : list datum) (gs : list Group) (fresh : Group) : result (list Group) :=
  match gs with
  | [] => sts ← add_states items row (g_states fresh); Ok [mkGroup (g_key fresh) sts (g_values fresh)]
  | g :: gs' =>
      if key_eq (g_key g) key then sts ← add_states items row (g_states g); Ok (mkGroup (g_key g) sts (g_values g) :: gs')
      else gs2 ← add_row items row key gs' fresh; Ok (g :: gs2)
  end.
Definition group_row (group_by : list string) (items : list SelectItem) (gs : list Group) (row : Row) : result (list Group) :=
  let fresh := new_group group_by items row in add_row items row (g_key fresh) gs fresh.

(** One output row per group. *)
Fixpoint group_output (items : list SelectItem) (sts : list (option AggState)) (values out : Row) : result Row :=
  match items, sts with
  | item :: items', st :: sts' =>
      let name := output_name item in
      d ← match st with
          | Some a => agg_result a
          | None =>
              let src := match si_expr item with ColumnRef n _ => n | _ => name end in
              Ok (row_get values src)
          end;
      group_output items' sts' values (dset out name d)
  | _, _ => Ok out
  end.
Fixpoint empty_output (items : list SelectItem) (out : Row) : result Row :=
  match items with
  | [] => Ok out
  | item :: items' =>
      match si_expr item with
      | FunctionCall f _ => d ← agg_result (agg_init f); empty_output items' (dset out (output_name item) d)
      | _ => empty_output items' out
      end
  end.
Definition group_results (group_by : list string) (items : list SelectItem) (gs : list Group) : result (list Row) :=
  match gs, group_by with
  | [], [] => r ← empty_output items []; Ok [r]
  | _, _ => result_map (fun g => group_output items (g_states g) (g_values g) []) gs
  end.

(** * Operators *)

(** What [right_factory] closes over: the outcome of [catalog.get_table], and
    the alias. *)
Record RightTable : Type := mkRight { rt_table : result (Z * Schema); rt_alias : string }.

Inductive Operator (H : Type) : Type :=
| SeqScanOperator (heap : HeapFile) (schema : Schema) (alias : string) (iter : option (HeapIter H))
| IndexScanOperator (tree : BPlusTree) (heap : HeapFile) (schema : Schema) (alias : string)
    (start stop : option value) (iter : option TreeIter)
| FilterOperator (child : Operator H) (predicate : Expr)
| NestedLoopJoinOperator (left : Operator H) (right_factory : RightTable) (on : Expr)
    (left_row : option Row) (right_op : option (Operator H))
| ProjectOperator (child : Operator H) (items : list SelectItem)
| SortOperator (child : Operator H) (order_by : list OrderByItem) (rows : option (list Row)) (pos : nat)
| LimitOperator (child : Operator H) (limit count : Z)
| HashAggregateOperator (child : Operator H) (group_by : list string) (items : list SelectItem)
    (result_rows : option (list Row)) (pos : nat).
Arguments SeqScanOperator {H}.
Arguments IndexScanOperator {H}.
Arguments FilterOperator {H}.
Arguments NestedLoopJoinOperator {H}.
Arguments ProjectOperator {H}.
Arguments SortOperator {H}.
Arguments LimitOperator {H}.
Arguments HashAggregateOperator {H}.

(** [__init__] *)
Section init.
Context {H : Type}.
Definition seq_scan (heap : HeapFile) (schema : Schema) (alias : string) : Operator H := SeqScanOperator heap schema alias None.
Definition index_scan (tree : BPlusTree) (heap : HeapFile) (schema : Schema) (alias : string) (start stop : option value) : Operator H :=
  IndexScanOperator tree heap schema alias start stop None.
Definition nested_loop_join (left_ : Operator H) (right_factory : RightTable) (on : Expr) : Operator H :=
  NestedLoopJoinOperator left_ right_factory on None None.
Definition sort_operator (child : Operator H) (order_by : list OrderByItem) : Operator H := SortOperator child order_by None 0.
Definition limit_operator (child : Operator H) (limit : Z) : Operator H := LimitOperator child limit 0.
Definition hash_aggregate (child : Operator H) (group_by : list string) (items : list SelectItem) : Operator H :=
  HashAggregateOperator child group_by items None 0.
End init.

Section executor.
Context {S H : Type} `{PageStore S H}.

(** ** The generators *)

(** The next item of a suspended [HeapFile.scan()]. *)
Fixpoint heap_iter_next (fuel : nat) (it : HeapIter H) : M S (option (RID * list byte) * HeapIter H) :=
  match fuel with
  | O => raise Diverges
  | Datatypes.S fuel =>
      match it with
      | HIDone => mret (None, HIDone)
      | HIPage page_id =>
          if page_id =? INVALID_PAGE_ID then mret (None, HIDone) else
          data ← ps_fetch page_id;
          d ← ps_get data;
          hdr ← lift_result (read_header d);
          let '(_, num_slots, _, next_page) := hdr in
          heap_iter_next fuel (HISlot page_id next_page num_slots 0 data)
      | HISlot page_id next_page num_slots i data =>
          if i <? num_slots then
            d ← ps_get data;
            slot ← lift_result (read_slot d i);
            let it' := HISlot page_id next_page num_slots (i + 1) data in
            if snd slot =? DELETED then heap_iter_next fuel it'
            else mret (Some (mkRID page_id i, d.[fst slot : fst slot + snd slot]), it')
          else ps_unpin page_id false;; heap_iter_next fuel (HIPage next_page)
      end
  end.

(** The next item of a suspended [BPlusTree.range_scan(start, stop)]. *)
Fixpoint tree_iter_next (fuel : nat) (t : BPlusTree) (start stop : option value) (it : TreeIter) :
    M S (option (value * RID) * TreeIter) :=
  match fuel with
  | O => raise Diverges
  | Datatypes.S fuel =>
      match it with
      | TIDone => mret (None, TIDone)
      | TIStart =>
          leaf_id ← match start with
                    | Some x => path ← find_leaf_path t x; lift_result (py_nth path (-1))
                    | None => leftmost_leaf t
                    end;
          tree_iter_next fuel t start stop (TILeaf leaf_id)
      | TILeaf leaf_id =>
          if leaf_id =? INVALID_PAGE_ID then mret (None, TIDone) else
          data ← ps_fetch leaf_id;
          node ← read_page_leaf t data;
          ps_unpin leaf_id false;;
          let '(keys, rids, next_leaf) := node in
          lo ← match start with None => mret 0 | Some x => lift_result (bisect_left keys x) end;
          tree_iter_next fuel t start stop (TIEntry keys rids next_leaf lo)
      | TIEntry keys rids next_leaf i =>
          if i <? blen keys then
            key ← lift_result (py_nth keys i);
            past ← match stop with None => mret false | Some e => lift_result (py_gt key e) end;
            if past : bool then mret (None, TIDone) else
            rid ← lift_result (py_nth rids i);
            mret (Some (key, rid), TIEntry keys rids next_leaf (i + 1))
          else tree_iter_next fuel t start stop (TILeaf next_leaf)
      end
  end.

(** ** [next] *)

(** [self.txn_mgr] and [self.txn.snapshot]; the executor only reads them. *)
Context (mgr : TransactionManager) (snap : Snapshot).

Definition tuple_visible (raw : list byte) : result bool :=
  h ← unpack_tuple_header raw; Ok (is_visible mgr h.1 h.2 snap).

(** [right_factory()] and [open()] of what it returns. *)
Definition open_right (r : RightTable) : M S (Operator H) :=
  meta ← lift_result (rt_table r);
  heap ← heap_init (Some meta.1);
  mret (SeqScanOperator heap meta.2 (rt_alias r) (Some (HIPage (first_page_id heap)))).

(** The rows an operator that materialises has left. *)
Definition next_of (rows : option (list Row)) (pos : nat) : result (option Row) :=
  match rows with Some rows => Ok (rows !! pos) | None => Raise TypeError end.

(** One definition per class's [next]; [next] is what it calls to pull again. *)
Section next.
Context (fuel : nat) (next : Operator H -> M S (option Row * Operator H)).

(** The visible row of a tuple, or on to the next one. *)
Definition emit (sch : Schema) (alias : string) (rid : RID) (raw : list byte) (o : Operator H) : M S (option Row * Operator H) :=
  v ← lift_result (tuple_visible raw);
  if v : bool then row ← lift_result (row_from_tuple alias sch rid raw); mret (Some row, o)
  else next o.

Definition seq_next (heap : HeapFile) (sch : Schema) (alias : string) (it : option (HeapIter H)) : M S (option Row * Operator H) :=
  match it with
  | None => raise TypeError
  | Some it =>
      r ← heap_iter_next fuel it;
      let o := SeqScanOperator heap sch alias (Some r.2) in
      match r.1 with
      | None => mret (None, o)
      | Some (rid, raw) => emit sch alias rid raw o
      end
  end.

Definition index_next (tree : BPlusTree) (heap : HeapFile) (sch : Schema) (alias : string) (start stop : option value) (it : option TreeIter) :
    M S (option Row * Operator H) :=
  match it with
  | None => raise TypeError
  | Some it =>
      r ← tree_iter_next fuel tree start stop it;
      let o := IndexScanOperator tree heap sch alias start stop (Some r.2) in
      match r.1 with
      | None => mret (None, o)
      | Some (_, rid) =>
          t ← heap_get rid;
          match t with
          | None => next o
          | Some raw => emit sch alias rid raw o
          end
      end
  end.

Definition filter_next (child : Operator H) (pred : Expr) : M S (option Row * Operator H) :=
  r ← next child;
  match r.1 with
  | None => mret (None, FilterOperator r.2 pred)
  | Some row =>
      b ← lift_result (holds_on pred row);
      if b : bool then mret (Some row, FilterOperator r.2 pred) else next (FilterOperator r.2 pred)
  end.

Definition join_next (left_ : Operator H) (factory : RightTable) (on : Expr) (lrow : option Row) (right_ : option (Operator H)) :
    M S (option Row * Operator H) :=
  match lrow, right_ with
  | None, _ => mret (None, NestedLoopJoinOperator left_ factory on lrow right_)
  | Some _, None => raise AttributeError
  | Some row, Some right0 =>
      r ← next right0;
      match r.1 with
      | None =>
          l ← next left_;
          match l.1 with
          | None => mret (None, NestedLoopJoinOperator l.2 factory on None (Some r.2))
          | Some row' =>
              right1 ← open_right factory;
              next (NestedLoopJoinOperator l.2 factory on (Some row') (Some right1))
          end
      | Some rrow =>
          let merged := dupdate row rrow in
          let o := NestedLoopJoinOperator left_ factory on lrow (Some r.2) in
          b ← lift_result (holds_on on merged);
          if b : bool then mret (Some merged, o) else next o
      end
  end.

Definition project_next (child : Operator H) (items : list SelectItem) : M S (option Row * Operator H) :=
  r ← next child;
  match r.1 with
  | None => mret (None, ProjectOperator r.2 items)
  | Some row => out ← lift_result (project items row); mret (Some out, ProjectOperator r.2 items)
  end.

Definition sort_next (child : Operator H) (order : list OrderByItem) (rows : option (list Row)) (pos : nat) : M S (option Row * Operator H) :=
  row ← lift_result (next_of rows pos);
  mret (row, SortOperator child order rows (match row with Some _ => Datatypes.S pos | None => pos end)).

Definition limit_next (child : Operator H) (limit count : Z) : M S (option Row * Operator H) :=
  if limit <=? count then mret (None, LimitOperator child limit count) else
  r ← next child;
  match r.1 with
  | None => mret (None, LimitOperator r.2 limit count)
  | Some row => mret (Some row, LimitOperator r.2 limit (count + 1))
  end.

Definition aggregate_next (child : Operator H) (group_by : list string) (items : list SelectItem) (rows : option (list Row)) (pos : nat) :
    M S (option Row * Operator H) :=
  row ← lift_result (next_of rows pos);
  mret (row, HashAggregateOperator child group_by items rows (match row with Some _ => Datatypes.S pos | None => pos end)).
End next.

Fixpoint op_next (fuel : nat) (o : Operator H) : M S (option Row * Operator H) :=
  match fuel with
  | O => raise Diverges
  | Datatypes.S fuel =>
      match o with
      | SeqScanOperator heap sch alias it => seq_next fuel (op_next fuel) heap sch alias it
      | IndexScanOperator tree heap sch alias start stop it => index_next fuel (op_next fuel) tree heap sch alias start stop it
      | FilterOperator child pred => filter_next (op_next fuel) child pred
      | NestedLoopJoinOperator left_ factory on lrow right_ => join_next (op_next fuel) left_ factory on lrow right_
      | ProjectOperator child items => project_next (op_next fuel) child items
      | SortOperator child order rows pos => sort_next child order rows pos
      | LimitOperator child limit count => limit_next (op_next fuel) child limit count
      | HashAggregateOperator child group_by items rows pos => aggregate_next child group_by items rows pos
      end
  end.

(** [while (row := child.next()) is not None], collecting the rows. *)
Fixpoint drain (fuel : nat) (o : Operator H) (acc : list Row) : M S (list Row * Operator H) :=
  match fuel with
  | O => raise Diverges
  | Datatypes.S fuel' =>
      r ← op_next fuel' o;
      match r.1 with None => mret (acc, r.2) | Some row => drain fuel' r.2 (acc ++ [row]) end
  end.

(** The loop of [HashAggregateOperator.open]. *)
Fixpoint aggregate (fuel : nat) (group_by : list string) (items : list SelectItem) (o : Operator H) (gs : list Group) :
    M S (list Group * Operator H) :=
  match fuel with
  | O => raise Diverges
  | Datatypes.S fuel' =>
      r ← op_next fuel' o;
      match r.1 with
      | None => mret (gs, r.2)
      | Some row => gs' ← lift_result (group_row group_by items gs row); aggregate fuel' group_by items r.2 gs'
      end
  end.

(** ** [open] *)

(** The classes whose [open] does more than reset and open the child, given
    what opens that. *)
Definition join_open (fuel : nat) (open : M S (Operator H)) (factory : RightTable) (on : Expr) : M S (Operator H) :=
  l ← open;
  r ← op_next fuel l;
  match r.1 with
  | None => mret (NestedLoopJoinOperator r.2 factory on None None)
  | Some row => right_ ← open_right factory; mret (NestedLoopJoinOperator r.2 factory on (Some row) (Some right_))
  end.
Definition sort_open (fuel : nat) (open : M S (Operator H)) (order : list OrderByItem) : M S (Operator H) :=
  c ← open;
  r ← drain fuel c [];
  rows ← lift_result (sort_all (reverse order) r.1);
  mret (SortOperator r.2 order (Some rows) 0).
Definition aggregate_open (fuel : nat) (open : M S (Operator H)) (group_by : list string) (items : list SelectItem) : M S (Operator H) :=
  c ← open;
  r ← aggregate fuel group_by items c [];
  rows ← lift_result (group_results group_by items r.1);
  mret (HashAggregateOperator r.2 group_by items (Some rows) 0).

Fixpoint op_open (fuel : nat) (o : Operator H) : M S (Operator H) :=
  match o with
  | SeqScanOperator heap sch alias _ => mret (SeqScanOperator heap sch alias (Some (HIPage (first_page_id heap))))
  | IndexScanOperator tree heap sch alias start stop _ => mret (IndexScanOperator tree heap sch alias start stop (Some TIStart))
  | FilterOperator child pred => c ← op_open fuel child; mret (FilterOperator c pred)
  | NestedLoopJoinOperator left_ factory on _ _ => join_open fuel (op_open fuel left_) factory on
  | ProjectOperator child items => c ← op_open fuel child; mret (ProjectOperator c items)
  | SortOperator child order _ _ => sort_open fuel (op_open fuel child) order
  | LimitOperator child limit _ => c ← op_open fuel child; mret (LimitOperator c limit 0)
  | HashAggregateOperator child group_by items _ _ => aggregate_open fuel (op_open fuel child) group_by items
  end.

(** [list(plan)]: [__iter__] opens the operator and pulls to the end. *)
Definition run_plan (fuel : nat) (o : Operator H) : M S (list Row) :=
  o' ← op_open fuel o; r ← drain fuel o' []; mret r.1.
End executor.
