(* ===== verification/ExecutorProps.v ===== *)
(** What query plans compute. The reference is an evaluation of the same query
    on lists of rows; the operators are shown to produce exactly its rows, in
    its order, by pulling pages through the page store, without changing them. *)
From stdpp Require Import base numbers list gmap strings.
From Stdlib Require Import ZArith Lia Strings.Byte.
From S2P Require Import Prelude PyNum Types PyVal Disk PageStore BufferPool HeapPage HeapFile HeapFileProps BTree BTreeNode BTreeRep.
From S2P Require Import BTreeSearch Wal Transaction PyDict Ast Expr Executor.

Local Open Scope Z_scope.

(** * Reading pages that stay as they are *)

Section executor.
Context {S H : Type} {store : PageStore S H} {spec : PageStoreSpec S H}.
(** The contents of the pages and the pool's capacity, while a query runs. *)
Context (V : gmap Z (list byte)) (cap : Z).

(** The pins are those of the handles [held], and every page is clean. *)
Record calm (held : list (H * Z)) (s : S) : Prop := {
  ca_inv : ps_inv s;
  ca_view : ps_view s = V;
  ca_pins : ps_pins s = foldr pin_inc ∅ held.*2;
  ca_cap : ps_cap s = cap;
  ca_clean q : ps_clean s q;
  ca_holds h p : (h, p) ∈ held -> ps_holds s h p }.

Lemma pin_inc_comm p q m : pin_inc p (pin_inc q m) = pin_inc q (pin_inc p m).
Proof.
  apply map_eq. intros r. rewrite !pin_inc_lookup. repeat case_decide; subst; simplify_eq; try done.
Qed.
#[local] Instance pins_proper : Proper ((≡ₚ) ==> (=)) (foldr pin_inc (∅ : gmap Z Z)).
Proof. intros l l' Hl. induction Hl as [|x l l' _ IH|x y l|]; cbn; [done | by rewrite IH | apply pin_inc_comm | congruence]. Qed.

Lemma calm_perm held held' s : held ≡ₚ held' -> calm held s -> calm held' s.
Proof. intros Hp [? ? P ? ? Hh]. split; try done; [by rewrite P, Hp|]. intros h p Hin. apply Hh. by rewrite Hp. Qed.

Lemma size_pins l : (size (foldr pin_inc ∅ l) <= length l)%nat.
Proof. induction l as [|p l IH]; [done|]. cbn [foldr length]. pose proof (size_pin_inc p (foldr pin_inc ∅ l)). lia. Qed.
Lemma pins_lookup l p : p ∈ l -> is_Some (foldr pin_inc (∅ : gmap Z Z) l !! p).
Proof.
  induction l as [|q l IH]; [by intros ?%elem_of_nil|]. intros Hp. cbn [foldr]. rewrite pin_inc_lookup.
  case_decide; [eauto|]. apply elem_of_cons in Hp as [->|Hp]; [done | auto].
Qed.

Lemma calm_fetch held s p : calm held s -> is_Some (V !! p) -> blen held < cap ->
  runs (ps_fetch p) s (fun h s' => calm ((h, p) :: held) s').
Proof.
  intros [I Vw P C Cl Hh] Hp Hcap.
  eapply runs_mono; [apply ps_fetch_ok; [done | by rewrite Vw |]|].
  - right. rewrite P, C. pose proof (size_pins held.*2). rewrite length_fmap in *. unfold blen in Hcap. lia.
  - intros h s1 (I1 & V1 & P1 & C1 & _ & Ho & Hk & CL1). split; [done | congruence | | congruence | auto |].
    + by rewrite P1, P.
    + intros h' q [[= -> ->]|Hin]%elem_of_cons; auto.
Qed.

Lemma calm_get held s h p d : calm held s -> (h, p) ∈ held -> V !! p = Some d -> ps_get h s = (Ok d, s).
Proof.
  intros [I Vw P C Cl Hh] Hin Hd. destruct (ps_get_ok s h p I (Hh _ _ Hin)) as (d0 & Hg & Hd0). congruence.
Qed.

Lemma calm_unpin held s h p : calm ((h, p) :: held) s -> runs (ps_unpin p false) s (fun _ s' => calm held s').
Proof.
  intros [I Vw P C Cl Hh]. eapply runs_mono; [apply ps_unpin_ok; [done | by right]|].
  intros _ s1 (I1 & V1 & P1 & C1 & _ & Hk & CL1).
  assert (ps_pins s1 = foldr pin_inc ∅ held.*2) as P1'.
  { rewrite P1, P. cbn [fmap list_fmap foldr snd]. apply pin_dec_inc. intros n Hn.
    assert (forall l m, foldr pin_inc (∅ : gmap Z Z) l !! p = Some m -> 0 < m) as Hpos; [| by eapply Hpos].
    clear. induction l as [|q l IH]; intros m Hm; [done|]. cbn [foldr] in Hm. rewrite pin_inc_lookup in Hm.
    case_decide; [| by apply IH]. subst. injection Hm as <-. destruct (foldr pin_inc ∅ l !! p) as [k|]; [| done].
    specialize (IH k eq_refl). cbn. lia. }
  split; [done | congruence | done | congruence | auto |].
  intros h' q Hin. apply Hk; [| apply Hh; by right]. rewrite P1'. apply pins_lookup. apply list_elem_of_fmap. by exists (h', q).
Qed.

(** A store where nothing is pinned is calm, and read-only operations verified
    on their own keep it so. *)
Lemma calm_nil s : ps_inv s -> ps_view s = V -> ps_pins s = ∅ -> ps_cap s = cap -> calm [] s.
Proof.
  intros I Vw P C. split; try done; [| by intros ? ? ?%elem_of_nil]. intros q. apply ps_unpinned_clean; [done|]. by rewrite P.
Qed.
Lemma calm_keeps s s' : calm [] s -> keeps s s' -> calm [] s'.
Proof. intros [I Vw P C Cl _] (I' & V' & P' & C' & _). apply calm_nil; [done | congruence | by rewrite P', P | congruence]. Qed.
Lemma calm_room s ps k : calm [] s -> k <= cap -> room s ps k.
Proof. intros [I Vw P C Cl _] Hk. split_and!; [done | rewrite P, C; cbn; rewrite map_size_empty; lia | by rewrite P]. Qed.

(** ** A suspended heap scan *)

Definition iter_held (it : HeapIter H) : list (H * Z) :=
  match it with HISlot p _ _ _ h => [(h, p)] | _ => [] end.

(** [it] will yield [rows], in at most [c] steps for each. *)
Inductive heap_yields : nat -> HeapIter H -> list (RID * list byte) -> Prop :=
| hy_done : heap_yields 1 HIDone []
| hy_end : heap_yields 1 (HIPage INVALID_PAGE_ID) []
| hy_page p d n f nx c rows :
    p <> INVALID_PAGE_ID -> V !! p = Some d -> hp_wf d n f nx ->
    (forall h, heap_yields c (HISlot p nx n 0 h) rows) -> heap_yields (Datatypes.S c) (HIPage p) rows
| hy_next p nx n h c rows :
    heap_yields c (HIPage nx) rows -> heap_yields (Datatypes.S c) (HISlot p nx n n h) rows
| hy_deleted p d nx n f i h c rows :
    V !! p = Some d -> hp_wf d n f nx -> 0 <= i < n -> slot_tuple d n i = None ->
    heap_yields c (HISlot p nx n (i + 1) h) rows -> heap_yields (Datatypes.S c) (HISlot p nx n i h) rows
| hy_live p d nx n f i h t c rows :
    V !! p = Some d -> hp_wf d n f nx -> 0 <= i < n -> slot_tuple d n i = Some t ->
    heap_yields c (HISlot p nx n (i + 1) h) rows ->
    heap_yields (Datatypes.S c) (HISlot p nx n i h) ((mkRID p i, t) :: rows).

Lemma read_slot_tuple d n f nx i : hp_wf d n f nx -> 0 <= i < n ->
  exists o l, read_slot d i = Ok (o, l) /\ slot_tuple d n i = if l =? DELETED then None else Some (d.[o : o + l]).
Proof.
  intros Hwf Hi. eexists _, _. split; [apply read_slot_ok; [apply Hwf | lia | eapply hp_slot_in_page; [done | lia]]|].
  unfold slot_tuple. replace ((0 <=? i) && (i <? n)) with true by lia. done.
Qed.

Lemma heap_next_ok c it rows : heap_yields c it rows -> forall fuel fr s, (c <= fuel)%nat ->
  calm (iter_held it ++ fr) s -> blen fr < cap ->
  runs (heap_iter_next fuel it) s (fun r s' =>
    calm (iter_held r.2 ++ fr) s' /\
    match rows with
    | [] => r.1 = None /\ iter_held r.2 = []
    | x :: rows' => r.1 = Some x /\ exists c', (c' <= c)%nat /\ heap_yields c' r.2 rows'
    end).
Proof.
  assert (forall c fuel, (Datatypes.S c <= fuel)%nat -> exists f, fuel = Datatypes.S f /\ (c <= f)%nat) as HS.
  { intros k [|f] Hf; [lia|]. exists f. split; [done | lia]. }
  induction 1 as [| |p d n f nx c rows Hp Hd Hwf _ IH|p nx n h c rows _ IH|p d nx n f i h c rows Hd Hwf Hi Ht _ IH|p d nx n f i h t c rows Hd Hwf Hi Ht Hy IH];
    intros fuel fr s Hf Hs Hcap; destruct (HS _ _ Hf) as (g & -> & Hg); cbn [heap_iter_next iter_held app] in *.
  - rstep. done.
  - rewrite Z.eqb_refl. rstep. done.
  - destruct (Z.eqb_spec p INVALID_PAGE_ID); [done|]. rstep.
    eapply runs_mono; [apply (calm_fetch _ _ p Hs); [eauto | done]|]. intros h s1 Hs1. cbv beta in Hs1 |- *. rstep.
    eapply runs_eq; [eapply calm_get; [done | by left | done]|]. rstep.
    eapply runs_lift_result; [by apply (read_header_ok d n f nx)|]. cbv beta iota.
    eapply runs_mono; [apply (IH h); done|]. intros r s2 [Hc Hr]. split; [done|].
    destruct rows; [done|]. destruct Hr as (-> & c' & Hc' & Hy). split; [done|]. exists c'. split; [lia | done].
  - rewrite Z.ltb_irrefl. rstep. eapply runs_mono; [eapply calm_unpin; exact Hs|]. intros [] s1 Hs1. cbv beta in Hs1 |- *.
    eapply runs_mono; [by apply IH|]. intros r s2 [Hc Hr]. split; [done|].
    destruct rows; [done|]. destruct Hr as (-> & c' & Hc' & Hy). split; [done|]. exists c'. split; [lia | done].
  - destruct (Z.ltb_spec i n); [| lia]. rstep. eapply runs_eq; [eapply calm_get; [done | by left | done]|]. rstep.
    destruct (read_slot_tuple d n f nx i Hwf Hi) as (o & l & Hr & Et). eapply runs_lift_result; [done|]. cbn [fst snd].
    rewrite Ht in Et. destruct (l =? DELETED); [| done].
    eapply runs_mono; [by apply IH|]. intros r s2 [Hc Hr']. split; [done|].
    destruct rows; [done|]. destruct Hr' as (-> & c' & Hc' & Hy). split; [done|]. exists c'. split; [lia | done].
  - destruct (Z.ltb_spec i n); [| lia]. rstep. eapply runs_eq; [eapply calm_get; [done | by left | done]|]. rstep.
    destruct (read_slot_tuple d n f nx i Hwf Hi) as (o & l & Hr & Et). eapply runs_lift_result; [done|]. cbn [fst snd].
    rewrite Ht in Et. destruct (l =? DELETED); [done|]. injection Et as <-. rstep. cbn [fst snd iter_held app]. split; [done|].
    split; [done|]. exists c. split; [lia | done].
Qed.

(** The scan of a chain of pages yields the rows of its pages. *)
Lemma chain_yields ps p : chain V (p :: ps) -> INVALID_PAGE_ID ∉ p :: ps ->
  exists c, heap_yields c (HIPage p) (heap_rows V (p :: ps)).
Proof.
  assert (forall p d n f nx c rows, V !! p = Some d -> hp_wf d n f nx -> heap_yields c (HIPage nx) rows ->
    forall h k i, 0 <= i -> i + Z.of_nat k = n -> heap_yields (Datatypes.S k + c) (HISlot p nx n i h) (slot_rows d p i k ++ rows)) as Hslots.
  { intros q d n f nx c rows Hd Hwf Hy h. induction k as [|k IHk]; intros i Hi Hk; cbn [slot_rows].
    - replace i with n by lia. by apply hy_next.
    - rewrite (hw_num _ _ _ _ Hwf). change (Datatypes.S (Datatypes.S k) + c)%nat with (Datatypes.S (Datatypes.S k + c)).
      destruct (slot_tuple d n i) as [t|] eqn:Et; [eapply hy_live | eapply hy_deleted]; try done; try lia; apply IHk; lia. }
  assert (forall p d n f nx c rows, p <> INVALID_PAGE_ID -> V !! p = Some d -> hp_wf d n f nx -> heap_yields c (HIPage nx) rows ->
    heap_yields (Datatypes.S (Datatypes.S (Z.to_nat n) + c)) (HIPage p) (page_rows V p ++ rows)) as Hpage.
  { intros q d n f nx c rows Hq Hd Hwf Hy. eapply hy_page; [done..|]. intros h. unfold page_rows. rewrite Hd, (hw_num _ _ _ _ Hwf).
    pose proof (hp_num_range _ _ _ _ Hwf). eapply Hslots; [done..|lia]. }
  revert p. induction ps as [|q ps IH]; intros p Hc Hids; inversion Hc as [p' d n f Hd Hwf|p' q' ps' d n f Hd Hwf Hc']; subst.
  - eexists. unfold heap_rows. rewrite bind_cons. eapply Hpage; [set_solver | done | done | apply hy_end].
  - destruct (IH q Hc' ltac:(set_solver)) as [c Hy]. eexists. unfold heap_rows. rewrite bind_cons.
    eapply Hpage; [set_solver | done | done | exact Hy].
Qed.
End executor.

(** * Operators that produce a list of rows *)

Section operators.
Context {S H : Type} {store : PageStore S H} {spec : PageStoreSpec S H}.
Context (V : gmap Z (list byte)) (cap : Z) (mgr : TransactionManager) (snap : Snapshot).
Notation calm := (calm V cap).

(** The handles of the pages an operator's generators keep pinned. *)
Fixpoint op_held (o : Operator H) : list (H * Z) :=
  match o with
  | SeqScanOperator _ _ _ (Some it) => iter_held it
  | SeqScanOperator _ _ _ None | IndexScanOperator _ _ _ _ _ _ _ => []
  | FilterOperator c _ | ProjectOperator c _ | SortOperator c _ _ _ | LimitOperator c _ _ | HashAggregateOperator c _ _ _ _ => op_held c
  | NestedLoopJoinOperator l _ _ _ r => op_held l ++ match r with Some r => op_held r | None => [] end
  end.

(** One call of [next] on a known operator. *)
Ltac pull :=
  cbn [op_next op_held] in *;
  unfold seq_next, index_next, filter_next, join_next, project_next, sort_next, limit_next, aggregate_next, emit; cbv beta zeta.

(** Pulled with at least [n] units of fuel, while up to [k] other pages are
    held, [o] returns [rows] one by one and then [None]; if [closed] it holds no
    page then. *)
Fixpoint produces (n k : nat) (closed : bool) (o : Operator H) (rows : list Row) : Prop :=
  forall fuel fr s, (n <= fuel)%nat -> (length fr <= k)%nat -> calm (op_held o ++ fr) s ->
  runs (op_next mgr snap fuel o) s (fun r s' =>
    calm (op_held r.2 ++ fr) s' /\
    match rows with
    | [] => r.1 = None /\ (closed = true -> op_held r.2 = [])
    | row :: rows' => r.1 = Some row /\ produces n k closed r.2 rows'
    end).

(** One call, whatever is left. *)
Lemma produces_next n k closed o rows fuel fr s :
  produces n k closed o rows -> (n <= fuel)%nat -> (length fr <= k)%nat -> calm (op_held o ++ fr) s ->
  runs (op_next mgr snap fuel o) s (fun r s' =>
    calm (op_held r.2 ++ fr) s' /\
    match rows with
    | [] => r.1 = None /\ (closed = true -> op_held r.2 = [])
    | row :: rows' => r.1 = Some row /\ produces n k closed r.2 rows'
    end).
Proof. destruct rows; cbn [produces]; auto. Qed.

Lemma produces_intro n k closed o rows :
  (forall fuel fr s, (n <= fuel)%nat -> (length fr <= k)%nat -> calm (op_held o ++ fr) s ->
   runs (op_next mgr snap fuel o) s (fun r s' =>
    calm (op_held r.2 ++ fr) s' /\
    match rows with
    | [] => r.1 = None /\ (closed = true -> op_held r.2 = [])
    | row :: rows' => r.1 = Some row /\ produces n k closed r.2 rows'
    end)) -> produces n k closed o rows.
Proof. destruct rows; cbn [produces]; auto. Qed.

Lemma produces_weaken n n' k k' closed o rows : produces n k closed o rows -> (n <= n')%nat -> (k' <= k)%nat -> produces n' k' closed o rows.
Proof.
  intros Hp Hn Hk. revert o Hp. induction rows as [|row rows IH]; intros o Hp; apply produces_intro; intros fuel fr s Hf Hl Hs;
    (eapply runs_mono; [apply (produces_next _ _ _ _ _ fuel fr s Hp); [lia | lia | done]|]); [done|].
  intros r s' (? & ? & ?). auto.
Qed.
Lemma produces_unclosed n k o rows : produces n k true o rows -> produces n k false o rows.
Proof.
  revert o. induction rows as [|row rows IH]; intros o Hp; apply produces_intro; intros fuel fr s Hf Hl Hs;
    (eapply runs_mono; [apply (produces_next _ _ _ _ _ fuel fr s Hp); [lia | lia | done]|]); [naive_solver|].
  intros r s' (? & ? & ?). auto.
Qed.

(** A call that goes on with a smaller bound. *)
Lemma produces_step n0 n k closed o rows fuel fr s :
  produces n0 k closed o rows -> (n0 <= fuel)%nat -> (n0 <= n)%nat -> (length fr <= k)%nat -> calm (op_held o ++ fr) s ->
  runs (op_next mgr snap fuel o) s (fun r s' =>
    calm (op_held r.2 ++ fr) s' /\
    match rows with
    | [] => r.1 = None /\ (closed = true -> op_held r.2 = [])
    | row :: rows' => r.1 = Some row /\ produces n k closed r.2 rows'
    end).
Proof.
  intros Hp Hf Hn Hl Hs. eapply runs_mono; [by eapply produces_next|]. intros r s' [Hc Hr]. split; [done|].
  destruct rows; [done|]. destruct Hr as [? ?]. split; [done|]. by eapply produces_weaken.
Qed.

(** ** Sequential scan *)

(** The visible rows among the tuples of a heap. *)
Fixpoint scan_rows (alias : string) (sch : Schema) (raws : list (RID * list byte)) : result (list Row) :=
  match raws with
  | [] => Ok []
  | (rid, raw) :: raws' =>
      v ← tuple_visible mgr snap raw;
      if v : bool then row ← row_from_tuple alias sch rid raw; rows ← scan_rows alias sch raws'; Ok (row :: rows)
      else scan_rows alias sch raws'
  end.

Lemma seq_produces heap alias sch c it raws rows k : heap_yields V c it raws -> scan_rows alias sch raws = Ok rows ->
  Z.of_nat k < cap -> produces (c + length raws + 1) k true (SeqScanOperator heap sch alias (Some it)) rows.
Proof.
  revert c it rows. induction raws as [|[rid raw] raws IH]; intros c it rows Hy Hr Hk; apply produces_intro; intros [|fuel] fr s Hf Hl Hs;
    cbn [length] in Hf; try lia; pull; rstep;
    (eapply runs_mono; [apply (heap_next_ok V cap _ _ _ Hy fuel fr s); [lia | done | unfold blen; lia]|]); intros r s' [Hc Hx]; cbv beta.
  - destruct Hx as [-> Hh]. injection Hr as <-. rstep. cbn [fst snd op_held]. done.
  - destruct Hx as (-> & c' & Hc' & Hy'). cbn [scan_rows] in Hr. destruct (tuple_visible mgr snap raw) as [v|] eqn:Ev; [| done].
    cbn [mbind result_bind] in Hr. rstep. eapply runs_lift_result; [done|]. destruct v.
    + destruct (row_from_tuple alias sch rid raw) as [row|] eqn:Er; [| done]. cbn [mbind result_bind] in Hr.
      destruct (scan_rows alias sch raws) as [rows'|] eqn:Es; [| done]. injection Hr as <-.
      rstep. eapply runs_lift_result; [done|]. rstep. cbn [fst snd op_held]. split_and!; [done | done |].
      eapply produces_weaken; [by eapply IH | cbn [length]; lia | done].
    + eapply produces_step; [by eapply IH | lia | cbn [length]; lia | done | done].
Qed.

(** ** Filter, projection, limit *)

Fixpoint filter_rows (pred : Expr) (rows : list Row) : result (list Row) :=
  match rows with
  | [] => Ok []
  | row :: rows' =>
      b ← holds_on pred row;
      out ← filter_rows pred rows';
      Ok (if b : bool then row :: out else out)
  end.

Lemma filter_produces n k closed o pred rows out : produces n k closed o rows -> filter_rows pred rows = Ok out ->
  produces (n + length rows + 1) k closed (FilterOperator o pred) out.
Proof.
  revert o out. induction rows as [|row rows IH]; intros o out Hp Ho; apply produces_intro; intros [|fuel] fr s Hf Hl Hs;
    cbn [length] in Hf; try lia; pull; rstep;
    (eapply runs_mono; [apply (produces_next _ _ _ _ _ fuel fr s Hp); [lia | done | done]|]); intros r s' [Hc Hr]; cbv beta.
  - destruct Hr as [-> Hh]. injection Ho as <-. rstep. done.
  - destruct Hr as [-> Hr]. cbn [filter_rows] in Ho. destruct (holds_on pred row) as [b|] eqn:Eb; [| done]. cbn [mbind result_bind] in Ho.
    destruct (filter_rows pred rows) as [out'|] eqn:Eo; [| done]. injection Ho as <-. rstep. eapply runs_lift_result; [done|].
    pose proof (IH _ _ Hr eq_refl) as Hf'. destruct b.
    + rstep. cbn [fst snd op_held]. split_and!; [done | done |]. eapply produces_weaken; [done | cbn [length]; lia | done].
    + eapply produces_step; [done | lia | cbn [length]; lia | done | done].
Qed.

Lemma project_produces n k closed o items rows out : produces n k closed o rows -> result_map (project items) rows = Ok out ->
  produces (n + 1) k closed (ProjectOperator o items) out.
Proof.
  revert o out. induction rows as [|row rows IH]; intros o out Hp Ho; cbn [result_map] in Ho.
  - injection Ho as <-. apply produces_intro. intros [|fuel] fr s Hf Hl Hs; [lia|]. pull. rstep.
    eapply runs_mono; [apply (produces_next _ _ _ _ _ fuel fr s Hp); [lia | done | done]|]. intros r s' (Hc & -> & Hh). cbv beta. rstep. done.
  - destruct (project items row) as [row'|] eqn:Er; [| done]. cbn [mbind result_bind] in Ho.
    destruct (result_map (project items) rows) as [out'|] eqn:Eo; [| done]. injection Ho as <-.
    apply produces_intro. intros [|fuel] fr s Hf Hl Hs; [lia|]. pull. rstep.
    eapply runs_mono; [apply (produces_next _ _ _ _ _ fuel fr s Hp); [lia | done | done]|]. intros r s' (Hc & -> & Hr). cbv beta.
    rstep. eapply runs_lift_result; [done|]. rstep. cbn [fst snd op_held]. auto.
Qed.

Lemma limit_produces n k closed o limit count rows : produces n k closed o rows ->
  produces (n + 1) k false (LimitOperator o limit count) (take (Z.to_nat (limit - count)) rows).
Proof.
  revert o count. induction rows as [|row rows IH]; intros o count Hp.
  - rewrite take_nil. apply produces_intro. intros [|fuel] fr s Hf Hl Hs; [lia|]. pull.
    destruct (limit <=? count); [by rstep|]. rstep.
    eapply runs_mono; [apply (produces_next _ _ _ _ _ fuel fr s Hp); [lia | done | done]|]. intros r s' (Hc & -> & Hh). cbv beta. rstep. done.
  - destruct (Z.leb_spec limit count) as [Hle|Hgt].
    + replace (Z.to_nat (limit - count)) with 0%nat by lia. apply produces_intro. intros [|fuel] fr s Hf Hl Hs; [lia|].
      pull; cbn [take] in *. replace (limit <=? count) with true by lia. by rstep.
    + replace (Z.to_nat (limit - count)) with (Datatypes.S (Z.to_nat (limit - (count + 1)))) by lia. cbn [take].
      apply produces_intro. intros [|fuel] fr s Hf Hl Hs; [lia|]. pull. replace (limit <=? count) with false by lia. rstep.
      eapply runs_mono; [apply (produces_next _ _ _ _ _ fuel fr s Hp); [lia | done | done]|]. intros r s' (Hc & -> & Hr). cbv beta.
      rstep. cbn [fst snd op_held]. auto.
Qed.

(** ** Pulling to the end *)

Lemma drain_ok n k closed rows : forall o acc fuel fr s, produces n k closed o rows -> (n + length rows + 1 <= fuel)%nat -> (length fr <= k)%nat ->
  calm (op_held o ++ fr) s ->
  runs (drain mgr snap fuel o acc) s (fun r s' =>
    r.1 = acc ++ rows /\ calm (op_held r.2 ++ fr) s' /\ (closed = true -> op_held r.2 = [])).
Proof.
  induction rows as [|row rows IH]; intros o acc [|fuel] fr s Hp Hf Hl Hs; cbn [length] in Hf; try lia; cbn [drain]; rstep;
    (eapply runs_mono; [apply (produces_next _ _ _ _ _ fuel fr s Hp); [lia | done | done]|]); intros r s' (Hc & -> & Hr); cbv beta iota.
  - rstep. by rewrite app_nil_r.
  - eapply runs_mono; [apply (IH _ _ fuel fr); [done | lia | done | done]|]. intros r2 s2 (-> & ? & ?). by rewrite <- app_assoc.
Qed.

(** ** Materialised rows *)

Lemma next_of_drop (rows : list Row) pos : next_of (Some rows) pos = Ok (head (drop pos rows)).
Proof. unfold next_of. by rewrite head_lookup, lookup_drop, Nat.add_0_r. Qed.
Lemma drop_cons (rows : list Row) pos row l : drop pos rows = row :: l -> drop (Datatypes.S pos) rows = l.
Proof. intros E. replace (Datatypes.S pos) with (pos + 1)%nat by lia. rewrite <- drop_drop, E. done. Qed.

Lemma sort_produces o order rows pos k closed : (closed = true -> op_held o = []) ->
  produces 1 k closed (SortOperator o order (Some rows) pos) (drop pos rows).
Proof.
  intros Hc. remember (drop pos rows) as l eqn:El. revert pos El. induction l as [|row l IH]; intros pos El;
    apply produces_intro; intros [|fuel] fr s Hf Hl Hs; try lia; pull; rewrite next_of_drop, <- El;
    rstep; (eapply runs_lift_result; [done|]); rstep; [done|].
  cbn [fst snd head op_held]. split_and!; [done | done |]. apply IH. symmetry. by eapply drop_cons.
Qed.
Lemma aggregate_produces o group_by items rows pos k closed : (closed = true -> op_held o = []) ->
  produces 1 k closed (HashAggregateOperator o group_by items (Some rows) pos) (drop pos rows).
Proof.
  intros Hc. remember (drop pos rows) as l eqn:El. revert pos El. induction l as [|row l IH]; intros pos El;
    apply produces_intro; intros [|fuel] fr s Hf Hl Hs; try lia; pull; rewrite next_of_drop, <- El;
    rstep; (eapply runs_lift_result; [done|]); rstep; [done|].
  cbn [fst snd head op_held]. split_and!; [done | done |]. apply IH. symmetry. by eapply drop_cons.
Qed.

(** The groups of a list of rows. *)
Fixpoint group_all (group_by : list string) (items : list SelectItem) (rows : list Row) (gs : list Group) : result (list Group) :=
  match rows with [] => Ok gs | row :: rows' => gs' ← group_row group_by items gs row; group_all group_by items rows' gs' end.

Lemma aggregate_ok n k closed group_by items rows : forall o gs gs' fuel fr s, produces n k closed o rows ->
  group_all group_by items rows gs = Ok gs' -> (n + length rows + 1 <= fuel)%nat -> (length fr <= k)%nat -> calm (op_held o ++ fr) s ->
  runs (aggregate mgr snap fuel group_by items o gs) s (fun r s' =>
    r.1 = gs' /\ calm (op_held r.2 ++ fr) s' /\ (closed = true -> op_held r.2 = [])).
Proof.
  induction rows as [|row rows IH]; intros o gs gs' [|fuel] fr s Hp Hg Hf Hl Hs; cbn [length] in Hf; try lia; cbn [aggregate group_all] in *; rstep;
    (eapply runs_mono; [apply (produces_next _ _ _ _ _ fuel fr s Hp); [lia | done | done]|]); intros r s' (Hc & -> & Hr); cbv beta iota.
  - injection Hg as <-. rstep. done.
  - destruct (group_row group_by items gs row) as [gs1|] eqn:Eg; [| done]. rstep. eapply runs_lift_result; [done|]. cbv beta.
    apply (IH _ _ _ fuel fr); [done | done | lia | done | done].
Qed.

(** ** Nested loop join *)

Fixpoint join_rows (on : Expr) (lrows rrows : list Row) : result (list Row) :=
  match lrows with
  | [] => Ok []
  | row :: lrows' =>
      a ← filter_rows on (dupdate row <$> rrows);
      b ← join_rows on lrows' rrows;
      Ok (a ++ b)
  end.

(** Opening the heap of a table finds its last page, whatever is pinned. *)
Lemma find_last_calm fuel p ps seen held s :
  calm held s -> blen held < cap -> chain V (p :: ps) -> NoDup (p :: ps) -> INVALID_PAGE_ID ∉ p :: ps ->
  (forall q, q ∈ ps -> q ∉ seen) -> (length ps < fuel)%nat ->
  runs (find_last_page_from fuel p seen) s (fun r s' => calm held s').
Proof.
  revert p ps seen s. induction fuel as [|fuel IH]; intros p ps seen s Hs Hcap Hc Hnd Hids Hseen Hlen; [lia|].
  destruct (chain_in _ _ p Hc ltac:(set_solver)) as (d & n & f & nx & Hd & Hwf).
  cbn [find_last_page_from]. rstep. eapply runs_mono; [apply (calm_fetch V cap _ _ p Hs); [eauto | done]|].
  intros h s1 Hs1. cbv beta in Hs1 |- *. rstep. eapply runs_eq; [eapply calm_get; [exact Hs1 | by left | done]|]. rstep.
  eapply runs_lift_result; [by apply (read_header_ok d n f nx)|]. cbv beta. rstep.
  eapply runs_mono; [eapply calm_unpin; exact Hs1|]. intros [] s2 Hs2. cbv beta in Hs2 |- *. cbn [snd].
  inversion Hc as [p' d' n' f' Hd' Hw' | p' q ps' d' n' f' Hd' Hw' Hc']; subst; simplify_eq;
    destruct (hp_wf_unique _ _ _ _ _ _ _ Hwf Hw') as (_ & _ & ->).
  - rewrite Z.eqb_refl. by rstep.
  - destruct (Z.eqb_spec q INVALID_PAGE_ID) as [->|Hq]; [set_solver|].
    rewrite bool_decide_eq_false_2 by (apply Hseen; set_solver). apply NoDup_cons in Hnd as [Hp Hnd].
    apply (IH q ps'); [done | done | done | done | set_solver | | simpl in Hlen; lia].
    intros r Hrin. apply NoDup_cons in Hnd as [Hqn _]. pose proof (Hseen r ltac:(set_solver)). set_solver.
Qed.

(** [rows] are the visible rows of the heap pages [ps]. *)
Definition heap_table (ps : list Z) (alias : string) (sch : Schema) (rows : list Row) : Prop :=
  chain V ps /\ NoDup ps /\ INVALID_PAGE_ID ∉ ps /\ scan_rows alias sch (heap_rows V ps) = Ok rows.

Lemma heap_init_calm first ps held s :
  calm held s -> blen held < cap -> chain V ps -> NoDup ps -> INVALID_PAGE_ID ∉ ps -> head ps = Some first ->
  runs (heap_init (Some first)) s (fun hf s' => first_page_id hf = first /\ calm held s').
Proof.
  intros Hs Hcap Hc Hnd Hids Hh. destruct ps as [|p ps]; [done|]. injection Hh as ->.
  unfold heap_init, find_last_page. rstep. rstep. rstep. rstep. rstep.
  assert (length (first :: ps) <= Z.to_nat (ps_count s))%nat as Hn.
  { apply pages_count; [apply Hs | done |]. rewrite (ca_view _ _ _ _ Hs). intros q Hq.
    destruct (chain_in _ _ q Hc Hq) as (d & ? & ? & ? & ? & _). eauto. }
  eapply runs_mono; [eapply (find_last_calm _ first ps); try done|].
  - intros q Hq. apply NoDup_cons in Hnd as [Hf _]. set_solver.
  - cbn [length] in Hn. lia.
  - intros l s1 Hs1. cbv beta in Hs1 |- *. by rstep.
Qed.

(** Whatever the last page recorded in [heap]. *)
Lemma table_produces ps first alias sch rows k :
  heap_table ps alias sch rows -> head ps = Some first -> Z.of_nat k < cap ->
  exists n, forall heap, produces n k true (SeqScanOperator heap sch alias (Some (HIPage first))) rows.
Proof.
  intros (Hc & Hnd & Hids & Hr) Hh Hk. destruct ps as [|p ps]; [done|]. injection Hh as ->.
  destruct (chain_yields (H:=H) V ps first Hc Hids) as [c Hy]. eexists. intros heap. by eapply seq_produces.
Qed.

(** Whatever is held, [r] opens to an operator that produces [rows]. *)
Definition right_produces (n k : nat) (r : RightTable) (rows : list Row) : Prop :=
  forall fr s, (length fr <= k)%nat -> calm fr s ->
  runs (open_right r) s (fun o s' => calm fr s' /\ op_held o = [] /\ produces n k true o rows).

Lemma open_right_ok r first sch ps rows k :
  rt_table r = Ok (first, sch) -> head ps = Some first -> heap_table ps (rt_alias r) sch rows -> Z.of_nat k < cap ->
  exists n, right_produces n k r rows.
Proof.
  intros Hr Hh Ht Hk. destruct (table_produces ps first (rt_alias r) sch rows k Ht Hh Hk) as [n Hn].
  exists n. intros fr s Hl Hs. unfold open_right. rstep. eapply runs_lift_result; [done|]. cbv beta. rstep. cbn [fst snd].
  destruct Ht as (Hc & Hnd & Hids & _).
  eapply runs_mono; [apply (heap_init_calm first ps fr); [done | unfold blen; lia | done..]|].
  intros hf s1 [Hf Hs1]. cbv beta. rstep. rewrite Hf. split_and!; [done | done | apply Hn].
Qed.

(** The operators a base scan consists of hold one page at most. *)
Fixpoint is_source (o : Operator H) : Prop :=
  match o with
  | SeqScanOperator _ _ _ _ | IndexScanOperator _ _ _ _ _ _ _ => True
  | FilterOperator c _ => is_source c
  | _ => False
  end.
Lemma source_held o : is_source o -> (length (op_held o) <= 1)%nat.
Proof. induction o as [? ? ? [[]|]| |? IH ?| | | | | ]; cbn [is_source op_held iter_held length]; try done; lia. Qed.

Lemma bind_Ok_inv {T A B} (m : M T A) (f : A -> M T B) s r s2 : mbind f m s = (Ok r, s2) -> exists a s1, f a s1 = (Ok r, s2) /\ m s = (Ok a, s1).
Proof. unfold mbind, M_bind. destruct (m s) as [[a|e] s1]; [eauto | done]. Qed.

Lemma source_next fuel : forall o s r s', is_source o -> op_next mgr snap fuel o s = (Ok r, s') -> is_source r.2.
Proof.
  induction fuel as [|fuel IH]; intros o s r s' Ho E; [done|].
  destruct o as [hp sch al [it|]|t hp sch al st sp [it|]|c pred| | | | | ]; try done; cbn [op_next] in E; unfold seq_next, index_next, filter_next, emit in E.
  - apply bind_Ok_inv in E as ([[[rid raw]|] it'] & s1 & E & _); cbn [fst snd] in E; [| by injection E as <- <-].
    apply bind_Ok_inv in E as ([] & s2 & E & _); [| by eapply IH; [|exact E]].
    apply bind_Ok_inv in E as (row & s3 & E & _). by injection E as <- <-.
  - apply bind_Ok_inv in E as ([[[key rid]|] it'] & s1 & E & _); cbn [fst snd] in E; [| by injection E as <- <-].
    apply bind_Ok_inv in E as ([raw|] & s2 & E & _); [| by eapply IH; [|exact E]].
    apply bind_Ok_inv in E as ([] & s3 & E & _); [| by eapply IH; [|exact E]].
    apply bind_Ok_inv in E as (row & s4 & E & _). by injection E as <- <-.
  - apply bind_Ok_inv in E as ([[row|] c'] & s1 & E & Ec); cbn [fst snd] in E; apply IH in Ec; try done; cbn [snd] in Ec;
      [| by injection E as <- <-].
    apply bind_Ok_inv in E as ([] & s2 & E & _); [by injection E as <- <- | by apply IH in E].
Qed.

Lemma runs_and {T A} (m : M T A) s (P Q : A -> T -> Prop) :
  runs m s P -> (forall a s', m s = (Ok a, s') -> Q a s') -> runs m s (fun a s' => P a s' /\ Q a s').
Proof. intros (a & s' & E & HP) HQ. exists a, s'. auto. Qed.

(** The rest of the right rows, before the left operator is pulled again. *)
Lemma join_right n0 nr k closed factory on lop row b :
  is_source lop -> (nr < n0)%nat ->
  (forall rop, produces nr (Datatypes.S k) true rop [] ->
     produces n0 k closed (NestedLoopJoinOperator lop factory on (Some row) (Some rop)) b) ->
  forall rcur rop a, produces nr (Datatypes.S k) true rop rcur -> filter_rows on (dupdate row <$> rcur) = Ok a ->
  produces (n0 + length rcur) k closed (NestedLoopJoinOperator lop factory on (Some row) (Some rop)) (a ++ b).
Proof.
  intros Ho Hn Hend. pose proof (source_held lop Ho) as Hh. induction rcur as [|rrow rcur IH]; intros rop a Hr Ha; cbn [fmap list_fmap filter_rows] in Ha.
  - injection Ha as <-. rewrite Nat.add_0_r. auto.
  - destruct (holds_on on (dupdate row rrow)) as [v|] eqn:Ev; [| done]. cbn [mbind result_bind] in Ha.
    destruct (filter_rows on (dupdate row <$> rcur)) as [a'|] eqn:Ea; [| done]. injection Ha as <-.
    apply produces_intro. intros [|fuel] fr s Hf Hk Hs; cbn [length] in Hf; [lia|]. pull. rstep.
    eapply runs_mono; [apply (produces_next _ _ _ _ _ fuel (op_held lop ++ fr) s Hr);
      [lia | rewrite length_app; lia | eapply calm_perm; [| exact Hs]; by rewrite <- app_assoc, Permutation_app_swap_app]|].
    intros [r1 rop'] s1 (Hs1 & E1 & Hr'). cbn [fst snd] in *. subst r1. rstep. eapply runs_lift_result; [done|]. cbv beta.
    assert (calm ((op_held lop ++ op_held rop') ++ fr) s1) as Hs1'
      by (eapply calm_perm; [| exact Hs1]; by rewrite <- app_assoc, Permutation_app_swap_app).
    pose proof (IH rop' a' Hr' eq_refl) as Hp. destruct v.
    + rstep. cbn [fst snd op_held app]. split_and!; [done | done |]. eapply produces_weaken; [exact Hp | cbn [length]; lia | done].
    + eapply produces_step; [exact Hp | lia | cbn [length]; lia | done | done].
Qed.

Lemma join_produces nl nr k closed factory on rrows : right_produces nr (Datatypes.S k) factory rrows ->
  forall lrows rcur lop rop row a b,
  is_source lop -> produces nl k closed lop lrows -> produces nr (Datatypes.S k) true rop rcur ->
  filter_rows on (dupdate row <$> rcur) = Ok a -> join_rows on lrows rrows = Ok b ->
  produces (nl + nr + 1 + length lrows * (length rrows + 1) + length rcur) k closed
    (NestedLoopJoinOperator lop factory on (Some row) (Some rop)) (a ++ b).
Proof.
  intros Hright. induction lrows as [|row' lrows IH]; intros rcur lop rop row a b Ho Hl Hr Ha Hb; pose proof (source_held lop Ho) as Hh;
    (apply (join_right _ nr); [done | lia | | exact Hr | exact Ha]); clear rop rcur Hr a Ha; intros rop Hr;
    apply produces_intro; intros [|fuel] fr s Hf Hk Hs; try lia; pull; cbn [length] in *; rstep;
    (eapply runs_mono; [apply (produces_next _ _ _ _ _ fuel (op_held lop ++ fr) s Hr);
      [lia | rewrite length_app; lia | eapply calm_perm; [| exact Hs]; by rewrite <- app_assoc, Permutation_app_swap_app]|]);
    intros [r1 rop'] s1 (Hs1 & E1 & Hnil); specialize (Hnil eq_refl); cbn [fst snd] in *; subst r1; rewrite Hnil in Hs1; cbn [app] in Hs1; rstep;
    (eapply runs_mono; [eapply (runs_and _ _ _ (fun r _ => is_source r.2));
      [apply (produces_next _ _ _ _ _ fuel fr s1 Hl); [lia | done | done] | intros ? ?; by apply source_next]|]);
    intros [l1 lop'] s2 [(Hs2 & E2 & Hl') Ho']; cbn [fst snd] in *; subst l1.
  - injection Hb as <-. rstep. cbn [fst snd op_held]. rewrite Hnil, app_nil_r. done.
  - cbn [join_rows] in Hb. destruct (filter_rows on (dupdate row' <$> rrows)) as [a|] eqn:Ea; [| done]. cbn [mbind result_bind] in Hb.
    destruct (join_rows on lrows rrows) as [b'|] eqn:Eb; [| done]. injection Hb as <-. rstep.
    pose proof (source_held lop' Ho') as Hh'.
    eapply runs_mono; [apply (Hright (op_held lop' ++ fr) s2); [rewrite length_app; lia | done]|].
    intros rop2 s3 (Hs3 & Hn2 & Hp2). cbv beta.
    pose proof (IH rrows lop' rop2 row' a b' Ho' Hl' Hp2 Ea eq_refl) as Hp.
    eapply produces_step; [exact Hp | lia | lia | done |]. cbn [op_held]. by rewrite Hn2, app_nil_r.
Qed.
(** ** Index scan *)

(** A suspended index scan will yield [es], when no page is held. *)
Inductive tree_yields (t : BPlusTree) (start stop : option value) : nat -> TreeIter -> list (value * RID) -> Prop :=
| ty_start c es :
    (forall s, calm [] s -> runs (scan_first t start) s (fun q s' => calm [] s' /\ exists c', (c' <= c)%nat /\ tree_yields t start stop c' (TILeaf q) es)) ->
    tree_yields t start stop (Datatypes.S c) TIStart es
| ty_end : tree_yields t start stop 1 (TILeaf INVALID_PAGE_ID) []
| ty_done : tree_yields t start stop 1 TIDone []
| ty_leaf q d ks rs nx i c es :
    q <> INVALID_PAGE_ID -> V !! q = Some d -> leaf_page t d ks rs nx ->
    match start with None => Ok 0 | Some x => bisect_left ks x end = Ok i ->
    tree_yields t start stop c (TIEntry ks rs nx i) es -> tree_yields t start stop (Datatypes.S c) (TILeaf q) es
| ty_entry ks rs nx i k r c es :
    i < blen ks -> py_nth ks i = Ok k -> py_nth rs i = Ok r ->
    match stop with None => Ok false | Some e => py_gt k e end = Ok false ->
    tree_yields t start stop c (TIEntry ks rs nx (i + 1)) es -> tree_yields t start stop (Datatypes.S c) (TIEntry ks rs nx i) ((k, r) :: es)
| ty_past ks rs nx i k :
    i < blen ks -> py_nth ks i = Ok k -> match stop with None => Ok false | Some e => py_gt k e end = Ok true ->
    tree_yields t start stop 1 (TIEntry ks rs nx i) []
| ty_next ks rs nx i c es :
    blen ks <= i -> tree_yields t start stop c (TILeaf nx) es -> tree_yields t start stop (Datatypes.S c) (TIEntry ks rs nx i) es.

Lemma runs_bind_option {A} (o : option value) (f : value -> result A) (d a : A) (s : S) (Q : A -> S -> Prop) :
  match o with None => Ok d | Some x => f x end = Ok a -> Q a s ->
  runs (match o with None => mret d | Some x => lift_result (f x) end) s Q.
Proof. intros E HQ. destruct o; [by eapply runs_lift_result | injection E as <-; by apply runs_ret]. Qed.

Lemma tree_next_ok t start stop c it es : 0 < cap -> tree_yields t start stop c it es -> forall fuel s, (c <= fuel)%nat -> calm [] s ->
  runs (tree_iter_next fuel t start stop it) s (fun r s' => calm [] s' /\
    match es with
    | [] => r.1 = None
    | e :: es' => r.1 = Some e /\ exists c', (c' <= c)%nat /\ tree_yields t start stop c' r.2 es'
    end).
Proof.
  intros Hcap Hy fuel. revert c it es Hy. induction fuel as [|fuel IH]; intros c it es Hy s Hf Hs; [destruct Hy; lia|].
  destruct Hy as [c es Hq| | |q d ks rs nx i c es Hq Hd Hp Hi Hy|ks rs nx i k r c es Hi Hk Hr Hst Hy|ks rs nx i k Hi Hk Hst|ks rs nx i c es Hi Hy];
    cbn [tree_iter_next].
  - rstep. eapply runs_mono; [apply (Hq s Hs)|]. intros q s1 (Hs1 & c1 & Hc1 & Hy). cbv beta in *.
    eapply runs_mono; [apply (IH _ _ _ Hy); [lia | done]|]. intros r s2 [Hs2 Hr]. split; [done|].
    destruct es; [done|]. destruct Hr as (? & c' & ? & ?). split; [done|]. exists c'. split; [lia | done].
  - rewrite Z.eqb_refl. rstep. done.
  - rstep. done.
  - destruct (Z.eqb_spec q INVALID_PAGE_ID); [done|]. rstep. eapply runs_mono; [apply (calm_fetch V cap [] s q Hs); [eauto | done]|].
    intros h s1 Hs1. cbv beta in Hs1 |- *. rstep.
    eapply run_read_leaf; [eapply calm_get; [exact Hs1 | by left | done] | exact Hp |]. rstep.
    eapply runs_mono; [eapply calm_unpin; exact Hs1|]. intros [] s2 Hs2. cbv beta in Hs2 |- *. rstep.
    eapply runs_bind_option; [exact Hi|]. cbv beta.
    eapply runs_mono; [apply (IH _ _ _ Hy); [lia | done]|]. intros r s3 [Hs3 Hr]. split; [done|].
    destruct es; [done|]. destruct Hr as (? & c' & ? & ?). split; [done|]. exists c'. split; [lia | done].
  - destruct (Z.ltb_spec i (blen ks)); [|lia]. rstep. eapply runs_lift_result; [done|]. rstep.
    eapply runs_bind_option; [exact Hst|]. cbv beta iota. rstep. eapply runs_lift_result; [done|]. rstep. cbn [fst snd].
    split_and!; [done | done |]. exists c. split; [lia | done].
  - destruct (Z.ltb_spec i (blen ks)); [|lia]. rstep. eapply runs_lift_result; [done|]. rstep.
    eapply runs_bind_option; [exact Hst|]. cbv beta iota. rstep. done.
  - destruct (Z.ltb_spec i (blen ks)); [lia|].
    eapply runs_mono; [apply (IH _ _ _ Hy); [lia | done]|]. intros r s2 [Hs2 Hr]. split; [done|].
    destruct es; [done|]. destruct Hr as (? & c' & ? & ?). split; [done|]. exists c'. split; [lia | done].
Qed.

(** From index [i] of a leaf on. *)
Lemma entries_yield t start stop ks rs nx c rest : Forall (key_ok t) ks -> length ks = length rs -> ksorted ks ->
  from_option (probe_ok t) True stop -> tree_yields t start stop c (TILeaf nx) rest ->
  (~ Forall (upto stop) ks -> rest = []) -> forall n i, (i + n)%nat = length ks ->
  exists c', tree_yields t start stop c' (TIEntry ks rs nx (Z.of_nat i)) (filter (fun e => upto stop e.1) (drop i (zip ks rs)) ++ rest).
Proof.
  intros Hks Hlen Hs Hst Hy Hrest. induction n as [|n IH]; intros i Hi.
  - rewrite drop_ge by (rewrite length_zip_with; lia). eexists. apply ty_next; [unfold blen; lia | exact Hy].
  - destruct (lookup_lt_is_Some_2 ks i) as [k Hk]; [lia|]. destruct (lookup_lt_is_Some_2 rs i) as [r Hr]; [lia|].
    assert (drop i (zip ks rs) = (k, r) :: drop (Datatypes.S i) (zip ks rs)) as ->.
    { erewrite drop_S; [done|]. rewrite lookup_zip_with, Hk, Hr. done. }
    pose proof (past_stop t k stop (Forall_lookup_1 _ _ _ _ Hks Hk) Hst) as Hp.
    assert (py_nth ks (Z.of_nat i) = Ok k) as Hk' by (apply py_nth_lookup; [lia | by rewrite Nat2Z.id]).
    assert (py_nth rs (Z.of_nat i) = Ok r) as Hr' by (apply py_nth_lookup; [lia | by rewrite Nat2Z.id]).
    case_bool_decide as Hup; cbn [negb] in Hp.
    + rewrite filter_cons_True by done. destruct (IH (Datatypes.S i) ltac:(lia)) as [c' Hc']. eexists. cbn [app].
      eapply ty_entry; [unfold blen; lia | done | done | exact Hp |]. replace (Z.of_nat i + 1) with (Z.of_nat (Datatypes.S i)) by lia. exact Hc'.
    + rewrite Hrest, app_nil_r.
      2: { intros Hall. apply Hup. by eapply Forall_lookup_1. }
      rewrite filter_none; [eexists; eapply ty_past; [unfold blen; lia | done | exact Hp]|]. constructor; [done|].
      destruct stop as [e|]; [| done]. cbn in *.
      apply (Forall_fmap fst (fun x => ~ kle x e)). rewrite fmap_drop, fst_zip by lia.
      rewrite <- (take_drop_middle ks i k Hk) in Hs. apply ksorted_app in Hs as (_ & Hs & _).
      inversion Hs as [|? ? _ Hall]; subst. eapply Forall_impl; [exact Hall|]. cbn. intros x Hx Hxe. apply Hup. by eapply kle_trans.
Qed.

Lemma leaves_yield t pg start stop : from_option (probe_ok t) True start -> from_option (probe_ok t) True stop ->
  forall ls, Forall (leaf_read t V pg) ls -> linked ls INVALID_PAGE_ID -> ksorted (ls ≫= lf_keys) ->
  exists c, tree_yields t start stop c (TILeaf (match ls with l :: _ => lf_page l | [] => INVALID_PAGE_ID end))
    (filter (in_scan start stop) (entries ls)).
Proof.
  intros Hst Hsp. induction ls as [|l ls IH]; intros Hall Hlk Hs; [eexists; apply ty_end|].
  inversion Hall as [|? ? (Hin & Hpok & Hok & d & Hd & Hpage) Hall']; subst.
  pose proof Hs as Hs'. change ((l :: ls) ≫= lf_keys) with (lf_keys l ++ (ls ≫= lf_keys)) in Hs'. apply ksorted_app in Hs' as (_ & Hs' & _).
  destruct Hlk as [Hnext Hlk]. destruct (IH Hall' Hlk Hs') as [c Hc]. rewrite <- Hnext in Hc.
  destruct Hok as [Hlen _ Hks _ Hsl _]. destruct (leaf_scan_start t start _ _ Hsl Hks Hlen Hst) as (i & Hi & Estart & Efilter).
  destruct (entries_yield t start stop (lf_keys l) (lf_rids l) (lf_next l) c _ Hks Hlen Hsl Hsp Hc
    (past_rest start stop l ls Hs) (length (lf_keys l) - i) i ltac:(lia)) as [c' Hc'].
  eexists. change (entries (l :: ls)) with (zip (lf_keys l) (lf_rids l) ++ entries ls). rewrite filter_app, <- Efilter.
  eapply ty_leaf; [intros E; unfold page_ok in Hpok; lia | done | exact Hpage | exact Estart | exact Hc'].
Qed.

Lemma suffix_bound (P : list leaf -> nat -> Prop) ls :
  (forall L l ls', ls = L ++ l :: ls' -> exists c, P (l :: ls') c) ->
  exists C, forall L l ls', ls = L ++ l :: ls' -> exists c, (c <= C)%nat /\ P (l :: ls') c.
Proof.
  induction ls as [|a ls IH]; intros HP; [exists 0%nat; by intros [|] ? ? ?|].
  destruct IH as [C HC]; [intros L l ls' ->; by apply (HP (a :: L))|]. destruct (HP [] a ls eq_refl) as [c0 H0].
  exists (c0 + C)%nat. intros [|b L] l ls' [= <- ->].
  - exists c0. split; [lia | done].
  - destruct (HC _ _ _ eq_refl) as (c & Hc & ?). exists c. split; [lia | done].
Qed.

Lemma index_yields t start stop ls pg : tree_rep t V ls pg -> 1 <= cap ->
  from_option (probe_ok t) True start -> from_option (probe_ok t) True stop ->
  exists c, tree_yields t start stop c TIStart (filter (in_scan start stop) (entries ls)).
Proof.
  intros Ht Hcap Hst Hsp.
  destruct (suffix_bound (fun l c => tree_yields t start stop c (TILeaf (match l with l :: _ => lf_page l | [] => INVALID_PAGE_ID end))
    (filter (in_scan start stop) (entries l))) ls) as [C HC].
  { intros L l ls' ->. destruct Ht as [Hwf [h Hs] Hnd Hlk]. pose proof (subtree_leaf_pages _ _ _ _ _ _ _ _ Hs) as [Hall _].
    pose proof (sf_sorted _ _ _ _ _ _ (subtree_facts _ _ _ _ _ _ _ _ Hs)) as Hsorted. apply linked_app_r in Hlk.
    apply Forall_app in Hall as [_ Hall]. rewrite bind_app in Hsorted. apply ksorted_app in Hsorted as (_ & Hsorted & _).
    by apply (leaves_yield t pg start stop Hst Hsp (l :: ls')). }
  exists (Datatypes.S C). apply ty_start. intros s Hs. pose proof (ca_view _ _ _ _ Hs) as Hv.
  eapply runs_mono; [apply (scan_first_ok t start stop s ls pg); [by rewrite Hv | by apply (calm_room V cap) | done]|].
  intros q s1 (Hk & L & l & ls' & E & -> & ->). cbv beta. split; [by eapply calm_keeps|].
  destruct (HC L l ls' E) as (c & Hc & Hy). exists c. split; [lia | done].
Qed.

(** The visible rows an index points to. *)
Definition index_rows (ps : list Z) (alias : string) (sch : Schema) (es : list (value * RID)) : result (list Row) :=
  scan_rows alias sch (omap (fun e => (fun raw => (e.2, raw)) <$> heap_tuple V ps e.2) es).

Lemma heap_get_calm ps rid s : chain V ps -> NoDup ps -> INVALID_PAGE_ID ∉ ps -> 1 <= cap -> calm [] s ->
  page_id rid ∈ ps -> 0 <= slot_id rid ->
  runs (heap_get rid) s (fun t s' => t = heap_tuple V ps rid /\ calm [] s').
Proof.
  intros Hc Hnd Hids Hcap Hs Hp Hi. pose proof (ca_view _ _ _ _ Hs) as Hv. destruct ps as [|p ps]; [by apply elem_of_nil in Hp|].
  destruct (last (p :: ps)) as [q|] eqn:El; [| by apply last_None in El].
  eapply runs_mono; [apply (heap_get_runs s (mkHeap p q) (p :: ps)); [by rewrite Hv; split | by apply (calm_room V cap) | done | done]|].
  intros t s' [-> Hk]. rewrite Hv. split; [done | by eapply calm_keeps].
Qed.

Lemma index_produces t heap alias sch start stop ps : chain V ps -> NoDup ps -> INVALID_PAGE_ID ∉ ps -> 1 <= cap ->
  forall es c it rows, tree_yields t start stop c it es -> Forall (fun e => page_id e.2 ∈ ps /\ 0 <= slot_id e.2) es ->
  index_rows ps alias sch es = Ok rows ->
  produces (c + length es + 1) 0 true (IndexScanOperator t heap sch alias start stop (Some it)) rows.
Proof.
  intros Hc Hnd Hids Hcap. induction es as [|[key rid] es IH]; intros c it rows Hy Hes Hr; apply produces_intro; intros [|fuel] fr s Hf Hl Hs;
    cbn [length] in Hf; try lia; (destruct fr; [|cbn in Hl; lia]); pull; cbn [app] in *; rstep;
    (eapply runs_mono; [apply (tree_next_ok t start stop c it _ ltac:(lia) Hy fuel s); [lia | done]|]); intros [r1 it'] s1 [Hs1 Hx]; cbn [fst snd] in *.
  - subst r1. injection Hr as <-. by rstep.
  - destruct Hx as (-> & c' & Hc' & Hy'). inversion Hes as [|? ? [Hp Hi] Hes']; subst. cbn [fst snd] in *. rstep.
    eapply runs_mono; [by apply (heap_get_calm ps)|]. intros t1 s2 [-> Hs2]. cbv beta.
    unfold index_rows in Hr. cbn [omap list_omap snd] in Hr. destruct (heap_tuple V ps rid) as [raw|]; cbn [fmap option_fmap option_map] in Hr.
    2: { eapply produces_step; [by eapply IH | lia | cbn [length]; lia | done | done]. }
    cbn [scan_rows] in Hr. destruct (tuple_visible mgr snap raw) as [v|] eqn:Ev; [| done].
    cbn [mbind result_bind] in Hr. rstep. eapply runs_lift_result; [done|]. destruct v.
    + destruct (row_from_tuple alias sch rid raw) as [row|] eqn:Er; [| done]. cbn [mbind result_bind] in Hr.
      match type of Hr with mbind _ ?m = _ => destruct m as [rows'|] eqn:Es; [| done] end. injection Hr as <-.
      rstep. eapply runs_lift_result; [done|]. rstep. cbn [fst snd op_held]. split_and!; [done | done |].
      eapply produces_weaken; [by eapply IH | cbn [length]; lia | done].
    + eapply produces_step; [by eapply IH | lia | cbn [length]; lia | done | done].
Qed.
(** ** Whole plans *)

(** What a plan computes, as a function of the rows of its base tables;
    [closed] says that it ends by exhausting its generators, so that no page
    stays pinned: a limit may stop it before. *)
Inductive plan_rows : bool -> Operator H -> list Row -> Prop :=
| pr_seq heap sch alias it ps rows :
    heap_table ps alias sch rows -> head ps = Some (first_page_id heap) -> plan_rows true (SeqScanOperator heap sch alias it) rows
| pr_index t heap sch alias start stop it ps ls pg rows :
    tree_rep t V ls pg -> from_option (probe_ok t) True start -> from_option (probe_ok t) True stop ->
    chain V ps -> NoDup ps -> INVALID_PAGE_ID ∉ ps ->
    let es := filter (in_scan start stop) (entries ls) in
    Forall (fun e => page_id e.2 ∈ ps /\ 0 <= slot_id e.2) es -> index_rows ps alias sch es = Ok rows ->
    plan_rows true (IndexScanOperator t heap sch alias start stop it) rows
| pr_filter c o pred rows out :
    plan_rows c o rows -> filter_rows pred rows = Ok out -> plan_rows c (FilterOperator o pred) out
| pr_join c o factory on lrow rop lrows first sch ps rrows out :
    is_source o -> plan_rows c o lrows ->
    rt_table factory = Ok (first, sch) -> head ps = Some first -> heap_table ps (rt_alias factory) sch rrows ->
    join_rows on lrows rrows = Ok out -> plan_rows c (NestedLoopJoinOperator o factory on lrow rop) out
| pr_project c o items rows out :
    plan_rows c o rows -> result_map (project items) rows = Ok out -> plan_rows c (ProjectOperator o items) out
| pr_sort c o order rows0 pos rows out :
    plan_rows c o rows -> sort_all (reverse order) rows = Ok out -> plan_rows c (SortOperator o order rows0 pos) out
| pr_limit c o limit count rows :
    plan_rows c o rows -> plan_rows false (LimitOperator o limit count) (take (Z.to_nat limit) rows)
| pr_aggregate c o group_by items rows0 pos rows gs out :
    plan_rows c o rows -> group_all group_by items rows [] = Ok gs -> group_results group_by items gs = Ok out ->
    plan_rows c (HashAggregateOperator o group_by items rows0 pos) out.

Lemma source_open fuel : forall o s o' s', is_source o -> op_open mgr snap fuel o s = (Ok o', s') -> is_source o'.
Proof.
  induction o as [| |c IH pred| | | | |]; intros s o' s' Ho E; try done; cbn [op_open] in E; unfold join_open, sort_open, aggregate_open in E; try by injection E as <- <-.
  apply bind_Ok_inv in E as (c' & s1 & E & Ec). apply IH in Ec; [| done]. by injection E as <- <-.
Qed.

(** Opened, a plan produces its rows. *)
Definition opens (n : nat) (c : bool) (o : Operator H) (rows : list Row) : Prop :=
  forall fuel s, (n <= fuel)%nat -> calm [] s ->
  runs (op_open mgr snap fuel o) s (fun o' s' => calm (op_held o') s' /\ produces n 0 c o' rows).

Lemma opens_weaken n n' c o rows : opens n c o rows -> (n <= n')%nat -> opens n' c o rows.
Proof.
  intros Ho Hn fuel s Hf Hs. eapply runs_mono; [apply Ho; [lia | done]|]. intros o' s' [? ?]. split; [done|].
  by eapply produces_weaken.
Qed.

(** The operators that only pass [open] on. *)
Lemma opens_child n n' c c' (k : Operator H -> Operator H) o rows out : (n <= n')%nat ->
  (forall fuel, op_open mgr snap fuel (k o) = (o' ← op_open mgr snap fuel o; mret (k o'))) ->
  (forall o', op_held (k o') = op_held o') ->
  (forall o', produces n 0 c o' rows -> produces n' 0 c' (k o') out) ->
  opens n c o rows -> opens n' c' (k o) out.
Proof.
  intros Hn Hk Hh Hp Ho fuel s Hf Hs. rewrite Hk. rstep. eapply runs_mono; [apply Ho; [lia | done]|].
  intros o' s' [Hs' Hp']. rstep. rewrite Hh. split; [done | by apply Hp].
Qed.

Lemma calm_app_nil held s : calm held s -> calm (held ++ []) s.
Proof. by rewrite app_nil_r. Qed.
#[local] Hint Resolve calm_app_nil : core.

Lemma join_opens n nr c o factory on lrow rop lrows rrows out :
  is_source o -> opens n c o lrows -> right_produces nr 1 factory rrows -> join_rows on lrows rrows = Ok out ->
  opens (n + nr + 2 + length lrows * (length rrows + 1) + length rrows) c (NestedLoopJoinOperator o factory on lrow rop) out.
Proof.
  intros Ho Hop Hright Hout fuel s Hf Hs. cbn [op_open]; unfold join_open, sort_open, aggregate_open. rstep.
  eapply runs_mono; [eapply (runs_and _ _ _ (fun o' _ => is_source o'));
    [apply Hop; [lia | exact Hs] | intros ? ? E; exact (source_open _ _ _ _ _ Ho E)]|].
  intros o' s1 [[Hs1 Hp] Ho']. cbv beta. rstep.
  eapply runs_mono; [eapply (runs_and _ _ _ (fun r _ => is_source r.2));
    [apply (produces_next _ _ _ _ _ fuel [] s1 Hp); [lia | done | auto] | intros ? ?; by apply source_next]|].
  intros [l1 lop'] s2 [[Hs2 Hl] Hlo]. cbn [fst snd] in *. rewrite app_nil_r in Hs2. destruct lrows as [|row lrows].
  - destruct Hl as [-> Hnil]. injection Hout as <-. rstep. cbn [op_held]. rewrite app_nil_r. split; [done|].
    apply produces_intro. intros [|f] fr s3 Hf3 Hl3 Hs3; [lia|]. pull. rstep. cbn [fst snd op_held] in *. rewrite app_nil_r in *. done.
  - destruct Hl as [-> Hl]. cbn [join_rows] in Hout. destruct (filter_rows on (dupdate row <$> rrows)) as [a|] eqn:Ea; [| done].
    cbn [mbind result_bind] in Hout. destruct (join_rows on lrows rrows) as [b|] eqn:Eb; [| done]. injection Hout as <-. rstep.
    eapply runs_mono; [apply (Hright (op_held lop') s2); [by apply source_held | done]|].
    intros rop' s3 (Hs3 & Hn3 & Hp3). cbv beta. rstep. cbn [op_held]. rewrite Hn3, app_nil_r. split; [done|].
    eapply produces_weaken; [eapply (join_produces n nr 0 c factory on rrows Hright); [exact Hlo | exact Hl | exact Hp3 | exact Ea | exact Eb] | cbn [length]; lia | done].
Qed.

Lemma plan_opens c o rows : plan_rows c o rows -> 2 <= cap -> exists n, opens n c o rows.
Proof.
  intros Hp Hcap. induction Hp as [heap sch alias it ps rows Ht Hh|t heap sch alias start stop it ps ls pg rows Ht Hst Hsp Hc Hnd Hids es Hes Hr
    |c o pred rows out _ [n IH] Ho|c o factory on lrow rop lrows first sch ps rrows out Hsrc _ [n IH] Hr Hh Ht Ho|c o items rows out _ [n IH] Ho
    |c o order rows0 pos rows out _ [n IH] Ho|c o limit count rows _ [n IH]|c o group_by items rows0 pos rows gs out _ [n IH] Hg Ho].
  - destruct (table_produces ps (first_page_id heap) alias sch rows 0 Ht Hh ltac:(lia)) as [n Hn]. exists n. intros fuel s Hf Hs.
    cbn [op_open]; unfold join_open, sort_open, aggregate_open. rstep. cbn [op_held iter_held]. split; [done | apply Hn].
  - destruct (index_yields t start stop ls pg Ht ltac:(lia) Hst Hsp) as [n Hn]. eexists. intros fuel s Hf Hs.
    cbn [op_open]; unfold join_open, sort_open, aggregate_open. rstep. cbn [op_held]. split; [done | eapply (index_produces t heap alias sch start stop ps Hc Hnd Hids ltac:(lia)); [exact Hn | exact Hes | exact Hr]].
  - exists (n + length rows + 1)%nat. eapply (opens_child n _ c c (fun o => FilterOperator o pred)); [lia | done | done | | exact IH].
    intros o' Hp'. by apply filter_produces.
  - destruct (open_right_ok factory first sch ps rrows 1 Hr Hh Ht ltac:(lia)) as [nr Hright]. eexists. by eapply join_opens.
  - exists (n + 1)%nat. eapply (opens_child n _ c c (fun o => ProjectOperator o items)); [lia | done | done | | exact IH].
    intros o' Hp'. by eapply project_produces.
  - exists (n + length rows + 1)%nat. intros fuel s Hf Hs. cbn [op_open]; unfold join_open, sort_open, aggregate_open. rstep. eapply runs_mono; [apply IH; [lia | done]|].
    intros o' s1 [Hs1 Hp']. cbv beta. rstep. eapply runs_mono; [apply (drain_ok _ _ _ _ _ [] fuel [] s1 Hp'); [lia | done | auto]|].
    intros [rs o2] s2 (E & Hs2 & Hn). cbn [fst snd app] in *. subst rs. rstep. eapply runs_lift_result; [done|]. cbv beta. rstep.
    cbn [op_held]. rewrite app_nil_r in Hs2. split; [done|].
    eapply produces_weaken; [by apply (sort_produces o2 order out 0 0 c) | lia | done].
  - exists (n + 1)%nat. intros fuel s Hf Hs. cbn [op_open]; unfold join_open, sort_open, aggregate_open. rstep. eapply runs_mono; [apply IH; [lia | done]|].
    intros o' s1 [Hs1 Hp']. cbv beta. rstep. cbn [op_held]. split; [done|]. rewrite <- (Z.sub_0_r limit) at 2. by apply (limit_produces n 0 c).
  - exists (n + length rows + 1)%nat. intros fuel s Hf Hs. cbn [op_open]; unfold join_open, sort_open, aggregate_open. rstep. eapply runs_mono; [apply IH; [lia | done]|].
    intros o' s1 [Hs1 Hp']. cbv beta. rstep. eapply runs_mono; [apply (aggregate_ok _ _ _ _ _ _ _ _ gs fuel [] s1 Hp'); [done | lia | done | auto]|].
    intros [rs o2] s2 (E & Hs2 & Hn). cbn [fst snd] in *. subst rs. rstep. eapply runs_lift_result; [done|]. cbv beta. rstep.
    cbn [op_held]. rewrite app_nil_r in Hs2. split; [done|].
    eapply produces_weaken; [by apply (aggregate_produces o2 group_by items out 0 0 c) | lia | done].
Qed.

Lemma run_plan_runs c o rows : plan_rows c o rows -> 2 <= cap -> exists n, forall fuel s, (n <= fuel)%nat -> calm [] s ->
  runs (run_plan mgr snap fuel o) s (fun out s' => out = rows /\ ps_inv s' /\ ps_view s' = V /\ ps_cap s' = cap /\ (c = true -> ps_pins s' = ∅)).
Proof.
  intros Hp Hcap. destruct (plan_opens c o rows Hp Hcap) as [n Hn]. exists (n + length rows + 1)%nat. intros fuel s Hf Hs.
  unfold run_plan. rstep. eapply runs_mono; [apply Hn; [lia | done]|]. intros o' s1 [Hs1 Hp']. cbv beta. rstep.
  eapply runs_mono; [apply (drain_ok _ _ _ _ _ [] fuel [] s1 Hp'); [lia | done | auto]|].
  intros [rs o2] s2 (E & Hs2 & Hnil). cbn [fst snd app] in *. subst rs. rstep. split; [done|].
  destruct Hs2 as [I Vw P C _ _]. split_and!; [done | done | done |]. intros Hc. by rewrite P, (Hnil Hc).
Qed.
End operators.

(** C31: A query plan computes what the same query means on lists of rows. With
    enough fuel (so it ends) it returns exactly [rows], in order, changes no
    page, and leaves nothing pinned unless a limit cut a scan short. *)
Theorem run_plan_ok {S H : Type} {store : PageStore S H} {spec : PageStoreSpec S H} mgr snap c (o : Operator H) rows (s : S) :
  plan_rows (ps_view s) mgr snap c o rows -> ps_inv s -> ps_pins s = ∅ -> 2 <= ps_cap s ->
  exists n, forall fuel, (n <= fuel)%nat -> exists s', run_plan mgr snap fuel o s = (Ok rows, s') /\
    ps_inv s' /\ ps_view s' = ps_view s /\ (c = true -> ps_pins s' = ∅).
Proof.
  intros Hp Hinv Hpins Hcap. destruct (run_plan_runs (ps_view s) (ps_cap s) mgr snap c o rows Hp Hcap) as [n Hn].
  exists n. intros fuel Hf. destruct (Hn fuel s Hf) as (out & s' & E & -> & I & V & _ & P); [by apply calm_nil|]. eauto.
Qed.

(** * A concrete query *)

Definition demo_schema : Schema := mkSchema [mkColumn "id" INT; mkColumn "name" TEXT].
Definition demo_tuple (xmin : Z) (vs : list value) : list byte :=
  match (p ← encode_row vs demo_schema; pack_tuple xmin INFINITY_TXN p) with Ok t => t | Raise _ => [] end.
Definition demo_a : list byte := demo_tuple 1 [VInt 1; VStr "ann"].
Definition demo_b : list byte := demo_tuple 1 [VInt 2; VStr "bob"].
Definition two_rows (a b : list byte) : list byte := placed (sample_page a) 2 (PAGE_SIZE - blen a) INVALID_PAGE_ID 1 b.
(** Page 0 has two rows and page 1 has one; the transaction 7 is not committed. *)
Definition demo_pages : list (list byte) :=
  [ two_rows demo_a demo_b;
    two_rows demo_a (demo_tuple 7 [VInt 2; VStr "eve"]) ].
Definition demo_pool : BufferPoolManager := bp_init (dm_init (Some (concat demo_pages))) 3.
Definition demo_mgr : TransactionManager := tm_init (wal_init None) 9 ∅.
Definition demo_snap : Snapshot := mkSnapshot 8 {[7]}.

Section two_rows.
Context (a b : list byte) (Ha : blen a = 21) (Hb : blen b = 21).
Lemma two_rows_wf : hp_wf (two_rows a b) 2 (PAGE_SIZE - blen a - blen b) INVALID_PAGE_ID.
Proof using All.
  apply (placed_wf (sample_page a) 1 (PAGE_SIZE - blen a) INVALID_PAGE_ID 1 b); try done; try (apply sample_page_wf); rewrite ?Ha, ?Hb; off.
Qed.
Lemma two_rows_tuple j : slot_tuple (two_rows a b) 2 j = if decide (j = 1) then Some b else if decide (j = 0) then Some a else None.
Proof using All.
  unfold two_rows. rewrite (placed_tuple (sample_page a) 1 (PAGE_SIZE - blen a) INVALID_PAGE_ID 1 b);
    try (apply sample_page_wf); rewrite ?Ha, ?Hb; try done; try off.
  rewrite sample_page_tuple; [done | rewrite Ha; off].
Qed.
Lemma two_rows_rows v p : v !! p = Some (two_rows a b) -> heap_rows v [p] = [(mkRID p 0, a); (mkRID p 1, b)].
Proof using All.
  intros Hd. unfold heap_rows, page_rows. cbn [mbind list_bind]. rewrite Hd, app_nil_r, (hw_num _ _ _ _ two_rows_wf).
  change (Z.to_nat 2) with 2%nat. cbn [slot_rows]. rewrite (hw_num _ _ _ _ two_rows_wf). by rewrite !two_rows_tuple.
Qed.
End two_rows.

Lemma demo_pages_size : Forall (fun d => blen d = PAGE_SIZE) demo_pages.
Proof. repeat constructor; apply two_rows_wf; vm_compute; reflexivity. Qed.
Lemma demo_view (i : nat) : ps_view demo_pool !! Z.of_nat i = demo_pages !! i.
Proof. apply bp_init_view, demo_pages_size. Qed.
Lemma demo_room : ps_inv demo_pool /\ ps_pins demo_pool = ∅ /\ ps_cap demo_pool = 3.
Proof.
  destruct (bp_init_facts (dm_init (Some (concat demo_pages))) 3 ltac:(lia)) as [Hp Hc].
  split_and!; [apply bp_init_inv, dm_init_wf | exact Hp | exact Hc].
Qed.

Definition demo_row (alias : string) (rid : RID) (i : Z) (name : string) : Row :=
  [(alias +:+ ".id", DVal (VInt i)); (alias +:+ ".name", DVal (VStr name)); ("id", DVal (VInt i)); ("name", DVal (VStr name)); ("__rid__", DRid rid)]%string.

Lemma demo_table (p : nat) b rows alias : demo_pages !! p = Some (two_rows demo_a b) -> blen demo_a = 21 -> blen b = 21 ->
  scan_rows demo_mgr demo_snap alias demo_schema [(mkRID (Z.of_nat p) 0, demo_a); (mkRID (Z.of_nat p) 1, b)] = Ok rows ->
  heap_table (ps_view demo_pool) demo_mgr demo_snap [Z.of_nat p] alias demo_schema rows.
Proof.
  intros Hd Ha Hb E. pose proof (lookup_lt_Some _ _ _ Hd) as Hp. rewrite <- demo_view in Hd. split_and!.
  - econstructor; [exact Hd | by apply two_rows_wf].
  - apply NoDup_singleton.
  - intros Hin%list_elem_of_singleton. cbn in Hp. unfold INVALID_PAGE_ID in Hin. lia.
  - rewrite <- E. f_equal. by apply two_rows_rows.
Qed.

(** [SELECT t.name, u.name FROM t JOIN u ON t.id >= u.id WHERE id <> 3 ORDER BY t.id DESC] *)
Definition demo_plan : Operator nat :=
  let heap p := mkHeap p p in
  ProjectOperator
    (SortOperator
      (NestedLoopJoinOperator
        (FilterOperator (SeqScanOperator (heap 0) demo_schema "t" None) (BinaryOp "<>" (ColumnRef "id" None) (Literal (VInt 3))))
        (mkRight (Ok (1, demo_schema)) "u") (BinaryOp ">=" (ColumnRef "id" (Some "t"%string)) (ColumnRef "id" (Some "u"%string))) None None)
      [mkOrderByItem (ColumnRef "id" (Some "t"%string)) true] None 0)
    [mkSelectItem (ColumnRef "name" (Some "t"%string)) (Some "x"%string); mkSelectItem (ColumnRef "name" (Some "u"%string)) None].

Lemma run_plan_ok_witness : exists n, forall fuel, (n <= fuel)%nat -> exists s', run_plan demo_mgr demo_snap fuel demo_plan demo_pool =
  (Ok [[("x", DVal (VStr "bob")); ("name", DVal (VStr "ann"))]; [("x", DVal (VStr "ann")); ("name", DVal (VStr "ann"))]]%string, s').
Proof.
  destruct demo_room as (Hi & Hp & Hc).
  destruct (run_plan_ok demo_mgr demo_snap true demo_plan
    [[("x", DVal (VStr "bob")); ("name", DVal (VStr "ann"))]; [("x", DVal (VStr "ann")); ("name", DVal (VStr "ann"))]]%string demo_pool) as [n Hn].
  - pose proof (demo_table 0 demo_b [demo_row "t" (mkRID 0 0) 1 "ann"; demo_row "t" (mkRID 0 1) 2 "bob"] "t" eq_refl
      ltac:(vm_compute; reflexivity) ltac:(vm_compute; reflexivity) ltac:(vm_compute; reflexivity)) as Ht.
    pose proof (demo_table 1 _ [demo_row "u" (mkRID 1 0) 1 "ann"] "u" eq_refl
      ltac:(vm_compute; reflexivity) ltac:(vm_compute; reflexivity) ltac:(vm_compute; reflexivity)) as Hu.
    eapply pr_project; [eapply pr_sort; [eapply pr_join; [exact I | eapply pr_filter; [eapply pr_seq; [exact Ht | done] |] | done | | exact Hu |]|]|];
      [vm_compute; reflexivity | done | vm_compute; reflexivity | vm_compute; reflexivity | vm_compute; reflexivity].
  - exact Hi.
  - exact Hp.
  - rewrite Hc. lia.
  - exists n. intros fuel Hf. destruct (Hn fuel Hf) as (s' & E & _). by exists s'.
Defined.

(** A limit abandons the generator of the scan below it, so its page stays
    pinned. *)
Theorem limit_leaves_pin :
  let r := run_plan demo_mgr demo_snap 20 (LimitOperator (SeqScanOperator (mkHeap 0 0) demo_schema "t" None) 1 0) demo_pool in
  fst r = Ok [demo_row "t" (mkRID 0 0) 1 "ann"] /\ ps_pins (snd r) = {[0 := 1]}.
Proof. vm_compute. split; reflexivity. Qed.
