(* ===== verification/SortProps.v ===== *)
(** ORDER BY sorts: successive stable sorts, the last key first, give the rows
    in the lexicographic order of all the keys, rows equal on every key staying
    in the order they came in. For keys that are all integers or all strings,
    on which Python's order is total. *)
From stdpp Require Import base numbers list sets sorting strings.
From Stdlib Require Import ZArith Lia Sorting.Sorted.
From S2P Require Import Prelude PyNum Types PyVal Disk PyDict Ast Expr Executor.

Local Open Scope Z_scope.

(** * The order of an ORDER BY list *)

Definition key_of (item : OrderByItem) (row : Row) : value :=
  match evaluate (ob_expr item) row with Ok (DVal v) => v | _ => VNone end.
Definition item_cmp (item : OrderByItem) (a b : Row) : comparison :=
  let c := kcmp (key_of item a) (key_of item b) in if ob_descending item then CompOpp c else c.
Fixpoint order_cmp (order : list OrderByItem) (a b : Row) : comparison :=
  match order with
  | [] => Eq
  | item :: order' => match item_cmp item a b with Eq => order_cmp order' a b | c => c end
  end.
(** The key expression has a value on every row, all of one type. *)
Definition sortable (rows : list Row) (item : OrderByItem) : Prop :=
  exists k, Forall (fun row => exists v, evaluate (ob_expr item) row = Ok (DVal v) /\ same_kind k v) rows.

(** * Stable insertion sort *)

Section insertion.
Context {A : Type} (key : A -> value).

Fixpoint ins (x : A) (l : list A) : list A :=
  match l with
  | [] => [x]
  | y :: l' => match kcmp (key x) (key y) with Lt => x :: l | _ => y :: ins x l' end
  end.
Fixpoint isort (l acc : list A) : list A := match l with [] => acc | x :: l' => isort l' (ins x acc) end.

Lemma ins_perm x l : ins x l ≡ₚ x :: l.
Proof. induction l as [|y l IH]; cbn [ins]; [done|]. case_match; [| done |]; rewrite IH; apply Permutation_swap. Qed.
Lemma isort_perm l acc : isort l acc ≡ₚ acc ++ l.
Proof.
  revert acc. induction l as [|x l IH]; intros acc; cbn [isort]; [by rewrite app_nil_r|].
  rewrite IH, ins_perm. cbn [app]. apply Permutation_middle.
Qed.

Definition sorted (l : list A) : Prop := StronglySorted (fun a b => kle (key a) (key b)) l.
Lemma ins_sorted x l : sorted l -> sorted (ins x l).
Proof.
  induction 1 as [|y l Hs IH Hall]; cbn [ins]; [repeat constructor|].
  assert (kcmp (key x) (key y) <> Lt -> kle (key y) (key x)) as Hyx.
  { intros H. unfold kle. rewrite kcmp_antisym. by destruct (kcmp (key x) (key y)). }
  assert (kcmp (key x) (key y) <> Lt -> Forall (fun z => kle (key y) (key z)) (ins x l)) as Hins.
  { intros H. rewrite ins_perm. constructor; auto. }
  destruct (kcmp (key x) (key y)) eqn:E; [constructor; [exact IH | by apply Hins] | | constructor; [exact IH | by apply Hins]].
  constructor; [by constructor|]. constructor; [by apply klt_kle|]. eapply Forall_impl; [exact Hall|].
  intros z Hz. cbv beta in Hz. apply klt_kle. by apply (klt_kle_trans _ (key y)).
Qed.
Lemma isort_sorted l acc : sorted acc -> sorted (isort l acc).
Proof. revert acc. induction l as [|x l IH]; intros acc Hs; cbn [isort]; [done|]. by apply IH, ins_sorted. Qed.

(** The elements with one key keep their order. *)
Lemma ins_stable v x l : sorted l -> filter (fun y => key y = v) (ins x l) = filter (fun y => key y = v) (l ++ [x]).
Proof.
  induction 1 as [|y l Hs IH Hall]; cbn [ins app]; [done|].
  destruct (kcmp (key x) (key y)) eqn:E; [by rewrite !filter_cons, IH | | by rewrite !filter_cons, IH].
  rewrite (app_comm_cons l [x] y), filter_app. destruct (decide (key x = v)) as [Hx|Hx].
  - assert (Forall (fun z => key z <> v) (y :: l)) as Hno.
    { constructor; [intros Hy; rewrite Hx, Hy in E; by rewrite kcmp_refl in E|]. eapply Forall_impl; [exact Hall|].
      intros z Hz <-. rewrite Hx in E. by apply (klt_not_kle _ _ E). }
    by rewrite filter_cons_True, (filter_none _ (y :: l) Hno), filter_cons_True by done.
  - by rewrite filter_cons_False, (filter_cons_False _ x []), filter_nil, app_nil_r by done.
Qed.
Lemma isort_stable v l acc : sorted acc ->
  filter (fun y => key y = v) (isort l acc) = filter (fun y => key y = v) (acc ++ l).
Proof.
  revert acc. induction l as [|x l IH]; intros acc Hs; cbn [isort]; [by rewrite app_nil_r|].
  rewrite IH by by apply ins_sorted. rewrite filter_app, ins_stable by done. by rewrite <- filter_app, <- app_assoc.
Qed.
End insertion.

Lemma sorted_impl {A} (R R' : A -> A -> Prop) l : (forall a b, R a b -> R' a b) -> StronglySorted R l -> StronglySorted R' l.
Proof. intros HR. induction 1 as [|x l _ IH Hall]; constructor; [done|]. eapply Forall_impl; eauto. Qed.
Lemma sorted_reverse {A} (R : A -> A -> Prop) l : StronglySorted R l -> StronglySorted (flip R) (reverse l).
Proof.
  induction 1 as [|x l Hs IH Hall]; [constructor|]. rewrite reverse_cons. apply StronglySorted_app. split_and!.
  - intros a b Ha Hb%list_elem_of_singleton. subst b. rewrite elem_of_reverse in Ha. rewrite Forall_forall in Hall. by apply Hall.
  - exact IH.
  - repeat constructor.
Qed.

(** * [sort_rows] *)

Section sort_rows.
Context (item : OrderByItem) (rows : list Row) (Hrows : sortable rows item).
Let key := key_of item.
Let keyed (row : Row) : datum * Row := (DVal (key row), row).

Lemma sortable_key row : row ∈ rows -> evaluate (ob_expr item) row = Ok (DVal (key row)).
Proof using Hrows.
  destruct Hrows as [k Hk]. intros Hrow. rewrite Forall_forall in Hk. destruct (Hk row Hrow) as (v & E & Hv).
  unfold key, key_of. by rewrite E.
Qed.
Lemma sortable_kind x y : x ∈ rows -> y ∈ rows -> same_kind (key x) (key y).
Proof using Hrows.
  destruct Hrows as [k Hk]. rewrite Forall_forall in Hk. intros Hx Hy.
  destruct (Hk x Hx) as (v & E & Hv), (Hk y Hy) as (w & E' & Hw). unfold key, key_of. rewrite E, E'.
  eapply same_kind_trans; [by apply same_kind_sym | done].
Qed.

Lemma insert_by_key_ok x l : x ∈ rows -> l ⊆ rows -> insert_by_key (keyed x) (keyed <$> l) = Ok (keyed <$> ins key x l).
Proof using Hrows.
  intros Hx. induction l as [|y l IH]; intros Hl; cbn [insert_by_key ins fmap list_fmap]; [done|].
  cbn [keyed fst dcompare]. rewrite py_lt_kind by (apply sortable_kind; set_solver). cbn [mbind result_bind].
  destruct (kcmp (key x) (key y)); [| done |]; change (list_fmap _ _ keyed l) with (keyed <$> l);
    change (DVal (key x), x) with (keyed x); (rewrite IH by set_solver; done).
Qed.
Lemma sort_keyed_ok l acc : l ⊆ rows -> acc ⊆ rows -> sort_keyed (keyed <$> l) (keyed <$> acc) = Ok (keyed <$> isort key l acc).
Proof using Hrows.
  revert acc. induction l as [|x l IH]; intros acc Hl Hacc; cbn [sort_keyed isort fmap list_fmap]; [done|].
  rewrite insert_by_key_ok by set_solver. cbn [mbind result_bind]. apply IH; [set_solver|]. intros z. rewrite ins_perm. set_solver.
Qed.
Lemma sort_keys_ok : result_map (evaluate (ob_expr item)) rows = Ok ((fun r => DVal (key r)) <$> rows).
Proof using Hrows.
  assert (forall l, l ⊆ rows -> result_map (evaluate (ob_expr item)) l = Ok ((fun r => DVal (key r)) <$> l)) as H; [| by apply H].
  induction l as [|x l IH]; intros Hl; cbn [result_map]; [done|]. rewrite sortable_key, IH by set_solver. done.
Qed.

Lemma sort_rows_eq : sort_rows item rows =
  Ok (if ob_descending item then reverse (isort key (reverse rows) []) else isort key rows []).
Proof using Hrows.
  assert (forall l : list Row, (keyed <$> l).*2 = l) as Hsnd by (intros l; rewrite <- list_fmap_compose; apply list_fmap_id).
  assert (zip ((fun r => DVal (key r)) <$> rows) rows = keyed <$> rows) as Hzip.
  { clear. induction rows as [|x l IH]; [done|]. cbn. by f_equal. }
  unfold sort_rows. rewrite sort_keys_ok. cbn [mbind result_bind]. rewrite Hzip. destruct (ob_descending item).
  - rewrite <- fmap_reverse. pose proof (sort_keyed_ok (reverse rows) []) as E. cbn [fmap list_fmap] in E.
    rewrite E by (intros z; rewrite ?elem_of_reverse; set_solver). cbn [mbind result_bind]. by rewrite <- fmap_reverse, Hsnd.
  - pose proof (sort_keyed_ok rows []) as E. cbn [fmap list_fmap] in E. rewrite E by set_solver. cbn [mbind result_bind]. by rewrite Hsnd.
Qed.

Lemma sort_rows_perm out : sort_rows item rows = Ok out -> out ≡ₚ rows.
Proof using Hrows.
  rewrite sort_rows_eq. intros [= <-]. destruct (ob_descending item); rewrite ?reverse_Permutation, isort_perm; [by rewrite reverse_Permutation | done].
Qed.
Lemma sort_rows_sorted out : sort_rows item rows = Ok out -> StronglySorted (fun a b => item_cmp item a b <> Gt) out.
Proof using Hrows.
  rewrite sort_rows_eq. intros [= <-]. unfold item_cmp. fold key. destruct (ob_descending item).
  - pose proof (isort_sorted key (reverse rows) [] ltac:(constructor)) as Hs. apply sorted_reverse in Hs.
    eapply sorted_impl; [| exact Hs]. intros a b Hab. unfold flip, kle in Hab. rewrite kcmp_antisym in Hab. by destruct (kcmp (key a) (key b)).
  - exact (isort_sorted key rows [] ltac:(constructor)).
Qed.
Lemma sort_rows_stable out a : sort_rows item rows = Ok out ->
  filter (fun b => item_cmp item a b = Eq) out = filter (fun b => item_cmp item a b = Eq) rows.
Proof using Hrows.
  assert (forall l : list Row, filter (fun b => item_cmp item a b = Eq) l = filter (fun b => key b = key a) l) as Hf.
  { intros l. apply filter_ext, Forall_true. intros b. unfold item_cmp. fold key. rewrite <- (kcmp_eq (key b)), (kcmp_antisym (key a)).
    destruct (ob_descending item), (kcmp (key a) (key b)); cbn; naive_solver. }
  rewrite sort_rows_eq, !Hf. intros [= <-]. destruct (ob_descending item).
  - rewrite filter_reverse, isort_stable by constructor. cbn [app]. by rewrite filter_reverse, reverse_involutive.
  - by rewrite isort_stable by constructor.
Qed.
End sort_rows.

(** * [sort_all] *)

Lemma sort_all_app is1 is2 rows : sort_all (is1 ++ is2) rows = rows' ← sort_all is1 rows; sort_all is2 rows'.
Proof.
  revert rows. induction is1 as [|i is1 IH]; intros rows; cbn [sort_all app]; [done|].
  destruct (sort_rows i rows); [apply IH | done].
Qed.
Lemma sortable_perm item rows rows' : rows ≡ₚ rows' -> sortable rows item -> sortable rows' item.
Proof. intros Hp [k Hk]. exists k. by rewrite <- Hp. Qed.

(** A stable sort by one key of rows sorted by the others. *)
Lemma lex_sorted item order l : StronglySorted (fun a b => item_cmp item a b <> Gt) l ->
  (forall a, StronglySorted (fun b c => order_cmp order b c <> Gt) (filter (fun b => item_cmp item a b = Eq) l)) ->
  StronglySorted (fun a b => order_cmp (item :: order) a b <> Gt) l.
Proof.
  induction 1 as [|x l Hs IH Hall]; intros Hf; constructor.
  - apply IH. intros a. specialize (Hf a). rewrite filter_cons in Hf. case_decide; [by inversion Hf | done].
  - rewrite Forall_forall in Hall |- *. intros y Hy. specialize (Hall y Hy). cbn [order_cmp].
    destruct (item_cmp item x y) eqn:E; try done. specialize (Hf x).
    assert (item_cmp item x x = Eq) as Hx by (unfold item_cmp; rewrite kcmp_refl; by destruct (ob_descending item)).
    rewrite filter_cons_True in Hf by done. inversion Hf as [|? ? _ Hall']; subst. rewrite Forall_forall in Hall'. apply Hall'.
    by apply list_elem_of_filter.
Qed.
Lemma filter_sorted {A} (P : A -> Prop) `{!forall x, Decision (P x)} (R : A -> A -> Prop) l : StronglySorted R l -> StronglySorted R (filter P l).
Proof.
  induction 1 as [|x l Hs IH Hall]; [constructor|]. rewrite filter_cons. case_decide; [| done]. constructor; [done|].
  rewrite Forall_forall in Hall |- *. intros y [_ Hy]%list_elem_of_filter. auto.
Qed.

Lemma filter_comm {A} (P Q : A -> Prop) `{!forall x, Decision (P x)} `{!forall x, Decision (Q x)} (l : list A) :
  filter P (filter Q l) = filter Q (filter P l).
Proof. rewrite !list_filter_filter. apply filter_ext, Forall_true. tauto. Qed.

Lemma sort_all_runs order rows : Forall (sortable rows) order -> exists out, sort_all (reverse order) rows = Ok out /\ out ≡ₚ rows /\
  StronglySorted (fun a b => order_cmp order a b <> Gt) out /\
  forall a, filter (fun b => order_cmp order a b = Eq) out = filter (fun b => order_cmp order a b = Eq) rows.
Proof.
  induction 1 as [|item order Hi _ (out1 & E1 & P1 & S1 & F1)].
  - exists rows. split_and!; [done | done | | done]. cbn [order_cmp]. clear. induction rows; constructor; [done|]. by apply Forall_true.
  - rewrite reverse_cons, sort_all_app, E1. cbn [mbind result_bind]. apply (sortable_perm _ rows out1) in Hi; [| done].
    destruct (sort_rows item out1) as [out|e] eqn:E; [| by rewrite sort_rows_eq in E].
    pose proof (sort_rows_stable item out1 Hi out) as Hst. exists out. cbn [sort_all]. rewrite E. split_and!; [done | | |].
    + by rewrite (sort_rows_perm item out1 Hi out E).
    + apply lex_sorted; [by apply (sort_rows_sorted item out1)|]. intros a. rewrite (Hst a E). by apply filter_sorted.
    + assert (forall a (l : list Row), filter (fun b => order_cmp (item :: order) a b = Eq) l =
        filter (fun b => order_cmp order a b = Eq) (filter (fun b => item_cmp item a b = Eq) l)) as Hf.
      { intros a l. rewrite list_filter_filter. apply filter_ext, Forall_true. intros b. cbn [order_cmp]. destruct (item_cmp item a b); naive_solver. }
      intros a. rewrite !Hf, (Hst a E), !(filter_comm (fun b => order_cmp order a b = Eq)). by rewrite F1.
Qed.

(** C32: ORDER BY returns a permutation of its input in the lexicographic order
    of the key expressions (each ascending or descending), and rows that agree
    on all keys keep their order. *)
Theorem sort_all_ok order rows : Forall (sortable rows) order ->
  exists out, sort_all (reverse order) rows = Ok out /\ out ≡ₚ rows /\
  StronglySorted (fun a b => order_cmp order a b <> Gt) out /\
  forall a, filter (fun b => order_cmp order a b = Eq) out = filter (fun b => order_cmp order a b = Eq) rows.
Proof. apply sort_all_runs. Qed.

Definition sample_order : list OrderByItem :=
  [mkOrderByItem (ColumnRef "name" None) false; mkOrderByItem (ColumnRef "id" None) true].
Definition sample_rows : list Row :=
  (fun p => [("id", DVal (VInt p.1)); ("name", DVal (VStr p.2))])%string <$> [(1, "b"); (2, "a"); (3, "b"); (4, "a")]%string.

Lemma sort_all_ok_witness : exists out, sort_all (reverse sample_order) sample_rows = Ok out /\
  (fun row => row_get row "id") <$> out = (fun i => DVal (VInt i)) <$> [4; 2; 3; 1].
Proof.
  destruct (sort_all_ok sample_order sample_rows) as (out & E & _).
  - repeat constructor; [exists (VStr "") | exists (VInt 0)]; repeat constructor; eexists; (split; [reflexivity | constructor]).
  - exists out. split; [exact E|]. vm_compute in E. by injection E as <-.
Defined.
