(* ===== verification/Catalog.v ===== *)
(** Table and index metadata ([src/minirel/catalog.py]): the dict of tables, the
    DDL operations on it, and the JSON sidecar file it is rewritten to on every
    change. [TableMeta] objects are mutable and shared with the database; they
    are modelled by looking a table up in the catalog at each use.

    The file is modelled by its contents; replacing it through a temporary file
    is one step. *)
From stdpp Require Import base numbers list gmap strings pretty.
From Stdlib Require Import ZArith Lia SpecFloat Strings.Byte.
From S2P Require Import Prelude PyNum Types PyVal Disk PageStore BufferPool HeapPage HeapFile HeapFileProps BTree BTreeNode BTreeRep BTreeSearch BTreeInsert.
From S2P Require Import Json PyDict.

Local Open Scope Z_scope.

(** * Column types by name *)

Definition type_value (t : ColumnType) : string :=
  match t with INT => "INT" | FLOAT => "FLOAT" | TEXT => "TEXT" | BOOL => "BOOL" end.
(** [ColumnType(s)] *)
Definition type_of_name (s : string) : result ColumnType :=
  if (s =? "INT")%string then Ok INT else if (s =? "FLOAT")%string then Ok FLOAT
  else if (s =? "TEXT")%string then Ok TEXT else if (s =? "BOOL")%string then Ok BOOL else Raise ValueError.

(** * Metadata *)

Record IndexMeta : Set := mkIndexMeta {
  im_name : string; im_column : string; im_root_page_id : Z; im_unique : bool; im_key_type : ColumnType }.
Record TableMeta : Set := mkTableMeta {
  tb_name : string; tb_schema : Schema; tb_heap_first_page_id : Z; tb_indexes : list (string * IndexMeta) }.
(** [cat_file]: the contents of the sidecar file, if it exists. *)
Record Catalog : Set := mkCatalog { cat_tables : list (string * TableMeta); cat_file : option text }.

Definition set_root (r : Z) (m : IndexMeta) : IndexMeta := mkIndexMeta (im_name m) (im_column m) r (im_unique m) (im_key_type m).
Definition set_indexes (l : list (string * IndexMeta)) (m : TableMeta) : TableMeta :=
  mkTableMeta (tb_name m) (tb_schema m) (tb_heap_first_page_id m) l.

(** * The file *)

Definition index_json (m : IndexMeta) : json :=
  JObj [("column", JStr (im_column m)); ("root_page_id", JInt (im_root_page_id m));
        ("unique", JBool (im_unique m)); ("key_type", JStr (type_value (im_key_type m)))]%string.
Definition column_json (c : Column) : json := JArr [JStr (col_name c); JStr (type_value (col_type c))].
Definition table_json (m : TableMeta) : json :=
  JObj [("schema", JArr (column_json <$> columns (tb_schema m)));
        ("heap_first_page_id", JInt (tb_heap_first_page_id m));
        ("indexes", JObj (prod_map id index_json <$> tb_indexes m))]%string.
Definition catalog_json (tables : list (string * TableMeta)) : json :=
  JObj [("tables"%string, JObj (prod_map id table_json <$> tables))].

(** [_save] *)
Definition save (c : Catalog) : Catalog := mkCatalog (cat_tables c) (Some (json_dump_indent (catalog_json (cat_tables c)))).

(** Subscripts, [items()] and attributes of what [json.load] returned. The
    fields get the types they have in the files [_save] writes; where Python
    would store a value of another type unchecked, reading fails here. *)
Definition jindex (j : json) (k : string) : result json := match j with JObj d => dindex d k | _ => Raise TypeError end.
Definition jget (j : json) (k : string) (dflt : json) : result json :=
  match j with JObj d => Ok (default dflt (dget d k)) | _ => Raise AttributeError end.
Definition jitems (j : json) : result (list (string * json)) := match j with JObj d => Ok d | _ => Raise AttributeError end.
Definition jarr (j : json) : result (list json) := match j with JArr l => Ok l | _ => Raise TypeError end.
Definition jstr (j : json) : result string := match j with JStr s => Ok s | _ => Raise TypeError end.
Definition jint (j : json) : result Z := match j with JInt z => Ok z | _ => Raise TypeError end.
Definition jbool (j : json) : result bool := match j with JBool b => Ok b | _ => Raise TypeError end.
Definition jtype (j : json) : result ColumnType := match j with JStr s => type_of_name s | _ => Raise ValueError end.

Definition load_column (j : json) : result Column :=
  l ← jarr j;
  match l with
  | [n; t] => name ← jstr n; ty ← jtype t; Ok (mkColumn name ty)
  | _ => Raise ValueError
  end.
Definition load_index (p : string * json) : result (string * IndexMeta) :=
  let '(idx_name, j) := p in
  c ← jindex j "column"; col ← jstr c;
  r ← jindex j "root_page_id"; root ← jint r;
  u ← jindex j "unique"; uniq ← jbool u;
  k ← jindex j "key_type"; ty ← jtype k;
  Ok (idx_name, mkIndexMeta idx_name col root uniq ty).
Definition load_table (p : string * json) : result (string * TableMeta) :=
  let '(name, j) := p in
  s ← jindex j "schema"; cols ← jarr s; cs ← result_map load_column cols;
  h ← jindex j "heap_first_page_id"; first ← jint h;
  ix ← jget j "indexes" (JObj []); items ← jitems ix; idxs ← result_map load_index items;
  Ok (name, mkTableMeta name (mkSchema cs) first (dict_of idxs)).

(** [_load] *)
Definition load (file : text) : result (list (string * TableMeta)) :=
  payload ← json_loads file;
  t ← jget payload "tables" (JObj []);
  items ← jitems t;
  tables ← result_map load_table items;
  Ok (dict_of tables).

(** [Catalog.__init__] *)
Definition catalog_init (file : option text) : result Catalog :=
  match file with
  | Some f => tables ← load f; Ok (mkCatalog tables file)
  | None => Ok (mkCatalog [] None)
  end.

(** * Operations *)

Definition has_table (c : Catalog) (name : string) : bool := dmem (cat_tables c) name.
Definition get_table (c : Catalog) (name : string) : result TableMeta :=
  match dget (cat_tables c) name with Some t => Ok t | None => Raise TableNotFoundError end.

(** [self.tables[name] = meta; self._save()] *)
Definition put_table (name : string) (meta : TableMeta) (c : Catalog) : Catalog :=
  save (mkCatalog (dset (cat_tables c) name meta) (cat_file c)).

Definition update_index_root (table_name index_name : string) (new_root : Z) : M Catalog unit :=
  c ← gets id;
  t ← lift_result (dindex (cat_tables c) table_name);
  idx ← lift_result (dindex (tb_indexes t) index_name);
  if im_root_page_id idx =? new_root then mret tt
  else modify (put_table table_name (set_indexes (dset (tb_indexes t) index_name (set_root new_root idx)) t)).

Section ddl.
Context {S H : Type} `{PageStore S H}.

Definition create_table (name : string) (schema : Schema) : M (S * Catalog) TableMeta :=
  c ← gets snd;
  if dmem (cat_tables c) name then raise TableAlreadyExistsError else
  heap ← lift_fst (heap_init None);
  lift_fst (ps_flush (first_page_id heap));;
  let meta := mkTableMeta name schema (first_page_id heap) [] in
  modify (fun st => (fst st, put_table name meta (snd st)));;
  mret meta.

Definition create_index (table_name index_name column_name : string) (unique : bool) : M (S * Catalog) IndexMeta :=
  c ← gets snd;
  table ← lift_result (get_table c table_name);
  if dmem (tb_indexes table) index_name then raise ValueError else
  col ← lift_result (column (tb_schema table) column_name);
  if negb (bool_decide (col_type col = INT) || bool_decide (col_type col = TEXT)) then raise ValueError else
  tree ← lift_fst (bt_init (col_type col) 8 None unique);
  lift_fst (ps_flush (root_page_id tree));;
  let meta := mkIndexMeta index_name column_name (root_page_id tree) unique (col_type col) in
  modify (fun st => (fst st, put_table table_name (set_indexes (dset (tb_indexes table) index_name meta) table) (snd st)));;
  mret meta.
End ddl.

Definition sample_catalog : Catalog :=
  save (mkCatalog [("t", mkTableMeta "t" (mkSchema [mkColumn "id" INT; mkColumn "name" TEXT]) 0
    [("t_id", mkIndexMeta "t_id" "id" 3 true INT)]); ("u", mkTableMeta "u" (mkSchema [mkColumn "x" BOOL]) 1 [])]%string None).
Example reload_ex : match cat_file sample_catalog with Some f => load f | None => Raise ValueError end = Ok (cat_tables sample_catalog).
Proof. vm_compute. reflexivity. Qed.

(** * The file reads back *)

Definition index_ok (p : string * IndexMeta) : Prop :=
  im_name p.2 = p.1 /\ str_ok p.1 = true /\ str_ok (im_column p.2) = true.
Record table_ok (p : string * TableMeta) : Prop := {
  to_name : tb_name p.2 = p.1;
  to_str : str_ok p.1 = true;
  to_columns : Forall (fun c => str_ok (col_name c) = true) (columns (tb_schema p.2));
  to_dict : dict_wf (tb_indexes p.2);
  to_indexes : Forall index_ok (tb_indexes p.2) }.
Definition tables_ok (ts : list (string * TableMeta)) : Prop := dict_wf ts /\ Forall table_ok ts.

Lemma type_of_value t : type_of_name (type_value t) = Ok t.
Proof. by destruct t. Qed.

Lemma result_map_inv {A B} (f : B -> result A) (g : A -> B) l : Forall (fun x => f (g x) = Ok x) l -> result_map f (g <$> l) = Ok l.
Proof. induction 1 as [|x l Hx _ IH]; [done|]. cbn [fmap list_fmap result_map]. rewrite Hx. cbn [mbind result_bind]. by rewrite IH. Qed.

Lemma load_column_json c : load_column (column_json c) = Ok c.
Proof. destruct c as [n t]. unfold load_column, column_json. cbn [jarr mbind result_bind jstr jtype col_name col_type]. by rewrite type_of_value. Qed.
Lemma load_index_json p : index_ok p -> load_index (prod_map id index_json p) = Ok p.
Proof.
  destruct p as [n [nm col root u ty]]. intros (E & _). cbn in E. subst nm. cbn. by rewrite type_of_value.
Qed.
Lemma load_table_json p : table_ok p -> load_table (prod_map id table_json p) = Ok p.
Proof.
  destruct p as [n [nm [cols] first idx]]. intros [E _ _ Hd Hi]. cbn [fst snd tb_name tb_indexes] in *. subst nm.
  cbn [prod_map load_table table_json fst snd id tb_schema columns tb_heap_first_page_id tb_indexes].
  change (jindex _ "schema") with (Ok (JArr (column_json <$> cols))).
  change (jindex _ "heap_first_page_id") with (Ok (JInt first)).
  change (jget _ "indexes" _) with (Ok (JObj (prod_map id index_json <$> idx))).
  cbn [mbind result_bind jarr jint jitems].
  rewrite (result_map_inv load_column column_json cols) by (apply Forall_true; apply load_column_json). cbn [mbind result_bind].
  rewrite (result_map_inv load_index (prod_map id index_json) idx) by (eapply Forall_impl; [exact Hi | apply load_index_json]).
  cbn [mbind result_bind]. by rewrite dict_of_id.
Qed.

Lemma keys_map {A B} (f : A -> B) (l : list (string * A)) : (prod_map id f <$> l).*1 = l.*1.
Proof. rewrite <- list_fmap_compose. by apply list_fmap_ext. Qed.
Lemma obj_ok {A} (f : A -> json) (l : list (string * A)) : dict_wf l ->
  Forall (fun p => str_ok p.1 = true /\ json_ok (f p.2) = true) l -> json_ok (JObj (prod_map id f <$> l)) = true.
Proof.
  intros Hd Hl. cbn [json_ok]. apply andb_true_intro. split; [| apply bool_decide_eq_true; by rewrite keys_map].
  apply forallb_forall. intros q (p & -> & Hp)%list_elem_of_In%list_elem_of_fmap. rewrite Forall_forall in Hl.
  destruct (Hl p Hp) as [H1 H2]. destruct p as [k x]. cbn [prod_map fst snd id] in *. by rewrite H1, H2.
Qed.
Lemma catalog_json_ok ts : tables_ok ts -> json_ok (catalog_json ts) = true.
Proof.
  intros [Hd Hts]. unfold catalog_json. assert (json_ok (JObj (prod_map id table_json <$> ts)) = true) as E.
  2: { cbn [json_ok forallb snd fst]. cbn [json_ok] in E. by rewrite E. }
  apply obj_ok; [done|]. eapply Forall_impl; [exact Hts|]. intros [n [nm [cols] first idx]] [_ Hn Hc Hdi Hi]. cbn [fst snd] in *.
  split; [done|]. cbn [tb_schema columns tb_indexes] in *.
  assert (json_ok (JObj (prod_map id index_json <$> idx)) = true) as Ei.
  { apply obj_ok; [done|]. eapply Forall_impl; [exact Hi|]. intros [i m] (_ & H1 & H2). cbn [fst snd] in *. split; [done|]. cbn. rewrite H2. by destruct (im_key_type m). }
  assert (json_ok (JArr (column_json <$> cols)) = true) as Ec.
  { cbn [json_ok]. apply forallb_forall. intros j (c & -> & Hc')%list_elem_of_In%list_elem_of_fmap.
    rewrite Forall_forall in Hc. cbn. rewrite (Hc c Hc'). by destruct (col_type c). }
  unfold table_json. cbn [json_ok] in *. cbn [forallb snd fst json_ok tb_schema columns tb_indexes tb_heap_first_page_id]. rewrite Ei, Ec. done.
Qed.

Lemma load_save ts : tables_ok ts -> load (json_dump_indent (catalog_json ts)) = Ok ts.
Proof.
  intros Hts. unfold load, json_dump_indent. rewrite json_text_roundtrip by by apply catalog_json_ok. destruct Hts as [Hd Hts].
  cbn [mbind result_bind]. change (jget (catalog_json ts) "tables" _) with (Ok (JObj (prod_map id table_json <$> ts))).
  cbn [mbind result_bind jitems]. rewrite (result_map_inv load_table (prod_map id table_json) ts).
  - cbn [mbind result_bind]. by rewrite dict_of_id.
  - eapply Forall_impl; [exact Hts | apply load_table_json].
Qed.

(** * What every DDL operation keeps *)

(** The file is the current one: reopening gives the same catalog. *)
Definition cat_ok (c : Catalog) : Prop :=
  tables_ok (cat_tables c) /\
  (cat_file c = Some (json_dump_indent (catalog_json (cat_tables c))) \/ c = mkCatalog [] None).

Lemma cat_ok_reopen c : cat_ok c -> catalog_init (cat_file c) = Ok c.
Proof.
  intros [Ht [E | ->]]; [| done]. destruct c as [ts f]. cbn [cat_file cat_tables] in *. subst f. unfold catalog_init. by rewrite load_save by done.
Qed.

Lemma dget_in {A} (d : list (string * A)) k v : dget d k = Some v -> (k, v) ∈ d.
Proof.
  induction d as [|[q w] d IH]; cbn [dget]; [done|]. destruct (String.eqb_spec q k) as [->|]; [intros [= ->]; left | right; auto].
Qed.
Lemma dset_Forall {A} (P : string * A -> Prop) d k v : Forall P d -> P (k, v) -> Forall P (dset d k v).
Proof.
  intros Hd Hv. induction Hd as [|[q w] d Hq Hd IH]; cbn [dset]; [by repeat constructor|]. destruct (q =? k)%string; by constructor.
Qed.
Lemma tables_ok_set ts n t : tables_ok ts -> table_ok (n, t) -> tables_ok (dset ts n t).
Proof. intros [Hd Ht] Hn. split; [by apply dset_wf | by apply dset_Forall]. Qed.
Lemma put_table_ok n t c : cat_ok c -> table_ok (n, t) -> cat_ok (put_table n t c).
Proof. intros [Ht _] Hn. split; [by apply tables_ok_set | by left]. Qed.
Lemma set_index_ok n t i m : table_ok (n, t) -> index_ok (i, m) -> table_ok (n, set_indexes (dset (tb_indexes t) i m) t).
Proof. intros [? ? ? ? ?] Hm. split; cbn; try done; [by apply dset_wf | by apply dset_Forall]. Qed.
Lemma table_ok_get c n t : cat_ok c -> dget (cat_tables c) n = Some t -> table_ok (n, t).
Proof. intros [[_ Ht] _] E. rewrite Forall_forall in Ht. by apply Ht, dget_in. Qed.

Lemma update_index_root_keeps n i r c : cat_ok c -> cat_ok (update_index_root n i r c).2.
Proof.
  intros Hc. unfold update_index_root. mstep. cbn [id]. unfold dindex. destruct (dget (cat_tables c) n) as [t|] eqn:Et; [| done]. mstep.
  destruct (dget (tb_indexes t) i) as [m|] eqn:Ei; [| done]. mstep. destruct (_ =? r); [done|]. cbn.
  pose proof (table_ok_get c n t Hc Et) as Ht. apply put_table_ok; [done|]. apply set_index_ok; [done|].
  destruct Ht as [_ _ _ _ Hi]. rewrite Forall_forall in Hi. apply (Hi _ (dget_in _ _ _ Ei)).
Qed.

Section ddl_props.
Context {S H : Type} {store : PageStore S H}.

(** A call that only works on the pages leaves the catalog alone. *)
Lemma lift_fst_snd {A} (m : M S A) (st : S * Catalog) : (lift_fst m st).2.2 = st.2.
Proof. destruct st as [s c]. unfold lift_fst. cbn. by destruct (m s). Qed.
Lemma bind_lift_fst {A B} (P : Catalog -> Prop) (m : M S A) (k : A -> M (S * Catalog) B) st :
  P st.2 -> (forall a s, P (k a (s, st.2)).2.2) -> P ((lift_fst m ≫= k) st).2.2.
Proof.
  intros HP Hk. unfold mbind, M_bind. pose proof (lift_fst_snd m st) as E. destruct (lift_fst m st) as [[a|e] [s c]]; cbn in E |- *; subst c; auto.
Qed.
Lemma bind_lift_result {A B} (P : Catalog -> Prop) (r : result A) (k : A -> M (S * Catalog) B) st :
  P st.2 -> (forall a, r = Ok a -> P (k a st).2.2) -> P ((lift_result r ≫= k) st).2.2.
Proof. intros HP Hk. unfold mbind, M_bind, lift_result. destruct r; cbn; auto. Qed.

Lemma create_table_keeps n sch st : cat_ok st.2 -> str_ok n = true -> Forall (fun c => str_ok (col_name c) = true) (columns sch) ->
  cat_ok (create_table n sch st).2.2.
Proof.
  intros Hc Hn Hcols. unfold create_table. rewrite bind_gets. destruct (dmem _ n); [done|].
  apply bind_lift_fst; [done|]. intros hf s. apply bind_lift_fst; [done|]. intros [] s'. cbn [snd].
  rewrite bind_modify. cbn. apply put_table_ok; [done|]. split; cbn; try done. constructor.
Qed.
Lemma create_index_keeps n i col u st : cat_ok st.2 -> str_ok i = true -> str_ok col = true -> cat_ok (create_index n i col u st).2.2.
Proof.
  intros Hc Hi Hcol. unfold create_index. rewrite bind_gets. apply bind_lift_result; [done|]. intros t Et. unfold get_table in Et.
  destruct (dget (cat_tables st.2) n) as [t'|] eqn:E; [| done]. injection Et as ->.
  destruct (dmem _ i); [done|]. apply bind_lift_result; [done|]. intros c _. destruct (negb _); [done|].
  apply bind_lift_fst; [done|]. intros tr s. apply bind_lift_fst; [done|]. intros [] s'. cbn [snd].
  rewrite bind_modify. cbn. apply put_table_ok; [done|]. apply set_index_ok; [by eapply table_ok_get | done].
Qed.
End ddl_props.

(** ** Sequences of DDL operations *)

Inductive ddl : Set :=
| DCreateTable (name : string) (schema : Schema)
| DCreateIndex (table index column : string) (unique : bool)
| DUpdateRoot (table index : string) (root : Z).
Definition ddl_ok (o : ddl) : Prop :=
  match o with
  | DCreateTable n sch => str_ok n = true /\ Forall (fun c => str_ok (col_name c) = true) (columns sch)
  | DCreateIndex _ i col _ => str_ok i = true /\ str_ok col = true
  | DUpdateRoot _ _ _ => True
  end.

Section ddl_runs.
Context {S H : Type} {store : PageStore S H}.
(** The state an operation leaves, whether it returns or raises. *)
Definition run_ddl (o : ddl) (st : S * Catalog) : S * Catalog :=
  match o with
  | DCreateTable n sch => (create_table n sch st).2
  | DCreateIndex t i col u => (create_index t i col u st).2
  | DUpdateRoot t i r => (st.1, (update_index_root t i r st.2).2)
  end.
Definition run_ddls (os : list ddl) (st : S * Catalog) : S * Catalog := foldl (fun st o => run_ddl o st) st os.

Lemma run_ddls_keeps os st : cat_ok st.2 -> Forall ddl_ok os -> cat_ok (run_ddls os st).2.
Proof.
  intros Hc Hos. revert st Hc. induction Hos as [|o os Ho _ IH]; intros st Hc; [done|]. apply IH.
  destruct o as [n sch|t i col u|t i r]; cbn [ddl_ok run_ddl fst snd] in *.
  - destruct Ho. by apply create_table_keeps.
  - destruct Ho. by apply create_index_keeps.
  - by apply update_index_root_keeps.
Qed.

(** C36: DDL is immediately durable: after any sequence of catalog operations,
    refused ones included, reading the sidecar file back gives exactly the
    tables and indexes in memory. *)
Theorem catalog_durable os st : cat_ok st.2 -> Forall ddl_ok os ->
  catalog_init (cat_file (run_ddls os st).2) = Ok (run_ddls os st).2.
Proof. intros Hc Hos. by apply cat_ok_reopen, run_ddls_keeps. Qed.
End ddl_runs.

(** * What CREATE does *)

Section create.
Context {S H : Type} {store : PageStore S H} {spec : PageStoreSpec S H}.

Lemma get_put_table n t c n' : get_table (put_table n t c) n' = if (n =? n')%string then Ok t else get_table c n'.
Proof. unfold get_table, put_table. cbn. rewrite dget_dset. by destruct (n =? n')%string. Qed.

(** C37: CREATE TABLE of a new name registers the schema with a fresh, empty,
    well-formed heap and leaves every other table and page as it was; a name
    that is taken is refused and nothing changes. *)
Theorem create_table_ok n sch s c : room s [] 1 -> ps_count s < INVALID_PAGE_ID ->
  if has_table c n then create_table n sch (s, c) = (Raise TableAlreadyExistsError, (s, c))
  else let p := ps_count s in let meta := mkTableMeta n sch p [] in
  exists s' c', create_table n sch (s, c) = (Ok meta, (s', c')) /\
    (forall n', get_table c' n' = if (n =? n')%string then Ok meta else get_table c n') /\
    heap_ok (ps_view s') (mkHeap p p) [p] /\ heap_rows (ps_view s') [p] = [] /\
    (forall q, q <> p -> ps_view s' !! q = ps_view s !! q) /\
    ps_inv s' /\ ps_pins s' = ps_pins s /\ ps_count s' = p + 1.
Proof.
  intros Hr Hn. unfold has_table, create_table. destruct (dmem (cat_tables c) n) eqn:Em.
  { rewrite bind_gets. cbn [snd]. by rewrite Em. }
  set (p := ps_count s). set (meta := mkTableMeta n sch p []). destruct (heap_create_ok s Hr Hn) as (hf & s1 & E1 & Hok & Hrows & I1 & P1 & C1 & V1 & N1). fold p in Hok, Hrows, V1, N1.
  assert (hf = mkHeap p p) as ->.
  { destruct Hok as [_ _ _ Hf Hl]. destruct hf as [f l]. cbn in Hf, Hl. congruence. }
  destruct (ps_flush_ok s1 p I1) as ([] & s2 & E2 & I2 & V2 & P2 & C2 & N2 & _).
  exists s2, (put_table n meta c). split_and!; try congruence.
  - rewrite bind_gets. cbn [snd]. rewrite Em.
    rewrite (bind_ok (lift_fst (heap_init None)) _ (s, c) (mkHeap p p) (s1, c)) by (unfold lift_fst; cbn [fst snd]; by rewrite E1).
    cbn [first_page_id]. rewrite (bind_ok (lift_fst (ps_flush p)) _ (s1, c) tt (s2, c)) by (unfold lift_fst; cbn [fst snd]; by rewrite E2).
    reflexivity.
  - intros n'. apply get_put_table.
  - intros q Hq. rewrite V2. by apply V1.
Qed.

Lemma create_index_runs t i col u s c meta ty : room s [] 1 -> 0 <= ps_count s < INVALID_PAGE_ID ->
  get_table c t = Ok meta -> dmem (tb_indexes meta) i = false -> column (tb_schema meta) col = Ok ty -> col_type ty ∈ [INT; TEXT] ->
  let p := ps_count s in let im := mkIndexMeta i col p u (col_type ty) in
  exists s' c', create_index t i col u (s, c) = (Ok im, (s', c')) /\
    (forall n, get_table c' n = if (t =? n)%string then Ok (set_indexes (tb_indexes meta ++ [(i, im)]) meta) else get_table c n) /\
    tree_rep (tree_params (col_type ty) 8 u p) (ps_view s') [mkLeaf p [] [] INVALID_PAGE_ID] [p] /\
    (forall q, q < p -> ps_view s' !! q = ps_view s !! q) /\
    ps_inv s' /\ ps_pins s' = ps_pins s /\ ps_cap s' = ps_cap s /\ ps_count s' = p + 1.
Proof.
  intros Hr Hn Ht Hi Hcol Hty p im. assert (col_type ty = INT \/ (col_type ty = TEXT /\ 0 <= 8 <= 1016)) as Hty'.
  { apply elem_of_cons in Hty as [->|[->|[]%not_elem_of_nil]%elem_of_cons]; [by left | by right]. }
  destruct (bt_init_runs (col_type ty) 8 u s Hty' Hr ltac:(lia) ltac:(lia)) as (tr & s1 & E1 & -> & Hrep & I1 & P1 & C1 & N1 & V1).
  fold p in Hrep, V1, N1, E1.
  destruct (ps_flush_ok s1 p I1) as ([] & s2 & E2 & I2 & V2 & P2 & C2 & N2 & _).
  exists s2, (put_table t (set_indexes (dset (tb_indexes meta) i im) meta) c). split_and!; try congruence.
  - unfold create_index. rewrite bind_gets. cbn [snd]. rewrite Ht, bind_lift_ok, Hi, Hcol, bind_lift_ok.
    replace (negb _) with false by (destruct Hty' as [-> |[-> _]]; done).
    rewrite (bind_ok (lift_fst (bt_init (col_type ty) 8 None u)) _ (s, c) (tree_params (col_type ty) 8 u p) (s1, c))
      by (unfold lift_fst; cbn [fst snd]; by rewrite E1).
    change (root_page_id (tree_params (col_type ty) 8 u p)) with p.
    rewrite (bind_ok (lift_fst (ps_flush p)) _ (s1, c) tt (s2, c)) by (unfold lift_fst; cbn [fst snd]; by rewrite E2).
    reflexivity.
  - intros n. rewrite get_put_table. rewrite dset_new; [done|]. intros Hin%dmem_elem. congruence.
  - intros q Hq. rewrite V2. by apply V1.
Qed.
(** CREATE INDEX registers an empty, well-formed B+-tree over an INT or TEXT
    column under the table, and leaves every other table and page alone. *)
Theorem create_index_ok t i col u s c meta ty : room s [] 1 -> 0 <= ps_count s < INVALID_PAGE_ID ->
  get_table c t = Ok meta -> dmem (tb_indexes meta) i = false -> column (tb_schema meta) col = Ok ty -> col_type ty ∈ [INT; TEXT] ->
  let p := ps_count s in let im := mkIndexMeta i col p u (col_type ty) in
  exists s' c', create_index t i col u (s, c) = (Ok im, (s', c')) /\
    (forall n, get_table c' n = if (t =? n)%string then Ok (set_indexes (tb_indexes meta ++ [(i, im)]) meta) else get_table c n) /\
    tree_rep (tree_params (col_type ty) 8 u p) (ps_view s') [mkLeaf p [] [] INVALID_PAGE_ID] [p] /\
    (forall q, q < p -> ps_view s' !! q = ps_view s !! q) /\
    ps_inv s' /\ ps_pins s' = ps_pins s /\ ps_count s' = p + 1.
Proof.
  intros Hr Hn Ht Hi Hcol Hty p im.
  destruct (create_index_runs t i col u s c meta ty Hr Hn Ht Hi Hcol Hty) as (s' & c' & E & Hg & Hrep & Hv & I & P & _ & N). by exists s', c'.
Qed.
End create.

(** * Concrete runs *)

Definition empty_pool : BufferPoolManager := bp_init (dm_init None) 4.
Lemma empty_pool_room : room empty_pool [] 1 /\ ps_count empty_pool = 0.
Proof.
  destruct (bp_init_facts (dm_init None) 4 ltac:(lia)) as [Hp Hc]. split; [| reflexivity]. split_and!.
  - apply bp_init_inv, dm_init_wf.
  - cbn [ps_pins ps_cap ps_core buffer_pool_spec buffer_pool_core]. unfold empty_pool. rewrite Hp, Hc, map_size_empty. lia.
  - by intros q ?%elem_of_nil.
Qed.
Definition sample_ddls : list ddl :=
  [DCreateTable "t" (mkSchema [mkColumn "id" INT; mkColumn "f" FLOAT]); DCreateTable "t" (mkSchema []);
   DCreateIndex "t" "ti" "id" true; DCreateIndex "t" "tf" "f" false; DUpdateRoot "t" "ti" 7]%string.

Lemma catalog_durable_witness :
  let st := run_ddls sample_ddls (empty_pool, mkCatalog [] None) in
  catalog_init (cat_file st.2) = Ok st.2 /\
  cat_tables st.2 = [("t", mkTableMeta "t" (mkSchema [mkColumn "id" INT; mkColumn "f" FLOAT]) 0 [("ti", mkIndexMeta "ti" "id" 7 true INT)])]%string.
Proof.
  split; [| vm_compute; reflexivity]. apply catalog_durable.
  - split; [split; constructor | by right].
  - repeat constructor.
Defined.

Lemma create_table_ok_witness : exists s' c', create_table "v" (mkSchema [mkColumn "x" INT]) (empty_pool, sample_catalog) =
  (Ok (mkTableMeta "v" (mkSchema [mkColumn "x" INT]) 0 []), (s', c')).
Proof.
  destruct empty_pool_room as [Hr Hc].
  destruct (create_table_ok "v" (mkSchema [mkColumn "x" INT]) empty_pool sample_catalog Hr ltac:(rewrite Hc; done)) as (s' & c' & E & _).
  exists s', c'. rewrite Hc in E. exact E.
Defined.
Lemma create_index_ok_witness : exists s' c', create_index "t" "t_name" "name" false (empty_pool, sample_catalog) =
  (Ok (mkIndexMeta "t_name" "name" 0 false TEXT), (s', c')).
Proof.
  destruct empty_pool_room as [Hr Hc].
  destruct (create_index_ok "t" "t_name" "name" false empty_pool sample_catalog
    (mkTableMeta "t" (mkSchema [mkColumn "id" INT; mkColumn "name" TEXT]) 0 [("t_id"%string, mkIndexMeta "t_id" "id" 3 true INT)])
    (mkColumn "name" TEXT) Hr ltac:(rewrite Hc; done) eq_refl eq_refl eq_refl ltac:(right; left)) as (s' & c' & E & _).
  exists s', c'. rewrite Hc in E. exact E.
Defined.
