(* ===== verification/Planner.v ===== *)
(** The planner ([src/minirel/planner.py]): from a parsed SELECT, or a table and
    a WHERE, to a tree of operators. A top-level conjunct [column = literal] on
    an indexed column becomes an index scan and is dropped from the filter. *)
From stdpp Require Import base numbers list gmap strings.
From Stdlib Require Import ZArith Lia.
From S2P Require Import Prelude PyNum Types PyVal Disk PageStore HeapPage HeapFile BTree Wal Transaction PyDict Ast Expr Executor Catalog.

Local Open Scope Z_scope.

(** * Conjunctions *)

Fixpoint flatten (e : Expr) : list Expr :=
  match e with
  | BinaryOp o l r => if (o =? "AND")%string then flatten l ++ flatten r else [e]
  | _ => [e]
  end.
Definition flatten_and (e : option Expr) : list Expr := match e with None => [] | Some e => flatten e end.
Definition rebuild_and (conjuncts : list Expr) : option Expr :=
  match conjuncts with [] => None | e :: es => Some (foldl (BinaryOp "AND") e es) end.

(** The pair of [pairs] that is a usable column and a literal. *)
Definition column_literal (alias : string) (indexed_columns : list (string * string)) (a b : Expr) : option (string * value) :=
  match a, b with
  | ColumnRef name table, Literal v =>
      if match table with Some t => negb (t =? alias)%string | None => false end then None
      else index_name ← dget indexed_columns name; Some (index_name, v)
  | _, _ => None
  end.
Definition matching_equality (conjunct : Expr) (alias : string) (indexed_columns : list (string * string)) : option (string * value) :=
  match conjunct with
  | BinaryOp o l r =>
      if (o =? "=")%string then
        match column_literal alias indexed_columns l r with
        | Some m => Some m
        | None => column_literal alias indexed_columns r l
        end
      else None
  | _ => None
  end.

Definition indexed_columns_of (meta : TableMeta) : list (string * string) :=
  dict_of ((fun p => (im_column p.2, p.1)) <$> tb_indexes meta).

(** The first conjunct with an index: its position and the match. *)
Fixpoint find_match (alias : string) (indexed : list (string * string)) (i : nat) (conjuncts : list Expr) : option (nat * (string * value)) :=
  match conjuncts with
  | [] => None
  | c :: cs => match matching_equality c alias indexed with Some m => Some (i, m) | None => find_match alias indexed (S i) cs end
  end.

(** [a or b] on names *)
Definition or_name (a : option string) (b : string) : string :=
  match a with Some s => if (s =? "")%string then b else s | None => b end.
Definition has_aggregates (items : list SelectItem) : bool :=
  existsb (fun item => match si_expr item with FunctionCall _ _ => true | _ => false end) items.

(** * Plans *)

Section planner.
Context {S H : Type} `{PageStore S H}.
Context (catalog : Catalog).

Definition build_base_scan (table_name alias : string) (where_ : option Expr) : M S (Operator H * option Expr) :=
  meta ← lift_result (get_table catalog table_name);
  heap ← heap_init (Some (tb_heap_first_page_id meta));
  let conjuncts := flatten_and where_ in
  match find_match alias (indexed_columns_of meta) 0 conjuncts with
  | Some (i, (index_name, v)) =>
      idx_meta ← lift_result (dindex (tb_indexes meta) index_name);
      tree ← bt_init (im_key_type idx_meta) 8 (Some (im_root_page_id idx_meta)) (im_unique idx_meta);
      let bound := match v with VNone => None | _ => Some v end in
      mret (index_scan tree heap (tb_schema meta) alias bound bound, rebuild_and (take i conjuncts ++ drop (i + 1) conjuncts))
  | None => mret (seq_scan heap (tb_schema meta) alias, where_)
  end.

Definition build_row_source_plan (table_name alias : string) (where_ : option Expr) : M S (Operator H) :=
  r ← build_base_scan table_name alias where_;
  match r.2 with
  | Some residual => mret (FilterOperator r.1 residual)
  | None => mret r.1
  end.

Definition sort_plan (order_by : list OrderByItem) (plan : Operator H) : Operator H :=
  match order_by with [] => plan | _ => sort_operator plan order_by end.
Definition limit_plan (limit : option Z) (plan : Operator H) : Operator H :=
  match limit with Some n => limit_operator plan n | None => plan end.

Definition build_select_plan (stmt : Select) : M S (Operator H) :=
  let left_alias := or_name (sel_table_alias stmt) (sel_table stmt) in
  plan ← build_row_source_plan (sel_table stmt) left_alias (sel_where stmt);
  let plan :=
    match sel_join stmt with
    | Some j =>
        let right_table := meta ← get_table catalog (jc_table j); Ok (tb_heap_first_page_id meta, tb_schema meta) in
        nested_loop_join plan (mkRight right_table (or_name (jc_alias j) (jc_table j))) (jc_on j)
    | None => plan
    end in
  if has_aggregates (sel_items stmt) || negb (bool_decide (sel_group_by stmt = [])) then
    mret (limit_plan (sel_limit stmt) (sort_plan (sel_order_by stmt)
      (hash_aggregate plan (sel_group_by stmt) (sel_items stmt))))
  else
    mret (ProjectOperator (limit_plan (sel_limit stmt) (sort_plan (sel_order_by stmt) plan)) (sel_items stmt)).
End planner.
