(* ===== verification/PlannerProps.v ===== *)
(** What the planner's rewriting preserves: splitting a condition into conjuncts
    and rebuilding it, answering an equality from an index, and the whole
    pipeline of a SELECT, down to the pages. *)
From stdpp Require Import base numbers list gmap sets strings.
From Stdlib Require Import ZArith Lia Strings.Byte Strings.Ascii.
From S2P Require Import Prelude PyNum Types PyVal Disk PageStore BufferPool HeapPage HeapFile HeapFileProps BTree BTreeNode BTreeRep.
From S2P Require Import BTreeSearch BTreeInsert Wal Transaction PyDict Ast Expr Executor ExecutorProps Catalog Planner.

Local Open Scope Z_scope.

(** * Conjunctions *)

(** [AND] over a list: the first conjunct that fails decides. *)
Fixpoint conj_holds (es : list Expr) (row : Row) : result bool :=
  match es with [] => Ok true | e :: es' => b ← holds_on e row; if b : bool then conj_holds es' row else Ok false end.

Lemma holds_and l r row : holds_on (BinaryOp "AND" l r) row = b ← holds_on l row; if b : bool then holds_on r row else Ok false.
Proof.
  unfold holds_on. cbn [evaluate]. change ("AND" =? "AND")%string with true. cbv iota. destruct (evaluate l row) as [a|]; [| done].
  cbn [mbind result_bind]. destruct (dtruthy a); [| done]. by destruct (evaluate r row).
Qed.
Lemma conj_holds_app a b row : conj_holds (a ++ b) row = x ← conj_holds a row; if x : bool then conj_holds b row else Ok false.
Proof.
  induction a as [|e a IH]; [done|]. cbn [conj_holds app]. destruct (holds_on e row) as [[]|]; cbn [mbind result_bind]; done.
Qed.
Lemma holds_foldl es e row : holds_on (foldl (BinaryOp "AND") e es) row = conj_holds (e :: es) row.
Proof.
  revert e. induction es as [|e2 es IH]; intros e; cbn [foldl].
  - cbn [conj_holds]. by destruct (holds_on e row) as [[]|].
  - rewrite IH. cbn [conj_holds]. rewrite holds_and. by destruct (holds_on e row) as [[]|].
Qed.
Lemma holds_flatten e row : conj_holds (flatten e) row = holds_on e row.
Proof.
  assert (forall e, conj_holds [e] row = holds_on e row) as H1 by (intros x; cbn; by destruct (holds_on x row) as [[]|]).
  induction e as [| | | |o l IHl r IHr|]; cbn [flatten]; try apply H1.
  destruct (String.eqb_spec o "AND") as [->|]; [| apply H1]. rewrite conj_holds_app, IHl, IHr. by rewrite holds_and.
Qed.
(** A missing condition holds everywhere. *)
Definition holds_opt (e : option Expr) (row : Row) : result bool := match e with Some e => holds_on e row | None => Ok true end.
Lemma holds_rebuild es row : holds_opt (rebuild_and es) row = conj_holds es row.
Proof. destruct es as [|e es]; [done|]. apply holds_foldl. Qed.
Lemma conj_flatten_and e row : conj_holds (flatten_and e) row = holds_opt e row.
Proof. destruct e as [e|]; [apply holds_flatten | done]. Qed.

(** Splitting a WHERE into its conjuncts and joining them again gives a
    condition with the same outcome on every row, exceptions and the order of
    evaluation included. *)
Theorem rebuild_flatten e row : holds_opt (rebuild_and (flatten_and e)) row = holds_opt e row.
Proof. by rewrite holds_rebuild, conj_flatten_and. Qed.

(** A conjunct that is known to hold can be dropped. *)
Lemma conj_drop cs1 c cs2 row b : holds_on c row = Ok b ->
  match conj_holds (cs1 ++ c :: cs2) row with
  | Ok r => if b then conj_holds (cs1 ++ cs2) row = Ok r else r = false
  | Raise _ => True
  end.
Proof.
  intros Hc. rewrite !conj_holds_app. cbn [conj_holds]. rewrite Hc. cbn [mbind result_bind].
  destruct (conj_holds cs1 row) as [[]|]; cbn [mbind result_bind]; destruct b; try done; by destruct (conj_holds cs2 row).
Qed.

(** [filter_rows] with an optional condition. *)
Definition filter_opt (e : option Expr) (rows : list Row) : result (list Row) :=
  match e with Some e => filter_rows e rows | None => Ok rows end.

Lemma filter_rows_spec e rows out : filter_rows e rows = Ok out <->
  Forall (fun row => exists b, holds_on e row = Ok b) rows /\ out = filter (fun row => holds_on e row = Ok true) rows.
Proof.
  revert out. induction rows as [|row rows IH]; intros out; cbn [filter_rows].
  - split; [intros [= <-]; done | intros [_ ->]; done].
  - rewrite Forall_cons, filter_cons. destruct (holds_on e row) as [b|] eqn:E; cbn [mbind result_bind].
    2: { split; [done|]. intros [[[? ?] _] _]. congruence. }
    destruct (filter_rows e rows) as [o|] eqn:Eo; cbn [mbind result_bind].
    + destruct (proj1 (IH o) eq_refl) as [Hall ->]. split.
      * intros [= <-]. split; [split; [by eexists | done]|]. destruct b; [by rewrite decide_True | rewrite decide_False by congruence; done].
      * intros [_ ->]. f_equal. destruct b; [by rewrite decide_True | by rewrite decide_False by congruence].
    + split; [done|]. intros [[_ Hall] _]. exfalso. by pose proof (proj2 (IH _) (conj Hall eq_refl)).
Qed.

(** * The columns of a row *)

Definition plain_names (sch : Schema) : Prop :=
  NoDup (names sch) /\ Forall (fun n => has_dot n = false /\ n <> "__rid__"%string) (names sch).

Lemma has_dot_qualified a n : has_dot (a +:+ "." +:+ n) = true.
Proof.
  unfold has_dot. apply bool_decide_eq_true. induction a as [|c a IH]; cbn; [left | right; exact IH].
Qed.
Lemma dget_nodup {A} (d : list (string * A)) k v : NoDup d.*1 -> (k, v) ∈ d -> dget d k = Some v.
Proof.
  induction d as [|[q w] d IH]; [by intros _ ?%elem_of_nil|]. cbn [fmap list_fmap fst dget]. intros [Hq Hd]%NoDup_cons.
  intros [[= -> ->]|Hin]%elem_of_cons; [by rewrite String.eqb_refl|]. destruct (String.eqb_spec q k) as [->|]; [| by apply IH].
  destruct Hq. apply list_elem_of_fmap. by exists (k, v).
Qed.

Lemma zip_fst_sublist {A B} (l : list A) (k : list B) : sublist (zip l k).*1 l.
Proof. revert k. induction l as [|x l IH]; intros [|y k]; cbn; [constructor | constructor | apply sublist_nil_l | by apply sublist_skip]. Qed.
Lemma dget_dict_of {A} (l : list (string * A)) k v : NoDup l.*1 -> (k, v) ∈ l -> dget (dict_of l) k = Some v.
Proof. intros Hnd Hin. rewrite dict_of_id by done. by apply dget_nodup. Qed.
Lemma dget_dupdate_in {A} (d l : list (string * A)) k v : NoDup l.*1 -> (k, v) ∈ l -> dget (dupdate d l) k = Some v.
Proof.
  intros Hnd Hin. rewrite dget_dupdate, (dget_nodup (reverse l) k v); [done | | by apply elem_of_reverse].
  rewrite fmap_reverse. by rewrite reverse_Permutation.
Qed.
Lemma dget_dupdate_out {A} (d l : list (string * A)) k : k ∉ l.*1 -> dget (dupdate d l) k = dget d k.
Proof.
  intros Hk. rewrite dget_dupdate. destruct (dget (reverse l) k) as [w|] eqn:E; [| done].
  assert (k ∈ (reverse l).*1) as Hin by (apply dget_elem; eauto). rewrite fmap_reverse, elem_of_reverse in Hin. done.
Qed.

(** The named column's value, under both its names. *)
Lemma row_column alias sch rid raw vs row i c v : plain_names sch ->
  decode_row (tuple_payload raw) sch = Ok vs -> columns sch !! i = Some c -> vs !! i = Some v ->
  row_from_tuple alias sch rid raw = Ok row ->
  dget row (col_name c) = Some (DVal v) /\ dget row (alias +:+ "." +:+ col_name c) = Some (DVal v).
Proof.
  intros [Hnd Hpl] Hd Hc Hv. unfold row_from_tuple. rewrite Hd. cbn [mbind result_bind]. intros [= <-].
  set (cells := zip (columns sch) vs). assert ((c, v) ∈ cells) as Hin.
  { apply (list_elem_of_lookup_2 _ i). unfold cells. rewrite lookup_zip_with, Hc, Hv. done. }
  assert (forall x, x ∈ cells -> has_dot (col_name x.1) = false /\ col_name x.1 <> "__rid__"%string) as Hcell.
  { intros x Hx. rewrite Forall_forall in Hpl. apply Hpl. apply (list_elem_of_fmap_2 col_name).
    eapply elem_of_sublist; [by apply (list_elem_of_fmap_2 fst) | apply zip_fst_sublist]. }
  assert (NoDup (col_name <$> cells.*1)) as Hcells by (eapply sublist_NoDup; [exact Hnd | apply fmap_sublist, zip_fst_sublist]).
  set (plain := (fun cv : Column * value => (col_name cv.1, DVal cv.2)) <$> cells).
  set (qual := (fun cv : Column * value => ((alias +:+ "." +:+ col_name cv.1)%string, DVal cv.2)) <$> cells).
  assert (plain.*1 = col_name <$> cells.*1) as Ep by (unfold plain; by rewrite <- !list_fmap_compose).
  assert (qual.*1 = (fun n => (alias +:+ "." +:+ n)%string) <$> (col_name <$> cells.*1)) as Eq by (unfold qual; by rewrite <- !list_fmap_compose).
  assert (NoDup qual.*1) as Hq.
  { rewrite Eq. apply NoDup_fmap_2; [| done]. intros a b Hab. by apply (inj (String.append "."))in Hab || (apply (inj (String.append alias)) in Hab; by apply (inj (String.append ".")) in Hab). }
  destruct (Hcell _ Hin) as [Hdot Hrid]. cbn [fst] in *.
  assert ((alias +:+ "." +:+ col_name c)%string <> "__rid__"%string) as Hrid'.
  { intros E. pose proof (has_dot_qualified alias (col_name c)) as Hx. rewrite E in Hx. done. }
  rewrite !dget_dset_ne by congruence. split.
  - apply dget_dupdate_in; [by rewrite Ep|]. unfold plain. apply list_elem_of_fmap. by exists (c, v).
  - rewrite dget_dupdate_out; [apply dget_dict_of; [done | apply list_elem_of_fmap; by exists (c, v)]|].
    rewrite Ep, <- list_fmap_compose. intros (x & E & Hx)%list_elem_of_fmap. cbn in E.
    pose proof (has_dot_qualified alias (col_name c)) as Hx'. rewrite E in Hx'. destruct (Hcell x Hx). congruence.
Qed.

(** * An equality answered by an index *)

Lemma filter_opt_spec e rows out : filter_opt e rows = Ok out <->
  Forall (fun row => exists b, holds_opt e row = Ok b) rows /\ out = filter (fun row => holds_opt e row = Ok true) rows.
Proof.
  destruct e as [e|]; [apply filter_rows_spec|]. cbn [filter_opt holds_opt].
  rewrite (filter_all (fun _ : Row => @Ok bool true = Ok true)) by by apply Forall_true. split.
  - intros [= ->]. split; [| done]. apply Forall_true. eauto.
  - by intros [_ ->].
Qed.

Lemma filter_opt_perm e rows rows' out : rows' ≡ₚ rows -> filter_opt e rows = Ok out -> exists out', filter_opt e rows' = Ok out' /\ out' ≡ₚ out.
Proof.
  intros Hp [Hall ->]%filter_opt_spec. eexists. split; [apply filter_opt_spec; split; [by rewrite Hp | reflexivity] | by rewrite Hp].
Qed.

Lemma decode_columns_length data cols off vs : decode_columns data cols off = Ok vs -> length vs = length cols.
Proof.
  revert off vs. induction cols as [|c cols IH]; intros off vs E; cbn [decode_columns] in E; [by injection E as <-|].
  destruct (decode_value data off (col_type c)) as [r|]; [| done]. cbn [mbind result_bind] in E.
  destruct (decode_columns data cols (off + snd r)) as [vs'|] eqn:E'; [| done]. injection E as <-. cbn. f_equal. by eapply IH.
Qed.

Section pushdown.
Context (mgr : TransactionManager) (snap : Snapshot) (alias : string) (sch : Schema) (i : nat) (c : Column).
Context (Hplain : plain_names sch) (Hcol : columns sch !! i = Some c).
Notation scan_rows := (scan_rows mgr snap alias sch).

Definition raw_key (raw : list byte) : value :=
  match decode_row (tuple_payload raw) sch with Ok vs => default VNone (vs !! i) | Raise _ => VNone end.
Definition row_key (row : Row) : value := match dget row (col_name c) with Some (DVal v) => v | _ => VNone end.

Lemma row_key_ok rid raw row : row_from_tuple alias sch rid raw = Ok row ->
  row_key row = raw_key raw /\ dget row (col_name c) = Some (DVal (row_key row)) /\
  dget row (alias +:+ "." +:+ col_name c) = Some (DVal (row_key row)).
Proof using Hplain Hcol.
  intros E. unfold raw_key. destruct (decode_row (tuple_payload raw) sch) as [vs|] eqn:Ed.
  2: { unfold row_from_tuple in E. by rewrite Ed in E. }
  pose proof (decode_columns_length _ _ _ _ Ed) as Hl. destruct (lookup_lt_is_Some_2 vs i) as [v Hv].
  { rewrite Hl. by eapply lookup_lt_Some. }
  destruct (row_column alias sch rid raw vs row i c v Hplain Ed Hcol Hv E) as [E1 E2].
  unfold row_key. rewrite Hv, E1. done.
Qed.

Lemma scan_rows_key v raws rows : scan_rows raws = Ok rows ->
  scan_rows (filter (fun x => raw_key x.2 = v) raws) = Ok (filter (fun row => row_key row = v) rows).
Proof using Hplain Hcol.
  revert rows. induction raws as [|[rid raw] raws IH]; intros rows E; cbn [ExecutorProps.scan_rows] in E; [by injection E as <-|].
  destruct (tuple_visible mgr snap raw) as [vis|] eqn:Ev; [| done]. cbn [mbind result_bind] in E. destruct vis.
  - destruct (row_from_tuple alias sch rid raw) as [row|] eqn:Er; [| done]. cbn [mbind result_bind] in E.
    destruct (scan_rows raws) as [rows'|]; [| done]. injection E as <-. destruct (row_key_ok _ _ _ Er) as [Hk _].
    rewrite !filter_cons, Hk. cbn [snd]. destruct (decide (raw_key raw = v)) as [Hv|Hv]; [| by apply IH].
    cbn [ExecutorProps.scan_rows]. rewrite Ev. cbn [mbind result_bind]. rewrite Er. cbn [mbind result_bind]. by rewrite (IH _ eq_refl).
  - rewrite filter_cons. cbn [snd]. case_decide; [| by apply IH]. cbn [ExecutorProps.scan_rows]. rewrite Ev. by apply IH.
Qed.

Lemma scan_rows_perm raws raws' rows : raws ≡ₚ raws' -> scan_rows raws = Ok rows -> exists rows', scan_rows raws' = Ok rows' /\ rows' ≡ₚ rows.
Proof using Type.
  intros Hp. revert rows. induction Hp as [|[rid raw] l l' _ IH|[r1 w1] [r2 w2] l|l1 l2 l3 _ IH1 _ IH2]; intros rows E.
  - eauto.
  - cbn [ExecutorProps.scan_rows] in *. destruct (tuple_visible mgr snap raw) as [vis|]; [| done]. cbn [mbind result_bind] in *. destruct vis; [| auto].
    destruct (row_from_tuple alias sch rid raw) as [row|]; [| done]. cbn [mbind result_bind] in *.
    destruct (scan_rows l) as [rows0|]; [| done]. injection E as <-. destruct (IH _ eq_refl) as (rows' & -> & Hr).
    eexists. split; [done|]. by rewrite Hr.
  - cbn [ExecutorProps.scan_rows] in *. destruct (tuple_visible mgr snap w1) as [v1|], (tuple_visible mgr snap w2) as [v2|]; cbn [mbind result_bind] in *; try done.
    2: { destruct v2; [| done]. by destruct (row_from_tuple alias sch r2 w2). }
    destruct v1, v2, (row_from_tuple alias sch r1 w1) as [x1|], (row_from_tuple alias sch r2 w2) as [x2|]; cbn [mbind result_bind] in *; try done;
      destruct (scan_rows l) as [rows0|]; try done; cbn [mbind result_bind] in *; injection E as <-; eexists; (split; [done|]); try done. apply Permutation_swap.
  - destruct (IH1 _ E) as (rows2 & E2 & H2). destruct (IH2 _ E2) as (rows3 & E3 & H3). exists rows3. split; [done|]. by rewrite H3.
Qed.

(** What the plan with the index filters, compared with what the plan without
    it does. *)
Lemma pushdown_rows v where_ cs1 cj cs2 raws raws' rows out :
  scan_rows raws = Ok rows -> filter_opt where_ rows = Ok out -> flatten_and where_ = cs1 ++ cj :: cs2 ->
  Forall (fun row => holds_on cj row = Ok (bool_decide (row_key row = v))) rows ->
  raws' ≡ₚ filter (fun x => raw_key x.2 = v) raws ->
  exists rows' out', scan_rows raws' = Ok rows' /\ filter_opt (rebuild_and (cs1 ++ cs2)) rows' = Ok out' /\ out' ≡ₚ out.
Proof using Hplain Hcol.
  intros Hscan Hout Hflat Hcj Hraws. apply scan_rows_key with (v := v) in Hscan.
  destruct (scan_rows_perm _ raws' _ (symmetry Hraws) Hscan) as (rows' & Hrows' & Hp). exists rows'.
  apply filter_opt_spec in Hout as [Hall ->].
  assert (Forall (fun row => match holds_opt where_ row with
    | Ok r => if bool_decide (row_key row = v) then holds_opt (rebuild_and (cs1 ++ cs2)) row = Ok r else r = false
    | Raise _ => False end) rows) as Hdrop.
  { rewrite Forall_forall in Hall, Hcj |- *. intros row Hrow. destruct (Hall row Hrow) as [b Hb].
    pose proof (conj_drop cs1 cj cs2 row _ (Hcj row Hrow)) as Hd. rewrite <- Hflat, conj_flatten_and in Hd. rewrite Hb in Hd |- *.
    by rewrite holds_rebuild. }
  exists (filter (fun row => holds_opt (rebuild_and (cs1 ++ cs2)) row = Ok true) rows'). split_and!; [done | |].
  - apply filter_opt_spec. split; [| done]. rewrite Hp. apply Forall_forall. intros row [Hk Hrow]%list_elem_of_filter.
    rewrite Forall_forall in Hdrop. specialize (Hdrop row Hrow). destruct (holds_opt where_ row) as [r|]; [| done].
    rewrite bool_decide_true in Hdrop by done. eauto.
  - rewrite Hp, list_filter_filter, (filter_ext _ (fun row => holds_opt where_ row = Ok true) rows); [done|]. eapply Forall_impl; [exact Hdrop|]. cbv beta. intros row Hd.
    destruct (holds_opt where_ row) as [r|]; [| done]. case_bool_decide as Hk; [rewrite Hd; split; [tauto | done]|].
    subst r. split; [tauto | done].
Qed.
End pushdown.

(** ** Matching *)

Lemma dget_dict_of_in {A} (l : list (string * A)) k v : dget (dict_of l) k = Some v -> (k, v) ∈ l.
Proof.
  unfold dict_of. rewrite dget_dupdate. destruct (dget (reverse l) k) as [w|] eqn:E; [| done]. intros [= ->].
  apply dget_in in E. rewrite elem_of_reverse in E. exact E.
Qed.

(** [col = v], either way round, the column unqualified or under the alias. *)
Definition equality_of (alias col : string) (v : value) (cj : Expr) : Prop :=
  exists table, (table = None \/ table = Some alias) /\
  (cj = BinaryOp "=" (ColumnRef col table) (Literal v) \/ cj = BinaryOp "=" (Literal v) (ColumnRef col table)).

Lemma column_literal_inv alias indexed a b n v : column_literal alias indexed a b = Some (n, v) ->
  exists col table, a = ColumnRef col table /\ b = Literal v /\ (table = None \/ table = Some alias) /\ dget indexed col = Some n.
Proof.
  destruct a as [|col table| | | |], b as [w| | | | |]; try done. cbn [column_literal]. intros E.
  assert (table = None \/ table = Some alias) as Ht.
  { destruct table as [t|]; [right | by left]. revert E. destruct (String.eqb_spec t alias) as [->|]; done. }
  exists col, table. replace (match table with Some t => negb (t =? alias)%string | None => false end) with false in E.
  2: { destruct Ht as [-> | ->]; [done|]. by rewrite String.eqb_refl. }
  destruct (dget indexed col) as [m|] eqn:Em; [| done]. cbn in E. injection E as <- <-. done.
Qed.
Lemma matching_equality_inv alias indexed cj n v : matching_equality cj alias indexed = Some (n, v) ->
  exists col, dget indexed col = Some n /\ equality_of alias col v cj.
Proof.
  destruct cj as [| | | |o l r|]; try done. cbn [matching_equality]. destruct (String.eqb_spec o "=") as [->|]; [| done].
  destruct (column_literal alias indexed l r) as [m|] eqn:E1.
  - intros [= ->]. apply column_literal_inv in E1 as (col & table & -> & -> & Ht & Hg). exists col. split; [done|]. exists table. auto.
  - intros (col & table & -> & -> & Ht & Hg)%column_literal_inv. exists col. split; [done|]. exists table. auto.
Qed.
Lemma find_match_inv alias indexed cs : forall k j m, find_match alias indexed k cs = Some (j, m) ->
  exists cs1 cj cs2, cs = cs1 ++ cj :: cs2 /\ j = (k + length cs1)%nat /\ matching_equality cj alias indexed = Some m.
Proof.
  induction cs as [|c cs IH]; intros k j m E; cbn [find_match] in E; [done|].
  destruct (matching_equality c alias indexed) as [m'|] eqn:Em.
  - injection E as <- <-. exists [], c, cs. cbn. split_and!; [done | lia | done].
  - apply IH in E as (cs1 & cj & cs2 & -> & -> & Hm). exists (c :: cs1), cj, cs2. cbn. split_and!; [done | lia | done].
Qed.

Lemma equality_holds alias col v cj row k : equality_of alias col v cj -> same_kind k v ->
  dget row col = Some (DVal k) -> dget row (alias +:+ "." +:+ col) = Some (DVal k) ->
  holds_on cj row = Ok (bool_decide (k = v)).
Proof.
  intros (table & Ht & Hcj) Hk Hg Hq.
  assert (resolve_column row col table = Ok (DVal k)) as Hres by (destruct Ht as [-> | ->]; cbn [resolve_column]; [by rewrite Hg | by rewrite Hq]).
  assert (forall a b, same_kind a b -> (d ← (if is_none (DVal a) || is_none (DVal b) then Ok (bool_datum false) else
      x ← comparator "=" (DVal a) (DVal b); Ok (bool_datum x)); Ok (dtruthy d)) = Ok (bool_decide (a = b))) as Hcmp.
  { intros a b Hab. replace (is_none (DVal a) || is_none (DVal b)) with false by (by destruct Hab).
    cbn [comparator String.eqb Ascii.eqb Bool.eqb mbind result_bind deq]. by rewrite py_eq_kind. }
  destruct Hcj as [-> | ->]; unfold holds_on; cbn [evaluate];
    change ("=" =? "AND")%string with false; change ("=" =? "OR")%string with false; cbv iota; rewrite Hres; cbn [mbind result_bind].
  - by apply Hcmp.
  - rewrite Hcmp by by apply same_kind_sym. f_equal. apply bool_decide_ext. done.
Qed.

(** * Plans over a database *)

(** An index has exactly one entry for every tuple of the heap, under the
    tuple's value in the indexed column. *)
Definition index_complete (V : gmap Z (list byte)) (ps : list Z) (sch : Schema) (m : IndexMeta) : Prop :=
  exists i c ls pg, columns sch !! i = Some c /\ col_name c = im_column m /\
    tree_rep (tree_params (im_key_type m) 8 (im_unique m) (im_root_page_id m)) V ls pg /\
    entries ls ≡ₚ (fun x => (raw_key sch i x.2, x.1)) <$> heap_rows V ps.

(** A table whose heap is the chain [ps], with a complete index under every name. *)
Record table_rep (V : gmap Z (list byte)) (meta : TableMeta) (ps : list Z) : Prop := {
  tp_chain : chain V ps;
  tp_nodup : NoDup ps;
  tp_ids : INVALID_PAGE_ID ∉ ps;
  tp_first : head ps = Some (tb_heap_first_page_id meta);
  tp_names : plain_names (tb_schema meta);
  tp_dict : dict_wf (tb_indexes meta);
  tp_indexes : Forall (fun p => index_complete V ps (tb_schema meta) p.2) (tb_indexes meta) }.

(** The literal the planner hands to an index has the type of its column, ... *)
Definition literal_fits (meta : TableMeta) (m : option (nat * (string * value))) : Prop :=
  match m with
  | Some (_, (n, v)) => forall im, dindex (tb_indexes meta) n = Ok im ->
      probe_ok (tree_params (im_key_type im) 8 (im_unique im) (im_root_page_id im)) v
  | None => True
  end.
(** ... or is NULL. *)
Definition literal_usable (meta : TableMeta) (m : option (nat * (string * value))) : Prop :=
  match m with
  | Some (_, (n, v)) => forall im, dindex (tb_indexes meta) n = Ok im ->
      match im_key_type im, v with INT, (VNone | VInt _) | TEXT, (VNone | VStr _) => True | _, _ => False end
  | None => True
  end.

(** The condition a plan tests. It is WHERE, unless the conjunct the planner takes
    to an index is [column = NULL]: that one is not tested at all, because the
    scan has no bounds and the conjunct is gone from the filter. *)
Definition tested_where (meta : TableMeta) (alias : string) (where_ : option Expr) : option Expr :=
  let cs := flatten_and where_ in
  match find_match alias (indexed_columns_of meta) 0 cs with
  | Some (i, (_, VNone)) => rebuild_and (take i cs ++ drop (i + 1) cs)
  | _ => where_
  end.

Lemma fits_usable meta m : literal_fits meta m -> literal_usable meta m.
Proof.
  destruct m as [[j [n v]]|]; [| done]. intros Hf im Him. specialize (Hf im Him). unfold probe_ok in Hf. cbn [tree_params key_type] in Hf.
  by destruct (im_key_type im), v.
Qed.
Lemma fits_tested meta alias where_ : dict_wf (tb_indexes meta) ->
  literal_fits meta (find_match alias (indexed_columns_of meta) 0 (flatten_and where_)) -> tested_where meta alias where_ = where_.
Proof.
  unfold tested_where. intros Hd Hf. destruct (find_match _ _ _ _) as [[j [n v]]|] eqn:Em; [| done]. destruct v; try done.
  apply find_match_inv in Em as (cs1 & cj & cs2 & _ & _ & Hm). apply matching_equality_inv in Hm as (col & Hcol & _).
  apply dget_dict_of_in, list_elem_of_fmap in Hcol as ([n' im] & [= -> ->] & Hin).
  specialize (Hf im). unfold dindex in Hf. rewrite (dget_nodup _ n' im Hd Hin) in Hf. specialize (Hf eq_refl). unfold probe_ok in Hf. by destruct (key_type _).
Qed.

Lemma entries_key_ok t V ls pg e : tree_rep t V ls pg -> e ∈ entries ls -> key_ok t e.1.
Proof.
  intros [_ [h Hs] _ _] He. apply list_elem_of_bind in He as (l & Hz & Hl).
  pose proof (subtree_leaf_pages _ _ _ _ _ _ _ _ Hs) as [Hall _]. rewrite Forall_forall in Hall.
  destruct (Hall l Hl) as (_ & _ & [_ _ Hks _ _ _] & _). rewrite Forall_forall in Hks. apply Hks. destruct e. by eapply elem_of_zip_l.
Qed.
Lemma in_scan_point v e : in_scan (Some v) (Some v) e <-> e.1 = v.
Proof.
  unfold in_scan. cbn [above upto]. split; [| intros ->; split; apply kle_refl].
  intros [H1 H2]. apply kle_cases in H1 as [H1| ->]; [| done]. by apply klt_not_kle in H1.
Qed.
Lemma heap_row_place V ps rid raw : chain V ps -> (rid, raw) ∈ heap_rows V ps ->
  heap_tuple V ps rid = Some raw /\ page_id rid ∈ ps /\ 0 <= slot_id rid.
Proof.
  intros Hc Hin. apply heap_rows_spec in Hin; [| done]. split; [done|]. unfold heap_tuple in Hin.
  case_bool_decide as Hp; [| done]. split; [done|]. destruct (V !! page_id rid) as [d|]; [| done]. cbn [mbind option_bind] in Hin.
  unfold slot_tuple in Hin. destruct (0 <=? slot_id rid) eqn:E; [lia | done].
Qed.
Lemma scan_rows_from mgr snap alias sch raws rows row : scan_rows mgr snap alias sch raws = Ok rows -> row ∈ rows ->
  exists rid raw, (rid, raw) ∈ raws /\ row_from_tuple alias sch rid raw = Ok row.
Proof.
  revert rows. induction raws as [|[rid raw] raws IH]; intros rows E; cbn [scan_rows] in E; [injection E as <-; by intros ?%elem_of_nil|].
  destruct (tuple_visible mgr snap raw) as [v|]; [| done]. cbn [mbind result_bind] in E. destruct v.
  - destruct (row_from_tuple alias sch rid raw) as [r0|] eqn:Er; [| done]. cbn [mbind result_bind] in E.
    destruct (scan_rows mgr snap alias sch raws) as [rows'|]; [| done]. injection E as <-. intros [->|Hin]%elem_of_cons.
    + exists rid, raw. split; [left | done].
    + destruct (IH _ eq_refl Hin) as (r & w & ? & ?). exists r, w. split; [by right | done].
  - intros Hin. destruct (IH _ E Hin) as (r & w & ? & ?). exists r, w. split; [by right | done].
Qed.

Section sources.
Context {S H : Type} {store : PageStore S H} {spec : PageStoreSpec S H}.
Context (V : gmap Z (list byte)) (mgr : TransactionManager) (snap : Snapshot).

(** An index scan reads the heap's tuples whose keys are in its range. *)
Lemma index_reads meta ps alias im i c ls pg start stop heap it : table_rep V meta ps ->
  let sch := tb_schema meta in let t := tree_params (im_key_type im) 8 (im_unique im) (im_root_page_id im) in
  columns sch !! i = Some c -> tree_rep t V ls pg ->
  entries ls ≡ₚ (fun x => (raw_key sch i x.2, x.1)) <$> heap_rows V ps ->
  from_option (probe_ok t) True start -> from_option (probe_ok t) True stop ->
  exists raws, raws ≡ₚ filter (fun x => above start (raw_key sch i x.2) /\ upto stop (raw_key sch i x.2)) (heap_rows V ps) /\
    forall rows, scan_rows mgr snap alias sch raws = Ok rows ->
      plan_rows (H:=H) V mgr snap true (IndexScanOperator t heap sch alias start stop it) rows.
Proof.
  intros [Hc Hnd Hids Hh Hpl Hdict Hix] sch t Hci Hrep Hent Hst Hsp. set (es := filter (in_scan start stop) (entries ls)).
  assert (forall x, x ∈ heap_rows V ps -> heap_tuple V ps x.1 = Some x.2 /\ page_id x.1 ∈ ps /\ 0 <= slot_id x.1) as Hplace
    by (intros [rid raw]; by apply heap_row_place).
  set (P := fun x : RID * list byte => above start (raw_key sch i x.2) /\ upto stop (raw_key sch i x.2)).
  assert (es ≡ₚ (fun x => (raw_key sch i x.2, x.1)) <$> filter P (heap_rows V ps)) as Hes.
  { unfold es. rewrite Hent. apply reflexive_eq. clear. induction (heap_rows V ps) as [|x l IH]; [done|]. cbn [fmap list_fmap].
    rewrite !filter_cons.
    destruct (decide (P x)) as [Hx|Hx]; [rewrite decide_True by exact Hx | rewrite decide_False by exact Hx]; cbn [fmap list_fmap]; by rewrite <- IH. }
  exists (omap (fun e => (fun raw => (e.2, raw)) <$> heap_tuple V ps e.2) es). split.
  - rewrite Hes. apply reflexive_eq.
    assert (forall l : list (RID * list byte), (forall x, x ∈ l -> heap_tuple V ps x.1 = Some x.2) ->
      omap (fun e => (fun raw => (e.2, raw)) <$> heap_tuple V ps e.2) ((fun x => (raw_key sch i x.2, x.1)) <$> l) = l) as Hom.
    { induction l as [|[rid raw] l IH]; intros Hl; [done|]. cbn [fmap list_fmap omap list_omap snd fst]. pose proof (Hl (rid, raw) ltac:(left)) as Hx.
      cbn [fst snd] in Hx. rewrite Hx. cbn. f_equal. apply IH. intros x Hin'. apply Hl. by right. }
    apply Hom. intros x [_ Hx]%list_elem_of_filter. by apply Hplace.
  - intros rows Hrows. eapply pr_index; [exact Hrep | done | done | done | done | done | | exact Hrows].
    rewrite Forall_forall. intros e He. fold es in He. rewrite Hes in He. apply list_elem_of_fmap in He as (x & -> & [_ Hx]%list_elem_of_filter).
    cbn [snd]. by apply Hplace.
Qed.

Lemma matched_index meta ps alias cj n v im : table_rep V meta ps -> matching_equality cj alias (indexed_columns_of meta) = Some (n, v) ->
  dindex (tb_indexes meta) n = Ok im -> equality_of alias (im_column im) v cj /\ index_complete V ps (tb_schema meta) im.
Proof using.
  intros Ht (col & Hcol & Heq)%matching_equality_inv Him. apply dget_dict_of_in, list_elem_of_fmap in Hcol as ([n' im'] & [= -> ->] & Hin).
  unfold dindex in Him. rewrite (dget_nodup _ n' im' (tp_dict _ _ _ Ht) Hin) in Him. injection Him as ->. split; [exact Heq|].
  exact (proj1 (Forall_forall _ _) (tp_indexes _ _ _ Ht) _ Hin).
Qed.

(** The index scan and the remaining filter find the rows the sequential scan
    and the whole filter find. *)
Lemma index_source meta ps alias where_ rows out cs1 cj cs2 n v im heap it : table_rep V meta ps ->
  scan_rows mgr snap alias (tb_schema meta) (heap_rows V ps) = Ok rows -> filter_opt where_ rows = Ok out ->
  flatten_and where_ = cs1 ++ cj :: cs2 -> matching_equality cj alias (indexed_columns_of meta) = Some (n, v) ->
  dindex (tb_indexes meta) n = Ok im ->
  let t := tree_params (im_key_type im) 8 (im_unique im) (im_root_page_id im) in
  probe_ok t v ->
  exists rows' out', plan_rows (H:=H) V mgr snap true (IndexScanOperator t heap (tb_schema meta) alias (Some v) (Some v) it) rows' /\
    filter_opt (rebuild_and (cs1 ++ cs2)) rows' = Ok out' /\ out' ≡ₚ out.
Proof.
  intros Ht Hscan Hout Hflat Hm Him t Hv. destruct (matched_index _ _ _ _ _ _ _ Ht Hm Him) as (Heq & i & c & ls & pg & Hci & Hname & Hrep & Hent).
  destruct (index_reads meta ps alias im i c ls pg (Some v) (Some v) heap it Ht Hci Hrep Hent Hv Hv) as (raws' & Hraws & Hplan). pose proof (tp_names _ _ _ Ht) as Hpl.
  rewrite (filter_ext _ (fun x => raw_key (tb_schema meta) i x.2 = v)) in Hraws
    by (apply Forall_true; intros x; apply (in_scan_point v (raw_key (tb_schema meta) i x.2, x.1))).
  assert (Forall (fun row => holds_on cj row = Ok (bool_decide (row_key c row = v))) rows) as Hcj.
  { apply Forall_forall. intros row Hrow. destruct (scan_rows_from _ _ _ _ _ _ _ Hscan Hrow) as (rid & raw & Hr & Er).
    destruct (row_key_ok alias (tb_schema meta) i c Hpl Hci rid raw row Er) as (Ek & E1 & E2). rewrite Hname in E1, E2.
    eapply equality_holds; [exact Heq | | exact E1 | exact E2]. apply same_kind_sym, (probe_kind t); [done|]. rewrite Ek.
    apply (entries_key_ok t V ls pg (raw_key (tb_schema meta) i raw, rid)); [done|]. rewrite Hent.
    apply list_elem_of_fmap. by exists (rid, raw). }
  destruct (pushdown_rows mgr snap alias (tb_schema meta) i c Hpl Hci v where_ cs1 cj cs2 (heap_rows V ps) raws' rows out
    Hscan Hout Hflat Hcj Hraws) as (rows' & out' & Hrows' & Hout' & Hp).
  exists rows', out'. split_and!; [by apply Hplan | done | done].
Qed.

(** Without bounds it finds every row. *)
Lemma unbounded_source meta ps alias e rows out cj n im heap it : table_rep V meta ps ->
  scan_rows mgr snap alias (tb_schema meta) (heap_rows V ps) = Ok rows -> filter_opt e rows = Ok out ->
  matching_equality cj alias (indexed_columns_of meta) = Some (n, VNone) -> dindex (tb_indexes meta) n = Ok im ->
  let t := tree_params (im_key_type im) 8 (im_unique im) (im_root_page_id im) in
  exists rows' out', plan_rows (H:=H) V mgr snap true (IndexScanOperator t heap (tb_schema meta) alias None None it) rows' /\
    filter_opt e rows' = Ok out' /\ out' ≡ₚ out.
Proof.
  intros Ht Hscan Hout Hm Him t. destruct (matched_index _ _ _ _ _ _ _ Ht Hm Him) as (_ & i & c & ls & pg & Hci & _ & Hrep & Hent).
  destruct (index_reads meta ps alias im i c ls pg None None heap it Ht Hci Hrep Hent I I) as (raws' & Hraws & Hplan).
  rewrite filter_all in Hraws by (by apply Forall_true). destruct (scan_rows_perm mgr snap alias _ _ raws' _ (symmetry Hraws) Hscan) as (rows' & Hrows' & Hp).
  destruct (filter_opt_perm e rows rows' out Hp Hout) as (out' & Hout' & Hp'). exists rows', out'. split_and!; [by apply Hplan | done | done].
Qed.

(** ** Building *)

Lemma find_match_index meta alias cs j n v : dict_wf (tb_indexes meta) ->
  find_match alias (indexed_columns_of meta) 0 cs = Some (j, (n, v)) ->
  exists cs1 cj cs2 im, cs = cs1 ++ cj :: cs2 /\ j = length cs1 /\ matching_equality cj alias (indexed_columns_of meta) = Some (n, v) /\
    dindex (tb_indexes meta) n = Ok im.
Proof using.
  intros Hd E. apply find_match_inv in E as (cs1 & cj & cs2 & -> & -> & Hm). pose proof Hm as Hm'.
  apply matching_equality_inv in Hm' as (col & Hcol & _). apply dget_dict_of_in, list_elem_of_fmap in Hcol as ([n' im] & [= -> ->] & Hin).
  exists cs1, cj, cs2, im. split_and!; try done. unfold dindex. by rewrite (dget_nodup _ n' im Hd Hin).
Qed.
Lemma cut_conjunct {A} (cs1 cs2 : list A) c : take (length cs1) (cs1 ++ c :: cs2) ++ drop (length cs1 + 1) (cs1 ++ c :: cs2) = cs1 ++ cs2.
Proof using. rewrite take_app_length. f_equal. by rewrite <- drop_drop, drop_app_length. Qed.

Lemma filter_plan (o : Operator H) c e rows out : plan_rows V mgr snap c o rows -> filter_opt e rows = Ok out ->
  plan_rows V mgr snap c (match e with Some e => FilterOperator o e | None => o end) out.
Proof using. intros Ho He. destruct e as [e|]; [by eapply pr_filter | by injection He as <-]. Qed.
Lemma filter_source (o : Operator H) e : is_source o -> is_source (match e with Some e => FilterOperator o e | None => o end).
Proof using. by destruct e. Qed.

Lemma matched_source meta ps alias where_ rows out cs1 cj cs2 n v im heap it : table_rep V meta ps ->
  scan_rows mgr snap alias (tb_schema meta) (heap_rows V ps) = Ok rows -> filter_opt (tested_where meta alias where_) rows = Ok out ->
  find_match alias (indexed_columns_of meta) 0 (flatten_and where_) = Some (length cs1, (n, v)) -> flatten_and where_ = cs1 ++ cj :: cs2 ->
  matching_equality cj alias (indexed_columns_of meta) = Some (n, v) -> dindex (tb_indexes meta) n = Ok im ->
  match im_key_type im, v with INT, (VNone | VInt _) | TEXT, (VNone | VStr _) => True | _, _ => False end ->
  let bound := match v with VNone => None | _ => Some v end in
  exists rows' out', plan_rows (H:=H) V mgr snap true
      (IndexScanOperator (tree_params (im_key_type im) 8 (im_unique im) (im_root_page_id im)) heap (tb_schema meta) alias bound bound it) rows' /\
    filter_opt (rebuild_and (cs1 ++ cs2)) rows' = Ok out' /\ out' ≡ₚ out.
Proof.
  intros Ht Hscan Hout Em Hflat Hm Him Hv bound. unfold tested_where in Hout. rewrite Em in Hout. rewrite Hflat in Hout.
  assert (v = VNone \/ bound = Some v /\ filter_opt where_ rows = Ok out /\ probe_ok (tree_params (im_key_type im) 8 (im_unique im) (im_root_page_id im)) v) as [->|(-> & Hout' & Hp)].
  { unfold probe_ok. cbn [tree_params key_type]. destruct v; [by left | right ..]; by destruct (im_key_type im). }
  - rewrite cut_conjunct in Hout. by eapply unbounded_source.
  - by eapply index_source.
Qed.

Lemma build_source_runs catalog cap tn alias where_ meta ps rows out s :
  calm V cap [] s -> 2 <= cap -> get_table catalog tn = Ok meta -> table_rep V meta ps ->
  scan_rows mgr snap alias (tb_schema meta) (heap_rows V ps) = Ok rows -> filter_opt (tested_where meta alias where_) rows = Ok out ->
  let m := find_match alias (indexed_columns_of meta) 0 (flatten_and where_) in literal_usable meta m ->
  exists out', out' ≡ₚ out /\ (m = None -> out' = out) /\
  runs (build_row_source_plan catalog tn alias where_) s (fun o s' => calm V cap [] s' /\ is_source o /\ plan_rows V mgr snap true o out').
Proof using spec.
  intros Hs Hcap Hget Ht Hscan Hout m Hfit. pose proof Ht as [Hc Hnd Hids Hh Hpl Hdict Hix].
  assert (heap_table V mgr snap ps alias (tb_schema meta) rows) as Htab by done.
  assert (forall Q, (forall hf s', first_page_id hf = tb_heap_first_page_id meta -> calm V cap [] s' -> Q hf s') ->
    runs (heap_init (Some (tb_heap_first_page_id meta))) s Q) as Hheap.
  { intros Q HQ. eapply runs_mono; [apply (heap_init_calm V cap (tb_heap_first_page_id meta) ps []); try done; rewrite blen_nil; lia|]. intros hf s' []. auto. }
  unfold build_row_source_plan, build_base_scan. unfold m in *. clear m.
  destruct (find_match alias (indexed_columns_of meta) 0 (flatten_and where_)) as [[j [n v]]|] eqn:Em.
  - destruct (find_match_index meta alias _ j n v Hdict Em) as (cs1 & cj & cs2 & im & Hflat & -> & Hm & Him).
    specialize (Hfit im Him). set (t := tree_params (im_key_type im) 8 (im_unique im) (im_root_page_id im)).
    set (bound := match v with VNone => None | _ => Some v end).
    destruct (matched_source meta ps alias where_ rows out cs1 cj cs2 n v im (mkHeap 0 0) None Ht Hscan Hout Em Hflat Hm Him Hfit)
      as (rows' & out' & Hplan & Hout' & Hp). fold t bound in Hplan.
    exists out'. split_and!; [done | done |]. rstep. rstep. eapply runs_lift_result; [done|]. rstep. apply Hheap. intros hf s1 Hf Hs1. cbv beta. rewrite Em.
    rstep. eapply runs_lift_result; [done|]. cbv beta. rstep.
    assert (bt_init (im_key_type im) 8 (Some (im_root_page_id im)) (im_unique im) s1 = (Ok t, s1)) as Ebt.
    { unfold bt_init. by destruct (im_key_type im). }
    eapply runs_eq; [exact Ebt|]. cbv beta. rstep. cbn [fst snd]. rewrite Hflat, cut_conjunct.
    fold bound. assert (plan_rows (H:=H) V mgr snap true (IndexScanOperator t hf (tb_schema meta) alias bound bound None) rows') as Hplan'.
    { inversion Hplan; subst. by eapply pr_index. }
    destruct (rebuild_and (cs1 ++ cs2)) as [e|] eqn:Ee; apply runs_ret; (split_and!; [done | done |]).
    + by apply (filter_plan _ true (Some e) rows').
    + by apply (filter_plan _ true None rows').
  - unfold tested_where in Hout. rewrite Em in Hout. exists out. split_and!; [done | done |]. rstep. rstep. eapply runs_lift_result; [done|]. rstep. apply Hheap. intros hf s1 Hf Hs1. cbv beta. rewrite Em.
    rstep. cbn [fst snd].
    assert (plan_rows (H:=H) V mgr snap true (SeqScanOperator hf (tb_schema meta) alias None) rows) as Hplan.
    { eapply pr_seq; [exact Htab|]. by rewrite Hf. }
    destruct where_ as [e|]; apply runs_ret; (split_and!; [done | done |]).
    + by apply (filter_plan _ true (Some e) rows).
    + by apply (filter_plan _ true None rows).
Qed.

(** * SELECT *)

(** The rows behind WHERE, joined, aggregated, sorted, cut and projected. *)
Definition limit_rows (limit : option Z) (rows : list Row) : list Row :=
  match limit with Some n => take (Z.to_nat n) rows | None => rows end.
Definition select_rest (stmt : Select) (joined : list Row) : result (list Row) :=
  if has_aggregates (sel_items stmt) || negb (bool_decide (sel_group_by stmt = [])) then
    gs ← group_all (sel_group_by stmt) (sel_items stmt) joined [];
    out ← group_results (sel_group_by stmt) (sel_items stmt) gs;
    sorted ← sort_all (reverse (sel_order_by stmt)) out;
    Ok (limit_rows (sel_limit stmt) sorted)
  else
    sorted ← sort_all (reverse (sel_order_by stmt)) joined;
    result_map (project (sel_items stmt)) (limit_rows (sel_limit stmt) sorted).
Definition join_opt (join : option JoinClause) (lrows rrows : list Row) : result (list Row) :=
  match join with Some j => join_rows (jc_on j) lrows rrows | None => Ok lrows end.
Definition select_tail (stmt : Select) (src rrows : list Row) : result (list Row) :=
  joined ← join_opt (sel_join stmt) src rrows; select_rest stmt joined.

Lemma sort_plan_rows c (o : Operator H) order rows out : plan_rows V mgr snap c o rows -> sort_all (reverse order) rows = Ok out ->
  plan_rows V mgr snap c (sort_plan order o) out.
Proof using. intros Ho E. destruct order as [|item order]; [by injection E as <- | by eapply pr_sort]. Qed.
Lemma limit_plan_rows (o : Operator H) limit rows : plan_rows V mgr snap true o rows ->
  plan_rows V mgr snap (bool_decide (limit = None)) (limit_plan limit o) (limit_rows limit rows).
Proof using. intros Ho. destruct limit as [n|]; [by eapply pr_limit | done]. Qed.

(** What the right side of a JOIN reads. *)
Definition right_rep (catalog : Catalog) (stmt : Select) (rrows : list Row) : Prop :=
  match sel_join stmt with
  | Some j => exists meta ps, get_table catalog (jc_table j) = Ok meta /\ head ps = Some (tb_heap_first_page_id meta) /\
      heap_table V mgr snap ps (or_name (jc_alias j) (jc_table j)) (tb_schema meta) rrows
  | None => True
  end.

Lemma build_select_runs catalog cap stmt src rrows out s :
  (runs (build_row_source_plan catalog (sel_table stmt) (or_name (sel_table_alias stmt) (sel_table stmt)) (sel_where stmt)) s
    (fun o s' => calm V cap [] s' /\ is_source o /\ plan_rows V mgr snap true o src)) ->
  right_rep catalog stmt rrows -> select_tail stmt src rrows = Ok out ->
  runs (build_select_plan catalog stmt) s (fun o s' => calm V cap [] s' /\
    plan_rows (H:=H) V mgr snap (bool_decide (sel_limit stmt = None)) o out).
Proof using spec.
  intros Hsrc Hright Hout. unfold build_select_plan. rstep. eapply runs_mono; [exact Hsrc|]. intros o s1 (Hs1 & Ho & Hp). cbv beta.
  unfold select_tail, join_opt, select_rest in Hout. destruct (match sel_join stmt with Some j => join_rows (jc_on j) src rrows | None => Ok src end) as [joined|] eqn:Ej; [| done].
  cbn [mbind result_bind] in Hout. set (o1 := match sel_join stmt with Some j => _ | None => o end).
  assert (plan_rows V mgr snap true o1 joined) as Hp1.
  { unfold o1. unfold right_rep in Hright. destruct (sel_join stmt) as [j|]; [| by injection Ej as <-].
    destruct Hright as (meta & ps & Hg & Hh & Ht). eapply pr_join; [done | exact Hp | cbn [rt_table]; by rewrite Hg | done | exact Ht | done]. }
  destruct (has_aggregates (sel_items stmt) || negb (bool_decide (sel_group_by stmt = []))); rstep; (split; [done|]).
  - destruct (group_all (sel_group_by stmt) (sel_items stmt) joined []) as [gs|] eqn:Eg; [| done]. cbn [mbind result_bind] in Hout.
    destruct (group_results (sel_group_by stmt) (sel_items stmt) gs) as [out1|] eqn:Er; [| done]. cbn [mbind result_bind] in Hout.
    destruct (sort_all (reverse (sel_order_by stmt)) out1) as [sorted|] eqn:Es; [| done]. injection Hout as <-.
    apply limit_plan_rows. eapply sort_plan_rows; [by eapply pr_aggregate | done].
  - destruct (sort_all (reverse (sel_order_by stmt)) joined) as [sorted|] eqn:Es; [| done]. cbn [mbind result_bind] in Hout.
    eapply pr_project; [apply limit_plan_rows; by eapply sort_plan_rows | done].
Qed.
End sources.

Lemma row_source_runs {S H : Type} {store : PageStore S H} {spec : PageStoreSpec S H} mgr snap catalog tn alias where_ meta ps rows out (s : S) :
  ps_inv s -> ps_pins s = ∅ -> 2 <= ps_cap s ->
  get_table catalog tn = Ok meta -> table_rep (ps_view s) meta ps ->
  scan_rows mgr snap alias (tb_schema meta) (heap_rows (ps_view s) ps) = Ok rows -> filter_opt (tested_where meta alias where_) rows = Ok out ->
  let m := find_match alias (indexed_columns_of meta) 0 (flatten_and where_) in literal_usable meta m ->
  exists out', out' ≡ₚ out /\ (m = None -> out' = out) /\
  exists n, forall fuel, (n <= fuel)%nat -> runs (o ← build_row_source_plan catalog tn alias where_; run_plan mgr snap fuel o) s
    (fun r s' => r = out' /\ ps_inv s' /\ ps_view s' = ps_view s /\ ps_cap s' = ps_cap s /\ ps_pins s' = ∅).
Proof.
  intros Hinv Hpins Hcap Hget Ht Hscan Hout m Hfit.
  assert (calm (ps_view s) (ps_cap s) [] s) as Hs by by apply calm_nil.
  destruct (build_source_runs (ps_view s) mgr snap catalog (ps_cap s) tn alias where_ meta ps rows out s Hs Hcap Hget Ht Hscan Hout Hfit)
    as (out' & Hp & Hm & o & s1 & Eb & Hs1 & _ & Hplan).
  exists out'. split_and!; [done | done |].
  destruct (run_plan_runs (ps_view s) (ps_cap s) mgr snap true o out' Hplan Hcap) as [n Hn]. exists n. intros fuel Hf.
  destruct (Hn fuel s1 Hf Hs1) as (r & s2 & E & -> & I2 & V2 & C2 & P2). exists out', s2. rewrite (bind_ok _ _ _ _ _ Eb). auto 8.
Qed.


Lemma select_runs {S H : Type} {store : PageStore S H} {spec : PageStoreSpec S H} mgr snap catalog stmt meta ps rows filtered rrows (s : S) :
  let alias := or_name (sel_table_alias stmt) (sel_table stmt) in
  ps_inv s -> ps_pins s = ∅ -> 2 <= ps_cap s ->
  get_table catalog (sel_table stmt) = Ok meta -> table_rep (ps_view s) meta ps ->
  scan_rows mgr snap alias (tb_schema meta) (heap_rows (ps_view s) ps) = Ok rows -> filter_opt (tested_where meta alias (sel_where stmt)) rows = Ok filtered ->
  let m := find_match alias (indexed_columns_of meta) 0 (flatten_and (sel_where stmt)) in literal_usable meta m ->
  right_rep (ps_view s) mgr snap catalog stmt rrows ->
  exists src, src ≡ₚ filtered /\ (m = None -> src = filtered) /\
  forall out, select_tail stmt src rrows = Ok out ->
  exists n, forall fuel, (n <= fuel)%nat -> runs (o ← build_select_plan catalog stmt; run_plan mgr snap fuel o) s
    (fun r s' => r = out /\ ps_inv s' /\ ps_view s' = ps_view s /\ ps_cap s' = ps_cap s /\ (sel_limit stmt = None -> ps_pins s' = ∅)).
Proof.
  intros alias Hinv Hpins Hcap Hget Ht Hscan Hout m Hfit Hright.
  assert (calm (ps_view s) (ps_cap s) [] s) as Hs by by apply calm_nil.
  destruct (build_source_runs (ps_view s) mgr snap catalog (ps_cap s) (sel_table stmt) alias (sel_where stmt) meta ps rows filtered s
    Hs Hcap Hget Ht Hscan Hout Hfit) as (src & Hp & Hm & Hsrc).
  exists src. split_and!; [done | done |]. intros out Htail.
  destruct (build_select_runs (ps_view s) mgr snap catalog (ps_cap s) stmt src rrows out s Hsrc Hright Htail) as (o & s1 & Eb & Hs1 & Hplan).
  destruct (run_plan_runs (ps_view s) (ps_cap s) mgr snap _ o out Hplan Hcap) as [n Hn]. exists n. intros fuel Hf.
  destruct (Hn fuel s1 Hf Hs1) as (r & s2 & E & -> & I2 & V2 & C2 & P2). exists out, s2. rewrite (bind_ok _ _ _ _ _ Eb). split_and!; try done.
  intros Hl. apply P2. by apply bool_decide_eq_true.
Qed.


(** ** The order the documentation gives *)

(** FROM and JOIN first, then WHERE. *)
Definition select_documented (stmt : Select) (rows rrows : list Row) : result (list Row) :=
  joined ← join_opt (sel_join stmt) rows rrows; filtered ← filter_opt (sel_where stmt) joined; select_rest stmt filtered.

(** Every column of the condition is written with the alias. *)
Fixpoint names_only (alias : string) (e : Expr) : Prop :=
  match e with
  | ColumnRef _ table => table = Some alias
  | UnaryOp _ e1 => names_only alias e1
  | BinaryOp _ l r => names_only alias l /\ names_only alias r
  | _ => True
  end.
(** No cell of the row goes by a name under the alias. *)
Definition foreign (alias : string) (row : Row) : Prop := forall n, (alias +:+ "." +:+ n)%string ∉ row.*1.

Lemma evaluate_left alias e l r : names_only alias e -> foreign alias r -> evaluate e (dupdate l r) = evaluate e l.
Proof.
  intros He Hr. induction e as [|n table| |o e IH|o e1 IH1 e2 IH2|]; cbn [evaluate names_only] in *; try done.
  - subst table. cbn [resolve_column]. by rewrite dget_dupdate_out by apply Hr.
  - by rewrite IH.
  - destruct He. by rewrite IH1, IH2.
Qed.
Lemma holds_left alias w l r : from_option (names_only alias) True w -> foreign alias r -> holds_opt w (dupdate l r) = holds_opt w l.
Proof. destruct w as [w|]; [| done]. cbn. intros Hw Hr. unfold holds_on. by rewrite (evaluate_left alias). Qed.

Lemma join_filter w on rows rrows joined out fl : (forall l r, r ∈ rrows -> holds_opt w (dupdate l r) = holds_opt w l) ->
  filter_opt w rows = Ok fl -> join_rows on rows rrows = Ok joined -> filter_opt w joined = Ok out -> join_rows on fl rrows = Ok out.
Proof.
  intros Hw [Hall ->]%filter_opt_spec. revert joined out. induction rows as [|l rows IH]; intros joined out Hj Ho; cbn [join_rows] in Hj.
  - injection Hj as <-. apply filter_opt_spec in Ho as [_ ->]. done.
  - destruct (filter_rows on (dupdate l <$> rrows)) as [a|] eqn:Ea; [| done]. cbn [mbind result_bind] in Hj.
    destruct (join_rows on rows rrows) as [b|]; [| done]. injection Hj as <-. apply Forall_cons in Hall as [[v Hv] Hall].
    apply filter_opt_spec in Ho as [[Hoa Hob]%Forall_app ->]. specialize (IH Hall b _ eq_refl (proj2 (filter_opt_spec _ _ _) (conj Hob eq_refl))).
    assert (Forall (fun x => holds_opt w x = Ok v) a) as Ha.
    { apply filter_rows_spec in Ea as [_ ->]. apply Forall_forall. intros x [_ (r & -> & Hr)%list_elem_of_fmap]%list_elem_of_filter. by rewrite Hw. }
    rewrite filter_cons, filter_app. destruct v.
    + rewrite decide_True by done. cbn [join_rows]. rewrite Ea. cbn [mbind result_bind]. rewrite IH. cbn [mbind result_bind]. by rewrite (filter_all _ a).
    + rewrite decide_False by congruence. rewrite (filter_none _ a); [done|]. eapply Forall_impl; [exact Ha|]. cbn. congruence.
Qed.

(** Where WHERE names only columns of the left table, by its alias, filtering
    before the join is what filtering behind it would be. *)
Theorem documented_order stmt rows filtered rrows out : let alias := or_name (sel_table_alias stmt) (sel_table stmt) in
  from_option (names_only alias) True (sel_where stmt) -> Forall (foreign alias) rrows ->
  filter_opt (sel_where stmt) rows = Ok filtered -> select_documented stmt rows rrows = Ok out -> select_tail stmt filtered rrows = Ok out.
Proof.
  intros alias Hw Hr Hf Hd. unfold select_documented in Hd. unfold select_tail. destruct (sel_join stmt) as [j|]; cbn [join_opt] in *.
  - destruct (join_rows (jc_on j) rows rrows) as [joined|] eqn:Ej; [| done]. cbn [mbind result_bind] in Hd.
    destruct (filter_opt (sel_where stmt) joined) as [fl|] eqn:Ef; [| done]. cbn [mbind result_bind] in Hd.
    rewrite (join_filter (sel_where stmt) (jc_on j) rows rrows joined fl filtered); try done.
    intros l r Hin. apply (holds_left alias); [done|]. by eapply (proj1 (Forall_forall _ _) Hr).
  - cbn [mbind result_bind] in *. rewrite Hf in Hd. exact Hd.
Qed.

Lemma dot_split a b x y : has_dot a = false -> has_dot b = false -> (a +:+ "." +:+ x = b +:+ "." +:+ y)%string -> a = b.
Proof.
  unfold has_dot. rewrite !bool_decide_eq_false. revert b. induction a as [|c a IH]; intros [|d b] Ha Hb E; cbn in *; try done.
  - injection E as <- _. destruct Hb. left.
  - injection E as -> _. destruct Ha. left.
  - injection E as -> E. f_equal. apply IH; [intros Hin; apply Ha; by right | intros Hin; apply Hb; by right | exact E].
Qed.
(** The rows of a table under another alias are such rows. *)
Lemma scan_foreign mgr snap alias ralias sch raws rows : has_dot alias = false -> has_dot ralias = false -> alias <> ralias -> plain_names sch ->
  scan_rows mgr snap ralias sch raws = Ok rows -> Forall (foreign alias) rows.
Proof.
  intros Ha Hb Hne [_ Hpl] Hs. apply Forall_forall. intros row Hrow n Hin. destruct (scan_rows_from _ _ _ _ _ _ _ Hs Hrow) as (rid & raw & _ & E).
  unfold row_from_tuple in E. destruct (decode_row (tuple_payload raw) sch) as [vs|]; [| done]. cbn [mbind result_bind] in E. injection E as <-.
  set (k := (alias +:+ "." +:+ n)%string) in *. pose proof (has_dot_qualified alias n : has_dot k = true) as Hk.
  apply dget_elem in Hin as [d Hd]. rewrite dget_dset_ne in Hd by (intros E; rewrite <- E in Hk; done).
  rewrite dget_dupdate_out in Hd.
  2: { rewrite <- list_fmap_compose. intros ([c v] & E & Hc)%list_elem_of_fmap. cbn in E. rewrite Forall_forall in Hpl.
       destruct (Hpl (col_name c)) as [Hdot _]; [| rewrite <- E in Hdot; congruence]. apply (list_elem_of_fmap_2 col_name). by eapply elem_of_zip_l. }
  apply dget_dict_of_in in Hd. apply list_elem_of_fmap in Hd as ([c v] & E & _). injection E as E _. apply Hne. by eapply dot_split.
Qed.

(** * A concrete database: [t] with an index on [id], and [u] *)

Definition shop_index : IndexMeta := mkIndexMeta "t_id" "id" 2 true INT.
Definition shop_table : TableMeta := mkTableMeta "t" demo_schema 0 [("t_id"%string, shop_index)].
Definition shop_catalog : Catalog :=
  mkCatalog [("t", shop_table); ("u", mkTableMeta "u" demo_schema 1 [])]%string None.
Definition shop_tree : BPlusTree := tree_params INT 8 true 2.
Definition shop_leaf : leaf := mkLeaf 2 [VInt 1; VInt 2] [mkRID 0 0; mkRID 0 1] INVALID_PAGE_ID.
Definition shop_pages : list (list byte) :=
  demo_pages ++ [snd (write_leaf shop_tree (lf_keys shop_leaf) (lf_rids shop_leaf) (lf_next shop_leaf) (zeros PAGE_SIZE))].
Definition shop_pool : BufferPoolManager := bp_init (dm_init (Some (concat shop_pages))) 4.

Lemma shop_leaf_page : leaf_page shop_tree (snd (write_leaf shop_tree (lf_keys shop_leaf) (lf_rids shop_leaf) (lf_next shop_leaf) (zeros PAGE_SIZE)))
  (lf_keys shop_leaf) (lf_rids shop_leaf) (lf_next shop_leaf).
Proof.
  destruct (write_leaf_ok shop_tree (zeros PAGE_SIZE) (lf_keys shop_leaf) (lf_rids shop_leaf) (lf_next shop_leaf)) as (d & -> & Hd);
    first [apply tree_params_wf; by left | done | repeat constructor; done].
Qed.
Lemma shop_pages_size : Forall (fun d => blen d = PAGE_SIZE) shop_pages.
Proof. apply Forall_app. split; [apply demo_pages_size|]. apply Forall_singleton, shop_leaf_page. Qed.
Lemma shop_view (i : nat) : ps_view shop_pool !! Z.of_nat i = shop_pages !! i.
Proof. apply bp_init_view, shop_pages_size. Qed.
Lemma shop_facts : ps_inv shop_pool /\ ps_pins shop_pool = ∅ /\ ps_cap shop_pool = 4.
Proof.
  destruct (bp_init_facts (dm_init (Some (concat shop_pages))) 4 ltac:(lia)) as [Hp Hc].
  split_and!; [apply bp_init_inv, dm_init_wf | exact Hp | exact Hc].
Qed.
Lemma shop_chain (p : nat) b : shop_pages !! p = Some (two_rows demo_a b) -> blen demo_a = 21 -> blen b = 21 ->
  chain (ps_view shop_pool) [Z.of_nat p] /\ INVALID_PAGE_ID ∉ [Z.of_nat p] /\
  heap_rows (ps_view shop_pool) [Z.of_nat p] = [(mkRID (Z.of_nat p) 0, demo_a); (mkRID (Z.of_nat p) 1, b)].
Proof.
  intros Hd Ha Hb. pose proof (lookup_lt_Some _ _ _ Hd) as Hp. rewrite <- shop_view in Hd. split_and!.
  - econstructor; [exact Hd | by apply two_rows_wf].
  - intros Hin%list_elem_of_singleton. cbn in Hp. unfold INVALID_PAGE_ID in Hin. lia.
  - by apply two_rows_rows.
Qed.

Lemma shop_tree_rep : tree_rep shop_tree (ps_view shop_pool) [shop_leaf] [2].
Proof.
  constructor; [apply tree_params_wf; by left | | apply NoDup_singleton | done]. exists 0%nat. exists shop_leaf. split_and!; [done | done |].
  constructor; try done.
  - eexists. split; [apply (shop_view 2) | apply shop_leaf_page].
  - constructor; first [done | repeat constructor; done].
  - repeat constructor.
  - repeat constructor.
Qed.

Lemma shop_rep : table_rep (ps_view shop_pool) shop_table [0].
Proof.
  destruct (shop_chain 0 demo_b eq_refl ltac:(vm_compute; reflexivity) ltac:(vm_compute; reflexivity)) as (Hc & Hi & Hr).
  apply Build_table_rep.
  - exact Hc.
  - apply NoDup_singleton.
  - exact Hi.
  - reflexivity.
  - split; [by apply (bool_decide_unpack _) | repeat constructor; done].
  - apply NoDup_singleton.
  - apply Forall_singleton. exists 0%nat, (mkColumn "id" INT), [shop_leaf], [2]. split_and!; [reflexivity | reflexivity | exact shop_tree_rep |].
    change [0] with [Z.of_nat 0]. rewrite Hr. apply reflexive_eq. vm_compute. reflexivity.
Qed.

Definition shop_rows (alias : string) : list Row := [demo_row alias (mkRID 0 0) 1 "ann"; demo_row alias (mkRID 0 1) 2 "bob"].
Lemma shop_scan alias (E : scan_rows demo_mgr demo_snap alias demo_schema [(mkRID 0 0, demo_a); (mkRID 0 1, demo_b)] = Ok (shop_rows alias)) :
  scan_rows demo_mgr demo_snap alias (tb_schema shop_table) (heap_rows (ps_view shop_pool) [0]) = Ok (shop_rows alias).
Proof.
  destruct (shop_chain 0 demo_b eq_refl ltac:(vm_compute; reflexivity) ltac:(vm_compute; reflexivity)) as (_ & _ & Hr).
  change [0] with [Z.of_nat 0]. rewrite Hr. exact E.
Qed.

(** [... WHERE name = 'bob' AND 2 = t.id] *)
Definition shop_where : Expr :=
  BinaryOp "AND" (BinaryOp "=" (ColumnRef "name" None) (Literal (VStr "bob")))
    (BinaryOp "=" (Literal (VInt 2)) (ColumnRef "id" (Some "t"%string))).
Lemma shop_fits where_ m : find_match "t" (indexed_columns_of shop_table) 0 (flatten_and where_) = m ->
  match m with Some (_, (n, v)) => n = "t_id"%string /\ probe_ok shop_tree v | None => True end -> literal_fits shop_table m.
Proof.
  intros _ Hm. destruct m as [[j [n v]]|]; [| done]. destruct Hm as [-> Hv]. intros im E. vm_compute in E. injection E as <-. exact Hv.
Qed.


(** [SELECT t.name AS x, COUNT( * ) FROM t JOIN u ON t.id >= u.id WHERE ... GROUP BY name] *)
Definition shop_select : Select :=
  mkSelect [mkSelectItem (ColumnRef "name" (Some "t"%string)) None; mkSelectItem (FunctionCall "COUNT" Star) (Some "n"%string)]
    "t" None (Some (mkJoinClause "u" (BinaryOp ">=" (ColumnRef "id" (Some "t"%string)) (ColumnRef "id" (Some "u"%string))) None))
    (Some shop_where) ["name"%string] [mkOrderByItem (ColumnRef "name" None) true] (Some 5).


(** * Where the planner goes wrong *)

Definition plain_catalog : Catalog := mkCatalog [("t", mkTableMeta "t" demo_schema 0 []); ("u", mkTableMeta "u" demo_schema 1 [])]%string None.
Definition shop_query (c : Catalog) (e : Expr) : result (list Row) :=
  fst ((o ← build_row_source_plan c "t" "t" (Some e); run_plan demo_mgr demo_snap 30 o) shop_pool).

(** An index changes the meaning of a condition its literal does not fit:
    [id = NULL], which holds on no row, becomes an unbounded index scan that
    returns every row, and [id = 'x'] raises instead of finding nothing. *)
Theorem pushdown_changes_meaning :
  let is_null := BinaryOp "=" (ColumnRef "id" None) (Literal VNone) in
  let is_text := BinaryOp "=" (ColumnRef "id" None) (Literal (VStr "x")) in
  shop_query plain_catalog is_null = Ok [] /\ shop_query shop_catalog is_null = Ok (shop_rows "t") /\
  shop_query plain_catalog is_text = Ok [] /\ shop_query shop_catalog is_text = Raise TypeError.
Proof. vm_compute. split_and!; reflexivity. Qed.

(** WHERE is applied to the left table's rows before the join, so a
    condition on a column of the joined table raises. *)
Theorem where_before_join :
  let q w := fst ((o ← build_select_plan plain_catalog (mkSelect [mkSelectItem Star None] "t" None
      (Some (mkJoinClause "u" (BinaryOp ">=" (ColumnRef "id" (Some "t"%string)) (ColumnRef "id" (Some "u"%string))) None)) w [] [] None);
    run_plan demo_mgr demo_snap 30 o) shop_pool) in
  q None = Ok [[("id", DVal (VInt 1)); ("name", DVal (VStr "ann"))]; [("id", DVal (VInt 1)); ("name", DVal (VStr "ann"))]]%string /\
  q (Some (BinaryOp "=" (ColumnRef "name" (Some "u"%string)) (Literal (VStr "ann")))) = Raise ColumnNotFoundError.
Proof. vm_compute. split; reflexivity. Qed.
