(* ===== verification/TableRep.v ===== *)
(** What a table is on pages: a heap, and under every index name a B+-tree with
    one entry per tuple, all on different pages. Adding a tuple to the heap or
    an entry to an index keeps the rest. *)
From stdpp Require Import base numbers list gmap strings.
From Stdlib Require Import ZArith Lia Strings.Byte.
From S2P Require Import Prelude PyNum Types PyVal Disk PageStore HeapPage HeapFile HeapFileProps BTree BTreeNode BTreeRep BTreeSearch BTreeInsert.
From S2P Require Import PyDict Executor ExecutorProps Catalog Planner PlannerProps.

Local Open Scope Z_scope.

(** * Representation *)

(** The tree object the statements open for an index. *)
Definition index_tree (im : IndexMeta) : BPlusTree := tree_params (im_key_type im) 8 false (im_root_page_id im).

(** Where a column stands in the schema, and what an index stores for a tuple. *)
Definition col_pos (sch : Schema) (n : string) : nat := default O (fst <$> list_find (eq n) (names sch)).
Definition index_key (sch : Schema) (im : IndexMeta) (raw : list byte) : value := raw_key sch (col_pos sch (im_column im)) raw.
Definition keyed (sch : Schema) (im : IndexMeta) (rows : list (RID * list byte)) : list (value * RID) :=
  (fun x => (index_key sch im x.2, x.1)) <$> rows.

Lemma col_pos_spec sch n : n ∈ names sch -> exists c, columns sch !! col_pos sch n = Some c /\ col_name c = n.
Proof.
  intros Hn. unfold col_pos. destruct (list_find_elem_of (eq n) (names sch) n Hn eq_refl) as [[i x] E]. rewrite E. cbn.
  apply list_find_Some in E as (E & -> & _). unfold names in E. rewrite list_lookup_fmap in E. destruct (columns sch !! i) as [c|]; [| done].
  injection E as <-. by exists c.
Qed.

(** The index [im], on the pages [pg], has an entry for each of [rows]. *)
Definition index_on (V : gmap Z (list byte)) (rows : list (RID * list byte)) (sch : Schema) (im : IndexMeta) (pg : list Z) : Prop :=
  im_column im ∈ names sch /\ exists ls, tree_rep (index_tree im) V ls pg /\ entries ls ≡ₚ keyed sch im rows.

(** A table: its heap on [ps], its indexes on [pgs], and its tuples. *)
Record table_on (V : gmap Z (list byte)) (meta : TableMeta) (ps : list Z) (pgs : list (list Z)) (rows : list (RID * list byte)) : Prop := {
  to_chain : chain V ps;
  to_nodup : NoDup (ps ++ mjoin pgs);
  to_ids : INVALID_PAGE_ID ∉ ps;
  to_first : head ps = Some (tb_heap_first_page_id meta);
  to_names : plain_names (tb_schema meta);
  to_dict : dict_wf (tb_indexes meta);
  to_rows : rows ≡ₚ heap_rows V ps;
  to_indexes : Forall2 (fun p pg => index_on V rows (tb_schema meta) p.2 pg) (tb_indexes meta) pgs }.

(** The heap of a table alone, from its first page on. *)
Record heap_has (V : gmap Z (list byte)) (first : Z) (ps : list Z) (rows : list (RID * list byte)) : Prop := {
  hh_chain : chain V ps;
  hh_nodup : NoDup ps;
  hh_ids : INVALID_PAGE_ID ∉ ps;
  hh_first : head ps = Some first;
  hh_rows : rows ≡ₚ heap_rows V ps }.
Lemma table_heap V meta ps pgs rows : table_on V meta ps pgs rows -> heap_has V (tb_heap_first_page_id meta) ps rows.
Proof. intros [? Hnd ? ? _ _ ? _]. split; try done. by apply NoDup_app in Hnd as (? & _). Qed.
Lemma heap_has_frame V V' first ps rows : (forall q, q ∈ ps -> V' !! q = V !! q) -> heap_has V first ps rows -> heap_has V' first ps rows.
Proof. intros Hv []. split; try done; [by apply (chain_frame V) | by rewrite (heap_rows_frame V)]. Qed.
Lemma heap_has_nodup V first ps rows : heap_has V first ps rows -> NoDup rows.*1.
Proof. intros [? ? _ _ Hr]. rewrite Hr. by apply heap_rows_nodup. Qed.
Lemma heap_has_tuple V first ps rows rid raw : heap_has V first ps rows -> (rid, raw) ∈ rows <-> heap_tuple V ps rid = Some raw.
Proof. intros [Hc _ _ _ Hr]. rewrite Hr. by apply heap_rows_spec. Qed.
Lemma heap_has_place V first ps rows rid raw : heap_has V first ps rows -> (rid, raw) ∈ rows -> page_id rid ∈ ps /\ 0 <= slot_id rid.
Proof. intros [Hc _ _ _ Hr] Hx. rewrite Hr in Hx. by apply heap_row_place in Hx as (_ & ? & ?). Qed.
Lemma heap_has_open V first ps rows : heap_has V first ps rows -> exists hf, heap_ok V hf ps.
Proof.
  intros [Hc Hnd Hids Hf _]. destruct (last ps) as [l|] eqn:El; [| by apply last_None in El as ->]. by exists (mkHeap first l).
Qed.

Lemma index_on_frame V V' rows sch im pg : (forall q, q ∈ pg -> V' !! q = V !! q) -> index_on V rows sch im pg -> index_on V' rows sch im pg.
Proof.
  intros Hv (Hn & ls & [Hwf [h Hs] Hnd Hlk] & He). split; [done|]. exists ls. split; [| done].
  constructor; try done. exists h. by eapply subtree_frame.
Qed.
Lemma index_on_perm V rows rows' sch im pg : rows ≡ₚ rows' -> index_on V rows sch im pg -> index_on V rows' sch im pg.
Proof. intros Hp (Hn & ls & Ht & He). split; [done|]. exists ls. split; [done|]. unfold keyed in *. by rewrite <- Hp. Qed.

(** The representation queries are planned against. *)
Lemma table_on_rep V meta ps pgs rows : table_on V meta ps pgs rows -> table_rep V meta ps.
Proof.
  intros [Hc Hnd Hids Hf Hn Hd Hr Hi]. constructor; try done; [by apply NoDup_app in Hnd as (? & _)|].
  clear -Hi Hr. induction Hi as [|p pg l pgs' (Hn & ls & Ht & He) _ IH]; constructor; [| done].
  destruct (col_pos_spec _ _ Hn) as (c & Hc & Hcn). exists (col_pos (tb_schema meta) (im_column p.2)), c, ls, pg. split_and!; [done | done | | unfold keyed in He; by rewrite <- Hr].
  by apply (tree_rep_format (index_tree p.2)).
Qed.

(** ** The heap's tuples after an insertion *)

Section heap.
Context {S H : Type} {store : PageStore S H} {spec : PageStoreSpec S H}.

Lemma chain_view V ps p : chain V ps -> p ∈ ps -> is_Some (V !! p).
Proof. intros Hc Hp. destruct (chain_in _ _ _ Hc Hp) as (d & ? & ? & ? & ? & _). eauto. Qed.

Lemma inserted_count s ps row rid s' hf' ps' : ps_inv s -> 0 <= ps_count s -> chain (ps_view s) ps -> inserted s ps row rid s' hf' ps' ->
  ps_count s <= ps_count s' <= ps_count s + 1.
Proof.
  intros Hi H0 Hc [(Hok & Hps & _ & _ & Hfr) [Hi' _]]. pose proof (ho_chain _ _ _ Hok) as Hc'.
  assert (forall q, q ∈ ps -> q < ps_count s) as Hlt by (intros q Hq; apply view_lt; [done | by eapply chain_view]).
  split.
  - destruct (Z_le_gt_dec (ps_count s) 0) as [|Hpos].
    { destruct (Z_le_gt_dec (ps_count s) (ps_count s')) as [|Hx]; [done|]. 
      destruct ps' as [|p ps'']; [inversion Hc'|]. pose proof (chain_view _ _ p Hc' ltac:(left)) as Hp. apply ps_view_dom in Hp; [lia | done]. }
    destruct (Z_le_gt_dec (ps_count s) (ps_count s')) as [|Hx]; [done|]. exfalso.
    set (q := ps_count s - 1). assert (is_Some (ps_view s !! q)) as Hq by (apply ps_view_dom; unfold q; [done | lia]).
    assert (ps_view s' !! q = None) as Hq'.
    { destruct (ps_view s' !! q) eqn:E; [| done]. apply mk_is_Some, ps_view_dom in E; unfold q in *; [lia | done]. }
    destruct (decide (q ∈ ps')) as [Hin|Hin]; [by destruct (chain_view _ _ q Hc' Hin); congruence|].
    rewrite Hfr in Hq' by done. destruct Hq. congruence.
  - destruct (Z_le_gt_dec (ps_count s') (ps_count s + 1)) as [|Hx]; [done|]. exfalso.
    set (q := ps_count s + 1). assert (is_Some (ps_view s' !! q)) as Hq by (apply ps_view_dom; unfold q; [done | lia]).
    assert (q ∉ ps') as Hin.
    { destruct Hps as [-> | ->]; rewrite ?elem_of_app, ?list_elem_of_singleton; unfold q; intros Hin; [apply Hlt in Hin; lia|].
      destruct Hin as [Hin|?]; [apply Hlt in Hin; lia | lia]. }
    rewrite Hfr in Hq by done. apply ps_view_dom in Hq; unfold q in *; [lia | done].
Qed.

Lemma inserted_rows s ps row rid s' hf' ps' : NoDup ps -> chain (ps_view s) ps -> inserted s ps row rid s' hf' ps' ->
  heap_rows (ps_view s') ps' ≡ₚ (rid, row) :: heap_rows (ps_view s) ps.
Proof.
  intros Hnd Hc [(Hok & _ & Hnone & Htup & _) _]. destruct Hok as [Hc' Hnd' _ _ _].
  apply NoDup_Permutation.
  - apply NoDup_fmap_1 with fst. by apply heap_rows_nodup.
  - constructor; [| apply NoDup_fmap_1 with fst; by apply heap_rows_nodup]. rewrite heap_rows_spec by done. congruence.
  - intros [r t]. rewrite elem_of_cons, !heap_rows_spec, Htup by done. case_decide as E; subst; [| naive_solver].
    rewrite Hnone. naive_solver.
Qed.

Lemma heap_rid_ok V ps rid t : chain V ps -> (forall q, q ∈ ps -> 0 <= q < 2 ^ 32) -> heap_tuple V ps rid = Some t -> rid_ok rid.
Proof.
  intros Hc Hq Ht. pose proof Ht as Ht'. apply heap_rows_spec, heap_row_place in Ht' as (_ & Hp & Hs); [| done | done].
  split; [by apply Hq|]. destruct (chain_in _ _ _ Hc Hp) as (d & n & f & nx & Hd & Hwf). destruct rid as [p i]. cbn [page_id slot_id] in *.
  rewrite (heap_tuple_at V ps p i d n f nx) in Ht by done. unfold slot_tuple in Ht. case_match eqn:E; [| done].
  pose proof (hw_dir _ _ _ _ Hwf) as Hdir. unfold slot_offset, HEADER_SIZE, SLOT_SIZE, PAGE_SIZE in Hdir. lia.
Qed.
End heap.
