(* ===== verification/Base64.v ===== *)
(** Python's base64.b64encode and base64.b64decode (binascii, not strict), which
    [src/minirel/database.py] uses to put tuples into JSON log records, and the
    proof that decoding inverts encoding. *)
From stdpp Require Import base numbers list strings.
From Stdlib Require Import ZArith Lia Strings.Ascii Strings.Byte.
From S2P Require Import Prelude.

Local Open Scope Z_scope.

(** * The alphabet *)

Definition b64_char (z : Z) : ascii :=
  ascii_of_nat (Z.to_nat
    (if z <? 26 then z + 65 else if z <? 52 then z + 71 else if z <? 62 then z - 4 else if z =? 62 then 43 else 47)).
Definition b64_value (c : ascii) : option Z :=
  let n := Z.of_nat (nat_of_ascii c) in
  if (65 <=? n) && (n <=? 90) then Some (n - 65)
  else if (97 <=? n) && (n <=? 122) then Some (n - 71)
  else if (48 <=? n) && (n <=? 57) then Some (n + 4)
  else if n =? 43 then Some 62
  else if n =? 47 then Some 63
  else None.

(** * Encoding *)

Fixpoint b64_chars (bs : list byte) : list ascii :=
  match bs with
  | [] => []
  | [x] =>
      let a := Z_of_byte x in
      [b64_char (Z.shiftr a 2); b64_char (Z.shiftl (Z.land a 3) 4); "="; "="]%char
  | [x; y] =>
      let a := Z_of_byte x in let b := Z_of_byte y in
      [b64_char (Z.shiftr a 2); b64_char (Z.lor (Z.shiftl (Z.land a 3) 4) (Z.shiftr b 4));
       b64_char (Z.shiftl (Z.land b 15) 2); "="]%char
  | x :: y :: z :: bs' =>
      let a := Z_of_byte x in let b := Z_of_byte y in let c := Z_of_byte z in
      b64_char (Z.shiftr a 2) :: b64_char (Z.lor (Z.shiftl (Z.land a 3) 4) (Z.shiftr b 4)) ::
      b64_char (Z.lor (Z.shiftl (Z.land b 15) 2) (Z.shiftr c 6)) :: b64_char (Z.land c 63) :: b64_chars bs'
  end.
(** [base64.b64encode(bs).decode("ascii")] *)
Definition b64encode (bs : list byte) : string := String.string_of_list_ascii (b64_chars bs).

(** * Decoding *)

(** The loop of binascii.a2b_base64: position in the group of four, padding
    seen, bits left over from the last character. Characters outside the
    alphabet are skipped. *)
Fixpoint b64_loop (l : list ascii) (quad_pos pads leftchar : Z) : result (list byte) :=
  match l with
  | [] => if quad_pos =? 0 then Ok [] else Raise ValueError
  | c :: l' =>
      if Ascii.eqb c "="%char then
        if (2 <=? quad_pos) && (4 <=? quad_pos + (pads + 1)) then Ok []
        else b64_loop l' quad_pos (if 2 <=? quad_pos then pads + 1 else pads) leftchar
      else
        match b64_value c with
        | None => b64_loop l' quad_pos pads leftchar
        | Some v =>
            if quad_pos =? 0 then b64_loop l' 1 0 v
            else if quad_pos =? 1 then
              bs ← b64_loop l' 2 0 (Z.land v 15); Ok (byte_of_Z (Z.lor (Z.shiftl leftchar 2) (Z.shiftr v 4)) :: bs)
            else if quad_pos =? 2 then
              bs ← b64_loop l' 3 0 (Z.land v 3); Ok (byte_of_Z (Z.lor (Z.shiftl leftchar 4) (Z.shiftr v 2)) :: bs)
            else
              bs ← b64_loop l' 0 0 0; Ok (byte_of_Z (Z.lor (Z.shiftl leftchar 6) v) :: bs)
        end
  end.
(** [base64.b64decode(s)]; a string outside ASCII is a ValueError. *)
Definition b64decode (s : string) : result (list byte) :=
  let l := String.list_ascii_of_string s in
  if forallb (fun c => (nat_of_ascii c <? 128)%nat) l then b64_loop l 0 0 0 else Raise ValueError.

(** * Round trip *)

Lemma b64_char_facts z : 0 <= z < 64 ->
  b64_value (b64_char z) = Some z /\ Ascii.eqb (b64_char z) "="%char = false /\ (nat_of_ascii (b64_char z) <? 128)%nat = true.
Proof.
  intros Hz. assert (z = Z.of_nat (Z.to_nat z)) as -> by lia. assert (Z.to_nat z < 64)%nat as Hn by lia.
  revert Hn. generalize (Z.to_nat z) as n. intros n Hn. do 64 (destruct n as [|n]; [split_and!; reflexivity|]). lia.
Qed.

Lemma lor_shiftl x y n : 0 <= n -> 0 <= y < 2 ^ n -> Z.lor (Z.shiftl x n) y = x * 2 ^ n + y.
Proof.
  intros Hn Hy. rewrite <- Z.shiftl_mul_pow2 by done.
  assert (Z.land (Z.shiftl x n) y = 0) as H0; [| by rewrite Z.add_nocarry_lxor, Z.lxor_lor].
  apply Z.bits_inj'. intros i Hi. rewrite Z.land_spec, Z.bits_0.
  destruct (Z_lt_ge_dec i n); [by rewrite Z.shiftl_spec_low|].
  replace (Z.testbit y i) with false; [by rewrite andb_false_r|]. symmetry.
  destruct (Z.eq_dec y 0) as [->|Hy0]; [apply Z.bits_0|].
  apply Z.bits_above_log2; [lia|]. apply Z.lt_le_trans with n; [| lia]. apply Z.log2_lt_pow2; lia.
Qed.

Lemma land_ones_2 a : Z.land a 3 = a mod 4.
Proof. apply (Z.land_ones a 2). lia. Qed.
Lemma land_ones_4 a : Z.land a 15 = a mod 16.
Proof. apply (Z.land_ones a 4). lia. Qed.
Lemma land_ones_6 a : Z.land a 63 = a mod 64.
Proof. apply (Z.land_ones a 6). lia. Qed.

(** Everything the encoder and the decoder compute, as arithmetic. *)
Ltac b64_arith :=
  rewrite ?land_ones_2, ?land_ones_4, ?land_ones_6, ?Z.shiftr_div_pow2 by lia;
  repeat (rewrite lor_shiftl by (first [lia | change (2 ^ 2) with 4; change (2 ^ 4) with 16; change (2 ^ 6) with 64; Z.div_mod_to_equations; lia]));
  rewrite ?Z.shiftl_mul_pow2 by lia; change (2 ^ 2) with 4 in *; change (2 ^ 4) with 16 in *; change (2 ^ 6) with 64 in *.

Lemma b64_step l q p left_ z : 0 <= z < 64 -> b64_loop (b64_char z :: l) q p left_ =
  if q =? 0 then b64_loop l 1 0 z
  else if q =? 1 then bs ← b64_loop l 2 0 (Z.land z 15); Ok (byte_of_Z (Z.lor (Z.shiftl left_ 2) (Z.shiftr z 4)) :: bs)
  else if q =? 2 then bs ← b64_loop l 3 0 (Z.land z 3); Ok (byte_of_Z (Z.lor (Z.shiftl left_ 4) (Z.shiftr z 2)) :: bs)
  else bs ← b64_loop l 0 0 0; Ok (byte_of_Z (Z.lor (Z.shiftl left_ 6) z) :: bs).
Proof. intros Hz. destruct (b64_char_facts z Hz) as (Hv & He & _). cbn [b64_loop]. by rewrite He, Hv. Qed.

Lemma byte_of_parts x z : z = Z_of_byte x -> byte_of_Z z = x.
Proof. intros ->. apply byte_of_Z_of_byte. Qed.

Lemma b64_loop_chars bs : b64_loop (b64_chars bs) 0 0 0 = Ok bs.
Proof.
  induction bs as [bs IH] using (induction_ltof1 _ (@length byte)). unfold ltof in IH.
  destruct bs as [|x [|y [|z bs]]]; [done | ..];
    pose proof (Z_of_byte_bound x) as Hx; try pose proof (Z_of_byte_bound y) as Hy; try pose proof (Z_of_byte_bound z) as Hz;
    cbn [b64_chars]; b64_arith;
    rewrite ?b64_step by (Z.div_mod_to_equations; lia); cbn -[Z.land Z.lor Z.shiftl Z.shiftr Z.div Z.modulo Z.mul Z.add b64_loop];
    b64_arith.
  - replace (b64_loop _ _ _ _) with (Ok (@nil byte)) by reflexivity. unfold mbind, result_bind. do 2 f_equal. apply byte_of_parts. Z.div_mod_to_equations; lia.
  - replace (b64_loop _ _ _ _) with (Ok (@nil byte)) by reflexivity. unfold mbind, result_bind.
    do 2 f_equal; [| f_equal]; apply byte_of_parts; Z.div_mod_to_equations; lia.
  - rewrite IH by (cbn; lia). unfold mbind, result_bind. do 2 f_equal; [| f_equal; [| f_equal]]; apply byte_of_parts; Z.div_mod_to_equations; lia.
Qed.

Lemma b64_chars_ascii bs : forallb (fun c => (nat_of_ascii c <? 128)%nat) (b64_chars bs) = true.
Proof.
  induction bs as [bs IH] using (induction_ltof1 _ (@length byte)). unfold ltof in IH.
  destruct bs as [|x [|y [|z bs]]]; [done | ..];
    pose proof (Z_of_byte_bound x) as Hx; try pose proof (Z_of_byte_bound y) as Hy; try pose proof (Z_of_byte_bound z) as Hz;
    cbn [b64_chars]; b64_arith; cbn [forallb];
    rewrite !(fun z H => proj2 (proj2 (b64_char_facts z H))) by (Z.div_mod_to_equations; lia); [done | done |].
  cbn [andb]. apply IH. cbn. lia.
Qed.

(** What was encoded is decoded. *)
Theorem b64_roundtrip bs : b64decode (b64encode bs) = Ok bs.
Proof.
  unfold b64decode, b64encode. rewrite String.list_ascii_of_string_of_list_ascii, b64_chars_ascii. apply b64_loop_chars.
Qed.
