(* ===== verification/Database.v ===== *)
(** The database ([src/minirel/database.py]): SQL statements over the page
    store, the catalog and the transaction manager, their log records, and the
    replay of a log at start-up. A [TableMeta] the code holds is a reference
    into the catalog and is looked up at each use; a [HeapFile] or [BPlusTree]
    object that an operation changes is passed along. *)
From stdpp Require Import base numbers list gmap strings pretty.
From Stdlib Require Import ZArith Lia Strings.Byte.
From S2P Require Import Prelude PyNum Types PyVal Disk PageStore BufferPool HeapPage HeapFile BTree Json Wal Transaction.
From S2P Require Import Ast Lexer Parser PyDict Expr Executor Catalog Planner Base64.

Local Open Scope Z_scope.

(** * State *)

Record Database (S : Type) : Type := mkDB { db_pool : S; db_catalog : Catalog; db_txn_mgr : TransactionManager }.
Arguments mkDB {S}. Arguments db_pool {S}. Arguments db_catalog {S}. Arguments db_txn_mgr {S}.

Record ExecuteResult : Set := mkResult { ex_rows : option (list Row); ex_row_count : Z; ex_message : string }.

(** [try: body except Exception: handler; raise] *)
Definition on_error {S A} (body : M S A) (handler : M S unit) : M S A := fun s =>
  match body s with
  | (Raise e, s1) => match handler s1 with (Ok _, s2) => (Raise e, s2) | (Raise e', s2) => (Raise e', s2) end
  | r => r
  end.

(** Values of the language as JSON and back. *)
Definition value_json (v : value) : json :=
  match v with VNone => JNull | VBool b => JBool b | VInt z => JInt z | VFloat f => JFloat f | VStr s => JStr s end.
Definition json_value (j : json) : result value :=
  match j with
  | JNull => Ok VNone | JBool b => Ok (VBool b) | JInt z => Ok (VInt z) | JFloat f => Ok (VFloat f) | JStr s => Ok (VStr s)
  | JArr _ | JObj _ => Raise TypeError
  end.
Definition rid_json (r : RID) : json := JArr [JInt (page_id r); JInt (slot_id r)].
(** [RID(j[0], j[1])] *)
Definition json_rid (j : json) : result RID :=
  l ← jarr j;
  p ← py_nth l 0; p ← jint p;
  i ← py_nth l 1; i ← jint i;
  Ok (mkRID p i).

(** [evaluate(e, {})]; no row, so no row id comes out. *)
Definition eval_const (e : Expr) : result value :=
  d ← evaluate e [];
  match d with DVal v => Ok v | DRid _ => Raise TypeError end.

Section database.
Context {S H : Type} `{PageStore S H}.

Notation DB := (Database S).

Definition set_pool (s : S) (db : DB) : DB := mkDB s (db_catalog db) (db_txn_mgr db).
Definition set_catalog (c : Catalog) (db : DB) : DB := mkDB (db_pool db) c (db_txn_mgr db).
Definition set_mgr (m : TransactionManager) (db : DB) : DB := mkDB (db_pool db) (db_catalog db) m.

(** Calls on the parts. *)
Definition on_pool {A} (m : M S A) : M DB A := fun db => let '(r, s) := m (db_pool db) in (r, set_pool s db).
Definition on_catalog {A} (m : M Catalog A) : M DB A := fun db => let '(r, c) := m (db_catalog db) in (r, set_catalog c db).
Definition on_mgr {A} (m : M TransactionManager A) : M DB A := fun db => let '(r, t) := m (db_txn_mgr db) in (r, set_mgr t db).
Definition on_ddl {A} (m : M (S * Catalog) A) : M DB A := fun db =>
  let '(r, st) := m (db_pool db, db_catalog db) in (r, mkDB st.1 st.2 (db_txn_mgr db)).

(** A call that changes an object over the pool: the object comes back too. *)
Definition with_object {T A} (t : T) (m : M (S * T) A) : M S (A * T) := fun s =>
  let '(r, st) := m (s, t) in (match r with Ok a => Ok (a, st.2) | Raise e => Raise e end, st.1).
Definition on_object {T A} (t : T) (m : M (S * T) A) : M DB (A * T) := on_pool (with_object t m).

Definition find_table (name : string) : M DB TableMeta := c ← gets db_catalog; lift_result (get_table c name).
Definition open_heap (meta : TableMeta) : M DB HeapFile := on_pool (heap_init (Some (tb_heap_first_page_id meta))).
Definition open_index (im : IndexMeta) : M DB BPlusTree := on_pool (bt_init (im_key_type im) 8 (Some (im_root_page_id im)) false).
Definition the_txn (i : Z) : M DB Transaction := on_mgr (get_txn i).

(** * DDL *)

Definition execute_create_table (stmt : CreateTable) : M DB ExecuteResult :=
  cols ← lift_result (result_map (fun c => t ← type_of_name (cd_type c); Ok (mkColumn (cd_name c) t)) (ct_columns stmt));
  on_ddl (create_table (ct_table stmt) (mkSchema cols));;
  mret (mkResult None 0 ("CREATE TABLE " +:+ ct_table stmt)).

(** The body of the loop over [heap.scan()]. *)
Definition backfill (sch : Schema) (col_index : Z) (tree : BPlusTree) (rid : RID) (raw : list byte) : M S BPlusTree :=
  vs ← lift_result (decode_row (tuple_payload raw) sch);
  v ← lift_result (py_nth vs col_index);
  r ← with_object tree (bt_insert v rid);
  mret r.2.

Definition execute_create_index (stmt : CreateIndex) : M DB ExecuteResult :=
  find_table (ci_table stmt);;
  meta ← on_ddl (create_index (ci_table stmt) (ci_index_name stmt) (ci_column stmt) (ci_unique stmt));
  table ← find_table (ci_table stmt);
  heap ← open_heap table;
  tree ← open_index meta;
  col_index ← lift_result (index_of (tb_schema table) (ci_column stmt));
  tree' ← on_pool (scan_fold (backfill (tb_schema table) col_index) heap tree);
  on_catalog (update_index_root (ci_table stmt) (ci_index_name stmt) (root_page_id tree'));;
  mret (mkResult None 0 ("CREATE INDEX " +:+ ci_index_name stmt)).

(** * DML *)

Definition resolve_row (columns schema_names : list string) (row_exprs : list Expr) : result (list value) :=
  if negb (blen row_exprs =? blen columns) then Raise ValueError else
  vs ← result_map eval_const row_exprs;
  let value_map := dict_of (zip columns vs) in
  if existsb (fun c => negb (dmem value_map c)) schema_names then Raise ValueError else
  result_map (dindex value_map) schema_names.

Definition resolve_insert_values (stmt : Insert) (table : TableMeta) : result (list (list value)) :=
  let schema_names := names (tb_schema table) in
  let columns := match ins_columns stmt with None | Some [] => schema_names | Some cs => cs end in
  result_map (resolve_row columns schema_names) (ins_rows stmt).

Section statements.
Context (txn : Z).

(** The loop over the row ids under a key. *)
Fixpoint check_entries (snap : Snapshot) (exclude_rid : option RID) (rids : list RID) : M DB unit :=
  match rids with
  | [] => mret tt
  | rid :: rids' =>
      if bool_decide (Some rid = exclude_rid) then check_entries snap exclude_rid rids' else
      raw ← on_pool (heap_get rid);
      match raw with
      | None => check_entries snap exclude_rid rids'
      | Some raw =>
          h ← lift_result (unpack_tuple_header raw);
          mgr ← gets db_txn_mgr;
          if is_visible mgr h.1 h.2 snap then raise DuplicateKeyError else check_entries snap exclude_rid rids'
      end
  end.

Definition check_unique_constraint (im : IndexMeta) (key : value) (exclude_rid : option RID) : M DB unit :=
  if negb (im_unique im) then mret tt else
  tree ← open_index im;
  rids ← on_pool (bt_search tree key);
  t ← the_txn txn;
  check_entries (snapshot t) exclude_rid rids.

(** One round of the loop of [_insert_into_indexes]. *)
Definition insert_into_index (table : string) (value_map : list (string * value)) (rid : RID) (exclude_rid : option RID) (idx_name : string) : M DB unit :=
  meta ← find_table table;
  idx_meta ← lift_result (dindex (tb_indexes meta) idx_name);
  key ← lift_result (dindex value_map (im_column idx_meta));
  check_unique_constraint idx_meta key exclude_rid;;
  tree ← open_index idx_meta;
  r ← on_object tree (bt_insert key rid);
  on_catalog (update_index_root (tb_name meta) idx_name (root_page_id r.2));;
  on_mgr (txn_log_operation txn "btree_insert"
    [("table", JStr (tb_name meta)); ("index", JStr idx_name); ("key", value_json key); ("rid", rid_json rid)]%string).

Fixpoint insert_into_each (table : string) (value_map : list (string * value)) (rid : RID) (exclude_rid : option RID) (idx_names : list string) : M DB unit :=
  match idx_names with
  | [] => mret tt
  | n :: ns => insert_into_index table value_map rid exclude_rid n;; insert_into_each table value_map rid exclude_rid ns
  end.

Definition insert_into_indexes (table : string) (value_map : list (string * value)) (rid : RID) (exclude_rid : option RID) : M DB unit :=
  meta ← find_table table;
  insert_into_each table value_map rid exclude_rid (tb_indexes meta).*1.

(** A new version of a row: into the heap, the log and the indexes. *)
Definition add_version (table : string) (meta : TableMeta) (heap : HeapFile) (vs : list value) (value_map : list (string * value)) (exclude_rid : option RID) : M DB HeapFile :=
  payload ← lift_result (encode_row vs (tb_schema meta));
  t ← the_txn txn;
  tup ← lift_result (pack_tuple (txn_id t) INFINITY_TXN payload);
  r ← on_object heap (heap_insert tup);
  on_mgr (txn_log_operation txn "heap_insert"
    [("table", JStr (tb_name meta)); ("tuple", JStr (b64encode tup)); ("rid", rid_json r.1)]%string);;
  insert_into_indexes table value_map r.1 exclude_rid;;
  mret r.2.

Fixpoint insert_rows (table : string) (meta : TableMeta) (heap : HeapFile) (rows : list (list value)) (count : Z) : M DB Z :=
  match rows with
  | [] => mret count
  | vs :: rows' =>
      heap' ← add_version table meta heap vs (dict_of (zip (names (tb_schema meta)) vs)) None;
      insert_rows table meta heap' rows' (count + 1)
  end.

Definition execute_insert (stmt : Insert) : M DB ExecuteResult :=
  meta ← find_table (ins_table stmt);
  heap ← open_heap meta;
  rows ← lift_result (resolve_insert_values stmt meta);
  count ← insert_rows (ins_table stmt) meta heap rows 0;
  mret (mkResult None count ("INSERT " +:+ pretty count)).

(** [list(plan)] runs with [fuel]. *)
Context (fuel : nat).

Definition list_plan (plan : M S (Operator H)) : M DB (list Row) :=
  t ← the_txn txn;
  mgr ← gets db_txn_mgr;
  on_pool (o ← plan; run_plan mgr (snapshot t) fuel o).

Definition execute_select (stmt : Select) : M DB ExecuteResult :=
  c ← gets db_catalog;
  rows ← list_plan (build_select_plan c stmt);
  mret (mkResult (Some rows) (blen rows) ("SELECT " +:+ pretty (blen rows))).

(** The rows UPDATE and DELETE work on. *)
Definition matching_rows (table : string) (where_ : option Expr) : M DB (list Row) :=
  c ← gets db_catalog; list_plan (build_row_source_plan c table table where_).

(** [row["__rid__"]] *)
Definition row_rid (row : Row) : result RID :=
  d ← dindex row "__rid__";
  match d with DRid r => Ok r | DVal _ => Raise AttributeError end.

(** Read the version a row id names and check it against other writers; [None]
    when there is none. *)
Definition claim_version (rid : RID) : M DB (option (list byte)) :=
  raw ← on_pool (heap_get rid);
  match raw with
  | None => mret None
  | Some raw =>
      h ← lift_result (unpack_tuple_header raw);
      t ← the_txn txn;
      mgr ← gets db_txn_mgr;
      lift_result (check_write_conflict mgr t h.2);;
      mret (Some raw)
  end.

(** Stamp it with this transaction and log that. *)
Definition stamp_version (meta : TableMeta) (rid : RID) (raw : list byte) : M DB unit :=
  t ← the_txn txn;
  stamped ← lift_result (with_xmax raw (txn_id t));
  on_pool (update_in_place rid stamped);;
  on_mgr (txn_log_operation txn "heap_set_xmax"
    [("table", JStr (tb_name meta)); ("rid", rid_json rid); ("xmax", JInt (txn_id t))]%string).

Fixpoint assign (assignments : list (string * Expr)) (value_map : list (string * value)) : result (list (string * value)) :=
  match assignments with
  | [] => Ok value_map
  | (col, e) :: rest => v ← eval_const e; assign rest (dset value_map col v)
  end.

Fixpoint update_rows (table : string) (meta : TableMeta) (assignments : list (string * Expr)) (heap : HeapFile) (matches : list Row) (count : Z) : M DB Z :=
  match matches with
  | [] => mret count
  | row :: matches' =>
      rid ← lift_result (row_rid row);
      raw ← claim_version rid;
      match raw with
      | None => update_rows table meta assignments heap matches' count
      | Some raw =>
          old_values ← lift_result (decode_row (tuple_payload raw) (tb_schema meta));
          value_map ← lift_result (assign assignments (dict_of (zip (names (tb_schema meta)) old_values)));
          new_values ← lift_result (result_map (dindex value_map) (names (tb_schema meta)));
          stamp_version meta rid raw;;
          heap' ← add_version table meta heap new_values value_map (Some rid);
          update_rows table meta assignments heap' matches' (count + 1)
      end
  end.

Definition execute_update (stmt : Update) : M DB ExecuteResult :=
  meta ← find_table (upd_table stmt);
  heap ← open_heap meta;
  matches ← matching_rows (upd_table stmt) (upd_where stmt);
  count ← update_rows (upd_table stmt) meta (upd_assignments stmt) heap matches 0;
  mret (mkResult None count ("UPDATE " +:+ pretty count)).

Fixpoint delete_rows (meta : TableMeta) (matches : list Row) (count : Z) : M DB Z :=
  match matches with
  | [] => mret count
  | row :: matches' =>
      rid ← lift_result (row_rid row);
      raw ← claim_version rid;
      match raw with
      | None => delete_rows meta matches' count
      | Some raw => stamp_version meta rid raw;; delete_rows meta matches' (count + 1)
      end
  end.

Definition execute_delete (stmt : Delete) : M DB ExecuteResult :=
  meta ← find_table (del_table stmt);
  open_heap meta;;
  matches ← matching_rows (del_table stmt) (del_where stmt);
  count ← delete_rows meta matches 0;
  mret (mkResult None count ("DELETE " +:+ pretty count)).
End statements.

(** * The entry point *)

Definition is_ddl (stmt : Statement) : bool :=
  match stmt with SCreateTable _ | SCreateIndex _ => true | _ => false end.

(** [None.txn_id] would be an AttributeError; [execute] never passes it. *)
Definition with_txn {A} (txn : option Z) (k : Z -> M DB A) : M DB A :=
  match txn with Some i => k i | None => raise AttributeError end.

Definition dispatch (fuel : nat) (stmt : Statement) (txn : option Z) : M DB ExecuteResult :=
  match stmt with
  | SCreateTable s => execute_create_table s
  | SCreateIndex s => execute_create_index s
  | SInsert s => with_txn txn (fun i => execute_insert i s)
  | SSelect s => with_txn txn (fun i => execute_select i fuel s)
  | SUpdate s => with_txn txn (fun i => execute_update i fuel s)
  | SDelete s => with_txn txn (fun i => execute_delete i fuel s)
  end.

Definition run_statement (fuel : nat) (stmt : Statement) (txn : option Z) : M DB ExecuteResult :=
  match txn with
  | None =>
      if is_ddl stmt then dispatch fuel stmt None else
      i ← on_mgr begin;
      result ← on_error (dispatch fuel stmt (Some i)) (on_mgr (abort i));
      on_mgr (commit i);;
      mret result
  | Some i => dispatch fuel stmt (Some i)
  end.

Definition execute (fuel : nat) (sql : string) (txn : option Z) : M DB ExecuteResult :=
  stmt ← lift_result (parse sql); run_statement fuel stmt txn.

Definition db_begin : M DB Z := on_mgr begin.

(** * Replay *)

Definition apply_recovery_op (op : json) : M DB unit :=
  tn ← lift_result (jindex op "table"); tn ← lift_result (jstr tn);
  meta ← find_table tn;
  kind ← lift_result (jindex op "kind");
  match kind with
  | JStr "heap_insert" =>
      heap ← open_heap meta;
      enc ← lift_result (jindex op "tuple"); enc ← lift_result (jstr enc);
      tup ← lift_result (b64decode enc);
      on_object heap (heap_insert tup);; mret tt
  | JStr "heap_set_xmax" =>
      open_heap meta;;
      rid ← lift_result (jindex op "rid"); rid ← lift_result (json_rid rid);
      raw ← on_pool (heap_get rid);
      match raw with
      | None => mret tt
      | Some raw =>
          x ← lift_result (jindex op "xmax"); x ← lift_result (jint x);
          stamped ← lift_result (with_xmax raw x);
          on_pool (update_in_place rid stamped);; mret tt
      end
  | JStr "btree_insert" =>
      idx ← lift_result (jindex op "index"); idx ← lift_result (jstr idx);
      idx_meta ← lift_result (dindex (tb_indexes meta) idx);
      tree ← open_index idx_meta;
      key ← lift_result (jindex op "key"); key ← lift_result (json_value key);
      rid ← lift_result (jindex op "rid"); rid ← lift_result (json_rid rid);
      r ← on_object tree (bt_insert key rid);
      on_catalog (update_index_root (tb_name meta) idx (root_page_id r.2))
  | _ => raise ValueError
  end.

Fixpoint replay (records : list LogRecord) : M DB unit :=
  match records with [] => mret tt | r :: rs => apply_recovery_op (lr_payload r);; replay rs end.
End database.

(** * Lifecycle, over the buffer pool *)

Definition recover : M (Database BufferPoolManager) unit :=
  records ← on_mgr (on_wal committed_operations_since_checkpoint);
  replay records;;
  pool ← gets db_pool;
  if negb (bp_disk_writes pool =? 0) || negb (bp_disk_reads pool =? 0) then on_pool flush_all else mret tt.

(** The files of a database, as left by an earlier process. *)
Record db_files : Type := mkFiles { df_data : option (list byte); df_catalog : option text; df_log : option (list byte) }.

(** [Database.__init__] *)
Definition db_init (files : db_files) (buffer_pool_size : Z) : result (Database BufferPoolManager) :=
  let pool := bp_init (dm_init (df_data files)) buffer_pool_size in
  cat ← catalog_init (df_catalog files);
  mgr ← fst (recovered_manager (wal_init (df_log files)));
  let '(r, db) := recover (mkDB pool cat mgr) in
  r;; Ok db.

Definition checkpoint : M (Database BufferPoolManager) unit :=
  mgr ← gets db_txn_mgr;
  if has_active_transactions mgr then raise RuntimeError else
  on_pool flush_all;;
  on_mgr (on_wal log_checkpoint);; mret tt.

Definition db_close : M (Database BufferPoolManager) unit :=
  on_pool flush_all;;
  on_pool (on_disk dm_close);;
  on_mgr (on_wal wal_close).

(** What the files hold: after [db_close] everything handed to the operating
    system, after a crash what was forced to disk. *)
Definition files_of (db : Database BufferPoolManager) : db_files :=
  mkFiles (Some (dm_file (bp_disk (db_pool db)))) (cat_file (db_catalog db)) (Some (wal_file (tm_wal (db_txn_mgr db)))).
Definition files_after_crash (db : Database BufferPoolManager) : db_files :=
  mkFiles (Some (dm_synced (bp_disk (db_pool db)))) (cat_file (db_catalog db)) (Some (wal_durable (tm_wal (db_txn_mgr db)))).
