(* ===== verification/LogRecords.v ===== *)
(** The operation records the statements write ([src/minirel/database.py]): they
    fit the log, and replay reads back from one what the statement put in. *)
From stdpp Require Import base numbers list gmap strings pretty.
From Stdlib Require Import ZArith Lia Strings.Byte.
From S2P Require Import Prelude PyNum Types PyVal Disk PageStore HeapPage HeapFile BTree BTreeNode BTreeRep Json Wal Transaction.
From S2P Require Import PyDict Catalog Base64 Database.

Local Open Scope Z_scope.

(** * The records *)

Definition heap_record (tn : string) (tup : list byte) (rid : RID) : json :=
  payload_of "heap_insert" [("table", JStr tn); ("tuple", JStr (b64encode tup)); ("rid", rid_json rid)]%string.
Definition xmax_record (tn : string) (rid : RID) (x : Z) : json :=
  payload_of "heap_set_xmax" [("table", JStr tn); ("rid", rid_json rid); ("xmax", JInt x)]%string.
Definition btree_record (tn n : string) (key : value) (rid : RID) : json :=
  payload_of "btree_insert" [("table", JStr tn); ("index", JStr n); ("key", value_json key); ("rid", rid_json rid)]%string.

(** An operation record that fits the log's fields. *)
Definition loggable (i : Z) (op : json) : Prop := entry_ok (mkEntry Wal.OP i op).

(** * Lengths of JSON texts *)

Lemma utf8_points_length bs : (length (utf8_points bs) <= length bs)%nat.
Proof.
  assert (forall n bs, (length bs <= n)%nat -> (length (utf8_points bs) <= length bs)%nat) as Hn; [| by eapply Hn].
  clear bs. induction n as [|n IH]; intros bs Hl; [by destruct bs; cbn in *; [| lia]|].
  destruct bs as [|b0 r0]; [done|]. cbn [utf8_points length] in *. destruct (in_range b0 0 0x7F); [cbn; specialize (IH r0 ltac:(lia)); lia|].
  destruct r0 as [|b1 r1]; [cbn; lia|]. cbn [length] in *. destruct (in_range b0 0xC2 0xDF); [cbn; specialize (IH r1 ltac:(lia)); lia|].
  destruct r1 as [|b2 r2]; [cbn; lia|]. cbn [length] in *. destruct (in_range b0 0xE0 0xEF); [cbn; specialize (IH r2 ltac:(lia)); lia|].
  destruct r2 as [|b3 r3]; [cbn; lia|]. cbn [length] in *. specialize (IH r3 ltac:(lia)). lia.
Qed.

Lemma dump_str_length s : blen (dump_str s) <= 12 * blen (str_encode s) + 2.
Proof.
  unfold dump_str. rewrite blen_cons, blen_app. change (blen [x22]) with 1.
  assert (forall l, blen (l ≫= escape_point) <= 12 * blen l) as Hl.
  { induction l as [|cp l IH]; [done|]. rewrite bind_cons, blen_app, blen_cons.
    assert (blen (escape_point cp) <= 12); [| lia]. unfold escape_point. repeat case_match; done. }
  specialize (Hl (utf8_points (str_encode s))). pose proof (utf8_points_length (str_encode s)). unfold blen in *. lia.
Qed.

Lemma pretty_N_length x : forall k s, (x < 2 ^ N.of_nat k)%N -> (String.length (pretty_N_go x s) <= k + String.length s)%nat.
Proof.
  induction (N.lt_wf_0 x) as [x _ IH]. intros k s Hx. destruct (N.eq_dec x 0) as [->|Hx0]; [rewrite pretty_N_go_0; lia|].
  rewrite pretty_N_go_step by lia. destruct k as [|k]; [change (2 ^ N.of_nat 0)%N with 1%N in Hx; lia|].
  assert (x / 10 < 2 ^ N.of_nat k)%N as Hk.
  { rewrite Nat2N.inj_succ, N.pow_succ_r' in Hx. apply N.Div0.div_lt_upper_bound. lia. }
  specialize (IH (x / 10)%N ltac:(apply N.div_lt; lia) k (String (pretty_N_char (x mod 10)) s) Hk). cbn [String.length] in IH. lia.
Qed.
Lemma pretty_Z_length z : Z.abs z < 2 ^ 64 -> blen (str_encode (pretty z)) <= 65.
Proof.
  intros Hz. assert (forall n : N, (n < 2 ^ 64)%N -> (String.length (pretty n) <= 64)%nat) as HN.
  { intros n Hn. unfold pretty, pretty_N. case_decide; [cbn; lia|]. etrans; [apply (pretty_N_length n 64 ""); exact Hn | cbn; lia]. }
  unfold blen, str_encode.
  assert (forall s, length (String.list_byte_of_string s) = String.length s) as Hl.
  { induction s as [|c s IH]; [done|]. cbn. by f_equal. }
  rewrite Hl. destruct z as [|p|p]; [cbn; lia | specialize (HN (Npos p) ltac:(lia)); change (pretty (Zpos p)) with (pretty (Npos p)); lia |].
  specialize (HN (Npos p) ltac:(lia)). change (pretty (Zneg p)) with (String (Ascii.ascii_of_nat 45) (pretty (Npos p))). cbn [String.length]. lia.
Qed.

(** ** The records fit *)

(** Names as the catalog stores them, with room to spare in a log record. *)
Definition name_ok (s : string) : Prop := utf8_valid (str_encode s) = true /\ blen (str_encode s) < 2 ^ 20.

Lemma name_length s : name_ok s -> blen (dump_str s) < 2 ^ 24.
Proof. intros [_ Hl]. pose proof (dump_str_length s). lia. Qed.

Lemma rid_length rid : rid_ok rid -> blen (json_dumps (rid_json rid)) <= 133.
Proof.
  intros [Hp Hi]. destruct rid as [p i]. cbn [page_id slot_id] in *. unfold json_dumps, rid_json.
  cbn [json_text map enclose fmap option_fmap option_map gap commas mbind list_bind app page_id slot_id].
  pose proof (pretty_Z_length p ltac:(lia)). pose proof (pretty_Z_length i ltac:(lia)).
  rewrite !blen_cons, !blen_app, !blen_cons, !blen_app. change (blen (A:=byte) []) with 0. change (blen [x5d]) with 1. lia.
Qed.

(** The text of an object with three or four items. *)
Definition item_text (kv : string * json) : text := dump_str kv.1 ++ colon None ++ json_dumps kv.2.
Lemma object_length l n : Forall (fun kv => blen (item_text kv) <= n) l -> blen (json_dumps (JObj l)) <= (n + 1) * blen l + 2.
Proof.
  intros Hl. unfold json_dumps. cbn [json_text]. change (fmap S None) with (@None nat).
  change (map (fun kv => dump_str kv.1 ++ colon None ++ json_text None kv.2) l) with (map item_text l).
  assert (blen (commas None (map item_text l)) <= (n + 1) * blen l) as Hc.
  { destruct Hl as [|kv l Hkv Hl]; [unfold blen; cbn [map commas length]; lia|]. cbn [map commas gap app]. rewrite blen_app, blen_cons.
    assert (blen (map item_text l ≫= fun u => x2c :: u) <= (n + 1) * blen l); [| pose proof (blen_nonneg (item_text kv)); lia].
    clear Hkv. induction Hl as [|kv' l Hkv' _ IH]; [unfold blen; cbn [map mbind list_bind length]; lia|]. cbn [map]. rewrite bind_cons, blen_app, !blen_cons. lia. }
  destruct l as [|kv l]; [unfold blen; cbn [map enclose length]; lia|]. cbn [map enclose gap app fmap option_fmap option_map] in *.
  rewrite !blen_cons, !blen_app in *. change (blen [x7d]) with 1. lia.
Qed.

Lemma b64_length bs : 3 * blen (str_encode (b64encode bs)) <= 4 * (blen bs + 2).
Proof.
  assert (forall n bs, (length bs <= n)%nat -> (3 * length (b64_chars bs) <= 4 * (length bs + 2))%nat) as Hn.
  { clear. induction n as [|n IH]; intros bs Hl; [destruct bs; cbn in *; lia|].
    destruct bs as [|x [|y [|z bs]]]; cbn [b64_chars length] in *; [lia | lia | lia |]. specialize (IH bs ltac:(lia)). lia. }
  specialize (Hn _ bs (Nat.le_refl _)). unfold blen, str_encode, b64encode.
  assert (forall l, length (String.list_byte_of_string (String.string_of_list_ascii l)) = length l) as ->; [| lia].
  induction l as [|c l IH]; [done|]. cbn. by f_equal.
Qed.

Lemma ascii_utf8 l : forallb (fun c => (Ascii.nat_of_ascii c <? 128)%nat) l = true -> utf8_valid (str_encode (String.string_of_list_ascii l)) = true.
Proof.
  induction l as [|c l IH]; [done|]. cbn [forallb]. intros [Hc Hl]%andb_prop.
  change (str_encode (String.string_of_list_ascii (c :: l))) with (Ascii.byte_of_ascii c :: str_encode (String.string_of_list_ascii l)).
  cbn [utf8_valid]. replace (in_range (Ascii.byte_of_ascii c) 0 0x7F) with true; [by apply IH|].
  clear -Hc. destruct c as [[] [] [] [] [] [] [] []]; first [reflexivity | discriminate Hc].
Qed.

Lemma payload_fits i kind fields : 0 <= i < 2 ^ 32 -> json_ok (payload_of kind fields) = true -> blen fields <= 4 ->
  Forall (fun kv => blen (item_text kv) < 2 ^ 25) (("kind"%string, JStr kind) :: fields) -> loggable i (payload_of kind fields).
Proof.
  intros Hi Hok Hn Hl. constructor; [done | | done]. cbn [en_payload payload_body payload_of]. 
  pose proof (object_length (("kind"%string, JStr kind) :: fields) (2 ^ 25)) as Ho. rewrite blen_cons in Ho.
  eapply Z.le_lt_trans; [apply Ho; eapply Forall_impl; [exact Hl|]; cbv beta; lia | lia].
Qed.

Lemma key_json t key : key_ok t key -> key_size t <= 2 ^ 20 -> json_ok (value_json key) = true /\ blen (json_dumps (value_json key)) < 2 ^ 24.
Proof.
  unfold key_ok. destruct (key_type t), key as [|b|z|f|s]; try done; cbn [value_json json_ok].
  - intros Hz _. split; [done|]. unfold json_dumps. cbn [json_text]. pose proof (pretty_Z_length z ltac:(lia)). lia.
  - intros (Hu & Hl & _) Hs. split; [done|]. unfold json_dumps. cbn [json_text]. pose proof (dump_str_length s). lia.
Qed.

Lemma item_fits k v : blen (dump_str k) <= 100 -> blen (json_dumps v) < 2 ^ 24 -> blen (item_text (k, v)) < 2 ^ 25.
Proof. intros Hk Hv. unfold item_text. rewrite !blen_app. cbn [fst snd colon]. change (blen [x3a]) with 1. lia. Qed.
Lemma rid_item rid : rid_ok rid -> blen (json_dumps (rid_json rid)) < 2 ^ 24.
Proof. intros Hr. pose proof (rid_length rid Hr). lia. Qed.

Create HintDb fits discriminated.
#[export] Hint Resolve item_fits name_length rid_item : fits.

(** Discharges [json_ok] of a record whose strings are known to be valid. *)
Ltac record_ok := cbn [payload_of json_ok forallb fst snd rid_json]; unfold str_ok.

Lemma heap_loggable i tn tup rid : 0 <= i < 2 ^ 32 -> name_ok tn -> blen tup <= PAGE_SIZE -> rid_ok rid -> loggable i (heap_record tn tup rid).
Proof.
  intros Hi Htn Htup Hr. apply payload_fits; [done | | done |].
  - record_ok. by rewrite (proj1 Htn), (ascii_utf8 _ (b64_chars_ascii tup) : utf8_valid (str_encode (b64encode tup)) = true).
  - repeat apply Forall_cons_2; [done | apply item_fits; [done|] .. | apply Forall_nil_2]; [by apply name_length | | by apply rid_item].
    change (blen (dump_str (b64encode tup)) < 2 ^ 24). pose proof (dump_str_length (b64encode tup)). pose proof (b64_length tup). unfold PAGE_SIZE in *. lia.
Qed.
Lemma xmax_loggable i tn rid x : 0 <= i < 2 ^ 32 -> name_ok tn -> rid_ok rid -> 0 <= x < 2 ^ 32 -> loggable i (xmax_record tn rid x).
Proof.
  intros Hi Htn Hr Hx. apply payload_fits; [done | | done |].
  - record_ok. by rewrite (proj1 Htn).
  - repeat apply Forall_cons_2; [done | apply item_fits; [done|] .. | apply Forall_nil_2]; [by apply name_length | by apply rid_item |].
    unfold json_dumps. cbn [json_text]. pose proof (pretty_Z_length x ltac:(lia)). lia.
Qed.
Lemma btree_loggable i tn n t key rid : 0 <= i < 2 ^ 32 -> name_ok tn -> name_ok n -> key_ok t key -> key_size t <= 2 ^ 20 -> rid_ok rid ->
  loggable i (btree_record tn n key rid).
Proof.
  intros Hi Htn Hn Hk Hks Hr. destruct (key_json t key Hk Hks) as [Hj Hl]. apply payload_fits; [done | | done |].
  - record_ok. by rewrite (proj1 Htn), (proj1 Hn), Hj.
  - repeat apply Forall_cons_2; [done | apply item_fits; [done|] .. | apply Forall_nil_2]; [by apply name_length | by apply name_length | done | by apply rid_item].
Qed.

(** * Replay of a record *)

Lemma json_value_json v : json_value (value_json v) = Ok v.
Proof. by destruct v. Qed.
Lemma json_rid_json rid : json_rid (rid_json rid) = Ok rid.
Proof. by destruct rid. Qed.

Section replayed.
Context {S H : Type} `{PageStore S H}.

(** What replay does for each record a statement writes. *)
Definition redo_insert (tn : string) (tup : list byte) : M (Database S) unit :=
  meta ← find_table tn; heap ← open_heap meta; on_object heap (heap_insert tup);; mret tt.
Definition redo_xmax (tn : string) (rid : RID) (x : Z) : M (Database S) unit :=
  meta ← find_table tn; open_heap meta;;
  raw ← on_pool (heap_get rid);
  match raw with
  | None => mret tt
  | Some raw => stamped ← lift_result (with_xmax raw x); on_pool (update_in_place rid stamped);; mret tt
  end.
Definition redo_index (tn n : string) (key : value) (rid : RID) : M (Database S) unit :=
  meta ← find_table tn;
  im ← lift_result (dindex (tb_indexes meta) n);
  tree ← open_index im;
  r ← on_object tree (bt_insert key rid);
  on_catalog (update_index_root (tb_name meta) n (root_page_id r.2)).

Lemma bind_same {A B} (m : M (Database S) A) (f g : A -> M (Database S) B) : (forall a db, f a db = g a db) -> forall db, (m ≫= f) db = (m ≫= g) db.
Proof. intros E db. unfold mbind, M_bind. destruct (m db) as [[a|e] db1]; [apply E | done]. Qed.
Lemma lift_ok_bind {A B} (r : result A) a (k : A -> M (Database S) B) db : r = Ok a -> (lift_result r ≫= k) db = k a db.
Proof. intros ->. done. Qed.

Lemma replays_insert tn tup rid (db : Database S) : apply_recovery_op (heap_record tn tup rid) db = redo_insert tn tup db.
Proof.
  unfold apply_recovery_op, redo_insert. rewrite (lift_ok_bind _ (JStr tn)) by done. rewrite (lift_ok_bind _ tn) by done.
  apply bind_same. intros meta db1. rewrite (lift_ok_bind _ (JStr "heap_insert")) by done. apply bind_same. intros heap db2.
  rewrite (lift_ok_bind _ (JStr (b64encode tup))) by done. rewrite (lift_ok_bind _ (b64encode tup)) by done.
  by rewrite (lift_ok_bind _ tup) by apply b64_roundtrip.
Qed.
Lemma replays_xmax tn rid x (db : Database S) : apply_recovery_op (xmax_record tn rid x) db = redo_xmax tn rid x db.
Proof.
  unfold apply_recovery_op, redo_xmax. rewrite (lift_ok_bind _ (JStr tn)) by done. rewrite (lift_ok_bind _ tn) by done.
  apply bind_same. intros meta db1. rewrite (lift_ok_bind _ (JStr "heap_set_xmax")) by done. apply bind_same. intros heap db2.
  rewrite (lift_ok_bind _ (rid_json rid)) by done. rewrite (lift_ok_bind _ rid) by apply json_rid_json.
  apply bind_same. intros [raw|] db3; [| done]. rewrite (lift_ok_bind _ (JInt x)) by done. by rewrite (lift_ok_bind _ x) by done.
Qed.
Lemma replays_index tn n key rid (db : Database S) : apply_recovery_op (btree_record tn n key rid) db = redo_index tn n key rid db.
Proof.
  unfold apply_recovery_op, redo_index. rewrite (lift_ok_bind _ (JStr tn)) by done. rewrite (lift_ok_bind _ tn) by done.
  apply bind_same. intros meta db1. rewrite (lift_ok_bind _ (JStr "btree_insert")) by done. 
  rewrite (lift_ok_bind _ (JStr n)) by done. rewrite (lift_ok_bind _ n) by done.
  apply bind_same. intros im db2. apply bind_same. intros tree db3.
  rewrite (lift_ok_bind _ (value_json key)) by done. rewrite (lift_ok_bind _ key) by apply json_value_json.
  rewrite (lift_ok_bind _ (rid_json rid)) by done. by rewrite (lift_ok_bind _ rid) by apply json_rid_json.
Qed.
End replayed.
