(* ===== verification/TableWrite.v ===== *)
(** Writing a row version into a table: the unique check, an entry in every
    index, the heap and the log, with every other page left alone. The lemmas
    the statements are verified with. *)
From stdpp Require Import base numbers list gmap strings pretty sets.
From Stdlib Require Import ZArith Lia Strings.Byte.
From S2P Require Import Prelude PyNum Types PyVal Disk PageStore BufferPool HeapPage HeapFile HeapFileProps BTree BTreeNode BTreeRep BTreeSearch BTreeInsert.
From S2P Require Import Json Wal Transaction Ast PyDict Expr Executor ExecutorProps Catalog Planner PlannerProps TableRep Base64 Database LogRecords.

Local Open Scope Z_scope.

(** * Running the parts of a database *)

(** The log of transaction [i] grew by the operations [ops], records all that
    fit; nothing else of the manager changed. *)
Record logged (m : TransactionManager) (i : Z) (ops : list json) (m' : TransactionManager) : Prop := {
  lg_same : m' = set_wal (tm_wal m') m;
  lg_open : wal_open (tm_wal m') = true;
  lg_log : wal_log (tm_wal m') = wal_log (tm_wal m) ++ encode_log (mkEntry Wal.OP i <$> ops);
  lg_ok : Forall (loggable i) ops }.

Lemma logged_nil m i : wal_open (tm_wal m) = true -> logged m i [] m.
Proof. intros Ho. split; [by destruct m | done | by rewrite app_nil_r | done]. Qed.
Lemma logged_trans m1 i a m2 b m3 : logged m1 i a m2 -> logged m2 i b m3 -> logged m1 i (a ++ b) m3.
Proof.
  intros [E1 _ L1 K1] [E2 O2 L2 K2]. split; [rewrite E2, E1; done | done | | by apply Forall_app].
  by rewrite fmap_app, encode_log_app, L2, L1, app_assoc.
Qed.

Section lifting.
Context {S H : Type} {store : PageStore S H}.

Lemma runs_on_pool {A} (p : M S A) s c m (Q : A -> Database S -> Prop) :
  runs p s (fun a s' => Q a (mkDB s' c m)) -> runs (on_pool p) (mkDB s c m) Q.
Proof. intros (a & s' & E & HQ). exists a, (mkDB s' c m). split; [unfold on_pool; cbn; by rewrite E | done]. Qed.
Lemma runs_on_object {T A} (t : T) (p : M (S * T) A) s c m (Q : A * T -> Database S -> Prop) :
  runs p (s, t) (fun a st => Q (a, st.2) (mkDB st.1 c m)) -> runs (on_object t p) (mkDB s c m) Q.
Proof.
  intros (a & st & E & HQ). apply runs_on_pool. exists (a, st.2), st.1. split; [unfold with_object; by rewrite E | done].
Qed.
Lemma runs_find_table tn meta s c m (Q : TableMeta -> Database S -> Prop) :
  get_table c tn = Ok meta -> Q meta (mkDB s c m) -> runs (find_table tn) (mkDB s c m) Q.
Proof. intros E HQ. unfold find_table. rstep. rstep. cbn [db_catalog]. rewrite E. by eapply runs_lift_result. Qed.
Lemma runs_the_txn i t s c m (Q : Transaction -> Database S -> Prop) :
  tm_txns m !! i = Some t -> Q t (mkDB s c m) -> runs (the_txn i) (mkDB s c m) Q.
Proof.
  intros Ht HQ. exists t, (mkDB s c m). split; [| done]. unfold the_txn, on_mgr. cbn [db_txn_mgr]. by rewrite (get_txn_Some _ _ _ Ht).
Qed.
Lemma runs_log i t kind fields s c m (Q : unit -> Database S -> Prop) :
  tm_txns m !! i = Some t -> wal_open (tm_wal m) = true -> loggable (txn_id t) (payload_of kind fields) ->
  (forall m', logged m (txn_id t) [payload_of kind fields] m' -> Q tt (mkDB s c m')) ->
  runs (on_mgr (txn_log_operation i kind fields)) (mkDB s c m) Q.
Proof.
  intros Ht Ho Hl HQ. destruct (append_runs (tm_wal m) _ Ho Hl) as (off & w' & E & _ & Ow & Lw & _).
  exists tt, (mkDB s c (set_wal w' m)). split.
  - unfold on_mgr, txn_log_operation. cbn [db_txn_mgr]. rewrite (bind_ok _ _ _ _ _ (get_txn_Some _ _ _ Ht)).
    unfold mbind, M_bind. rewrite on_wal_eq. unfold log_operation. cbn [en_type en_txn en_payload] in E. unfold payload_of in E. rewrite E. done.
  - apply HQ. split; [done | done | | by apply Forall_singleton]. cbn. by rewrite app_nil_r, Lw.
Qed.

(** A new root in the catalog. *)
Lemma dset_same {A} (d : list (string * A)) k v : dget d k = Some v -> dset d k v = d.
Proof.
  induction d as [|[q w] d IH]; cbn [dget dset]; [done|]. destruct (q =? k)%string eqn:E.
  - apply String.eqb_eq in E as ->. by intros [= ->].
  - intros Hv. by rewrite IH.
Qed.
Lemma dset_middle {A} (d1 d2 : list (string * A)) k v w : k ∉ d1.*1 -> dset (d1 ++ (k, v) :: d2) k w = d1 ++ (k, w) :: d2.
Proof.
  induction d1 as [|[q u] d1 IH]; cbn [app dset fmap list_fmap fst]; [by rewrite String.eqb_refl|].
  intros [Hq Hd]%not_elem_of_cons. destruct (String.eqb_spec q k); [congruence|]. by rewrite IH.
Qed.
Lemma dget_middle {A} (d1 d2 : list (string * A)) k v : k ∉ d1.*1 -> dget (d1 ++ (k, v) :: d2) k = Some v.
Proof.
  induction d1 as [|[q u] d1 IH]; cbn [app dget fmap list_fmap fst]; [by rewrite String.eqb_refl|].
  intros [Hq Hd]%not_elem_of_cons. destruct (String.eqb_spec q k); [congruence|]. by apply IH.
Qed.

(** [c'] is [c] with another entry for the table [tn], and as good on disk. *)
Record with_table (c : Catalog) (tn : string) (meta : TableMeta) (c' : Catalog) : Prop := {
  wt_get : forall n, get_table c' n = if (tn =? n)%string then Ok meta else get_table c n;
  wt_saved : cat_ok c -> cat_ok c' }.
Lemma with_table_refl c tn meta : get_table c tn = Ok meta -> with_table c tn meta c.
Proof. intros E. split; [| done]. intros n. by destruct (String.eqb_spec tn n) as [<-|]. Qed.
Lemma with_table_get c tn meta c' : with_table c tn meta c' -> get_table c' tn = Ok meta.
Proof. intros [E _]. by rewrite E, String.eqb_refl. Qed.
Lemma with_table_trans c tn m1 c1 m2 c2 : with_table c tn m1 c1 -> with_table c1 tn m2 c2 -> with_table c tn m2 c2.
Proof. intros [E1 K1] [E2 K2]. split; [| auto]. intros n. rewrite E2, E1. by destruct (tn =? n)%string. Qed.

Lemma runs_update_root tn meta n im r s c m (Q : unit -> Database S -> Prop) :
  get_table c tn = Ok meta -> dget (tb_indexes meta) n = Some im ->
  (forall c', with_table c tn (set_indexes (dset (tb_indexes meta) n (Catalog.set_root r im)) meta) c' -> Q tt (mkDB s c' m)) ->
  runs (on_catalog (update_index_root tn n r)) (mkDB s c m) Q.
Proof.
  intros Hg Hn HQ. assert (runs (update_index_root tn n r) c (fun _ c' => forall n', get_table c' n' =
    if (tn =? n')%string then Ok (set_indexes (dset (tb_indexes meta) n (Catalog.set_root r im)) meta) else get_table c n')) as ([] & c' & E & Hc).
  - unfold update_index_root. rstep. rstep. cbn [id]. assert (dget (cat_tables c) tn = Some meta) as Ht.
    { unfold get_table in Hg. destruct (dget (cat_tables c) tn); [congruence | done]. }
    rstep. eapply runs_lift_result; [unfold dindex; by rewrite Ht|]. rstep. eapply runs_lift_result; [unfold dindex; by rewrite Hn|].
    destruct (Z.eqb_spec (im_root_page_id im) r) as [<-|]; rstep.
    + apply (wt_get c tn), with_table_refl. rewrite Hg. f_equal. replace (Catalog.set_root _ im) with im by (by destruct im).
      rewrite dset_same by done. by destruct meta.
    + intros n'. apply get_put_table.
  - exists tt, (mkDB s c' m). split; [unfold on_catalog; cbn; by rewrite E|]. apply HQ. split; [done|].
    intros Hok. apply (update_index_root_keeps tn n r) in Hok. by rewrite E in Hok.
Qed.
End lifting.

(** * One index *)

(** The pages a row version can add: one of the heap, and those of an insertion
    into each index. *)
Definition row_growth (pgs : list (list Z)) : Z := 1 + GROWTH * blen pgs.
Lemma row_growth_pos pgs : 1 <= row_growth pgs.
Proof. unfold row_growth, GROWTH. pose proof (blen_nonneg pgs). lia. Qed.
Lemma row_growth_length pgs pgs' : blen pgs' = blen pgs -> row_growth pgs' = row_growth pgs.
Proof. unfold row_growth. by intros ->. Qed.
(** [n] more rows after this one. *)
Lemma row_growth_next pgs n : 0 <= n -> (1 + n) * row_growth pgs = row_growth pgs + n * row_growth pgs /\ 0 <= n * row_growth pgs.
Proof. intros Hn. split; [lia|]. pose proof (row_growth_pos pgs). by apply Z.mul_nonneg_nonneg; [| lia]. Qed.

Section index.
Context {S H : Type} {store : PageStore S H} {core : PageStoreCore S H}.

(** The versions an index lists under [key]. *)
Definition under_key (sch : Schema) (im : IndexMeta) (key : value) (rows : list (RID * list byte)) : list (RID * list byte) :=
  filter (fun x => index_key sch im x.2 = key) rows.

Lemma index_tree_root r im : index_tree (Catalog.set_root r im) = BTree.set_root r (index_tree im).
Proof. done. Qed.

Lemma entries_insert_perm key rid es : entries_insert key rid es ≡ₚ (key, rid) :: es.
Proof. unfold entries_insert. rewrite <- Permutation_middle. by rewrite take_drop. Qed.

Lemma blen_under im sch key rows ls : entries ls ≡ₚ keyed sch im rows ->
  blen (filter (fun e => e.1 = key) (entries ls)) = blen (under_key sch im key rows).
Proof.
  intros He. unfold blen. rewrite He. f_equal. unfold under_key, keyed. clear He. induction rows as [|x rows IH]; [done|].
  cbn [fmap list_fmap]. rewrite !filter_cons. cbn [fst]. case_decide; cbn [length]; by rewrite IH.
Qed.

(** What one insertion into an index leaves. *)
Record index_grew (s : S) (rows : list (RID * list byte)) (sch : Schema) (im : IndexMeta) (pg : list Z) (x : RID * list byte)
    (s' : S) (im' : IndexMeta) (pg' : list Z) : Prop := {
  ig_root : im' = Catalog.set_root (im_root_page_id im') im;
  ig_on : index_on (ps_view s') (x :: rows) sch im' pg';
  ig_idle : idle s';
  ig_cap : ps_cap s' = ps_cap s;
  ig_nodup : NoDup pg';
  ig_pages : forall q, q ∈ pg' -> q ∈ pg \/ ps_count s <= q < ps_count s';
  ig_count : ps_count s <= ps_count s' <= ps_count s + GROWTH;
  ig_frame : forall q, q ∉ pg -> q < ps_count s -> ps_view s' !! q = ps_view s !! q }.

Lemma bt_insert_index rows sch im pg rid raw (s : S) :
  idle s -> index_on (ps_view s) rows sch im pg -> ps_count s + GROWTH <= INVALID_PAGE_ID ->
  key_ok (index_tree im) (index_key sch im raw) -> blen (under_key sch im (index_key sch im raw) rows) < max_leaf_keys (index_tree im) ->
  rid_ok rid ->
  runs (bt_insert (index_key sch im raw) rid) (s, index_tree im) (fun _ st => exists im' pg',
    snd st = index_tree im' /\ root_page_id (snd st) = im_root_page_id im' /\ index_grew s rows sch im pg (rid, raw) (fst st) im' pg').
Proof.
  intros Hs (Hn & ls & Ht & He) Hc Hk Hdup Hrid.
  eapply runs_mono; [eapply (bt_insert_runs _ _ rid s ls pg Ht); try done; [by apply idle_room; [| lia] | by rewrite (blen_under im sch _ rows ls He)]|].
  intros _ [s' t'] (Hcount & ls' & [Hroot (pg' & Ht' & Hpg') Hi Hp Hcap HN Hfr] & He'). cbn [fst snd] in *.
  exists (Catalog.set_root (root_page_id t') im), pg'. split_and!; [by rewrite index_tree_root | done |].
  constructor; try done.
  - split; [done|]. exists ls'. rewrite index_tree_root, <- Hroot. split; [done|]. rewrite He', entries_insert_perm. unfold keyed. cbn [fmap list_fmap fst snd].
    change (index_key sch (Catalog.set_root (root_page_id t') im)) with (index_key sch im). by constructor.
  - destruct Hs as [_ P C]. split; [done | congruence | lia].
  - apply Ht'.
Qed.

Lemma index_pages_lt (s : S) rows sch im pg q : ps_inv s -> index_on (ps_view s) rows sch im pg -> q ∈ pg -> q < ps_count s.
Proof. intros Hi (_ & ls & [_ [h Hs] _ _] & _) Hq. by eapply subtree_lt. Qed.
End index.

(** * The unique check *)

Section statements.
Context {S H : Type} {store : PageStore S H} {spec : PageStoreSpec S H}.

(** The version [x] stands in the way of another row with its key. *)
Definition conflicts (mgr : TransactionManager) (snap : Snapshot) (ex : option RID) (x : RID * list byte) : Prop :=
  Some x.1 <> ex /\ exists h, unpack_tuple_header x.2 = Ok h /\ is_visible mgr h.1 h.2 snap = true.
Definition stamped_row (x : RID * list byte) : Prop := exists h, unpack_tuple_header x.2 = Ok h.

Lemma check_entries_ok snap ex xs hf ps (s : S) c m :
  idle s -> heap_ok (ps_view s) hf ps ->
  Forall (fun x => heap_tuple (ps_view s) ps x.1 = Some x.2 /\ stamped_row x) xs ->
  exists s', keeps s s' /\ 
    ((~ Exists (conflicts m snap ex) xs /\ check_entries snap ex xs.*1 (mkDB s c m) = (Ok tt, mkDB s' c m)) \/
     (Exists (conflicts m snap ex) xs /\ check_entries snap ex xs.*1 (mkDB s c m) = (Raise DuplicateKeyError, mkDB s' c m))).
Proof.
  intros Hs Hok Hxs. revert s Hs Hok Hxs. induction xs as [|[rid raw] xs IH]; intros s Hs Hok Hxs.
  { exists s. split; [apply keeps_refl, Hs|]. left. split; [by intros ?%Exists_nil | done]. }
  apply Forall_cons in Hxs as [[Hx [h Hh]] Hxs]. cbn [fst snd] in Hx, Hh. cbn [fmap list_fmap fst check_entries].
  case_bool_decide as Eex.
  - destruct (IH s Hs Hok Hxs) as (s' & Hk & Hcase). exists s'. split; [done|].
    destruct Hcase as [[Hno E]|[Hyes E]]; [left | right]; (split; [| exact E]).
    + intros [[Hne _]|Hex]%Exists_cons; [by apply Hne | by apply Hno].
    + by apply Exists_cons_tl.
  - pose proof Hx as Hx'. apply heap_rows_spec, heap_row_place in Hx' as (_ & Hp & Hi); [| apply Hok | apply Hok].
    destruct (heap_get_runs s hf ps rid Hok (idle_room s ps 1 Hs ltac:(lia)) Hp Hi) as (t & s1 & Eg & -> & Hk1).
    assert (on_pool (heap_get rid) (mkDB s c m) = (Ok (Some raw), mkDB s1 c m)) as Ep.
    { unfold on_pool. cbn [db_pool]. by rewrite Eg, Hx. }
    rewrite (bind_ok _ _ _ _ _ Ep). cbv iota. rewrite Hh. mstep. cbn [db_txn_mgr].
    destruct (is_visible m h.1 h.2 snap) eqn:Ev.
    + exists s1. split; [done|]. right. split; [| done]. apply Exists_cons_hd. split; [done | by exists h].
    + pose proof Hk1 as (_ & V1 & _). rewrite <- V1 in Hok, Hxs. destruct (IH s1 (idle_keeps _ _ Hs Hk1) Hok Hxs) as (s' & Hk & Hcase).
      exists s'. split; [by eapply keeps_trans|]. destruct Hcase as [[Hno E]|[Hyes E]]; [left | right]; (split; [| exact E]).
      * intros [[_ (h' & Hh' & Hv)]|Hex]%Exists_cons; [cbn in Hh'; congruence | by apply Hno].
      * by apply Exists_cons_tl.
Qed.

Lemma open_index_ok im V rows sch pg (s : S) c m : index_on V rows sch im pg -> open_index im (mkDB s c m) = (Ok (index_tree im), mkDB s c m).
Proof.
  intros (_ & ls & [Hwf _ _ _] & _). pose proof (tw_key _ Hwf) as Hk. cbn [index_tree tree_params key_type] in Hk.
  unfold open_index, on_pool, bt_init. replace (negb _) with false by (by destruct Hk as [[-> _]|[-> _]]). done.
Qed.

Lemma search_rows im rows sch pg key (s : S) :
  idle s -> index_on (ps_view s) rows sch im pg -> key_ok (index_tree im) key ->
  exists xs s', bt_search (index_tree im) key s = (Ok xs.*1, s') /\ keeps s s' /\ xs ≡ₚ under_key sch im key rows.
Proof.
  intros Hs (Hn & ls & Ht & He) Hk.
  destruct (bt_search_runs (index_tree im) key s ls pg Ht (idle_room s pg 1 Hs ltac:(lia)) (key_ok_probe _ _ Hk)) as (rs & s' & E & -> & Hk').
  assert ((filter (fun e => e.1 = key) (entries ls)).*2 ≡ₚ (under_key sch im key rows).*1) as Hp.
  { rewrite He. unfold under_key, keyed. clear. induction rows as [|x rows IH]; [done|].
    cbn [fmap list_fmap]. rewrite !filter_cons. cbn [fst]. case_decide; cbn [fmap list_fmap snd]; by rewrite IH. }
  apply Permutation_map_inv in Hp as (xs & Exs & Hxs).
  exists xs, s'. rewrite E. split_and!; [by rewrite Exs | done | done].
Qed.

Definition sound_rows (V : gmap Z (list byte)) (ps : list Z) (rows : list (RID * list byte)) : Prop :=
  Forall (fun x => heap_tuple V ps x.1 = Some x.2 /\ stamped_row x) rows.

Lemma check_unique_runs txn t im rows sch pg key ex hf ps (s : S) c m :
  idle s -> heap_ok (ps_view s) hf ps -> sound_rows (ps_view s) ps rows -> index_on (ps_view s) rows sch im pg ->
  key_ok (index_tree im) key -> tm_txns m !! txn = Some t ->
  let clash := im_unique im = true /\ Exists (conflicts m (snapshot t) ex) (under_key sch im key rows) in
  exists s', keeps s s' /\
    ((~ clash /\ check_unique_constraint txn im key ex (mkDB s c m) = (Ok tt, mkDB s' c m)) \/
     (clash /\ check_unique_constraint txn im key ex (mkDB s c m) = (Raise DuplicateKeyError, mkDB s' c m))).
Proof.
  intros Hs Hok Hrows Hix Hk Ht clash. unfold check_unique_constraint, clash. destruct (im_unique im); cbn [negb].
  2: { exists s. split; [apply keeps_refl, Hs|]. left. split; [by intros [? _] | done]. }
  destruct (search_rows im rows sch pg key s Hs Hix Hk) as (xs & s1 & Es & Hk1 & Hxs). pose proof Hk1 as (_ & V1 & _).
  rewrite (bind_ok _ _ _ _ _ (open_index_ok im _ rows sch pg s c m Hix)).
  rewrite (bind_ok _ _ _ xs.*1 (mkDB s1 c m)) by (unfold on_pool; cbn [db_pool]; by rewrite Es).
  rewrite (bind_ok _ _ _ t (mkDB s1 c m)) by (unfold the_txn, on_mgr; cbn [db_txn_mgr]; by rewrite (get_txn_Some _ _ _ Ht)).
  rewrite <- V1 in Hok, Hrows.
  destruct (check_entries_ok (snapshot t) ex xs hf ps s1 c m (idle_keeps _ _ Hs Hk1) Hok) as (s' & Hk' & Hcase).
  { rewrite Hxs. unfold under_key. apply Forall_forall. intros x [_ Hx]%list_elem_of_filter. unfold sound_rows in Hrows. rewrite Forall_forall in Hrows. auto. }
  assert (Exists (conflicts m (snapshot t) ex) xs <-> Exists (conflicts m (snapshot t) ex) (under_key sch im key rows)) as Hiff.
  { rewrite !Exists_exists. by setoid_rewrite Hxs. }
  exists s'. split; [by eapply keeps_trans|]. destruct Hcase as [[Hno E]|[Hyes E]]; [left | right]; (split; [| exact E]); tauto.
Qed.

(** * An entry into every index *)

(** The index [im] can take [raw], a version with [key], beside [rows]. *)
Record takes (m : TransactionManager) (snap : Snapshot) (ex : option RID) (sch : Schema) (rows : list (RID * list byte)) (im : IndexMeta) (raw : list byte) (key : value) : Prop := {
  tk_key : index_key sch im raw = key;
  tk_fits : key_ok (index_tree im) key;
  tk_room : blen (under_key sch im key rows) < max_leaf_keys (index_tree im);
  tk_unique : im_unique im = true -> ~ Exists (conflicts m snap ex) (under_key sch im key rows) }.

Lemma index_key_size im : key_size (index_tree im) <= 2 ^ 20.
Proof. unfold index_tree, tree_params. cbn [key_size]. by case_bool_decide. Qed.

Section transaction.
Context (txn : Z) (t : Transaction) (Hid : 0 <= txn_id t < 2 ^ 32).

Lemma insert_into_index_runs tn meta n im rows pg hf ps rid raw key vm ex (s : S) c m :
  idle s -> get_table c tn = Ok meta -> tb_name meta = tn -> dget (tb_indexes meta) n = Some im ->
  heap_ok (ps_view s) hf ps -> sound_rows (ps_view s) ps rows -> index_on (ps_view s) rows (tb_schema meta) im pg ->
  ps_count s + GROWTH <= INVALID_PAGE_ID -> rid_ok rid -> dget vm (im_column im) = Some key ->
  takes m (snapshot t) ex (tb_schema meta) rows im raw key ->
  name_ok tn -> name_ok n -> tm_txns m !! txn = Some t -> wal_open (tm_wal m) = true ->
  runs (insert_into_index txn tn vm rid ex n) (mkDB s c m) (fun _ db' => exists s' c' m' im' pg', db' = mkDB s' c' m' /\
    index_grew s rows (tb_schema meta) im pg (rid, raw) s' im' pg' /\
    with_table c tn (set_indexes (dset (tb_indexes meta) n im') meta) c' /\
    logged m (txn_id t) [btree_record tn n key rid] m').
Proof using spec Hid.
  intros Hs Hg Htn Hn Hok Hrows Hix Hcount Hrid Hvm [<- Hfits Hroom Huniq] Hnt Hnn Ht Ho. unfold insert_into_index. rstep.
  eapply runs_find_table; [exact Hg|]. rstep. eapply runs_lift_result; [unfold dindex; by rewrite Hn|].
  rstep. eapply runs_lift_result; [unfold dindex; by rewrite Hvm|]. rstep.
  destruct (check_unique_runs txn t im rows (tb_schema meta) pg _ ex hf ps s c m Hs Hok Hrows Hix Hfits Ht) as (s1 & Hk1 & [[_ E]|[[Hu Hex] _]]);
    [| by destruct (Huniq Hu Hex)].
  apply (runs_eq _ _ _ _ _ E). pose proof Hk1 as (I1 & V1 & P1 & C1 & N1). rewrite <- V1 in Hix. rewrite <- N1 in Hcount.
  rstep. apply (runs_eq _ _ _ _ _ (open_index_ok im _ rows _ pg s1 c m Hix)). rstep.
  apply runs_on_object. eapply runs_mono; [eapply (bt_insert_index rows (tb_schema meta) im pg rid raw s1 (idle_keeps _ _ Hs Hk1) Hix Hcount Hfits Hroom Hrid)|].
  intros [] [s2 t2] (im' & pg' & _ & Er & Hgrew). cbn [fst snd] in *. rewrite Er, Htn. rstep.
  eapply runs_update_root; [exact Hg | exact Hn |]. intros c' Hc'. rewrite <- (ig_root _ _ _ _ _ _ _ _ _ Hgrew) in Hc'.
  eapply runs_log; [exact Ht | exact Ho | exact (btree_loggable _ tn n _ _ rid Hid Hnt Hnn Hfits (index_key_size im) Hrid) |]. intros m' Hm'. exists s2, c', m', im', pg'. split_and!; [done | | done | done].
  destruct Hgrew as [? ? ? ? ? ? ? Hfr]. rewrite N1, C1 in *. constructor; try done. intros q Hq Hl. by rewrite Hfr, V1.
Qed.

Lemma mjoin_cons {A} (l : list A) ls : mjoin (l :: ls) = l ++ mjoin ls.
Proof. done. Qed.

(** Same index, another root. *)
Definition rerooted (p p' : string * IndexMeta) : Prop := p'.1 = p.1 /\ exists r, p'.2 = Catalog.set_root r p.2.

Definition index_records (tn : string) (vm : list (string * value)) (rid : RID) (ims : list (string * IndexMeta)) : list json :=
  (fun p : string * IndexMeta => btree_record tn p.1 (default VNone (dget vm (im_column p.2))) rid) <$> ims.

(** All of [ims] can take the version [raw] with the values [vm]. *)
Definition all_take (m : TransactionManager) (ex : option RID) (sch : Schema) (rows : list (RID * list byte)) (raw : list byte)
    (vm : list (string * value)) (ims : list (string * IndexMeta)) : Prop :=
  Forall (fun p : string * IndexMeta => exists key, dget vm (im_column p.2) = Some key /\ takes m (snapshot t) ex sch rows p.2 raw key) ims.

(** The manager matters only through its aborted transactions. *)
Lemma all_take_logged m i ops m' ex sch rows raw vm ims : logged m i ops m' ->
  all_take m ex sch rows raw vm ims -> all_take m' ex sch rows raw vm ims.
Proof.
  intros [-> _ _] Ha. eapply Forall_impl; [exact Ha|]. intros p (key & Hk & []). exists key. split; done.
Qed.

Record indexes_grew (s : S) (sch : Schema) (rows' : list (RID * list byte)) (ims : list (string * IndexMeta)) (pgs : list (list Z))
    (s' : S) (ims' : list (string * IndexMeta)) (pgs' : list (list Z)) : Prop := {
  xg_roots : Forall2 rerooted ims ims';
  xg_on : Forall2 (fun (p : string * IndexMeta) pg => index_on (ps_view s') rows' sch p.2 pg) ims' pgs';
  xg_idle : idle s';
  xg_cap : ps_cap s' = ps_cap s;
  xg_nodup : NoDup (mjoin pgs');
  xg_pages : forall q, q ∈ mjoin pgs' -> q ∈ mjoin pgs \/ ps_count s <= q < ps_count s';
  xg_count : ps_count s <= ps_count s' <= ps_count s + GROWTH * blen pgs;
  xg_frame : forall q, q ∉ mjoin pgs -> q < ps_count s -> ps_view s' !! q = ps_view s !! q }.

Lemma indexes_pages_lt (s : S) rows sch ims pgs q : ps_inv s -> Forall2 (fun (p : string * IndexMeta) pg => index_on (ps_view s) rows sch p.2 pg) ims pgs ->
  q ∈ mjoin pgs -> q < ps_count s.
Proof.
  intros Hi Hix Hq. induction Hix as [|p pg ims pgs Hp _ IH]; [by apply not_elem_of_nil in Hq|].
  rewrite mjoin_cons in Hq. apply elem_of_app in Hq as [Hq|Hq]; [by eapply index_pages_lt | by apply IH].
Qed.
Lemma heap_pages_lt (s : S) hf ps q : ps_inv s -> heap_ok (ps_view s) hf ps -> q ∈ ps -> q < ps_count s.
Proof. intros Hi Hok Hq. apply view_lt; [done|]. eapply chain_view; [apply Hok | done]. Qed.
Lemma sound_rows_frame V V' ps rows : (forall q, q ∈ ps -> V' !! q = V !! q) -> sound_rows V ps rows -> sound_rows V' ps rows.
Proof. intros Hv Hr. eapply Forall_impl; [exact Hr|]. intros x [Hx ?]. by rewrite (heap_tuple_frame V V'). Qed.

Lemma indexes_on_frame V V' rows sch ims pgs : (forall q, q ∈ mjoin pgs -> V' !! q = V !! q) ->
  Forall2 (fun (p : string * IndexMeta) pg => index_on V rows sch p.2 pg) ims pgs ->
  Forall2 (fun (p : string * IndexMeta) pg => index_on V' rows sch p.2 pg) ims pgs.
Proof.
  intros Hv Hon. induction Hon as [|p pg ims pgs Hp _ IH]; constructor.
  - eapply index_on_frame; [| exact Hp]. intros q Hq. apply Hv. rewrite mjoin_cons. apply elem_of_app. by left.
  - apply IH. intros q Hq. apply Hv. rewrite mjoin_cons. apply elem_of_app. by right.
Qed.

Lemma into_each_runs tn hf ps rows rid raw vm ex sch : forall todo dn rest pgs (s : S) c m meta,
  idle s -> get_table c tn = Ok meta -> tb_name meta = tn -> tb_schema meta = sch -> tb_indexes meta = dn ++ todo ++ rest -> dict_wf (dn ++ todo ++ rest) ->
  heap_ok (ps_view s) hf ps -> sound_rows (ps_view s) ps rows ->
  Forall2 (fun (p : string * IndexMeta) pg => index_on (ps_view s) rows sch p.2 pg) todo pgs -> NoDup (ps ++ mjoin pgs) ->
  ps_count s + GROWTH * blen pgs <= INVALID_PAGE_ID -> rid_ok rid ->
  all_take m ex sch rows raw vm todo -> name_ok tn -> Forall (fun p : string * IndexMeta => name_ok p.1) todo -> tm_txns m !! txn = Some t -> wal_open (tm_wal m) = true ->
  runs (insert_into_each txn tn vm rid ex todo.*1) (mkDB s c m) (fun _ db' => exists s' c' m' todo' pgs', db' = mkDB s' c' m' /\
    indexes_grew s sch ((rid, raw) :: rows) todo pgs s' todo' pgs' /\
    with_table c tn (set_indexes (dn ++ todo' ++ rest) meta) c' /\ logged m (txn_id t) (index_records tn vm rid todo) m').
Proof.
  intros todo. induction todo as [|[n im] todo IH]; intros dn rest pgs s c m meta Hs Hg Htn Hsch Hix Hd Hok Hrows Hon Hnd Hcount Hrid Htake Hnt Hnn Ht Ho.
  { apply Forall2_nil_inv_l in Hon as ->. cbn [fmap list_fmap insert_into_each]. rstep. exists s, c, m, [], []. split_and!; [done | | | by apply logged_nil].
    - constructor; try done; [by apply NoDup_nil | by left | change (blen (@nil (list Z))) with 0; lia].
    - rewrite <- Hix. apply with_table_refl. rewrite Hg. by destruct meta. }
  apply Forall2_cons_inv_l in Hon as (pg & pgs' & Hpg & Hon & ->). apply Forall_cons in Htake as [(key & Hvm & Htk) Htake]. apply Forall_cons in Hnn as [Hn1 Hnn]. cbn [fst snd] in *.
  rewrite mjoin_cons in *. rewrite blen_cons in *. pose proof (blen_nonneg pgs'). unfold GROWTH in *.
  assert (n ∉ dn.*1) as Hn.
  { unfold dict_wf in Hd. rewrite fmap_app in Hd. apply NoDup_app in Hd as (_ & Hd & _). intros Hx. eapply Hd; [exact Hx | left]. }
  apply NoDup_app in Hnd as (Hndp & Hdisj & Hndx). apply NoDup_app in Hndx as (Hndg & Hdisj2 & Hndr).
  cbn [fmap list_fmap fst insert_into_each]. rstep.
  eapply runs_mono; [eapply (insert_into_index_runs tn meta n im rows pg hf ps rid raw key vm ex s c m); try done;
    [rewrite Hix; cbn [app]; by apply dget_middle | by rewrite Hsch | unfold GROWTH; lia | by rewrite Hsch]|].
  intros [] db1 (s1 & c1 & m1 & im1 & pg1 & -> & [Gr Gon Gi Gc Gnd Gp Gn Gf] & Hc1 & Hm1). rewrite Hsch in *. rewrite Hix in Hc1. cbn [app] in Hc1. rewrite dset_middle in Hc1 by done.
  set (meta1 := set_indexes (dn ++ (n, im1) :: todo ++ rest) meta) in *.
  assert (forall q, q ∈ ps ++ mjoin pgs' -> q < ps_count s) as Hlt.
  { intros q [Hq|Hq]%elem_of_app; [eapply heap_pages_lt; [apply Hs | exact Hok | done] | eapply indexes_pages_lt; [apply Hs | exact Hon | done]]. }
  assert (forall q, q ∈ ps ++ mjoin pgs' -> ps_view s1 !! q = ps_view s !! q) as Hfr.
  { intros q Hq. apply Gf; [| by apply Hlt]. intros Hq1. apply elem_of_app in Hq as [Hq|Hq]; [apply (Hdisj q Hq) | apply (Hdisj2 q Hq1 Hq)].
    apply elem_of_app. by left. }
  assert (forall q, q ∈ ps -> ps_view s1 !! q = ps_view s !! q) as Hfrh by (intros q Hq; apply Hfr, elem_of_app; by left).
  pose proof (lg_same _ _ _ _ Hm1) as Em1.
  eapply runs_mono; [eapply (IH (dn ++ [(n, im1)]) rest pgs' s1 c1 m1 meta1); try done|].
  - by apply (with_table_get c tn).
  - by rewrite <- app_assoc.
  - unfold dict_wf in *. rewrite <- app_assoc. rewrite !fmap_app in *. cbn [app fmap list_fmap fst] in *. done.
  - by apply (heap_ok_frame (ps_view s)).
  - by apply (sound_rows_frame (ps_view s)).
  - eapply indexes_on_frame; [| exact Hon]. intros q Hq. apply Hfr, elem_of_app. by right.
  - apply NoDup_app. split_and!; [done | | done]. intros q Hq Hq'. apply (Hdisj q Hq), elem_of_app. by right.
  - unfold GROWTH in *; lia.
  - by eapply all_take_logged.
  - rewrite Em1. exact Ht.
  - apply (lg_open _ _ _ _ Hm1).
  - intros [] db2 (s2 & c2 & m2 & todo' & pgs2 & -> & [Xr Xon Xi Xc Xnd Xp Xn Xf] & Hc2 & Hm2).
    assert (forall q, q ∈ pg1 -> (q ∉ mjoin pgs') /\ q < ps_count s1) as Hpg1.
    { intros q Hq. destruct (Gp q Hq) as [Hq'|Hq']; split.
      - by apply Hdisj2.
      - eapply Z.lt_le_trans; [eapply index_pages_lt; [apply Hs | exact Hpg | done] | lia].
      - intros Hq2. specialize (Hlt q ltac:(apply elem_of_app; by right)). lia.
      - lia. }
    exists s2, c2, m2, ((n, im1) :: todo'), (pg1 :: pgs2). split_and!; [done | | |].
    + constructor; try done.
      * constructor; [split; [done|]; cbn; eauto | done].
      * constructor; [| done]. cbn [snd]. eapply index_on_frame; [| exact Gon]. intros q Hq. destruct (Hpg1 q Hq). by apply Xf.
      * congruence.
      * rewrite ?mjoin_cons. apply NoDup_app. split_and!; [done | | done]. intros q Hq Hq2. destruct (Hpg1 q Hq) as [Hq3 Hq4].
        destruct (Xp q Hq2); [done | lia].
      * intros q. rewrite !mjoin_cons, !elem_of_app. intros [Hq|Hq]; [destruct (Gp q Hq); [tauto | lia] | destruct (Xp q Hq); [tauto | lia]].
      * unfold GROWTH in *. rewrite ?blen_cons. lia.
      * intros q Hq Hl. rewrite mjoin_cons in Hq. apply not_elem_of_app in Hq as [Hq1 Hq2]. rewrite Xf by (done || lia). by apply Gf.
    + rewrite <- app_assoc in Hc2. cbn [app] in Hc2. eapply with_table_trans; [exact Hc1 | exact Hc2].
    + unfold index_records. cbn [fmap list_fmap fst snd]. rewrite Hvm. cbn [default]. apply (logged_trans _ _ [_] m1); done.
Qed.
(** * A row version *)

(** The transaction a statement runs in. *)
Record live (m : TransactionManager) : Prop := {
  lv_txn : tm_txns m !! txn = Some t;
  lv_open : wal_open (tm_wal m) = true }.

(** The table [tn] between two operations. *)
Record table_state (s : S) (c : Catalog) (tn : string) (meta : TableMeta) (ps : list Z) (pgs : list (list Z)) (rows : list (RID * list byte)) : Prop := {
  ts_idle : idle s;
  ts_get : get_table c tn = Ok meta;
  ts_name : tb_name meta = tn;
  ts_on : table_on (ps_view s) meta ps pgs rows;
  ts_stamped : Forall stamped_row rows;
  ts_name_ok : name_ok tn;
  ts_index_names : Forall (fun p : string * IndexMeta => name_ok p.1) (tb_indexes meta) }.

(** The same table, but for the roots of its indexes. *)
Record same_table (meta meta' : TableMeta) : Prop := {
  st_name : tb_name meta' = tb_name meta;
  st_schema : tb_schema meta' = tb_schema meta;
  st_first : tb_heap_first_page_id meta' = tb_heap_first_page_id meta;
  st_indexes : Forall2 rerooted (tb_indexes meta) (tb_indexes meta') }.

(** What was written: the table's pages and new ones, the table's entry in the
    catalog, and the records [ops] of this transaction. *)
Record wrote (s : S) (c : Catalog) (m : TransactionManager) (tn : string) (meta : TableMeta) (ps : list Z) (pgs : list (list Z)) (ops : list json)
    (s' : S) (c' : Catalog) (m' : TransactionManager) (meta' : TableMeta) (ps' : list Z) (pgs' : list (list Z)) : Prop := {
  wr_table : same_table meta meta';
  wr_catalog : with_table c tn meta' c';
  wr_log : logged m (txn_id t) ops m';
  wr_pages : forall q, q ∈ ps' ++ mjoin pgs' -> q ∈ ps ++ mjoin pgs \/ ps_count s <= q < ps_count s';
  wr_frame : forall q, q ∉ ps ++ mjoin pgs -> q < ps_count s -> ps_view s' !! q = ps_view s !! q;
  wr_count : ps_count s <= ps_count s' }.

Lemma rerooted_refl ims : Forall2 rerooted ims ims.
Proof. induction ims as [|[n im] ims IH]; constructor; [split; [done|]; exists (im_root_page_id im); by destruct im | done]. Qed.
Lemma rerooted_names ims ims' : Forall2 rerooted ims ims' -> ims'.*1 = ims.*1.
Proof. induction 1 as [|p p' l l' [E _] _ IH]; [done|]. cbn [fmap list_fmap]. by f_equal. Qed.
Lemma rerooted_trans l1 l2 l3 : Forall2 rerooted l1 l2 -> Forall2 rerooted l2 l3 -> Forall2 rerooted l1 l3.
Proof.
  intros H1. revert l3. induction H1 as [|p p' l l' [E (r & Er)] _ IH]; intros l3 H2; [by inversion H2|].
  apply Forall2_cons_inv_l in H2 as (p3 & l3' & [E3 (r3 & Er3)] & H2 & ->). constructor; [| by apply IH].
  split; [congruence|]. exists r3. by rewrite Er3, Er.
Qed.
Lemma same_table_refl meta : same_table meta meta.
Proof. split; [done.. | apply rerooted_refl]. Qed.
Lemma same_table_trans m1 m2 m3 : same_table m1 m2 -> same_table m2 m3 -> same_table m1 m3.
Proof. intros [] []. split; [congruence.. |]. by eapply rerooted_trans. Qed.

Lemma wrote_refl s c m tn meta ps pgs : get_table c tn = Ok meta -> wal_open (tm_wal m) = true -> wrote s c m tn meta ps pgs [] s c m meta ps pgs.
Proof. intros Hg Ho. split; [apply same_table_refl | by apply with_table_refl | by apply logged_nil | by left | done | lia]. Qed.
Lemma wrote_trans s c m tn meta ps pgs ops s1 c1 m1 meta1 ps1 pgs1 ops1 s2 c2 m2 meta2 ps2 pgs2 :
  wrote s c m tn meta ps pgs ops s1 c1 m1 meta1 ps1 pgs1 -> wrote s1 c1 m1 tn meta1 ps1 pgs1 ops1 s2 c2 m2 meta2 ps2 pgs2 ->
  wrote s c m tn meta ps pgs (ops ++ ops1) s2 c2 m2 meta2 ps2 pgs2.
Proof.
  intros [T1 C1 L1 P1 F1 N1] [T2 C2 L2 P2 F2 N2]. split; [by eapply same_table_trans | by eapply with_table_trans | by eapply logged_trans | | | lia].
  - intros q Hq. destruct (P2 q Hq) as [Hq1|]; [destruct (P1 q Hq1); [by left | right; lia] | right; lia].
  - intros q Hq Hl. rewrite F2; [by apply F1 | | lia]. intros Hq1. destruct (P1 q Hq1); [done | lia].
Qed.
Lemma live_logged m i ops m' : live m -> logged m i ops m' -> live m'.
Proof. intros [Ht Ho] [E O _]. split; [by rewrite E | done]. Qed.

(** A tuple that fits in a page, made by this transaction. *)
Definition version_of (sch : Schema) (vs : list value) (tup : list byte) : Prop :=
  exists payload, encode_row vs sch = Ok payload /\ pack_tuple (txn_id t) INFINITY_TXN payload = Ok tup /\ HEADER_SIZE + SLOT_SIZE + blen tup <= PAGE_SIZE.

Lemma version_stamped sch vs tup rid : version_of sch vs tup -> stamped_row (rid, tup).
Proof. intros (p & _ & E & _). exists (txn_id t, INFINITY_TXN). by eapply unpack_pack_tuple. Qed.

Section add_version.
Context (tn : string) (meta : TableMeta) (hf : HeapFile) (ps : list Z) (pgs : list (list Z)) (rows : list (RID * list byte)).
Context (s : S) (c : Catalog) (m : TransactionManager) (Hst : table_state s c tn meta ps pgs rows) (Hok : heap_ok (ps_view s) hf ps).
Context (Hlive : live m).

Lemma heap_insert_state tup : HEADER_SIZE + SLOT_SIZE + blen tup <= PAGE_SIZE -> ps_count s < INVALID_PAGE_ID ->
  runs (heap_insert tup) (s, hf) (fun rid st => exists ps', let s' := fst st in
    heap_ok (ps_view s') (snd st) ps' /\ idle s' /\ rid_ok rid /\ sound_rows (ps_view s') ps' rows /\ (rid, tup) :: rows ≡ₚ heap_rows (ps_view s') ps' /\
    Forall2 (fun (p : string * IndexMeta) pg => index_on (ps_view s') rows (tb_schema meta) p.2 pg) (tb_indexes meta) pgs /\
    NoDup (ps' ++ mjoin pgs) /\ head ps' = head ps /\ (ps' = ps \/ ps' = ps ++ [ps_count s]) /\
    ps_count s <= ps_count s' <= ps_count s + 1 /\ (forall q, q ∉ ps' -> ps_view s' !! q = ps_view s !! q)).
Proof using Hst Hok.
  intros Hfit Hcount. destruct Hst as [Hs Hg Hn [Hc Hnd Hids Hf Hpn Hd Hr Hix] Hsr Hno Hin].
  pose proof (id_inv _ Hs) as Hinv.
  eapply runs_mono; [apply (heap_insert_runs s hf ps); try done; by apply idle_room|]. intros rid [s' hf'] (ps' & Hins). cbn [fst snd] in *.
  pose proof Hins as [(Hok' & Hps & Hnone & Htup & Hfr) (Hi' & Hp' & Hc')].
  assert (0 <= ps_count s) as H0.
  { destruct ps as [|p ps0]; [inversion Hc|]. pose proof (chain_view _ _ p Hc ltac:(left)) as Hp. apply ps_view_dom in Hp; [lia | done]. }
  pose proof (inserted_count _ _ _ _ _ _ _ Hinv H0 Hc Hins) as Hcnt.
  apply NoDup_app in Hnd as (Hndp & Hdisj & Hndx).
  assert (forall q, q ∈ mjoin pgs -> q ∉ ps') as Hdisj'.
  { intros q Hq Hq'. destruct Hps as [-> | ->]; [by apply (Hdisj q)|]. apply elem_of_app in Hq' as [Hq'| ->%list_elem_of_singleton]; [by apply (Hdisj q)|].
    pose proof (indexes_pages_lt s rows _ _ _ (ps_count s) Hinv Hix Hq). lia. }
  exists ps'. split_and!.
  - done.
  - destruct Hs as [_ P C]. split; [done | congruence | lia].
  - eapply (heap_rid_ok (ps_view s') ps' rid tup); [apply Hok' | | rewrite Htup; by rewrite decide_True].
    intros q Hq. pose proof (chain_view _ _ q (ho_chain _ _ _ Hok') Hq) as Hv. apply ps_view_dom in Hv; [unfold INVALID_PAGE_ID in *; lia | done].
  - apply Forall_forall. intros x Hx. rewrite Forall_forall in Hsr. split; [| by apply Hsr]. rewrite Hr in Hx. destruct x as [r raw].
    apply heap_rows_spec in Hx; [| done]. cbn [fst snd]. rewrite Htup. case_decide; [subst; congruence | done].
  - rewrite Hr. symmetry. by eapply inserted_rows.
  - eapply indexes_on_frame; [| exact Hix]. intros q Hq. by apply Hfr, Hdisj'.
  - apply NoDup_app. split_and!; [apply Hok' | intros q Hq Hq'; by apply (Hdisj' q) | done].
  - destruct Hps as [-> | ->]; [done|]. by destruct ps.
  - done.
  - lia.
  - lia.
  - done.
Qed.

Lemma add_version_runs meta0 vs vm ex tup : tb_schema meta0 = tb_schema meta -> tb_name meta0 = tn ->
  version_of (tb_schema meta) vs tup -> ps_count s + row_growth pgs <= INVALID_PAGE_ID ->
  all_take m ex (tb_schema meta) rows tup vm (tb_indexes meta) ->
  runs (add_version txn tn meta0 hf vs vm ex) (mkDB s c m) (fun hf' db' => exists s' c' m' meta' ps' pgs' rid, db' = mkDB s' c' m' /\
    table_state s' c' tn meta' ps' pgs' ((rid, tup) :: rows) /\ heap_ok (ps_view s') hf' ps' /\ rid_ok rid /\
    wrote s c m tn meta ps pgs (heap_record tn tup rid :: index_records tn vm rid (tb_indexes meta)) s' c' m' meta' ps' pgs' /\
    blen pgs' = blen pgs /\ ps_count s' <= ps_count s + row_growth pgs).
Proof using spec Hid Hst Hok Hlive.
  intros Esch Ename Hver Hcount Htake. pose proof Hst as [Hs Hg Hn Hon Hsr Hno Hin]. pose proof Hlive as [Htx Hopen].
  destruct Hver as (payload & Eenc & Epack & Hfit). pose proof (pack_tuple_Ok _ _ _ _ Epack) as (_ & _ & _).
  pose proof (blen_nonneg pgs). unfold row_growth, GROWTH in *.
  unfold add_version. rstep. rewrite Esch. eapply runs_lift_result; [exact Eenc|]. rstep. eapply runs_the_txn; [exact Htx|].
  rstep. eapply runs_lift_result; [exact Epack|]. rstep. apply runs_on_object.
  eapply runs_mono; [apply heap_insert_state; [exact Hfit | lia]|].
  intros rid [s1 hf1] (ps1 & Hok1 & Hs1 & Hrid & Hsnd & Hrows1 & Hix1 & Hnd1 & Hh1 & Hps1 & Hc1 & Hfr1). cbn [fst snd] in *.
  rstep. rewrite Ename. eapply runs_log; [exact Htx | exact Hopen | apply heap_loggable; try done; [unfold HEADER_SIZE, SLOT_SIZE in *; lia]|].
  intros m1 Hm1. rstep. unfold insert_into_indexes. rstep. eapply runs_find_table; [exact Hg|].
  assert (forall q, q ∈ mjoin pgs -> q < ps_count s1) as Hxlt by (intros q; apply (indexes_pages_lt s1 rows (tb_schema meta) (tb_indexes meta)); [apply Hs1 | done]).
  eapply runs_mono; [eapply (into_each_runs tn hf1 ps1 rows rid tup vm ex (tb_schema meta) (tb_indexes meta) [] [] pgs s1 c m1 meta); rewrite ?app_nil_r; try done;
    [apply Hon | unfold GROWTH; lia | by eapply all_take_logged | by rewrite (lg_same _ _ _ _ Hm1) | by apply (lg_open _ _ _ _ Hm1)]|].
  intros [] db2 (s2 & c2 & m2 & ims2 & pgs2 & -> & [Xr Xon Xi Xc Xnd Xp Xn Xf] & Hc2 & Hm2). cbn [app] in Hc2. rewrite app_nil_r in Hc2. rstep. cbn [snd]. unfold GROWTH in Xn.
  set (meta2 := set_indexes ims2 meta) in *. pose proof Hon as [Tc Tnd Tids Tf Tn Td Tr Tx]. apply NoDup_app in Hnd1 as (Hndp & Hdisj & Hndx).
  assert (forall q, q ∈ ps1 -> q < ps_count s1) as Hplt by (intros q; apply (heap_pages_lt s1 hf1); [apply Hs1 | done]).
  assert (forall q, q ∈ ps1 -> ps_view s2 !! q = ps_view s1 !! q) as Hfr2.
  { intros q Hq. apply Xf; [intros Hq'; by apply (Hdisj q) | by apply Hplt]. }
  assert (forall q, q ∈ ps1 -> q ∉ mjoin pgs2) as Hdisj2.
  { intros q Hq Hq2. destruct (Xp q Hq2) as [Hq'|Hq']; [by apply (Hdisj q) | specialize (Hplt q Hq); lia]. }
  pose proof (heap_ok_frame _ (ps_view s2) hf1 ps1 Hfr2 Hok1) as Hok2.
  assert (same_table meta meta2) as Hsame by (by split).
  exists s2, c2, m2, meta2, ps1, pgs2, rid. split_and!; try done.
  - split; try done.
    + by eapply with_table_get.
    + split; try done.
      * apply Hok2.
      * apply NoDup_app. done.
      * apply Hok2.
      * by rewrite Hh1.
      * unfold dict_wf in *. cbn [meta2 tb_indexes set_indexes]. by rewrite (rerooted_names _ _ Xr).
      * by rewrite (heap_rows_frame (ps_view s1)).
    + constructor; [by eapply version_stamped; exists payload | done].
    + clear -Xr Hin. cbn [meta2 tb_indexes set_indexes]. induction Xr as [|p p' l l' [E _] _ IH]; [done|].
      apply Forall_cons in Hin as [Hp Hin]. constructor; [by rewrite E | by apply IH].
  - split; try done.
    + eapply (logged_trans m _ [_] m1); done.
    + intros q [Hq|Hq]%elem_of_app.
      * destruct Hps1 as [-> | ->]; [left; apply elem_of_app; by left|]. apply elem_of_app in Hq as [Hq| ->%list_elem_of_singleton];
          [left; apply elem_of_app; by left | right; specialize (Hplt (ps_count s) ltac:(apply elem_of_app; right; by left)); lia].
      * destruct (Xp q Hq); [left; apply elem_of_app; by right | right; lia].
    + intros q Hq Hl. apply not_elem_of_app in Hq as [Hq1 Hq2]. rewrite Xf by (done || lia). apply Hfr1.
      destruct Hps1 as [-> | ->]; [done|]. intros [Hq'| ->%list_elem_of_singleton]%elem_of_app; [done | lia].
    + lia.
  - unfold blen. by rewrite <- (Forall2_length _ _ _ Xon), <- (Forall2_length _ _ _ Tx), (Forall2_length _ _ _ Xr).
  - lia.
Qed.
End add_version.
(** ** A refused version *)

(** [m] raises [e]. *)
Definition raises {T A} (p : M T A) (x : T) (e : exn) : Prop := exists x', p x = (Raise e, x').
Lemma raises_bind {T A B} (p : M T A) (k : A -> M T B) x e : raises p x e -> raises (p ≫= k) x e.
Proof. intros [x' E]. exists x'. by apply bind_raise. Qed.
Lemma runs_raises {T A B} (p : M T A) (k : A -> M T B) x e : runs p x (fun a x' => raises (k a) x' e) -> raises (p ≫= k) x e.
Proof. intros (a & x1 & E & x2 & E2). exists x2. by rewrite (bind_ok _ _ _ _ _ E). Qed.

(** The unique index [im] holds a row with [key] that this transaction sees. *)
Record clashes (m : TransactionManager) (ex : option RID) (sch : Schema) (rows : list (RID * list byte)) (im : IndexMeta) (key : value) : Prop := {
  cl_fits : key_ok (index_tree im) key;
  cl_unique : im_unique im = true;
  cl_row : Exists (conflicts m (snapshot t) ex) (under_key sch im key rows) }.

Lemma clashes_logged m i ops m' ex sch rows im key : logged m i ops m' -> clashes m ex sch rows im key -> clashes m' ex sch rows im key.
Proof. intros [-> _ _] []. by split. Qed.

Lemma insert_into_index_raises tn meta n im rows pg hf ps rid key vm ex (s : S) c m :
  idle s -> get_table c tn = Ok meta -> dget (tb_indexes meta) n = Some im ->
  heap_ok (ps_view s) hf ps -> sound_rows (ps_view s) ps rows -> index_on (ps_view s) rows (tb_schema meta) im pg ->
  dget vm (im_column im) = Some key -> clashes m ex (tb_schema meta) rows im key -> tm_txns m !! txn = Some t ->
  raises (insert_into_index txn tn vm rid ex n) (mkDB s c m) DuplicateKeyError.
Proof.
  intros Hs Hg Hn Hok Hrows Hix Hvm [Hfits Hu Hrow] Ht. unfold insert_into_index. apply runs_raises.
  eapply runs_find_table; [exact Hg|]. apply runs_raises. eapply runs_lift_result; [unfold dindex; by rewrite Hn|].
  apply runs_raises. eapply runs_lift_result; [unfold dindex; by rewrite Hvm|]. apply raises_bind.
  destruct (check_unique_runs txn t im rows (tb_schema meta) pg key ex hf ps s c m Hs Hok Hrows Hix Hfits Ht) as (s1 & Hk1 & [[Hno _]|[_ E]]);
    [by destruct Hno | by exists (mkDB s1 c m)].
Qed.

Lemma into_each_app tn vm rid ex l1 l2 db : insert_into_each txn tn vm rid ex (l1 ++ l2) db =
  (insert_into_each txn tn vm rid ex l1;; insert_into_each txn tn vm rid ex l2) db.
Proof.
  revert db. induction l1 as [|n l1 IH]; intros db; [done|]. cbn [app insert_into_each].
  unfold mbind, M_bind in *. destruct (insert_into_index txn tn vm rid ex n db) as [[[]|e] db1]; [apply IH | done].
Qed.

(** The first index of [ims] that refuses the row. *)
Definition some_clash (m : TransactionManager) (ex : option RID) (sch : Schema) (rows : list (RID * list byte)) (raw : list byte)
    (vm : list (string * value)) (ims : list (string * IndexMeta)) : Prop :=
  exists l1 n im l2 key, ims = l1 ++ (n, im) :: l2 /\ all_take m ex sch rows raw vm l1 /\ dget vm (im_column im) = Some key /\
    clashes m ex sch rows im key.

Lemma into_each_raises tn hf ps rows rid raw vm ex pgs (s : S) c m meta :
  idle s -> get_table c tn = Ok meta -> tb_name meta = tn -> dict_wf (tb_indexes meta) ->
  heap_ok (ps_view s) hf ps -> sound_rows (ps_view s) ps rows ->
  Forall2 (fun (p : string * IndexMeta) pg => index_on (ps_view s) rows (tb_schema meta) p.2 pg) (tb_indexes meta) pgs -> NoDup (ps ++ mjoin pgs) ->
  ps_count s + GROWTH * blen pgs <= INVALID_PAGE_ID -> rid_ok rid ->
  some_clash m ex (tb_schema meta) rows raw vm (tb_indexes meta) -> name_ok tn -> Forall (fun p : string * IndexMeta => name_ok p.1) (tb_indexes meta) ->
  tm_txns m !! txn = Some t -> wal_open (tm_wal m) = true ->
  raises (insert_into_each txn tn vm rid ex (tb_indexes meta).*1) (mkDB s c m) DuplicateKeyError.
Proof using spec Hid.
  intros Hs Hg Htn Hd Hok Hrows Hon Hnd Hcount Hrid (l1 & n & im & l2 & key & Hims & Htake & Hvm & Hcl) Hnt Hnn Ht Ho.
  rewrite Hims in Hon, Hd, Hnn |- *. apply Forall2_app_inv_l in Hon as (pgs1 & pgs2 & Hon1 & Hon2 & ->). apply Forall2_cons_inv_l in Hon2 as (pg & pgs2' & Hpg & _ & ->).
  assert (n ∉ l1.*1) as Hn.
  { unfold dict_wf in Hd. rewrite fmap_app in Hd. apply NoDup_app in Hd as (_ & Hd & _). intros Hx. eapply Hd; [exact Hx | left]. }
  assert (mjoin (pgs1 ++ pg :: pgs2') = mjoin pgs1 ++ pg ++ mjoin pgs2') as Ej by (by rewrite join_app, mjoin_cons).
  rewrite blen_app, blen_cons in Hcount. rewrite Ej in Hnd. pose proof (blen_nonneg pgs2'). unfold GROWTH in *.
  apply NoDup_app in Hnd as (Hndp & Hdisj & Hndx). apply NoDup_app in Hndx as (Hnd1 & Hdisj1 & _).
  assert (forall q, q ∈ ps \/ q ∈ pg -> (q ∉ mjoin pgs1) /\ q < ps_count s) as Hother.
  { intros q [Hq|Hq]; (split; [intros Hq1 |]).
    - apply (Hdisj q Hq), elem_of_app. by left.
    - by apply (heap_pages_lt s hf ps q (id_inv _ Hs)).
    - apply (Hdisj1 q Hq1), elem_of_app. by left.
    - by eapply (index_pages_lt s rows (tb_schema meta) im pg q (id_inv _ Hs)). }
  rewrite fmap_app. cbn [fmap list_fmap fst].
  assert (forall db, raises (insert_into_each txn tn vm rid ex l1.*1;; insert_into_each txn tn vm rid ex (n :: l2.*1)) db DuplicateKeyError ->
    raises (insert_into_each txn tn vm rid ex (l1.*1 ++ n :: l2.*1)) db DuplicateKeyError) as Hsplit.
  { intros db [db' E]. exists db'. by rewrite into_each_app. }
  apply Hsplit, runs_raises. eapply runs_mono; [eapply (into_each_runs tn hf ps rows rid raw vm ex (tb_schema meta) l1 [] ((n, im) :: l2) pgs1 s c m meta); try done|].
  - apply NoDup_app. split_and!; [done | | done]. intros q Hq Hq1. apply (Hdisj q Hq), elem_of_app. by left.
  - unfold GROWTH. lia.
  - by apply Forall_app in Hnn as [? _].
  - intros [] db1 (s1 & c1 & m1 & l1' & pgs1' & -> & [Xr _ Xi _ _ _ _ Xf] & Hc1 & Hm1). cbn [app insert_into_each] in *. apply raises_bind.
    eapply insert_into_index_raises; [exact Xi | by eapply with_table_get | | | | | exact Hvm | by eapply clashes_logged | by rewrite (lg_same _ _ _ _ Hm1)].
    + cbn [set_indexes tb_indexes]. apply dget_middle. by rewrite (rerooted_names _ _ Xr).
    + eapply heap_ok_frame; [| exact Hok]. intros q Hq. destruct (Hother q (or_introl Hq)). by apply Xf.
    + eapply sound_rows_frame; [| exact Hrows]. intros q Hq. destruct (Hother q (or_introl Hq)). by apply Xf.
    + eapply index_on_frame; [| exact Hpg]. intros q Hq. destruct (Hother q (or_intror Hq)). by apply Xf.
Qed.

Lemma add_version_raises tn meta meta0 hf ps pgs rows vs vm ex tup (s : S) c m :
  table_state s c tn meta ps pgs rows -> heap_ok (ps_view s) hf ps -> live m ->
  tb_schema meta0 = tb_schema meta -> tb_name meta0 = tn ->
  version_of (tb_schema meta) vs tup -> ps_count s + row_growth pgs <= INVALID_PAGE_ID ->
  some_clash m ex (tb_schema meta) rows tup vm (tb_indexes meta) ->
  raises (add_version txn tn meta0 hf vs vm ex) (mkDB s c m) DuplicateKeyError.
Proof using spec Hid.
  intros Hst Hok Hlive Esch Ename (payload & Eenc & Epack & Hfit) Hcount Hclash. pose proof Hst as [Hs Hg Hn Hon Hsr Hno Hin]. pose proof Hlive as [Htx Hopen].
  pose proof (blen_nonneg pgs). unfold row_growth, GROWTH in *.
  unfold add_version. rewrite Esch. apply runs_raises. eapply runs_lift_result; [exact Eenc|]. apply runs_raises. eapply runs_the_txn; [exact Htx|].
  apply runs_raises. eapply runs_lift_result; [exact Epack|]. apply runs_raises, runs_on_object.
  eapply runs_mono; [by apply (heap_insert_state tn meta hf ps pgs rows s c Hst Hok tup Hfit); lia|].
  intros rid [s1 hf1] (ps1 & Hok1 & Hs1 & Hrid & Hsnd & Hrows1 & Hix1 & Hnd1 & Hh1 & Hps1 & Hc1 & Hfr1). cbn [fst snd] in *.
  apply runs_raises. rewrite Ename. eapply runs_log; [exact Htx | exact Hopen | apply heap_loggable; try done; [unfold HEADER_SIZE, SLOT_SIZE in *; lia]|].
  intros m1 Hm1. apply raises_bind. unfold insert_into_indexes. apply runs_raises. eapply runs_find_table; [exact Hg|].
  destruct Hclash as (l1 & n & im & l2 & key & Hims & Htake & Hvm & Hcl).
  apply (into_each_raises tn hf1 ps1 rows rid tup vm ex pgs s1 c m1 meta); try done; [apply Hon | unfold GROWTH; lia | | by rewrite (lg_same _ _ _ _ Hm1) | by apply (lg_open _ _ _ _ Hm1)].
  exists l1, n, im, l2, key. split_and!; [done | by eapply all_take_logged | done | by eapply clashes_logged].
Qed.
End transaction. End statements.
