(* ===== verification/InsertProps.v ===== *)
(** INSERT ([src/minirel/database.py], [_execute_insert]): what it leaves in the
    table, its indexes and the log, and when a unique index refuses a row. *)
From stdpp Require Import base numbers list gmap strings pretty sets.
From Stdlib Require Import ZArith Lia Strings.Byte.
From S2P Require Import Prelude PyNum Types PyVal Disk PageStore BufferPool HeapPage HeapFile HeapFileProps BTree BTreeNode BTreeRep BTreeSearch BTreeInsert.
From S2P Require Import Json Wal Transaction Ast Parser PyDict Expr Executor ExecutorProps Catalog Planner PlannerProps TableRep Base64 Database LogRecords TableWrite.

Local Open Scope Z_scope.

(** * Rows and their versions *)

(** A row the schema can store without conversion. *)
Definition row_of (sch : Schema) (vs : list value) : Prop := Forall2 (fun v c => conforms v (col_type c)) vs (columns sch).

Lemma row_of_lookup sch vs i c : row_of sch vs -> columns sch !! i = Some c -> exists v, vs !! i = Some v /\ conforms v (col_type c).
Proof. intros Hr Hc. destruct (Forall2_lookup_r _ _ _ _ _ Hr Hc) as (v & ? & ?). eauto. Qed.

Lemma version_decodes t sch vs tup : row_of sch vs -> version_of t sch vs tup -> decode_row (tuple_payload tup) sch = Ok vs.
Proof.
  intros Hr (p & Ee & Ep & _). apply unpack_pack_tuple in Ep as (_ & -> & _).
  destruct (decode_encode_row vs sch p Ee) as (ws & Es & Ed).
  { eapply Forall2_impl; [exact Hr|]. intros v c. apply conforms_py_value_ok. }
  rewrite stored_values_conforms in Es by done. injection Es as <-. exact Ed.
Qed.

(** The key an index stores for a version is the row's value in its column. *)
Lemma version_key t sch vs tup im : plain_names sch -> row_of sch vs -> version_of t sch vs tup -> im_column im ∈ names sch ->
  dget (dict_of (zip (names sch) vs)) (im_column im) = Some (index_key sch im tup).
Proof.
  intros Hpn Hr Hv Hn. destruct (col_pos_spec sch _ Hn) as (c & Hc & Hcn). destruct (row_of_lookup _ _ _ _ Hr Hc) as (v & Hvi & _).
  unfold index_key, raw_key. rewrite (version_decodes t sch vs tup Hr Hv), Hvi. cbn [default id].
  apply dget_dict_of.
  - eapply sublist_NoDup; [apply Hpn | apply zip_fst_sublist].
  - apply (list_elem_of_lookup_2 _ (col_pos sch (im_column im))). rewrite lookup_zip_with. unfold names. by rewrite list_lookup_fmap, Hc, Hvi, <- Hcn.
Qed.

(** ** What an index can take *)

Section admission.
Context (m : TransactionManager) (t : Transaction) (sch : Schema).

(** The tuples under the key of [raw]. *)
Definition rivals (im : IndexMeta) (raws : list (list byte)) (raw : list byte) : list (list byte) :=
  filter (fun r => index_key sch im r = index_key sch im raw) raws.

(** The index has a storable key for [raw], a leaf can hold all entries with
    that key, and a unique one has no row with it that the transaction sees. *)
Record storable (raws : list (list byte)) (im : IndexMeta) (raw : list byte) : Prop := {
  so_fits : key_ok (index_tree im) (index_key sch im raw);
  so_room : blen (rivals im raws raw) < max_leaf_keys (index_tree im) }.
Definition seen (raw : list byte) : Prop := tuple_visible m (snapshot t) raw = Ok true.
Definition taken (raws : list (list byte)) (im : IndexMeta) (raw : list byte) : Prop := im_unique im = true /\ Exists seen (rivals im raws raw).

(** Row after row, next to those before it. *)
Fixpoint admits (ims : list (string * IndexMeta)) (raws tups : list (list byte)) : Prop :=
  match tups with
  | [] => True
  | tup :: tups' => Forall (fun p : string * IndexMeta => storable raws p.2 tup /\ ~ taken raws p.2 tup) ims /\ admits ims (tup :: raws) tups'
  end.

Lemma seen_iff rid raw : seen raw <-> conflicts m (snapshot t) None (rid, raw).
Proof using Type.
  unfold seen, conflicts, tuple_visible. cbn [snd fst]. split.
  - destruct (unpack_tuple_header raw) as [h|]; [| done]. cbn [mbind result_bind]. intros [= E]. split; [done|]. by exists h.
  - intros (_ & h & -> & E). cbn [mbind result_bind]. by rewrite E.
Qed.
Lemma rivals_under im rows raw : (under_key sch im (index_key sch im raw) rows).*2 = rivals im rows.*2 raw.
Proof using Type.
  unfold under_key, rivals. induction rows as [|x rows IH]; [done|]. cbn [fmap list_fmap]. rewrite !filter_cons. case_decide; cbn [fmap list_fmap]; by rewrite IH.
Qed.
Lemma blen_rivals im rows raw : blen (under_key sch im (index_key sch im raw) rows) = blen (rivals im rows.*2 raw).
Proof using Type. rewrite <- rivals_under. unfold blen. by rewrite length_fmap. Qed.
Lemma taken_iff im rows raw : taken rows.*2 im raw <->
  im_unique im = true /\ Exists (conflicts m (snapshot t) None) (under_key sch im (index_key sch im raw) rows).
Proof using Type.
  unfold taken. rewrite <- rivals_under, Exists_fmap. split; intros [Hu Hx]; (split; [done|]).
  - eapply Exists_impl; [exact Hx|]. intros [r w]. cbn. apply seen_iff.
  - eapply Exists_impl; [exact Hx|]. intros [r w]. cbn. apply seen_iff.
Qed.
Lemma seen_dec raw : Decision (seen raw).
Proof using Type. unfold seen. apply _. Qed.

Lemma admits_perm ims raws raws' tups : raws ≡ₚ raws' -> admits ims raws tups -> admits ims raws' tups.
Proof using Type.
  revert raws raws'. induction tups as [|tup tups IH]; intros raws raws' Hp; [done|]. cbn [admits]. intros [H1 H2]. split; [| eapply IH; [| exact H2]; by rewrite Hp].
  eapply Forall_impl; [exact H1|]. intros p [[F R] N]. assert (rivals p.2 raws tup ≡ₚ rivals p.2 raws' tup) as E by (unfold rivals; by rewrite Hp).
  split; [split; [done | unfold blen in *; by rewrite <- E]|]. intros [Hu Hx]. apply N. split; [done|]. by rewrite E.
Qed.

(** Another root changes nothing here. *)
Lemma admits_rerooted ims ims' raws tups : Forall2 rerooted ims ims' -> admits ims raws tups -> admits ims' raws tups.
Proof using Type.
  intros Hr. revert raws. induction tups as [|tup tups IH]; intros raws; [done|]. cbn [admits]. intros [H1 H2]. split; [| by apply IH].
  clear -H1 Hr. induction Hr as [|[n im] [n' im'] l l' [_ (r & E)] _ IH]; [done|]. cbn [fst snd] in *. subst im'.
  apply Forall_cons in H1 as [[[F R] N] H1]. constructor; [| by apply IH]. split; [by split | exact N].
Qed.
Lemma storable_takes sch' ex vm rows ims raw : sch' = sch -> Forall (fun p : string * IndexMeta => dget vm (im_column p.2) = Some (index_key sch p.2 raw)) ims ->
  Forall (fun p : string * IndexMeta => storable rows.*2 p.2 raw /\ ~ taken rows.*2 p.2 raw) ims -> all_take t m ex sch' rows raw vm ims.
Proof using Type.
  intros -> Hvm Hims. unfold all_take. rewrite Forall_forall in *. intros p Hp. destruct (Hims p Hp) as [[F R] N]. exists (index_key sch p.2 raw).
  split; [by apply Hvm|]. split; [done | done | by rewrite blen_rivals |]. intros Hu Hx. apply N, taken_iff. split; [done|].
  eapply Exists_impl; [exact Hx|]. intros x [_ Hv]. by split.
Qed.
End admission.

Lemma admits_logged m i ops m' t sch ims raws tups : logged m i ops m' -> admits m t sch ims raws tups -> admits m' t sch ims raws tups.
Proof.
  intros [-> _ _]. revert raws. induction tups as [|tup tups IH]; intros raws; [done|]. cbn [admits]. intros [H1 H2]. split; [exact H1 | by apply IH].
Qed.

(** * INSERT *)

(** The records of new versions, in the order of the log. *)
Definition version_records (tn : string) (meta : TableMeta) (new : list (RID * list byte)) : list json :=
  new ≫= fun x => heap_record tn x.2 x.1 ::
    ((fun p : string * IndexMeta => btree_record tn p.1 (index_key (tb_schema meta) p.2 x.2) x.1) <$> tb_indexes meta).

Section insert.
Context {S H : Type} {store : PageStore S H} {spec : PageStoreSpec S H}.
Context (txn : Z) (t : Transaction) (Hid : 0 <= txn_id t < 2 ^ 32).

Lemma index_columns s c tn meta ps pgs rows : table_state (S := S) s c tn meta ps pgs rows ->
  Forall (fun p : string * IndexMeta => im_column p.2 ∈ names (tb_schema meta)) (tb_indexes meta).
Proof using Type.
  intros [_ _ _ Hon _ _ _]. pose proof (to_indexes _ _ _ _ _ Hon) as Hx. clear Hon.
  induction Hx as [|p pg l pgs0 [Hn _] _ IH]; [by constructor|]. constructor; [exact Hn | exact IH].
Qed.

Lemma version_keys s c tn meta ps pgs rows vs tup : table_state (S := S) s c tn meta ps pgs rows -> row_of (tb_schema meta) vs -> version_of t (tb_schema meta) vs tup ->
  Forall (fun p : string * IndexMeta => dget (dict_of (zip (names (tb_schema meta)) vs)) (im_column p.2) = Some (index_key (tb_schema meta) p.2 tup)) (tb_indexes meta).
Proof using Type.
  intros Hst Hr Hv. eapply Forall_impl; [by eapply index_columns|]. intros p Hp. eapply version_key; try done. apply (to_names _ _ _ _ _ (ts_on _ _ _ _ _ _ _ Hst)).
Qed.

Lemma keyed_records tn vm rid sch tup ims : Forall (fun p : string * IndexMeta => dget vm (im_column p.2) = Some (index_key sch p.2 tup)) ims ->
  index_records tn vm rid ims = (fun p : string * IndexMeta => btree_record tn p.1 (index_key sch p.2 tup) rid) <$> ims.
Proof using Type. unfold index_records. induction 1 as [|p l Hp _ IH]; [done|]. cbn [fmap list_fmap]. rewrite Hp. cbn [default]. by f_equal. Qed.

Lemma version_records_same tn meta meta' new : same_table meta meta' -> version_records tn meta' new = version_records tn meta new.
Proof using Type.
  intros [_ Es _ Hr]. unfold version_records. rewrite Es. induction new as [|x new IH]; [done|]. rewrite !bind_cons, IH. do 2 f_equal.
  clear IH. induction Hr as [|[n im] [n' im'] l l' [E (r & Ei)] _ IH]; [done|]. cbn [fst snd] in *. subst. cbn [fmap list_fmap]. by rewrite IH.
Qed.

Lemma table_pages_pos s c tn meta ps pgs rows : table_state (S := S) s c tn meta ps pgs rows -> 0 < ps_count s.
Proof using spec.
  intros [Hs _ _ [Hc _ _ _ _ _ _ _] _ _ _]. destruct ps as [|p ps]; [inversion Hc|].
  pose proof (chain_view _ _ p Hc ltac:(left)) as Hv. apply ps_view_dom in Hv; [lia | apply Hs].
Qed.

Lemma open_heap_at (s : S) c m meta ps : idle s -> chain (ps_view s) ps -> NoDup ps -> INVALID_PAGE_ID ∉ ps -> head ps = Some (tb_heap_first_page_id meta) ->
  runs (open_heap meta) (mkDB s c m) (fun hf db' => exists s', db' = mkDB s' c m /\ keeps s s' /\ heap_ok (ps_view s') hf ps).
Proof using spec.
  intros Hs Hc Hnd Hids Hf. unfold open_heap. apply runs_on_pool. destruct ps as [|p ps]; [inversion Hc|]. injection Hf as <-.
  destruct (heap_open_ok s p ps (idle_room s (p :: ps) 1 Hs ltac:(lia)) Hc Hnd Hids) as (hf & s' & E & Hok & Hk).
  exists hf, s'. split; [exact E|]. by exists s'.
Qed.
Lemma open_heap_runs s c m tn meta ps pgs rows : table_state (S := S) s c tn meta ps pgs rows ->
  runs (open_heap meta) (mkDB s c m) (fun hf db' => exists s', db' = mkDB s' c m /\ keeps s s' /\ heap_ok (ps_view s') hf ps).
Proof using spec. intros [Hs _ _ [Hc Hnd Hids Hf _ _ _ _] _ _ _]. apply NoDup_app in Hnd as (Hnd & _). by apply open_heap_at. Qed.
Lemma table_state_keeps s s' c tn meta ps pgs rows : keeps s s' -> table_state (S := S) s c tn meta ps pgs rows -> table_state s' c tn meta ps pgs rows.
Proof using Type. intros Hk [Hs ? ? Hon ? ? ?]. pose proof Hk as (_ & V & _). split; try done; [by eapply idle_keeps | by rewrite V]. Qed.

Lemma insert_rows_runs tn meta0 : tb_name meta0 = tn -> forall vss tups s c m meta hf ps pgs rows n,
  table_state (S := S) s c tn meta ps pgs rows -> heap_ok (ps_view s) hf ps -> live txn t m -> tb_schema meta0 = tb_schema meta ->
  Forall (row_of (tb_schema meta)) vss -> Forall2 (version_of t (tb_schema meta)) vss tups ->
  admits m t (tb_schema meta) (tb_indexes meta) rows.*2 tups ->
  ps_count s + blen vss * row_growth pgs <= INVALID_PAGE_ID ->
  runs (insert_rows txn tn meta0 hf vss n) (mkDB s c m) (fun n' db' => exists s' c' m' meta' ps' pgs' rids,
    db' = mkDB s' c' m' /\ n' = n + blen vss /\ length rids = length tups /\ Forall rid_ok rids /\
    table_state s' c' tn meta' ps' pgs' (reverse (zip rids tups) ++ rows) /\
    wrote t s c m tn meta ps pgs (version_records tn meta (zip rids tups)) s' c' m' meta' ps' pgs').
Proof using spec Hid.
  intros Hn0 vss. induction vss as [|vs vss IH]; intros tups s c m meta hf ps pgs rows n Hst Hok Hlive Hsch Hrows Hvers Hadm Hcount.
  { apply Forall2_nil_inv_l in Hvers as ->. cbn [insert_rows]. rstep. exists s, c, m, meta, ps, pgs, []. split_and!; try done.
    - rewrite blen_nil. lia.
    - apply wrote_refl; [apply Hst | apply Hlive]. }
  apply Forall2_cons_inv_l in Hvers as (tup & tups' & Hv & Hvers & ->). apply Forall_cons in Hrows as [Hr Hrows]. destruct Hadm as [Hadm1 Hadm].
  rewrite blen_cons in Hcount. pose proof (row_growth_pos pgs). destruct (row_growth_next pgs (blen vss) (blen_nonneg vss)) as [En Hn].
  pose proof (version_keys _ _ _ _ _ _ _ _ _ Hst Hr Hv) as Hkeys.
  cbn [insert_rows]. rstep. rewrite Hsch.
  eapply runs_mono; [eapply (add_version_runs txn t Hid tn meta hf ps pgs rows s c m Hst Hok Hlive meta0 vs _ None tup); try done|].
  { lia. }
  { apply (storable_takes m t (tb_schema meta)); [done | exact Hkeys | exact Hadm1]. }
  intros hf1 db1 (s1 & c1 & m1 & meta1 & ps1 & pgs1 & rid & -> & Hst1 & Hok1 & Hrid & Hw1 & Hlen & Hcnt).
  rewrite (keyed_records tn _ rid (tb_schema meta) tup) in Hw1 by done. pose proof (wr_table _ _ _ _ _ _ _ _ _ _ _ _ _ _ _ Hw1) as Hsame.
  pose proof (st_schema _ _ Hsame) as Es1.
  eapply runs_mono; [eapply (IH tups' s1 c1 m1 meta1 hf1 ps1 pgs1 ((rid, tup) :: rows) (n + 1)); try done; rewrite ?Es1; try done|].
  - eapply live_logged; [exact Hlive | apply Hw1].
  - eapply admits_rerooted; [apply Hsame|]. eapply admits_logged; [apply Hw1 | exact Hadm].
  - rewrite (row_growth_length pgs) by done. lia.
  - intros n' db2 (s2 & c2 & m2 & meta2 & ps2 & pgs2 & rids & -> & -> & Hl & Hrids & Hst2 & Hw2). exists s2, c2, m2, meta2, ps2, pgs2, (rid :: rids).
    split_and!; [done | rewrite blen_cons; lia | cbn [length]; lia | by constructor | |].
    + cbn [zip zip_with]. rewrite reverse_cons, <- app_assoc. exact Hst2.
    + cbn [zip zip_with]. rewrite (version_records_same tn meta meta1) in Hw2 by done.
      unfold version_records at 1. rewrite bind_cons. eapply wrote_trans; [exact Hw1 | exact Hw2].
Qed.

Lemma insert_runs stmt vss tups s c m meta ps pgs rows :
  table_state (S := S) s c (ins_table stmt) meta ps pgs rows -> live txn t m ->
  resolve_insert_values stmt meta = Ok vss -> Forall (row_of (tb_schema meta)) vss ->
  Forall2 (version_of t (tb_schema meta)) vss tups -> admits m t (tb_schema meta) (tb_indexes meta) rows.*2 tups ->
  ps_count s + blen vss * row_growth pgs <= INVALID_PAGE_ID ->
  runs (execute_insert txn stmt) (mkDB s c m) (fun r db' => r = mkResult None (blen vss) ("INSERT " +:+ pretty (blen vss)) /\
    exists rids s' c' m' meta' ps' pgs', db' = mkDB s' c' m' /\ length rids = length tups /\
      table_state s' c' (ins_table stmt) meta' ps' pgs' (reverse (zip rids tups) ++ rows) /\
      wrote t s c m (ins_table stmt) meta ps pgs (version_records (ins_table stmt) meta (zip rids tups)) s' c' m' meta' ps' pgs').
Proof using spec Hid.
  intros Hst Hlive Hres Hrows Hvers Hadm Hcount. unfold execute_insert. rstep. eapply runs_find_table; [apply Hst|]. rstep.
  eapply runs_mono; [by eapply open_heap_runs|]. intros hf db1 (s1 & -> & Hk & Hok). rstep. eapply runs_lift_result; [exact Hres|].
  pose proof (table_state_keeps _ _ _ _ _ _ _ _ Hk Hst) as Hst1. pose proof Hk as (_ & V1 & _ & _ & N1).
  rstep. eapply runs_mono; [eapply (insert_rows_runs (ins_table stmt) meta (ts_name _ _ _ _ _ _ _ Hst) vss tups s1); try done; by rewrite N1|].
  intros n db2 (s2 & c2 & m2 & meta2 & ps2 & pgs2 & rids & -> & -> & Hl & _ & Hst2 & Hw). rstep. split; [done|].
  exists rids, s2, c2, m2, meta2, ps2, pgs2. split_and!; try done. destruct Hw as [W1 W2 W3 W4 W5 W6]. rewrite N1, V1 in *. by split.
Qed.

(** The first row a unique index refuses. *)
Definition refused (m : TransactionManager) (sch : Schema) (ims : list (string * IndexMeta)) (raws : list (list byte)) (tup : list byte) : Prop :=
  exists l1 n im l2, ims = l1 ++ (n, im) :: l2 /\ Forall (fun p : string * IndexMeta => storable sch raws p.2 tup /\ ~ taken m t sch raws p.2 tup) l1 /\
    key_ok (index_tree im) (index_key sch im tup) /\ taken m t sch raws im tup.

Lemma refused_rerooted m sch ims ims' raws tup : Forall2 rerooted ims ims' -> refused m sch ims raws tup -> refused m sch ims' raws tup.
Proof using Type.
  intros Hr (l1 & n & im & l2 & -> & H1 & Hk & Ht). apply Forall2_app_inv_l in Hr as (l1' & l2' & Hr1 & Hr2 & ->).
  apply Forall2_cons_inv_l in Hr2 as ([n' im'] & l2'' & [_ (r & E)] & _ & ->). cbn [snd] in E. subst im'.
  exists l1', n', (Catalog.set_root r im), l2''. split_and!; [done | | exact Hk | exact Ht].
  clear -H1 Hr1. induction Hr1 as [|[n0 im0] [n1 im1] l l' [_ (r & E)] _ IH]; [done|]. cbn [fst snd] in *. subst im1.
  apply Forall_cons in H1 as [[[F R] N] H1]. constructor; [| by apply IH]. split; [by split | exact N].
Qed.
Lemma refused_perm m sch ims raws raws' tup : raws ≡ₚ raws' -> refused m sch ims raws tup -> refused m sch ims raws' tup.
Proof using Type.
  intros Hp (l1 & n & im & l2 & E & H1 & Hk & Hu & Hx). exists l1, n, im, l2.
  assert (forall im, rivals sch im raws tup ≡ₚ rivals sch im raws' tup) as Er by (intros; unfold rivals; by rewrite Hp).
  split_and!; [done | | done | split; [done|]; by rewrite <- Er]. eapply Forall_impl; [exact H1|]. intros p [[F R] N].
  split; [split; [done | unfold blen in *; by rewrite <- Er]|]. intros [Hu' Hx']. apply N. split; [done|]. by rewrite Er.
Qed.

Lemma refused_clash m meta rows tup vm : Forall (fun p : string * IndexMeta => dget vm (im_column p.2) = Some (index_key (tb_schema meta) p.2 tup)) (tb_indexes meta) ->
  refused m (tb_schema meta) (tb_indexes meta) rows.*2 tup -> some_clash t m None (tb_schema meta) rows tup vm (tb_indexes meta).
Proof using Type.
  intros Hvm (l1 & n & im & l2 & E & H1 & Hk & Ht). rewrite E in Hvm. apply Forall_app in Hvm as [Hvm1 Hvm2]. apply Forall_cons in Hvm2 as [Hvm2 _].
  apply taken_iff in Ht as [Hu Hx]. exists l1, n, im, l2, (index_key (tb_schema meta) im tup). split_and!; [done | | done | done].
  by apply (storable_takes m t (tb_schema meta)).
Qed.

Lemma insert_rows_raises tn meta0 vss1 vs vss2 tups tup : tb_name meta0 = tn -> forall s c m meta hf ps pgs rows n,
  table_state (S := S) s c tn meta ps pgs rows -> heap_ok (ps_view s) hf ps -> live txn t m -> tb_schema meta0 = tb_schema meta ->
  Forall (row_of (tb_schema meta)) (vss1 ++ [vs]) -> Forall2 (version_of t (tb_schema meta)) (vss1 ++ [vs]) (tups ++ [tup]) ->
  admits m t (tb_schema meta) (tb_indexes meta) rows.*2 tups ->
  refused m (tb_schema meta) (tb_indexes meta) (reverse tups ++ rows.*2) tup ->
  ps_count s + (1 + blen vss1) * row_growth pgs <= INVALID_PAGE_ID ->
  raises (insert_rows txn tn meta0 hf (vss1 ++ vs :: vss2) n) (mkDB s c m) DuplicateKeyError.
Proof using spec Hid.
  intros Hn0. revert tups. induction vss1 as [|v1 vss1 IH]; intros tups s c m meta hf ps pgs rows n Hst Hok Hlive Hsch Hrows Hvers Hadm Href Hcount.
  - assert (tups = []) as ->. { apply Forall2_length in Hvers. rewrite !length_app in Hvers. cbn in Hvers. destruct tups; [done | cbn in Hvers; lia]. }
    cbn [app insert_rows] in *. apply Forall_cons in Hrows as [Hr _]. apply Forall2_cons in Hvers as [Hv _]. apply raises_bind. rewrite Hsch.
    eapply add_version_raises; try done; [change (blen []) with 0 in Hcount; lia|].
    apply refused_clash; [by eapply version_keys | exact Href].
  - destruct tups as [|tup1 tups]. { apply Forall2_length in Hvers. rewrite !length_app in Hvers. cbn in Hvers. lia. }
    cbn [app insert_rows] in *. apply Forall_cons in Hrows as [Hr Hrows]. apply Forall2_cons in Hvers as [Hv Hvers]. destruct Hadm as [Hadm1 Hadm].
    rewrite blen_cons in Hcount. pose proof (row_growth_pos pgs). destruct (row_growth_next pgs (1 + blen vss1) ltac:(pose proof (blen_nonneg vss1); lia)) as [En Hn].
    pose proof (version_keys _ _ _ _ _ _ _ _ _ Hst Hr Hv) as Hkeys. apply runs_raises. rewrite Hsch.
    eapply runs_mono; [eapply (add_version_runs txn t Hid tn meta hf ps pgs rows s c m Hst Hok Hlive meta0 v1 _ None tup1); try done|].
    { lia. }
    { apply (storable_takes m t (tb_schema meta)); [done | exact Hkeys | exact Hadm1]. }
    intros hf1 db1 (s1 & c1 & m1 & meta1 & ps1 & pgs1 & rid & -> & Hst1 & Hok1 & Hrid & Hw1 & Hlen & Hcnt).
    pose proof (wr_table _ _ _ _ _ _ _ _ _ _ _ _ _ _ _ Hw1) as Hsame. pose proof (st_schema _ _ Hsame) as Es1. pose proof (wr_log _ _ _ _ _ _ _ _ _ _ _ _ _ _ _ Hw1) as Hlg.
    eapply (IH tups s1 c1 m1 meta1 hf1 ps1 pgs1 ((rid, tup1) :: rows) (n + 1)); try done; rewrite ?Es1; try done.
    + eapply live_logged; [exact Hlive | exact Hlg].
    + eapply admits_rerooted; [apply Hsame|]. eapply admits_logged; [exact Hlg | exact Hadm].
    + eapply refused_rerooted; [apply Hsame|]. rewrite reverse_cons, <- app_assoc in Href. destruct Hlg as [-> _ _]. exact Href.
    + rewrite (row_growth_length pgs) by done. lia.
Qed.
End insert.

(** C5: INSERT of rows that match the schema, fit in a page and can be stored by
    every index (no unique one holds a visible row with their key): every row
    becomes one new version stamped with the transaction, under a fresh row id,
    in the heap and in every index of the table; the log receives one record
    for each change; the other versions, pages and tables stay as they are. The
    bound keeps page ids within 32 bits if every insertion splits every node. *)
Theorem insert_statement_ok {S H : Type} {store : PageStore S H} {spec : PageStoreSpec S H} txn t stmt vss tups (s : S) c m meta ps pgs rows :
  table_state s c (ins_table stmt) meta ps pgs rows -> live txn t m -> 0 <= txn_id t < 2 ^ 32 ->
  resolve_insert_values stmt meta = Ok vss -> Forall (row_of (tb_schema meta)) vss ->
  Forall2 (version_of t (tb_schema meta)) vss tups -> admits m t (tb_schema meta) (tb_indexes meta) rows.*2 tups ->
  ps_count s + blen vss * row_growth pgs <= INVALID_PAGE_ID ->
  exists rids s' c' m' meta' ps' pgs', let new := zip rids tups in
  execute_insert txn stmt (mkDB s c m) = (Ok (mkResult None (blen vss) ("INSERT " +:+ pretty (blen vss))), mkDB s' c' m') /\
  length rids = length tups /\ table_state s' c' (ins_table stmt) meta' ps' pgs' (reverse new ++ rows) /\
  wrote t s c m (ins_table stmt) meta ps pgs (version_records (ins_table stmt) meta new) s' c' m' meta' ps' pgs'.
Proof.
  intros Hst Hlive Hid Hres Hrows Hvers Hadm Hcount.
  destruct (insert_runs txn t Hid stmt vss tups s c m meta ps pgs rows Hst Hlive Hres Hrows Hvers Hadm Hcount)
    as (r & db' & E & -> & rids & s' & c' & m' & meta' & ps' & pgs' & -> & Hl & Hst' & Hw). by exists rids, s', c', m', meta', ps', pgs'.
Qed.

(** C24: INSERT raises DuplicateKeyError as soon as a row comes whose key a unique
    index holds for another row that the transaction sees, an earlier row of
    the same statement included. *)
Theorem insert_statement_unique {S H : Type} {store : PageStore S H} {spec : PageStoreSpec S H} txn t stmt vss1 vs vss2 tups tup (s : S) c m meta ps pgs rows :
  table_state s c (ins_table stmt) meta ps pgs rows -> live txn t m -> 0 <= txn_id t < 2 ^ 32 ->
  resolve_insert_values stmt meta = Ok (vss1 ++ vs :: vss2) -> Forall (row_of (tb_schema meta)) (vss1 ++ [vs]) ->
  Forall2 (version_of t (tb_schema meta)) (vss1 ++ [vs]) (tups ++ [tup]) -> admits m t (tb_schema meta) (tb_indexes meta) rows.*2 tups ->
  refused t m (tb_schema meta) (tb_indexes meta) (reverse tups ++ rows.*2) tup ->
  ps_count s + (1 + blen vss1) * row_growth pgs <= INVALID_PAGE_ID ->
  exists db', execute_insert txn stmt (mkDB s c m) = (Raise DuplicateKeyError, db').
Proof.
  intros Hst Hlive Hid Hres Hrows Hvers Hadm Href Hcount. change (raises (execute_insert txn stmt) (mkDB s c m) DuplicateKeyError).
  unfold execute_insert. apply runs_raises. eapply runs_find_table; [apply Hst|]. apply runs_raises.
  eapply runs_mono; [by eapply open_heap_runs|]. intros hf db1 (s1 & -> & Hk & Hok). apply runs_raises. eapply runs_lift_result; [exact Hres|].
  pose proof (table_state_keeps _ _ _ _ _ _ _ _ Hk Hst) as Hst1. pose proof Hk as (_ & V1 & _ & _ & N1). apply raises_bind.
  eapply (insert_rows_raises txn t Hid (ins_table stmt) meta vss1 vs vss2 tups tup (ts_name _ _ _ _ _ _ _ Hst) s1); try done. by rewrite N1.
Qed.

(** * A database to run statements on: the table [t] of the planner's example, in
    transaction 9 *)

Definition shop_mgr : TransactionManager := snd (begin demo_mgr).
Definition shop_txn : Transaction := mkTxn 9 (mkSnapshot 9 ∅) ACTIVE.
Definition shop_db : Database BufferPoolManager := mkDB shop_pool shop_catalog shop_mgr.
Definition old_rows : list (RID * list byte) := [(mkRID 0 0, demo_a); (mkRID 0 1, demo_b)].

Lemma shop_index_on : index_on (ps_view shop_pool) old_rows demo_schema shop_index [2].
Proof.
  split; [by apply (bool_decide_unpack _)|]. exists [shop_leaf]. split; [by apply (tree_rep_format shop_tree); [.. | exact shop_tree_rep]|].
  apply reflexive_eq. vm_compute. reflexivity.
Qed.
Lemma shop_idle : idle shop_pool.
Proof. destruct shop_facts as (I & P & C). split; [exact I | exact P | rewrite C; lia]. Qed.
Lemma shop_live : live 9 shop_txn shop_mgr.
Proof. split; vm_compute; reflexivity. Qed.
Lemma shop_state : table_state shop_pool shop_catalog "t" shop_table [0] [[2]] old_rows.
Proof.
  destruct (shop_chain 0 demo_b eq_refl ltac:(vm_compute; reflexivity) ltac:(vm_compute; reflexivity)) as (Hc & Hi & Hr).
  split; [exact shop_idle | reflexivity | reflexivity | | | split; [reflexivity | reflexivity] | repeat constructor].
  - split; [exact Hc | | exact Hi | reflexivity | split; [by apply (bool_decide_unpack _) | repeat constructor; done] | apply NoDup_singleton | |].
    + by apply (bool_decide_unpack _).
    + change [0] with [Z.of_nat 0]. by rewrite Hr.
    + constructor; [exact shop_index_on | constructor].
  - repeat constructor; eexists; vm_compute; reflexivity.
Qed.
Lemma shop_count : ps_count shop_pool = 3.
Proof. vm_compute. reflexivity. Qed.

(** INSERT INTO t VALUES (3, 'cat'), and the same with a row whose id is taken. *)
Definition cat_row : list Expr := [Literal (VInt 3); Literal (VStr "cat")].
Definition insert_cat : Insert := mkInsert "t" None [cat_row].
Definition insert_cat_eve : Insert := mkInsert "t" None [cat_row; [Literal (VInt 2); Literal (VStr "eve")]].
Definition cat_tuple : list byte := demo_tuple 9 [VInt 3; VStr "cat"].
Definition eve_tuple : list byte := demo_tuple 9 [VInt 2; VStr "eve"].

Lemma shop_version vs : match encode_row vs demo_schema with Ok p => match pack_tuple 9 INFINITY_TXN p with
    | Ok tup => tup = demo_tuple 9 vs /\ HEADER_SIZE + SLOT_SIZE + blen tup <= PAGE_SIZE | Raise _ => False end | Raise _ => False end ->
  version_of shop_txn demo_schema vs (demo_tuple 9 vs).
Proof.
  destruct (encode_row vs demo_schema) as [p|] eqn:E; [| done]. destruct (pack_tuple 9 INFINITY_TXN p) as [tup|] eqn:E2; [| done].
  intros [-> Hl]. exists p. done.
Qed.
Lemma cat_version : version_of shop_txn demo_schema [VInt 3; VStr "cat"] cat_tuple.
Proof. apply shop_version. vm_compute. split; [reflexivity | discriminate]. Qed.
Lemma eve_version : version_of shop_txn demo_schema [VInt 2; VStr "eve"] eve_tuple.
Proof. apply shop_version. vm_compute. split; [reflexivity | discriminate]. Qed.
Lemma shop_row z n : - 2 ^ 63 <= z < 2 ^ 63 -> utf8_valid (str_encode n) = true -> blen (str_encode n) <= 100 -> row_of demo_schema [VInt z; VStr n].
Proof. intros Hz Hn Hl. repeat constructor; cbn; try done; lia. Qed.
Lemma cat_storable : storable demo_schema [demo_a; demo_b] shop_index cat_tuple /\ ~ taken shop_mgr shop_txn demo_schema [demo_a; demo_b] shop_index cat_tuple.
Proof.
  assert (rivals demo_schema shop_index [demo_a; demo_b] cat_tuple = []) as E by (vm_compute; reflexivity).
  split; [split|].
  - vm_compute. split; [discriminate | reflexivity].
  - rewrite E. vm_compute. reflexivity.
  - unfold taken. rewrite E. intros [_ ?%Exists_nil]. done.
Qed.

Lemma insert_statement_ok_witness : exists rids s' c' m' meta' ps' pgs', let new := zip rids [cat_tuple] in
  execute_insert 9 insert_cat shop_db = (Ok (mkResult None 1 "INSERT 1"), mkDB s' c' m') /\ length rids = 1%nat /\
  table_state s' c' "t" meta' ps' pgs' (reverse new ++ old_rows) /\
  wrote shop_txn shop_pool shop_catalog shop_mgr "t" shop_table [0] [[2]] (version_records "t" shop_table new) s' c' m' meta' ps' pgs'.
Proof.
  apply (insert_statement_ok 9 shop_txn insert_cat [[VInt 3; VStr "cat"]] [cat_tuple] shop_pool shop_catalog shop_mgr shop_table [0] [[2]] old_rows).
  - exact shop_state.
  - exact shop_live.
  - split; [discriminate | reflexivity].
  - reflexivity.
  - apply Forall_singleton, shop_row; [lia | reflexivity | discriminate].
  - constructor; [exact cat_version | constructor].
  - split; [| exact I]. apply Forall_singleton, cat_storable.
  - rewrite shop_count. vm_compute. discriminate.
Defined.

Lemma insert_statement_unique_witness : exists db', execute_insert 9 insert_cat_eve shop_db = (Raise DuplicateKeyError, db').
Proof.
  apply (insert_statement_unique 9 shop_txn insert_cat_eve [[VInt 3; VStr "cat"]] [VInt 2; VStr "eve"] [] [cat_tuple] eve_tuple shop_pool shop_catalog shop_mgr shop_table [0] [[2]] old_rows).
  - exact shop_state.
  - exact shop_live.
  - split; [discriminate | reflexivity].
  - reflexivity.
  - repeat apply Forall_cons_2; [apply shop_row; [lia | reflexivity | discriminate] .. | apply Forall_nil_2].
  - repeat constructor; [exact cat_version | exact eve_version].
  - split; [| exact I]. apply Forall_singleton, cat_storable.
  - exists [], "t_id"%string, shop_index, []. split_and!; [reflexivity | constructor | vm_compute; split; [discriminate | reflexivity] | split; [reflexivity|]].
    assert (rivals demo_schema shop_index (reverse [cat_tuple] ++ [demo_a; demo_b]) eve_tuple = [demo_b]) as E by (vm_compute; reflexivity).
    change (Exists (seen shop_mgr shop_txn) (rivals demo_schema shop_index (reverse [cat_tuple] ++ [demo_a; demo_b]) eve_tuple)). rewrite E. apply Exists_cons_hd. vm_compute. reflexivity.
  - rewrite shop_count. vm_compute. discriminate.
Defined.
