(* ===== verification/DeleteProps.v ===== *)
(** DELETE ([src/minirel/database.py], [_execute_delete]), and how both it and
    UPDATE find, claim and stamp the row versions WHERE selects. *)
From stdpp Require Import base numbers list gmap strings pretty sets.
From Stdlib Require Import ZArith Lia Strings.Byte.
From S2P Require Import Prelude PyNum Types PyVal Disk PageStore BufferPool HeapPage HeapFile HeapFileProps BTree BTreeNode BTreeRep BTreeSearch BTreeInsert.
From S2P Require Import Json Wal Transaction Ast Parser PyDict Expr Executor ExecutorProps Catalog Planner PlannerProps TableRep Base64 Database LogRecords TableWrite InsertProps.

Local Open Scope Z_scope.

(** * Stamping versions *)

(** [raw] with the deleter [x]. *)
Definition stamp (x : Z) (raw : list byte) : list byte := match with_xmax raw x with Ok r => r | Raise _ => raw end.
(** Rows after the versions named by [rids] were stamped. *)
Definition stamp_rows (x : Z) (rids : list RID) (rows : list (RID * list byte)) : list (RID * list byte) :=
  (fun r => if decide (r.1 ∈ rids) then (r.1, stamp x r.2) else r) <$> rows.

Lemma stamp_spec x rid raw : stamped_row (rid, raw) -> 0 <= x < 2 ^ 32 ->
  with_xmax raw x = Ok (stamp x raw) /\ tuple_payload (stamp x raw) = tuple_payload raw /\ blen (stamp x raw) = blen raw /\
  exists xmin old, unpack_tuple_header raw = Ok (xmin, old) /\ unpack_tuple_header (stamp x raw) = Ok (xmin, x).
Proof.
  intros [h Hh] Hx. cbn [snd] in Hh. assert (8 <= blen raw) as Hl.
  { unfold unpack_tuple_header in Hh. destruct (8 <=? blen raw) eqn:E; [lia | done]. }
  destruct (with_xmax_spec raw x Hl Hx) as (raw' & xmin & old & E & H1 & H2 & H3 & H4). unfold stamp. rewrite E. split_and!; try done. by exists xmin, old.
Qed.

Lemma stamp_rows_rids x rids rows : (stamp_rows x rids rows).*1 = rows.*1.
Proof. unfold stamp_rows. rewrite <- list_fmap_compose. apply list_fmap_ext. intros ? r _. cbn. by case_decide. Qed.
Lemma stamp_rows_nil x rows : stamp_rows x [] rows = rows.
Proof. unfold stamp_rows. rewrite <- (list_fmap_id rows) at 2. apply list_fmap_ext. intros ? r _. rewrite decide_False; [done | by apply not_elem_of_nil]. Qed.
Lemma stamp_rows_cons x rid rids rows : rid ∉ rids -> stamp_rows x rids (stamp_rows x [rid] rows) = stamp_rows x (rid :: rids) rows.
Proof.
  intros Hr. unfold stamp_rows. rewrite <- list_fmap_compose. apply list_fmap_ext. intros ? [r raw] _. cbn [compose fst snd].
  destruct (decide (r = rid)) as [->|Hne].
  - rewrite (decide_True (P := rid ∈ [rid])) by (by left). cbn [fst snd]. rewrite decide_False, decide_True by (done || by left). done.
  - rewrite (decide_False (P := r ∈ [rid])) by (by intros ?%list_elem_of_singleton). cbn [fst snd].
    assert (r ∈ rid :: rids <-> r ∈ rids) as E by (rewrite elem_of_cons; naive_solver). by rewrite (decide_ext _ _ _ _ E).
Qed.
Lemma stamp_rows_after x rid rids rows : rid ∉ rids -> stamp_rows x [rid] (stamp_rows x rids rows) = stamp_rows x (rid :: rids) rows.
Proof.
  intros Hr. unfold stamp_rows. rewrite <- list_fmap_compose. apply list_fmap_ext. intros ? [r raw] _. cbn [compose fst snd].
  destruct (decide (r = rid)) as [->|Hne].
  - rewrite (decide_False (P := rid ∈ rids)) by done. cbn [fst snd]. rewrite !decide_True by (by left). done.
  - assert (r ∈ rid :: rids <-> r ∈ rids) as E by (rewrite elem_of_cons; naive_solver). rewrite (decide_ext _ _ _ _ E).
    destruct (decide (r ∈ rids)); cbn [fst snd]; (rewrite decide_False; [done | by intros ?%list_elem_of_singleton]).
Qed.
Lemma stamp_rows_out x rids rows : (forall r, r ∈ rids -> r ∉ rows.*1) -> stamp_rows x rids rows = rows.
Proof.
  intros Hr. unfold stamp_rows. rewrite <- (list_fmap_id rows) at 2. apply list_fmap_ext. intros i r Hi. rewrite decide_False; [done|].
  intros Hx. apply (Hr _ Hx). apply list_elem_of_fmap_2. by eapply list_elem_of_lookup_2.
Qed.
Lemma stamp_rows_other x rids rows r : r ∈ rows -> r.1 ∉ rids -> r ∈ stamp_rows x rids rows.
Proof. intros Hr Hn. apply list_elem_of_fmap. exists r. by rewrite decide_False. Qed.
Lemma stamp_rows_perm x rids rids' rows : rids ≡ₚ rids' -> stamp_rows x rids rows = stamp_rows x rids' rows.
Proof. intros Hp. apply list_fmap_ext. intros ? r _. assert (r.1 ∈ rids <-> r.1 ∈ rids') as E by (by rewrite Hp). by rewrite (decide_ext _ _ _ _ E). Qed.
Lemma stamp_rows_app x rids r1 r2 : stamp_rows x rids (r1 ++ r2) = stamp_rows x rids r1 ++ stamp_rows x rids r2.
Proof. apply fmap_app. Qed.

Lemma index_key_payload sch im raw raw' : tuple_payload raw' = tuple_payload raw -> index_key sch im raw' = index_key sch im raw.
Proof. intros E. unfold index_key, raw_key. by rewrite E. Qed.

(** Stamping leaves the keys alone. *)
Lemma stamp_keyed x rids sch im rows : 0 <= x < 2 ^ 32 -> Forall stamped_row rows -> keyed sch im (stamp_rows x rids rows) = keyed sch im rows.
Proof.
  intros Hx Hr. unfold keyed, stamp_rows. rewrite <- list_fmap_compose. induction Hr as [|[r raw] rows Hr _ IH]; [done|].
  cbn [fmap list_fmap]. f_equal; [| exact IH]. cbn [compose fst snd]. case_decide; [| done]. cbn [fst snd].
  destruct (stamp_spec x r raw Hr Hx) as (_ & Ep & _). by rewrite (index_key_payload sch im raw).
Qed.
Lemma stamp_stamped x rids rows : 0 <= x < 2 ^ 32 -> Forall stamped_row rows -> Forall stamped_row (stamp_rows x rids rows).
Proof.
  intros Hx Hr. unfold stamp_rows. apply Forall_fmap. eapply Forall_impl; [exact Hr|]. intros [r raw] Hs. cbn. case_decide; [| done].
  destruct (stamp_spec x r raw Hs Hx) as (_ & _ & _ & xmin & old & _ & E). by exists (xmin, x).
Qed.

Section stamping.
Context {S H : Type} {store : PageStore S H} {spec : PageStoreSpec S H}.

Lemma rows_nodup (s : S) c tn meta ps pgs rows : table_state s c tn meta ps pgs rows -> NoDup rows.*1.
Proof using Type.
  intros [_ _ _ [Hc Hnd _ _ _ _ Hr _] _ _ _]. rewrite Hr. apply heap_rows_nodup; [done|]. by apply NoDup_app in Hnd as (? & _).
Qed.
Lemma row_tuple (s : S) c tn meta ps pgs rows rid raw : table_state s c tn meta ps pgs rows -> (rid, raw) ∈ rows ->
  heap_tuple (ps_view s) ps rid = Some raw /\ page_id rid ∈ ps /\ 0 <= slot_id rid.
Proof using Type. intros [_ _ _ [Hc _ _ _ _ _ Hr _] _ _ _] Hx. rewrite Hr in Hx. by apply heap_row_place. Qed.

Lemma same_pages_count (s s' : S) : ps_inv s -> ps_inv s' -> (forall q, is_Some (ps_view s' !! q) <-> is_Some (ps_view s !! q)) -> 0 < ps_count s ->
  ps_count s' = ps_count s.
Proof using Type.
  intros Hi Hi' Hd H0. assert (forall q, 0 <= q < ps_count s' <-> 0 <= q < ps_count s) as Hq.
  { intros q. by rewrite <- (ps_view_dom s q Hi), <- (ps_view_dom s' q Hi'), Hd. }
  pose proof (Hq (ps_count s - 1)) as Q1. pose proof (Hq (ps_count s)) as Q2. lia.
Qed.

(** The heap's pages are still all there. *)
Lemma chain_count (s s' : S) ps p : ps_inv s -> ps_inv s' -> chain (ps_view s) ps -> chain (ps_view s') ps -> p ∈ ps ->
  (forall q, q ∉ ps -> ps_view s' !! q = ps_view s !! q) -> ps_count s' = ps_count s.
Proof using Type.
  intros Hi Hi' Hc Hc' Hp Hfr. apply same_pages_count; [done | done | |].
  - intros q. destruct (decide (q ∈ ps)) as [Hq|Hq]; [| by rewrite Hfr]. split; intros _; by eapply (chain_view _ ps).
  - pose proof (chain_view _ _ _ Hc Hp) as Hv. apply ps_view_dom in Hv; [lia | done].
Qed.

(** Overwriting one version in place. *)
Lemma stamp_heap_runs (s : S) hf first ps rows rid raw x : idle s -> heap_ok (ps_view s) hf ps -> heap_has (ps_view s) first ps rows ->
  Forall stamped_row rows -> (rid, raw) ∈ rows -> 0 <= x < 2 ^ 32 ->
  runs (update_in_place rid (stamp x raw)) s (fun _ s' => idle s' /\ heap_ok (ps_view s') hf ps /\ heap_has (ps_view s') first ps (stamp_rows x [rid] rows) /\
    (forall q, q ∉ ps -> ps_view s' !! q = ps_view s !! q) /\ ps_count s' = ps_count s).
Proof using spec.
  intros Hs Hok Hh Hsr Hin Hx. destruct (heap_has_place _ _ _ _ _ _ Hh Hin) as (Hp & Hi). pose proof (heap_has_nodup _ _ _ _ Hh) as Hnd1.
  pose proof (proj1 (heap_has_tuple _ _ _ _ rid raw Hh) Hin) as Ht. rewrite Forall_forall in Hsr.
  destruct (stamp_spec x rid raw (Hsr _ Hin) Hx) as (_ & _ & Hlen & _).
  eapply runs_mono; [apply (update_in_place_runs s hf ps rid Hok (idle_room s ps 1 Hs ltac:(lia)) Hp Hi)|].
  intros b s' (-> & Hok' & (I & P & C) & Htup & Hfr). assert (can_overwrite s ps rid (stamp x raw) = true) as Eb.
  { unfold can_overwrite. rewrite Ht, Hlen. apply Z.eqb_refl. }
  rewrite Eb in Htup.
  assert (forall q, q ∉ ps -> ps_view s' !! q = ps_view s !! q) as Hfr' by (intros q Hq; apply Hfr; by intros ->).
  split_and!; [destruct Hs; split; [done | congruence | lia] | done | | done | by eapply (chain_count s s' ps); [apply Hs | | apply Hok | apply Hok' | |]].
  pose proof Hh as [_ Hnd Hids Hf _]. split; try done; [apply Hok'|]. apply NoDup_Permutation.
  - apply (NoDup_fmap_1 fst). by rewrite stamp_rows_rids.
  - apply (NoDup_fmap_1 fst). apply heap_rows_nodup; [apply Hok' | done].
  - intros [r w]. rewrite heap_rows_spec by apply Hok'. rewrite Htup. unfold stamp_rows. rewrite list_elem_of_fmap.
    pose proof (fun w0 => heap_has_tuple _ _ _ _ r w0 Hh) as Hrows. destruct (decide (r = rid /\ true = true)) as [E|E].
    + destruct E as [-> _]. split.
      * intros ([r0 w0] & E & H0). cbn [fst snd] in E. case_decide as Er; injection E as -> ->; [apply Hrows in H0; congruence|].
        exfalso. apply Er. by left.
      * intros [= <-]. exists (rid, raw). cbn [fst snd]. rewrite decide_True by (by left). done.
    + rewrite <- Hrows. split.
      * intros ([r0 w0] & E0 & H0). cbn [fst snd] in E0. case_decide as Er; injection E0 as -> ->; [| done].
        apply list_elem_of_singleton in Er. naive_solver.
      * intros H0. exists (r, w). cbn [fst snd]. rewrite decide_False; [done|]. intros Er%list_elem_of_singleton. naive_solver.
Qed.

Lemma stamp_state s c tn meta hf ps pgs rows rid raw x : table_state (S := S) s c tn meta ps pgs rows -> heap_ok (ps_view s) hf ps ->
  (rid, raw) ∈ rows -> 0 <= x < 2 ^ 32 ->
  runs (update_in_place rid (stamp x raw)) s (fun _ s' => table_state s' c tn meta ps pgs (stamp_rows x [rid] rows) /\ heap_ok (ps_view s') hf ps /\
    (forall q, q ∉ ps -> ps_view s' !! q = ps_view s !! q) /\ ps_count s' = ps_count s).
Proof using spec.
  intros [Hs Hg Hn Hon Hsr Hno Hin'] Hok Hin Hx.
  eapply runs_mono; [by apply (stamp_heap_runs s hf (tb_heap_first_page_id meta) ps rows rid raw x); [| | eapply table_heap | | |]|].
  intros b s' (Hs' & Hok' & [Hc' Hndp Hids Hf Hr] & Hfr & Hcnt). split_and!; [| done | done | done].
  destruct Hon as [_ Hnd _ _ Hpn Hd _ Hix]. split; try done; [split; try done | by apply stamp_stamped].
  apply NoDup_app in Hnd as (_ & Hdisj & _). apply (indexes_on_frame (ps_view s)); [intros q Hq; apply Hfr; intros Hq'; by apply (Hdisj q)|].
  eapply Forall2_impl; [exact Hix|]. intros p pg (Hnm & ls & Hls & He). split; [done|]. exists ls. split; [done|]. by rewrite stamp_keyed.
Qed.
End stamping.

(** * The rows a statement works on *)

(** Whether WHERE selects a version, as the sequential scan decides it. *)
Definition matches (m : TransactionManager) (snap : Snapshot) (tn : string) (sch : Schema) (where_ : option Expr) (x : RID * list byte) : result bool :=
  v ← tuple_visible m snap x.2;
  if v : bool then row ← row_from_tuple tn sch x.1 x.2; holds_opt where_ row else Ok false.
Definition row_at (tn : string) (sch : Schema) (x : RID * list byte) : Row :=
  match row_from_tuple tn sch x.1 x.2 with Ok row => row | Raise _ => [] end.

Lemma row_at_rid tn sch x row : row_from_tuple tn sch x.1 x.2 = Ok row -> row_rid row = Ok x.1.
Proof.
  unfold row_from_tuple. destruct (decode_row _ sch) as [vs|]; [| done]. cbn [mbind result_bind]. intros [= <-].
  unfold row_rid, dindex. by rewrite dget_dset_eq.
Qed.
Lemma filter_opt_cons e row rows : filter_opt e (row :: rows) = b ← holds_opt e row; out ← filter_opt e rows; Ok (if b : bool then row :: out else out).
Proof. by destruct e. Qed.

Lemma matching_scan m snap tn sch where_ raws : Forall (fun x => exists b, matches m snap tn sch where_ x = Ok b) raws ->
  exists rows out, scan_rows m snap tn sch raws = Ok rows /\ filter_opt where_ rows = Ok out /\
    let victims := filter (fun x => matches m snap tn sch where_ x = Ok true) raws in
    out = row_at tn sch <$> victims /\ Forall (fun x => row_rid (row_at tn sch x) = Ok x.1) victims.
Proof.
  induction 1 as [|[rid raw] raws [b Hb] _ IH]; [by exists [], []; destruct where_|]. destruct IH as (rows & out & Es & Ef & -> & Hr).
  cbn [scan_rows]. rewrite filter_cons. unfold matches at 1 in Hb. cbn [fst snd] in Hb.
  destruct (tuple_visible m snap raw) as [v|] eqn:Ev; [| done]. cbn [mbind result_bind] in *. destruct v.
  - destruct (row_from_tuple tn sch rid raw) as [row|] eqn:Er; [| done]. cbn [mbind result_bind] in *. rewrite Es. cbn [mbind result_bind].
    exists (row :: rows). rewrite filter_opt_cons, Hb, Ef. cbn [mbind result_bind].
    assert (matches m snap tn sch where_ (rid, raw) = Ok b) as Em by (unfold matches; cbn [fst snd]; by rewrite Ev; cbn [mbind result_bind]; rewrite Er).
    rewrite Em. destruct b.
    + rewrite decide_True by done. eexists. split_and!; [done | done | | constructor; [| exact Hr]].
      * cbn [fmap list_fmap]. f_equal. unfold row_at. cbn [fst snd]. by rewrite Er.
      * unfold row_at. cbn [fst snd]. rewrite Er. by apply (row_at_rid tn sch (rid, raw)).
    + rewrite decide_False by done. by eexists.
  - assert (matches m snap tn sch where_ (rid, raw) = Ok false) as Em by (unfold matches; cbn [fst snd]; by rewrite Ev).
    rewrite Em, decide_False by done. exists rows. eexists. done.
Qed.

(** ** Claiming them *)

(** The first-committer-wins check on a version. *)
Definition claim (m : TransactionManager) (t : Transaction) (raw : list byte) : result unit :=
  h ← unpack_tuple_header raw; check_write_conflict m t h.2.
Lemma claim_logged m i ops m' t raw : logged m i ops m' -> claim m' t raw = claim m t raw.
Proof. by intros [-> _ _]. Qed.

Section victims.
Context {S H : Type} {store : PageStore S H} {spec : PageStoreSpec S H}.
Context (txn : Z) (t : Transaction) (Hid : 0 <= txn_id t < 2 ^ 32).

Lemma matching_runs tn meta ps pgs rows where_ (s : S) c m :
  table_state s c tn meta ps pgs rows -> live txn t m ->
  let w := tested_where meta tn where_ in literal_usable meta (find_match tn (indexed_columns_of meta) 0 (flatten_and where_)) ->
  Forall (fun x => exists b, matches m (snapshot t) tn (tb_schema meta) w x = Ok b) rows ->
  exists victims, victims ≡ₚ filter (fun x => matches m (snapshot t) tn (tb_schema meta) w x = Ok true) rows /\
    Forall (fun x => row_rid (row_at tn (tb_schema meta) x) = Ok x.1) victims /\
  exists n, forall fuel, (n <= fuel)%nat -> runs (matching_rows txn fuel tn where_) (mkDB s c m) (fun r db' =>
    r = row_at tn (tb_schema meta) <$> victims /\ exists s', db' = mkDB s' c m /\ keeps s s').
Proof using spec.
  intros Hst Hlive w Hfit Hm. pose proof Hst as [Hs Hg _ Hon _ _ _]. pose proof (table_on_rep _ _ _ _ _ Hon) as Hrep. pose proof (to_rows _ _ _ _ _ Hon) as Hr.
  assert (Forall (fun x => exists b, matches m (snapshot t) tn (tb_schema meta) w x = Ok b) (heap_rows (ps_view s) ps)) as Hm' by (by rewrite <- Hr).
  destruct (matching_scan _ _ _ _ _ _ Hm') as (srows & out & Es & Ef & -> & Hrids). clear Hm'.
  destruct Hs as [Hinv Hpins Hcap].
  destruct (row_source_runs m (snapshot t) c tn tn where_ meta ps srows _ s Hinv Hpins Hcap Hg Hrep Es Ef Hfit) as (out' & Hp & _ & n & Hn).
  apply Permutation_map_inv in Hp as (victims & -> & Hv). exists victims. split_and!.
  - symmetry. rewrite <- Hv. by rewrite Hr.
  - by rewrite <- Hv.
  - exists n. intros fuel Hf. unfold matching_rows. rstep. rstep. cbn [db_catalog]. unfold list_plan. rstep. eapply runs_the_txn; [apply Hlive|].
    rstep. rstep. cbn [db_txn_mgr]. apply runs_on_pool. eapply runs_mono; [by apply Hn|]. cbv beta. intros r s' (-> & I & V & C & P).
    split; [done|]. exists s'. split; [done|]. assert (ps_count s' = ps_count s) as N.
    { apply same_pages_count; [done | done | intros q; by rewrite V |]. pose proof (table_pages_pos _ _ _ _ _ _ _ Hst). lia. }
    split_and!; try done; congruence.
Qed.

Lemma claim_runs tn meta hf ps pgs rows rid raw (s : S) c m :
  table_state s c tn meta ps pgs rows -> heap_ok (ps_view s) hf ps -> live txn t m -> (rid, raw) ∈ rows ->
  match claim m t raw with
  | Ok _ => runs (claim_version txn rid) (mkDB s c m) (fun o db' => o = Some raw /\ exists s', db' = mkDB s' c m /\ keeps s s')
  | Raise e => raises (claim_version txn rid) (mkDB s c m) e
  end.
Proof using spec.
  intros Hst Hok Hlive Hin. destruct (row_tuple _ _ _ _ _ _ _ _ _ Hst Hin) as (Ht & Hp & Hi). pose proof (ts_idle _ _ _ _ _ _ _ Hst) as Hs.
  destruct (heap_get_runs s hf ps rid Hok (idle_room s ps 1 Hs ltac:(lia)) Hp Hi) as (o & s1 & Eg & -> & Hk). rewrite Ht in Eg.
  assert (on_pool (heap_get rid) (mkDB s c m) = (Ok (Some raw), mkDB s1 c m)) as Ep by (unfold on_pool; cbn [db_pool]; by rewrite Eg).
  unfold claim, claim_version. destruct (unpack_tuple_header raw) as [h|e] eqn:Eh; cbn [mbind result_bind].
  - destruct (check_write_conflict m t h.2) as [[]|e] eqn:Ec.
    + rstep. apply (runs_eq _ _ _ _ _ Ep). cbv iota. rstep. eapply runs_lift_result; [exact Eh|]. rstep. eapply runs_the_txn; [apply Hlive|].
      rstep. rstep. cbn [db_txn_mgr]. rstep. eapply runs_lift_result; [exact Ec|]. rstep. split; [done|]. by exists s1.
    + apply runs_raises. apply (runs_eq _ _ _ _ _ Ep). cbv iota. apply runs_raises. eapply runs_lift_result; [exact Eh|].
      apply runs_raises. eapply runs_the_txn; [apply Hlive|]. apply runs_raises. rstep. cbn [db_txn_mgr]. apply raises_bind.
      exists (mkDB s1 c m). unfold lift_result. by rewrite Ec.
  - apply runs_raises. apply (runs_eq _ _ _ _ _ Ep). cbv iota. apply raises_bind. exists (mkDB s1 c m). unfold lift_result. by rewrite Eh.
Qed.

Lemma stamp_version_runs tn meta meta0 hf ps pgs rows rid raw (s : S) c m :
  table_state s c tn meta ps pgs rows -> heap_ok (ps_view s) hf ps -> live txn t m -> (rid, raw) ∈ rows -> tb_name meta0 = tn -> ps_count s <= INVALID_PAGE_ID ->
  runs (stamp_version txn meta0 rid raw) (mkDB s c m) (fun _ db' => exists s' m', db' = mkDB s' c m' /\
    table_state s' c tn meta ps pgs (stamp_rows (txn_id t) [rid] rows) /\ heap_ok (ps_view s') hf ps /\
    (forall q, q ∉ ps -> ps_view s' !! q = ps_view s !! q) /\ ps_count s' = ps_count s /\ logged m (txn_id t) [xmax_record tn rid (txn_id t)] m').
Proof using spec Hid.
  intros Hst Hok Hlive Hin Hn0 Hcount. destruct (row_tuple _ _ _ _ _ _ _ _ _ Hst Hin) as (Ht & _ & _).
  pose proof (ts_stamped _ _ _ _ _ _ _ Hst) as Hsr. rewrite Forall_forall in Hsr. destruct (stamp_spec (txn_id t) rid raw (Hsr _ Hin) Hid) as (Ew & _).
  unfold stamp_version. rstep. eapply runs_the_txn; [apply Hlive|]. rstep. eapply runs_lift_result; [exact Ew|]. rstep. apply runs_on_pool.
  eapply runs_mono; [by eapply (stamp_state s c tn meta hf ps pgs rows rid raw)|]. intros b s1 (Hst1 & Hok1 & Hfr & Hcnt). rewrite Hn0.
  eapply runs_log; [apply Hlive | apply Hlive | |].
  - apply xmax_loggable; [done | apply Hst | | done]. eapply (heap_rid_ok (ps_view s) ps); [apply Hok | | exact Ht].
    intros q Hq. pose proof (chain_view _ _ q (ho_chain _ _ _ Hok) Hq) as Hv. apply ps_view_dom in Hv; [unfold INVALID_PAGE_ID in *; lia | apply Hst].
  - intros m' Hm'. exists s1, m'. done.
Qed.

(** Statements that stamp: each changes the heap's pages only. *)
Record stamped (s : S) (m : TransactionManager) (ps : list Z) (tn : string) (rids : list RID) (s' : S) (m' : TransactionManager) : Prop := {
  sp_frame : forall q, q ∉ ps -> ps_view s' !! q = ps_view s !! q;
  sp_count : ps_count s' = ps_count s;
  sp_log : logged m (txn_id t) ((fun rid => xmax_record tn rid (txn_id t)) <$> rids) m' }.

Lemma delete_rows_runs tn meta0 : tb_name meta0 = tn -> forall victims out (s : S) c m meta hf ps pgs rows n,
  table_state s c tn meta ps pgs rows -> heap_ok (ps_view s) hf ps -> live txn t m -> ps_count s <= INVALID_PAGE_ID ->
  Forall2 (fun x row => row_rid row = Ok x.1) victims out -> NoDup victims.*1 -> (forall x, x ∈ victims -> x ∈ rows) ->
  Forall (fun x => claim m t x.2 = Ok tt) victims ->
  runs (delete_rows txn meta0 out n) (mkDB s c m) (fun n' db' => n' = n + blen victims /\ exists s' m', db' = mkDB s' c m' /\
    table_state s' c tn meta ps pgs (stamp_rows (txn_id t) victims.*1 rows) /\ heap_ok (ps_view s') hf ps /\ stamped s m ps tn victims.*1 s' m').
Proof using spec Hid.
  intros Hn0 victims. induction victims as [|[rid raw] victims IH]; intros out s c m meta hf ps pgs rows n Hst Hok Hlive Hcount Hout Hnd Hin Hcl.
  { apply Forall2_nil_inv_l in Hout as ->. cbn [delete_rows]. rstep. split; [rewrite blen_nil; lia|]. exists s, m. cbn [fmap list_fmap]. rewrite stamp_rows_nil.
    split_and!; try done. split; [done | done |]. apply logged_nil, Hlive. }
  apply Forall2_cons_inv_l in Hout as (row & out' & Hrow & Hout & ->). apply Forall_cons in Hcl as [Hc Hcl]. cbn [fmap list_fmap fst snd] in *.
  apply NoDup_cons in Hnd as [Hnin Hnd]. pose proof (Hin _ (list_elem_of_here _ _)) as Hx.
  cbn [delete_rows]. rstep. eapply runs_lift_result; [exact Hrow|]. rstep.
  pose proof (claim_runs tn meta hf ps pgs rows rid raw s c m Hst Hok Hlive Hx) as Hclaim. rewrite Hc in Hclaim.
  eapply runs_mono; [exact Hclaim|]. intros o db1 (-> & s1 & -> & Hk). cbv iota. pose proof Hk as (_ & V1 & _ & _ & N1).
  pose proof (table_state_keeps _ _ _ _ _ _ _ _ Hk Hst) as Hst1. rewrite <- V1 in Hok.
  rstep. eapply runs_mono; [eapply (stamp_version_runs tn meta meta0 hf ps pgs rows rid raw s1); try done; by rewrite N1|].
  intros [] db2 (s2 & m2 & -> & Hst2 & Hok2 & Hfr2 & Hcnt2 & Hm2).
  eapply runs_mono; [eapply (IH out' s2 c m2 meta hf ps pgs _ (n + 1)); try done|].
  - by eapply live_logged.
  - by rewrite Hcnt2, N1.
  - intros x Hx'. apply stamp_rows_other; [apply Hin; by right|]. intros E%list_elem_of_singleton. rewrite <- E in Hnin. apply Hnin. by apply list_elem_of_fmap_2.
  - eapply Forall_impl; [exact Hcl|]. intros x. by rewrite (claim_logged _ _ _ _ _ _ Hm2).
  - intros n' db3 (-> & s3 & m3 & -> & Hst3 & Hok3 & [F3 C3 L3]). split; [rewrite blen_cons; lia|]. exists s3, m3.
    rewrite stamp_rows_cons in Hst3 by done. split_and!; try done. split.
    + intros q Hq. rewrite F3, Hfr2, V1; done.
    + congruence.
    + by eapply (logged_trans m _ [_] m2).
Qed.

Lemma delete_rows_raises tn meta0 : tb_name meta0 = tn -> forall victims out (s : S) c m meta hf ps pgs rows n,
  table_state s c tn meta ps pgs rows -> heap_ok (ps_view s) hf ps -> live txn t m -> ps_count s <= INVALID_PAGE_ID ->
  Forall2 (fun x row => row_rid row = Ok x.1) victims out -> NoDup victims.*1 -> (forall x, x ∈ victims -> x ∈ rows) ->
  Exists (fun x => claim m t x.2 = Raise WriteConflictError) victims ->
  raises (delete_rows txn meta0 out n) (mkDB s c m) WriteConflictError.
Proof using spec Hid.
  intros Hn0 victims. induction victims as [|[rid raw] victims IH]; intros out s c m meta hf ps pgs rows n Hst Hok Hlive Hcount Hout Hnd Hin Hex; [by apply Exists_nil in Hex|].
  apply Forall2_cons_inv_l in Hout as (row & out' & Hrow & Hout & ->). cbn [fmap list_fmap fst snd] in *.
  apply NoDup_cons in Hnd as [Hnin Hnd]. pose proof (Hin _ (list_elem_of_here _ _)) as Hx.
  cbn [delete_rows]. apply runs_raises. eapply runs_lift_result; [exact Hrow|].
  pose proof (claim_runs tn meta hf ps pgs rows rid raw s c m Hst Hok Hlive Hx) as Hclaim.
  assert (claim m t raw = Ok tt \/ claim m t raw = Raise WriteConflictError) as Hcase.
  { pose proof (ts_stamped _ _ _ _ _ _ _ Hst) as Hsr. rewrite Forall_forall in Hsr. destruct (Hsr _ Hx) as [h Eh]. cbn [snd] in Eh.
    unfold claim. rewrite Eh. cbn [mbind result_bind]. unfold check_write_conflict. repeat case_match; auto. }
  destruct Hcase as [Hc|Hc]; rewrite Hc in Hclaim; [| by apply raises_bind].
  apply Exists_cons in Hex as [Hex|Hex]; [cbn in Hex; congruence|].
  apply runs_raises. eapply runs_mono; [exact Hclaim|]. intros o db1 (-> & s1 & -> & Hk). cbv iota. pose proof Hk as (_ & V1 & _ & _ & N1).
  pose proof (table_state_keeps _ _ _ _ _ _ _ _ Hk Hst) as Hst1. rewrite <- V1 in Hok.
  apply runs_raises. eapply runs_mono; [eapply (stamp_version_runs tn meta meta0 hf ps pgs rows rid raw s1); try done; by rewrite N1|].
  intros [] db2 (s2 & m2 & -> & Hst2 & Hok2 & Hfr2 & Hcnt2 & Hm2).
  eapply (IH out' s2 c m2 meta hf ps pgs _ (n + 1)); try done.
  - by eapply live_logged.
  - by rewrite Hcnt2, N1.
  - intros x Hx'. apply stamp_rows_other; [apply Hin; by right|]. intros E%list_elem_of_singleton. rewrite <- E in Hnin. apply Hnin. by apply list_elem_of_fmap_2.
  - eapply Exists_impl; [exact Hex|]. intros x. by rewrite (claim_logged _ _ _ _ _ _ Hm2).
Qed.

Lemma victims_rows tn sch victims : Forall (fun x => row_rid (row_at tn sch x) = Ok x.1) victims ->
  Forall2 (fun x row => row_rid row = Ok x.1) victims (row_at tn sch <$> victims).
Proof using Type. induction 1 as [|x l Hx _ IH]; constructor; done. Qed.
Lemma victims_nodup (s : S) c tn meta ps pgs rows (P : RID * list byte -> Prop) `{forall x, Decision (P x)} victims :
  table_state s c tn meta ps pgs rows -> victims ≡ₚ filter P rows -> NoDup victims.*1.
Proof using Type.
  intros Hst Hv. rewrite Hv. eapply sublist_NoDup; [by eapply rows_nodup|]. apply fmap_sublist, sublist_filter.
Qed.
End victims.



(** DELETE FROM t WHERE id = 1 *)
Definition id_is (z : Z) : option Expr := Some (BinaryOp "=" (ColumnRef "id" None) (Literal (VInt z))).
Definition delete_ann : Delete := mkDelete "t" (id_is 1).

Lemma id_fits z : literal_fits shop_table (find_match "t" (indexed_columns_of shop_table) 0 (flatten_and (id_is z))).
Proof. apply (shop_fits (id_is z)); [reflexivity|]. split; [reflexivity | exact I]. Qed.
Lemma ann_matches z b1 b2 : (matches shop_mgr (snapshot shop_txn) "t" demo_schema (id_is z) <$> old_rows) = [Ok b1; Ok b2] ->
  Forall (fun x => exists b, matches shop_mgr (snapshot shop_txn) "t" (tb_schema shop_table) (id_is z) x = Ok b) old_rows.
Proof.
  intros E. apply Forall_forall. intros x Hx. apply (list_elem_of_fmap_2 (matches shop_mgr (snapshot shop_txn) "t" demo_schema (id_is z))) in Hx. rewrite E in Hx.
  apply elem_of_cons in Hx as [Hx|Hx]; [by exists b1|]. apply list_elem_of_singleton in Hx. by exists b2.
Qed.
Lemma ann_selected : filter (fun x => matches shop_mgr (snapshot shop_txn) "t" (tb_schema shop_table) (id_is 1) x = Ok true) old_rows = [(mkRID 0 0, demo_a)].
Proof. vm_compute. reflexivity. Qed.
Lemma shop_id : 0 <= txn_id shop_txn < 2 ^ 32.
Proof. split; [discriminate | reflexivity]. Qed.



