(* ===== verification/UpdateProps.v ===== *)
(** UPDATE ([src/minirel/database.py], [_execute_update]): every selected version
    is stamped and replaced. *)
From stdpp Require Import base numbers list gmap strings pretty sets.
From Stdlib Require Import ZArith Lia Strings.Byte.
From S2P Require Import Prelude PyNum Types PyVal Disk PageStore BufferPool HeapPage HeapFile HeapFileProps BTree BTreeNode BTreeRep BTreeSearch BTreeInsert.
From S2P Require Import Json Wal Transaction Ast Parser PyDict Expr Executor ExecutorProps Catalog Planner PlannerProps TableRep Base64 Database LogRecords TableWrite InsertProps DeleteProps.

Local Open Scope Z_scope.

(** * UPDATE *)

(** The row an UPDATE makes of a version, and the dict it indexes it by. *)
Definition updated_row (sch : Schema) (asg : list (string * Expr)) (raw : list byte) : result (list value * list (string * value)) :=
  old ← decode_row (tuple_payload raw) sch;
  vm ← assign asg (dict_of (zip (names sch) old));
  vs ← result_map (dindex vm) (names sch);
  Ok (vs, vm).

Lemma result_map_lookup {A B} (f : A -> result B) l ys i x : result_map f l = Ok ys -> l !! i = Some x -> exists y, ys !! i = Some y /\ f x = Ok y.
Proof.
  revert ys i. induction l as [|a l IH]; intros ys i E Hi; [done|]. cbn [result_map] in E.
  destruct (f a) as [b|] eqn:Ea; [| done]. cbn [mbind result_bind] in E. destruct (result_map f l) as [bs|]; [| done]. injection E as <-.
  destruct i as [|i]; [injection Hi as <-; by exists b | exact (IH bs i eq_refl Hi)].
Qed.

Section update.
Context {S H : Type} {store : PageStore S H} {spec : PageStoreSpec S H}.
Context (txn : Z) (t : Transaction) (Hid : 0 <= txn_id t < 2 ^ 32).

(** A selected version, and the tuple that replaces it. *)
Definition rewrites (sch : Schema) (asg : list (string * Expr)) (p : (RID * list byte) * list byte) : Prop :=
  exists vs vm, updated_row sch asg p.1.2 = Ok (vs, vm) /\ row_of sch vs /\ version_of t sch vs p.2.

Lemma updated_key sch asg raw vs vm tup im : updated_row sch asg raw = Ok (vs, vm) -> row_of sch vs -> version_of t sch vs tup -> im_column im ∈ names sch ->
  dget vm (im_column im) = Some (index_key sch im tup).
Proof using Type.
  intros Hu Hr Hv Hn. destruct (col_pos_spec sch _ Hn) as (c & Hc & Hcn). destruct (row_of_lookup _ _ _ _ Hr Hc) as (v & Hvi & _).
  unfold index_key, raw_key. rewrite (version_decodes t sch vs tup Hr Hv), Hvi. cbn [default id].
  unfold updated_row in Hu. destruct (decode_row (tuple_payload raw) sch) as [old|]; [| done]. cbn [mbind result_bind] in Hu.
  destruct (assign asg _) as [vm'|]; [| done]. cbn [mbind result_bind] in Hu. destruct (result_map (dindex vm') (names sch)) as [vs'|] eqn:Em; [| done].
  injection Hu as -> ->. destruct (result_map_lookup _ _ _ (col_pos sch (im_column im)) (im_column im) Em) as (y & Hy & Ey).
  { unfold names. by rewrite list_lookup_fmap, Hc, <- Hcn. }
  rewrite Hvi in Hy. injection Hy as <-. unfold dindex in Ey. destruct (dget vm (im_column im)); [congruence | done].
Qed.

(** The entries under [key]. *)
Definition key_count (sch : Schema) (im : IndexMeta) (key : value) (raws : list (list byte)) : Z := blen (filter (fun k => k = key) (index_key sch im <$> raws)).

(** The index [im] can take all replacements [pairs] in a table of [rows]. *)
Record update_fits (m : TransactionManager) (sch : Schema) (rows : list (RID * list byte)) (pairs : list ((RID * list byte) * list byte)) (im : IndexMeta) : Prop := {
  uf_fits : Forall (fun p => key_ok (index_tree im) (index_key sch im p.2)) pairs;
  uf_room : Forall (fun p => key_count sch im (index_key sch im p.2) (pairs.*2 ++ rows.*2) <= max_leaf_keys (index_tree im)) pairs;
  uf_distinct : im_unique im = true -> NoDup (index_key sch im <$> pairs.*2);
  uf_free : im_unique im = true -> Forall (fun p => forall x, x ∈ rows -> seen m t x.2 -> index_key sch im x.2 = index_key sch im p.2 -> x.1 = p.1.1) pairs }.

Lemma update_fits_perm m sch rows pairs pairs' im : pairs ≡ₚ pairs' -> update_fits m sch rows pairs im -> update_fits m sch rows pairs' im.
Proof using Type.
  intros Hp [F R D N]. split; [by rewrite <- Hp | | intros Hu; rewrite <- Hp; by apply D | intros Hu; rewrite <- Hp; by apply N].
  rewrite <- Hp. eapply Forall_impl; [exact R|]. intros p. unfold key_count, blen. by rewrite Hp.
Qed.
Lemma update_fits_rerooted m sch rows pairs ims ims' : Forall2 rerooted ims ims' ->
  Forall (fun p : string * IndexMeta => update_fits m sch rows pairs p.2) ims -> Forall (fun p : string * IndexMeta => update_fits m sch rows pairs p.2) ims'.
Proof using Type.
  induction 1 as [|[n im] [n' im'] l l' [_ (r & E)] _ IH]; [done|]. cbn [fst snd] in *. subst im'. intros [[F R D N] Hl]%Forall_cons.
  constructor; [| by apply IH]. split; [exact F | exact R | exact D | exact N].
Qed.
Lemma update_fits_logged m i ops m' sch rows pairs im : logged m i ops m' -> update_fits m sch rows pairs im -> update_fits m' sch rows pairs im.
Proof using Type. intros [-> _ _] [F R D N]. split; [exact F | exact R | exact D | exact N]. Qed.

(** The transaction is its own snapshot's, and has not aborted. *)
Record own (m : TransactionManager) : Prop := {
  ow_xid : xid (snapshot t) = txn_id t;
  ow_alive : txn_id t ∉ tm_aborted_xids m;
  ow_finite : txn_id t <> INFINITY_TXN }.

(** What it deleted, it no longer sees. *)
Lemma stamp_unseen m rid raw : own m -> stamped_row (rid, raw) -> ~ seen m t (stamp (txn_id t) raw).
Proof using Hid.
  intros [Hx Ha Hf] Hs. destruct (stamp_spec (txn_id t) rid raw Hs Hid) as (_ & _ & _ & xmin & old & _ & E). unfold seen, tuple_visible. rewrite E.
  cbn [mbind result_bind fst snd]. intros [= Hv]. revert Hv. unfold is_visible. case_bool_decide; [done|]. case_match; [done|].
  destruct (Z.eqb_spec (txn_id t) INFINITY_TXN); [done|]. rewrite (bool_decide_false (txn_id t ∈ _)) by done. rewrite Hx, Z.eqb_refl. done.
Qed.

Lemma key_count_app sch im key l1 l2 : key_count sch im key (l1 ++ l2) = key_count sch im key l1 + key_count sch im key l2.
Proof using Type. unfold key_count. by rewrite fmap_app, filter_app, blen_app. Qed.
Lemma key_count_cons sch im key x l : key_count sch im key (x :: l) = key_count sch im key [x] + key_count sch im key l.
Proof using Type. apply (key_count_app sch im key [x] l). Qed.
Lemma key_count_perm sch im key l1 l2 : l1 ≡ₚ l2 -> key_count sch im key l1 = key_count sch im key l2.
Proof using Type. intros Hp. unfold key_count, blen. by rewrite Hp. Qed.
Lemma blen_under_key sch im key rows : blen (under_key sch im key rows) = key_count sch im key rows.*2.
Proof using Type.
  unfold under_key, key_count, blen. f_equal. induction rows as [|x rows IH]; [done|]. cbn [fmap list_fmap]. rewrite !filter_cons. case_decide; cbn [length]; by rewrite IH.
Qed.
Lemma stamp_key_count x rids sch im key rows : 0 <= x < 2 ^ 32 -> Forall stamped_row rows -> key_count sch im key (stamp_rows x rids rows).*2 = key_count sch im key rows.*2.
Proof using Type.
  intros Hx Hr. pose proof (stamp_keyed x rids sch im rows Hx Hr) as E. apply (f_equal (fmap fst)) in E. unfold keyed in E. rewrite <- !list_fmap_compose in E.
  unfold key_count. rewrite <- !list_fmap_compose. f_equal. f_equal. exact E.
Qed.

(** One replacement, when [done] are in and [todo] are not. *)
Lemma update_takes m sch asg rows done rid raw tup todo news vs vm im : own m -> Forall stamped_row rows ->
  update_fits m sch rows (done ++ ((rid, raw), tup) :: todo) im -> news.*2 ≡ₚ done.*2 -> im_column im ∈ names sch ->
  updated_row sch asg raw = Ok (vs, vm) -> row_of sch vs -> version_of t sch vs tup ->
  exists key, dget vm (im_column im) = Some key /\ takes m (snapshot t) (Some rid) sch (news ++ stamp_rows (txn_id t) (rid :: done.*1.*1) rows) im tup key.
Proof using Hid.
  intros Hown Hsr [F R D N] Hnews Hn Hu Hr Hv. exists (index_key sch im tup). split; [by eapply updated_key|].
  apply Forall_app in F as [_ F]. apply Forall_cons in F as [F _]. apply Forall_app in R as [_ R]. apply Forall_cons in R as [R _]. cbn [fst snd] in *.
  split; [done | done | |].
  - rewrite blen_under_key, fmap_app, key_count_app, stamp_key_count, (key_count_perm _ _ _ _ _ Hnews) by done.
    rewrite fmap_app, fmap_cons, !key_count_app, key_count_cons in R. cbn [snd] in R.
    assert (key_count sch im (index_key sch im tup) [tup] = 1) as E1.
    { unfold key_count. cbn [fmap list_fmap]. rewrite filter_cons, decide_True by done. done. }
    pose proof (blen_nonneg (filter (fun k => k = index_key sch im tup) (index_key sch im <$> todo.*2))). unfold key_count in *. lia.
  - intros Huq Hex. specialize (D Huq). specialize (N Huq). rewrite Forall_app in N. destruct N as [_ N]. apply Forall_cons in N as [N _]. cbn [fst snd] in N.
    apply Exists_exists in Hex as (x & Hx & Hne & Hvis). unfold under_key in Hx. apply list_elem_of_filter in Hx as [Hk Hx].
    assert (seen m t x.2) as Hseen by (apply (seen_iff m t x.1); split; [done | exact Hvis]).
    apply elem_of_app in Hx as [Hx|Hx].
    + rewrite !fmap_app in D. cbn [fmap list_fmap snd] in D. apply NoDup_app in D as (_ & D & _). apply (D (index_key sch im x.2)).
      * apply list_elem_of_fmap_2. rewrite <- Hnews. by apply list_elem_of_fmap_2.
      * rewrite Hk. left.
    + apply list_elem_of_fmap in Hx as ([r w] & -> & Hx). cbn [fst snd] in *. rewrite Forall_forall in Hsr. specialize (Hsr _ Hx). case_decide as Er; cbn [fst snd] in *.
      * by eapply (stamp_unseen m r w).
      * apply Er. pose proof (N (r, w) Hx Hseen Hk) as E. cbn [fst] in E. subst r. left.
Qed.

(** The records of updates: the old version, then the new one. *)
Definition update_records (tn : string) (meta : TableMeta) (l : list (RID * (RID * list byte))) : list json :=
  l ≫= fun x => xmax_record tn x.1 (txn_id t) :: version_records tn meta [x.2].
Lemma update_records_same tn meta meta' l : same_table meta meta' -> update_records tn meta' l = update_records tn meta l.
Proof using Type.
  intros Hs. unfold update_records. induction l as [|x l IH]; [done|]. by rewrite !bind_cons, IH, (version_records_same tn meta meta').
Qed.

Lemma stamped_wrote s c m tn meta ps pgs rids s' m' : get_table c tn = Ok meta -> stamped t s m ps tn rids s' m' ->
  wrote t s c m tn meta ps pgs ((fun rid => xmax_record tn rid (txn_id t)) <$> rids) s' c m' meta ps pgs.
Proof using Type.
  intros Hg [F C L]. split; [apply same_table_refl | by apply with_table_refl | exact L | by left | | lia].
  intros q Hq _. apply F. intros Hq'. apply Hq, elem_of_app. by left.
Qed.

Lemma update_rows_runs tn meta0 asg sch rows0 : tb_name meta0 = tn -> tb_schema meta0 = sch -> Forall stamped_row rows0 ->
  forall todo done out s c m meta hf ps pgs news n,
  table_state (S := S) s c tn meta ps pgs (news ++ stamp_rows (txn_id t) done.*1.*1 rows0) -> heap_ok (ps_view s) hf ps -> live txn t m -> own m -> tb_schema meta = sch ->
  Forall2 (fun p row => row_rid row = Ok p.1.1) todo out -> NoDup (done ++ todo).*1.*1 -> (forall p, p ∈ todo -> p.1 ∈ rows0) ->
  Forall (fun p => claim m t p.1.2 = Ok tt) todo -> Forall (rewrites sch asg) todo ->
  Forall (fun p : string * IndexMeta => update_fits m sch rows0 (done ++ todo) p.2) (tb_indexes meta) -> news.*2 ≡ₚ done.*2 ->
  ps_count s + blen todo * row_growth pgs <= INVALID_PAGE_ID ->
  runs (update_rows txn tn meta0 asg hf out n) (mkDB s c m) (fun n' db' => exists s' c' m' meta' ps' pgs' rids,
    db' = mkDB s' c' m' /\ n' = n + blen todo /\ length rids = length todo /\
    table_state s' c' tn meta' ps' pgs' (reverse (zip rids todo.*2) ++ news ++ stamp_rows (txn_id t) (done ++ todo).*1.*1 rows0) /\
    wrote t s c m tn meta ps pgs (update_records tn meta (zip todo.*1.*1 (zip rids todo.*2))) s' c' m' meta' ps' pgs').
Proof using spec Hid.
  intros Hn0 Hs0 Hsr todo. induction todo as [|[[rid raw] tup] todo IH];
    intros don out s c m meta hf ps pgs news n Hst Hok Hlive Hown Hsch Hout Hnd Hin Hcl Hrw Hfits Hnews Hcount.
  { apply Forall2_nil_inv_l in Hout as ->. cbn [update_rows]. rstep. exists s, c, m, meta, ps, pgs, []. split_and!; try done.
    - rewrite blen_nil. lia.
    - by rewrite app_nil_r.
    - apply wrote_refl; [apply Hst | apply Hlive]. }
  apply Forall2_cons_inv_l in Hout as (row & out' & Hrow & Hout & ->). cbn [fst snd] in *.
  apply Forall_cons in Hcl as [Hc Hcl]. apply Forall_cons in Hrw as [(vs & vm & Hu & Hr & Hv) Hrw]. cbn [fst snd] in *.
  rewrite blen_cons in Hcount. pose proof (row_growth_pos pgs) as Hpos. destruct (row_growth_next pgs (blen todo) (blen_nonneg todo)) as [Enext Hnext].
  assert (rid ∉ don.*1.*1) as Hnin.
  { rewrite !fmap_app in Hnd. cbn [fmap list_fmap fst] in Hnd. apply NoDup_app in Hnd as (_ & Hnd & _). intros Hx. apply (Hnd _ Hx). left. }
  set (rows := news ++ stamp_rows (txn_id t) don.*1.*1 rows0) in *.
  assert ((rid, raw) ∈ rows) as Hx.
  { apply elem_of_app. right. apply stamp_rows_other; [| done]. apply (Hin ((rid, raw), tup)). left. }
  pose proof Hu as Hu'. unfold updated_row in Hu'. destruct (decode_row (tuple_payload raw) sch) as [old|] eqn:Edec; [| done]. cbn [mbind result_bind] in Hu'.
  destruct (assign asg _) as [vm'|] eqn:Eas; [| done]. cbn [mbind result_bind] in Hu'. destruct (result_map (dindex vm') (names sch)) as [vs'|] eqn:Em; [| done].
  injection Hu' as -> ->. rewrite <- Hs0 in Edec, Eas, Em.
  cbn [update_rows]. rstep. eapply runs_lift_result; [exact Hrow|]. rstep.
  pose proof (claim_runs txn t tn meta hf ps pgs rows rid raw s c m Hst Hok Hlive Hx) as Hclaim. rewrite Hc in Hclaim.
  eapply runs_mono; [exact Hclaim|]. intros o db1 (-> & s1 & -> & Hk). cbv iota. pose proof Hk as (_ & V1 & _ & _ & N1).
  pose proof (table_state_keeps _ _ _ _ _ _ _ _ Hk Hst) as Hst1. rewrite <- V1 in Hok.
  rstep. eapply runs_lift_result; [exact Edec|]. rstep. eapply runs_lift_result; [exact Eas|]. rstep. eapply runs_lift_result; [exact Em|].
  rstep. eapply runs_mono; [eapply (stamp_version_runs txn t Hid tn meta meta0 hf ps pgs rows rid raw s1); try done; rewrite N1; clear -Hcount Hpos Enext Hnext; lia|].
  intros [] db2 (s2 & m2 & -> & Hst2 & Hok2 & Hfr2 & Hcnt2 & Hm2).
  assert (stamp_rows (txn_id t) [rid] rows = news ++ stamp_rows (txn_id t) (rid :: don.*1.*1) rows0) as Erows.
  { unfold rows. rewrite stamp_rows_app, stamp_rows_after by done. f_equal. apply stamp_rows_out. intros r ->%list_elem_of_singleton.
    pose proof (rows_nodup _ _ _ _ _ _ _ Hst) as Hnr. unfold rows in Hnr. rewrite fmap_app in Hnr. apply NoDup_app in Hnr as (_ & Hnr & _).
    intros Hr1. apply (Hnr _ Hr1). rewrite stamp_rows_rids. apply (list_elem_of_fmap_2 fst rows0 (rid, raw)). apply (Hin ((rid, raw), tup)). left. }
  rewrite Erows in Hst2. pose proof (live_logged _ _ _ _ _ _ Hlive Hm2) as Hlive2.
  rstep. eapply runs_mono; [eapply (add_version_runs txn t Hid tn meta hf ps pgs _ s2 c m2 Hst2 Hok2 Hlive2 meta0 vs vm (Some rid) tup); try done|].
  { congruence. }
  { by rewrite Hsch. }
  { rewrite Hcnt2, N1. lia. }
  { pose proof (index_columns _ _ _ _ _ _ _ Hst) as Hcols. eapply (all_take_logged t); [exact Hm2|]. rewrite Hsch in Hcols |- *.
    apply Forall_forall. intros p Hp. rewrite Forall_forall in Hcols, Hfits. eapply (update_takes m sch asg rows0 don rid raw tup todo news vs vm); try done; [by apply Hfits | by apply Hcols]. }
  intros hf3 db3 (s3 & c3 & m3 & meta3 & ps3 & pgs3 & rid3 & -> & Hst3 & Hok3 & Hrid3 & Hw3 & Hlen3 & Hcnt3).
  pose proof (wr_table _ _ _ _ _ _ _ _ _ _ _ _ _ _ _ Hw3) as Hsame. pose proof (st_schema _ _ Hsame) as Es3. pose proof (wr_log _ _ _ _ _ _ _ _ _ _ _ _ _ _ _ Hw3) as Hm3.
  assert (stamp_rows (txn_id t) (rid :: don.*1.*1) rows0 = stamp_rows (txn_id t) (don ++ [((rid, raw), tup)]).*1.*1 rows0) as Edone.
  { apply stamp_rows_perm. rewrite !fmap_app. cbn [fmap list_fmap fst]. by rewrite Permutation_app_comm. }
  rewrite Edone in Hst3. assert ((don ++ [((rid, raw), tup)]) ++ todo = don ++ ((rid, raw), tup) :: todo) as Esplit by (by rewrite <- app_assoc).
  eapply runs_mono; [eapply (IH (don ++ [((rid, raw), tup)]) out' s3 c3 m3 meta3 hf3 ps3 pgs3 ((rid3, tup) :: news) (n + 1)); try done; rewrite ?Esplit; try done|].
  - by eapply live_logged.
  - destruct Hown as [X A F]. split; [done | | done]. by rewrite (lg_same _ _ _ _ Hm3), (lg_same _ _ _ _ Hm2).
  - congruence.
  - intros p Hp. apply Hin. by right.
  - eapply Forall_impl; [exact Hcl|]. intros p. by rewrite (claim_logged _ _ _ _ _ _ Hm3), (claim_logged _ _ _ _ _ _ Hm2).
  - eapply update_fits_rerooted; [apply Hsame|]. eapply Forall_impl; [exact Hfits|]. intros p Hp. eapply update_fits_logged; [exact Hm3|]. by eapply update_fits_logged.
  - rewrite fmap_app, fmap_cons, Hnews. cbn [fmap list_fmap snd]. by rewrite Permutation_app_comm.
  - rewrite (row_growth_length pgs) by done. lia.
  - intros n' db4 (s4 & c4 & m4 & meta4 & ps4 & pgs4 & rids & -> & -> & Hl & Hst4 & Hw4). exists s4, c4, m4, meta4, ps4, pgs4, (rid3 :: rids).
    split_and!; [done | rewrite blen_cons; lia | cbn [length]; lia | |].
    + cbn [fmap list_fmap snd zip zip_with]. rewrite reverse_cons, <- app_assoc, <- Esplit. exact Hst4.
    + cbn [fmap list_fmap fst snd zip zip_with]. rewrite (update_records_same tn meta meta3) in Hw4 by done.
      unfold update_records at 1. rewrite bind_cons. eapply wrote_trans; [| exact Hw4]. cbn [fst snd].
      apply (wrote_trans t s c m tn meta ps pgs [xmax_record tn rid (txn_id t)] s2 c m2 meta ps pgs).
      * apply (stamped_wrote s c m tn meta ps pgs [rid]); [apply Hst|]. split; [intros q Hq; rewrite Hfr2, V1; done | congruence | exact Hm2].
      * unfold version_records. rewrite bind_cons. cbn [mbind list_bind]. rewrite app_nil_r. cbn [fst snd].
        rewrite <- (keyed_records tn vm rid3 (tb_schema meta) tup); [exact Hw3|].
        pose proof (index_columns _ _ _ _ _ _ _ Hst) as Hcols. rewrite Hsch in Hcols |- *. eapply Forall_impl; [exact Hcols|]. intros p Hp. by eapply updated_key.
Qed.
End update.


(** UPDATE t SET name = 'zed' WHERE id = 2 *)
Definition update_bob : Update := mkUpdate "t" [("name"%string, Literal (VStr "zed"))] (id_is 2).
Definition zed_tuple : list byte := demo_tuple 9 [VInt 2; VStr "zed"].
Lemma bob_selected : filter (fun x => matches shop_mgr (snapshot shop_txn) "t" (tb_schema shop_table) (id_is 2) x = Ok true) old_rows = [(mkRID 0 1, demo_b)].
Proof. vm_compute. reflexivity. Qed.
Lemma shop_own : own shop_txn shop_mgr.
Proof. split; [reflexivity | by apply (bool_decide_unpack _) | discriminate]. Qed.
Lemma zed_version : version_of shop_txn demo_schema [VInt 2; VStr "zed"] zed_tuple.
Proof. apply shop_version. vm_compute. split; [reflexivity | discriminate]. Qed.
Lemma zed_fits : update_fits shop_txn shop_mgr demo_schema old_rows [((mkRID 0 1, demo_b), zed_tuple)] shop_index.
Proof.
  split; [apply Forall_singleton; vm_compute; split; [discriminate | reflexivity] | apply Forall_singleton; vm_compute; discriminate | |].
  - intros _. apply NoDup_singleton.
  - intros _. apply Forall_singleton. intros x Hx _. apply elem_of_cons in Hx as [->|Hx]; [vm_compute; discriminate|].
    apply list_elem_of_singleton in Hx as ->. reflexivity.
Qed.
