(* ===== verification/CreateIndexProps.v ===== *)
(** CREATE INDEX on a table with rows: the loop over the heap scan enters every
    version into the new tree while the scan holds its page pinned, so the
    insertions run on the store of [HeldStore.v]. *)
From stdpp Require Import base numbers list gmap strings pretty.
From Stdlib Require Import ZArith Lia Strings.Byte.
From S2P Require Import Prelude PyNum Types PyVal Disk PageStore HeldStore BufferPool HeapPage HeapFile HeapFileProps HeapScan BTree BTreeNode BTreeRep BTreeSearch BTreeInsert.
From S2P Require Import Json Wal Transaction Ast PyDict Expr Executor ExecutorProps Catalog Planner PlannerProps TableRep Base64 Database LogRecords TableWrite InsertProps.

Local Open Scope Z_scope.

(** * Columns *)

Lemma index_of_from_find cols n i : n ∈ col_name <$> cols ->
  index_of_from cols n i = Ok (i + Z.of_nat (default O (fst <$> list_find (eq n) (col_name <$> cols)))).
Proof.
  revert i. induction cols as [|c cols IH]; intros i; [by intros ?%elem_of_nil|]. cbn [fmap list_fmap index_of_from list_find].
  destruct (String.eqb_spec (col_name c) n) as [<-|Hne].
  - intros _. rewrite decide_True by done. cbn. f_equal. lia.
  - intros [->|Hn]%elem_of_cons; [done|]. rewrite IH, decide_False by congruence.
    destruct (list_find_elem_of (eq n) (col_name <$> cols) n Hn eq_refl) as [[k x] E]. rewrite E. cbn. f_equal. lia.
Qed.
Lemma index_of_pos sch n : n ∈ names sch -> index_of sch n = Ok (Z.of_nat (col_pos sch n)).
Proof. apply index_of_from_find. Qed.

Lemma column_named sch n c : column sch n = Ok c -> n ∈ names sch.
Proof.
  unfold column, index_of, names. generalize 0. intros i. destruct (decide (n ∈ col_name <$> columns sch)) as [|Hn]; [done|].
  replace (index_of_from (columns sch) n i) with (Raise (A := Z) KeyError); [done|]. revert i. induction (columns sch) as [|x l IH]; intros i; [done|].
  cbn [index_of_from fmap list_fmap] in *. apply not_elem_of_cons in Hn as [Hne Hn]. destruct (String.eqb_spec (col_name x) n); [done | by apply IH].
Qed.

(** * The loop *)

Section loop.
Context {S H : Type} {store : PageStore S H}.
Context (sch : Schema) (im : IndexMeta) (ps : list Z) (rows : list (RID * list byte)) (V0 : gmap Z (list byte)) (p0 : Z).

(** The new index can take all of [rows], whatever their order. *)
Record indexable : Prop := {
  ix_keys : Forall (fun x => key_ok (index_tree im) (index_key sch im x.2)) rows;
  ix_room : Forall (fun x => blen (under_key sch im (index_key sch im x.2) rows) <= max_leaf_keys (index_tree im)) rows }.
Context (Hix : indexable) (Hcol : im_column im ∈ names sch) (Hrids : Forall (fun x : RID * list byte => rid_ok x.1) rows).
Context (Hps : forall q, q ∈ ps -> q < p0) (Hbig : p0 + 1 + GROWTH * blen rows <= INVALID_PAGE_ID).

(** The tree has the versions scanned so far, on pages of its own; the pages
    before [p0] are as they were. *)
Record filled (done : list (RID * list byte)) (tree : BPlusTree) (V : gmap Z (list byte)) (n : Z) : Prop := {
  fi_tree : exists r pg, tree = index_tree (Catalog.set_root r im) /\ index_on V done sch (Catalog.set_root r im) pg /\
              forall q, q ∈ pg -> p0 <= q;
  fi_count : p0 < n <= p0 + 1 + GROWTH * blen done;
  fi_frame : forall q, q < p0 -> V !! q = V0 !! q }.

Lemma decoded raw : key_ok (index_tree im) (index_key sch im raw) ->
  exists vs, decode_row (tuple_payload raw) sch = Ok vs /\ py_nth vs (Z.of_nat (col_pos sch (im_column im))) = Ok (index_key sch im raw).
Proof using Type.
  unfold index_key, raw_key. destruct (decode_row (tuple_payload raw) sch) as [vs|].
  - destruct (vs !! _) as [v|] eqn:E.
    + intros _. exists vs. split; [done|]. apply py_nth_lookup; [lia|]. by rewrite Nat2Z.id.
    + cbn. intros Hk. exfalso. revert Hk. unfold key_ok. by destruct (key_type _).
  - intros Hk. exfalso. revert Hk. unfold key_ok. by destruct (key_type _).
Qed.

Lemma under_key_next key a x b : index_key sch im x.2 = key -> blen (under_key sch im key a) + 1 <= blen (under_key sch im key (a ++ x :: b)).
Proof using Type.
  intros E. unfold under_key. rewrite filter_app, filter_cons, decide_True by done. rewrite blen_app, blen_cons.
  pose proof (blen_nonneg (filter (fun y : RID * list byte => index_key sch im y.2 = key) b)). lia.
Qed.

Lemma backfill_runs (K : PageStoreCore S H) (s : S) don x todo tree : rows = don ++ x :: todo -> idle s -> filled don tree (ps_view s) (ps_count s) ->
  consumes ps filled K s don [x] tree (backfill sch (Z.of_nat (col_pos sch (im_column im))) tree x.1 x.2).
Proof using Hix Hcol Hrids Hps Hbig.
  intros Erows Hs [(r & pg & -> & Hon & Hpg) Hn Hfr]. destruct x as [rid raw]. cbn [fst snd].
  assert ((rid, raw) ∈ rows) as Hin by (rewrite Erows; apply elem_of_app; right; left).
  pose proof (proj1 (Forall_forall _ _) (ix_keys Hix) _ Hin) as Hkey. pose proof (proj1 (Forall_forall _ _) (ix_room Hix) _ Hin) as Hroom.
  pose proof (proj1 (Forall_forall _ _) Hrids _ Hin) as Hrid. cbn [fst snd] in *.
  destruct (decoded raw Hkey) as (vs & Edec & Enth). rewrite Erows in Hroom. pose proof (under_key_next _ don (rid, raw) todo eq_refl) as Hnext. cbn [snd] in Hnext.
  rewrite Erows, blen_app, blen_cons in Hbig. pose proof (blen_nonneg todo). unfold GROWTH in *.
  unfold consumes, backfill. rstep. eapply runs_lift_result; [exact Edec|]. rstep. eapply runs_lift_result; [exact Enth|]. rstep.
  destruct (bt_insert_index don sch (Catalog.set_root r im) pg rid raw s Hs Hon) as ([] & [s' t'] & E & im' & pg' & Et & _ & [Gr Gon Gi Gc _ Gp Gn Gf]);
    [unfold GROWTH; lia | exact Hkey | | exact Hrid|].
  { change (blen (under_key sch im (index_key sch im raw) don) < max_leaf_keys (index_tree im)). lia. }
  cbn [fst snd] in *. unfold GROWTH in Gn. exists (tt, t'), s'. split; [unfold with_object; change (index_key sch (Catalog.set_root r im) raw) with (index_key sch im raw) in E; by rewrite E|].
  rstep. cbn [snd]. split_and!; [exact Gi | exact Gc | lia | |].
  - intros q Hq. apply Hps in Hq. apply Gf; [intros Hq'%Hpg|]; lia.
  - split.
    + exists (im_root_page_id im'), pg'. assert (Catalog.set_root (im_root_page_id im') im = im') as -> by (symmetry; exact Gr).
      split_and!; [exact Et | | intros q Hq; destruct (Gp q Hq) as [Hq'|]; [by apply Hpg | lia]].
      eapply index_on_perm; [| exact Gon]. by rewrite Permutation_app_comm.
    + rewrite blen_app. change (blen [(rid, raw)]) with 1. unfold GROWTH. lia.
    + intros q Hq. rewrite <- Hfr by done. apply Gf; [intros Hq'%Hpg|]; lia.
Qed.
End loop.

(** * The statement *)

Section statement.
Context {S H : Type} {store : PageStore S H} {spec : PageStoreSpec S H}.

(** The scan leaves a tree over all versions of the heap. *)
Lemma fill_runs sch im ps rows hf p0 (s : S) : idle s -> 3 <= ps_cap s -> heap_ok (ps_view s) hf ps -> rows = heap_rows (ps_view s) ps ->
  indexable sch im rows -> im_column im ∈ names sch -> (forall q, q ∈ ps -> q < p0) -> p0 + 1 + GROWTH * blen rows <= INVALID_PAGE_ID ->
  ps_count s = p0 + 1 -> index_on (ps_view s) [] sch im [p0] ->
  runs (scan_fold (backfill sch (Z.of_nat (col_pos sch (im_column im)))) hf (index_tree im)) s
    (fun tree s' => idle s' /\ ps_cap s' = ps_cap s /\ filled sch im (ps_view s) p0 rows tree (ps_view s') (ps_count s')).
Proof.
  intros Hs Hcap Hok Erows Hix Hcol Hps Hbig Hcount Hon. pose proof (id_inv s Hs) as Hinv.
  assert (Forall (fun x : RID * list byte => rid_ok x.1) rows) as Hrids.
  { apply Forall_forall. intros [rid raw] Hin. rewrite Erows in Hin. apply heap_rows_spec in Hin; [| apply Hok].
    eapply (heap_rid_ok (ps_view s) ps rid raw); [apply Hok | | exact Hin]. intros q Hq. pose proof (chain_view _ _ q (ho_chain _ _ _ Hok) Hq) as Hv.
    apply ps_view_dom in Hv; [| done]. pose proof (blen_nonneg rows). unfold INVALID_PAGE_ID, GROWTH in *. lia. }
  eapply runs_mono; [apply (consumes_scan (backfill sch (Z.of_nat (col_pos sch (im_column im)))) ps rows (filled sch im (ps_view s) p0)); try done|].
  - intros K s1 don x todo tree E Hs1 Hf. by apply (backfill_runs sch im ps rows (ps_view s) p0 Hix Hcol Hrids Hps Hbig K s1 don x todo tree).
  - split; [| change (blen (@nil (RID * list byte))) with 0; lia | done]. exists (im_root_page_id im), [p0].
    assert (Catalog.set_root (im_root_page_id im) im = im) as -> by (by destruct im). split_and!; [done | exact Hon |]. intros q ->%list_elem_of_singleton. lia.
  - intros tree s' (Hs' & C & _ & _ & Hf). done.
Qed.

(** An index of a column over all versions, on pages of its own, beside the others. *)
Lemma with_index_state (s s' : S) c c' tn meta ps pgs rows n im pg : table_state s c tn meta ps pgs rows -> idle s' ->
  (forall q, q < ps_count s -> ps_view s' !! q = ps_view s !! q) -> let meta' := set_indexes (tb_indexes meta ++ [(n, im)]) meta in
  get_table c' tn = Ok meta' -> dmem (tb_indexes meta) n = false -> name_ok n -> index_on (ps_view s') rows (tb_schema meta) im pg ->
  (forall q, q ∈ pg -> ps_count s <= q) -> table_state s' c' tn meta' ps (pgs ++ [pg]) rows.
Proof.
  intros [Hs Hg Htn [Tc Tnd Tids Tf Tn Td Tr Tx] Hsr Hnt Hin] Hs' Hfr meta' Hg' Hfresh Hn Hon Hpg. pose proof (id_inv s Hs) as Hinv.
  assert (forall q, q ∈ ps ++ mjoin pgs -> q < ps_count s) as Hlt.
  { intros q [Hq|Hq]%elem_of_app; [apply view_lt; [done | by eapply chain_view] | by apply (indexes_pages_lt s rows (tb_schema meta) (tb_indexes meta) pgs)]. }
  assert (forall q, q ∈ ps ++ mjoin pgs -> ps_view s' !! q = ps_view s !! q) as Hsame by auto.
  assert (mjoin (pgs ++ [pg]) = mjoin pgs ++ pg) as Ej by (rewrite join_app; cbn [mjoin list_join]; by rewrite app_nil_r).
  split; try done.
  - split; try done.
    + eapply chain_frame; [| exact Tc]. intros q Hq. apply Hsame, elem_of_app. by left.
    + rewrite Ej, (app_assoc ps). apply NoDup_app. split_and!; [done | intros q Hq Hq'; specialize (Hlt q Hq); specialize (Hpg q Hq'); lia|].
      destruct Hon as (_ & ls & Ht & _). apply Ht.
    + unfold dict_wf, meta' in *. cbn [tb_indexes set_indexes]. rewrite fmap_app. apply NoDup_app. split_and!; [done | | apply NoDup_singleton].
      intros x Hx ->%list_elem_of_singleton. apply dmem_elem in Hx. cbn in Hx. congruence.
    + rewrite Tr, (heap_rows_frame (ps_view s) (ps_view s')); [done|]. intros q Hq. apply Hsame, elem_of_app. by left.
    + cbn [meta' tb_indexes set_indexes]. apply Forall2_app; [| by constructor]. eapply indexes_on_frame; [| exact Tx].
      intros q Hq. apply Hsame, elem_of_app. by right.
  - cbn [meta' tb_indexes set_indexes]. apply Forall_app. split; [done|]. by apply Forall_singleton.
Qed.

Lemma indexable_perm sch im rows rows' : rows ≡ₚ rows' -> indexable sch im rows -> indexable sch im rows'.
Proof using Type.
  intros Hp [Hk Hr]. split; [by rewrite <- Hp|]. rewrite <- Hp. eapply Forall_impl; [exact Hr|]. intros x Hx.
  unfold under_key, blen in *. by rewrite <- Hp.
Qed.

(** CREATE INDEX on a table: the catalog's entry, an empty tree, the loop, and
    the root the loop ended with. *)
Lemma create_index_statement_runs tn n col u ty (s : S) c m meta ps pgs rows :
  table_state s c tn meta ps pgs rows -> 3 <= ps_cap s -> dmem (tb_indexes meta) n = false -> name_ok n ->
  column (tb_schema meta) col = Ok ty -> col_type ty ∈ [INT; TEXT] -> (forall r, indexable (tb_schema meta) (mkIndexMeta n col r u (col_type ty)) rows) ->
  ps_count s + 1 + GROWTH * blen rows <= INVALID_PAGE_ID ->
  runs (execute_create_index (mkCreateIndex n tn col u)) (mkDB s c m) (fun res db' => res = mkResult None 0 ("CREATE INDEX " +:+ n) /\
    exists s' c' r pg, let im := mkIndexMeta n col r u (col_type ty) in let meta' := set_indexes (tb_indexes meta ++ [(n, im)]) meta in
    db' = mkDB s' c' m /\ table_state s' c' tn meta' ps (pgs ++ [pg]) rows /\ with_table c tn meta' c' /\
    (forall q, q < ps_count s -> ps_view s' !! q = ps_view s !! q)).
Proof.
  intros Hst Hcap Hfresh Hn Hcol Hty Hix Hbig. pose proof Hst as [Hs Hg Htn Hon Hsr Hnt Hin]. pose proof Hon as [Tc Tnd Tids Tf Tn Td Tr Tx].
  pose proof (table_pages_pos _ _ _ _ _ _ _ Hst) as Hpos. set (p0 := ps_count s) in *. pose proof (id_inv s Hs) as Hinv. pose proof (blen_nonneg rows).
  assert (forall q, q ∈ ps -> q < p0) as Hps by (intros q Hq; apply view_lt; [done | by eapply chain_view]).
  assert (forall q, q ∈ mjoin pgs -> q < p0) as Hpgs by (intros q; by apply (indexes_pages_lt s rows (tb_schema meta) (tb_indexes meta))).
  assert (col ∈ names (tb_schema meta)) as Hcn by (by eapply column_named).
  unfold execute_create_index. cbn [ci_table ci_index_name ci_column ci_unique]. rstep. eapply runs_find_table; [exact Hg|].
  destruct (create_index_runs tn n col u s c meta ty (idle_room s [] 1 Hs ltac:(lia)) ltac:(unfold GROWTH in *; lia) Hg Hfresh Hcol Hty)
    as (s1 & c1 & E1 & Hc1 & Hrep & Hfr1 & I1 & P1 & C1 & N1).
  fold p0 in E1, Hc1, Hrep, Hfr1, N1. set (im := mkIndexMeta n col p0 u (col_type ty)) in *. set (meta1 := set_indexes (tb_indexes meta ++ [(n, im)]) meta) in *.
  rstep. exists im, (mkDB s1 c1 m). split; [unfold on_ddl; cbn [db_pool db_catalog]; by rewrite E1|].
  assert (get_table c1 tn = Ok meta1) as Hg1 by (by rewrite Hc1, String.eqb_refl).
  rstep. eapply runs_find_table; [exact Hg1|].
  assert (idle s1) as Hs1 by (destruct Hs; split; [done | congruence | lia]).
  assert (chain (ps_view s1) ps) as Tc1 by (eapply chain_frame; [| exact Tc]; auto).
  rstep. eapply runs_mono; [apply (open_heap_at s1 c1 m meta1 ps Hs1 Tc1); try done; by apply NoDup_app in Tnd as (? & _)|].
  intros hf db2 (s2 & -> & Hk2 & Hok2). pose proof Hk2 as (I2 & V2 & P2 & C2 & N2).
  assert (index_on (ps_view s2) [] (tb_schema meta) im [p0]) as Hon2.
  { split; [exact Hcn|]. exists [mkLeaf p0 [] [] INVALID_PAGE_ID]. split; [| done]. rewrite V2. by apply (tree_rep_format (tree_params (col_type ty) 8 u p0)). }
  rstep. apply (runs_eq _ _ _ _ _ (open_index_ok im _ [] (tb_schema meta) [p0] s2 c1 m Hon2)).
  rstep. eapply runs_lift_result; [by apply index_of_pos|].
  rstep. apply runs_on_pool.
  assert (heap_rows (ps_view s2) ps = heap_rows (ps_view s) ps) as Erows by (apply heap_rows_frame; intros q Hq; rewrite V2; auto).
  rewrite <- Erows in Tr. assert (blen (heap_rows (ps_view s2) ps) = blen rows) as Elen by (unfold blen; by rewrite Tr).
  eapply runs_mono; [apply (fill_runs (tb_schema meta) im ps (heap_rows (ps_view s2) ps) hf p0 s2); try done;
    [by eapply idle_keeps | lia | eapply indexable_perm; [exact Tr | apply Hix] | by rewrite Elen | lia]|].
  intros tree s3 (Hs3 & C3 & [(r & pg & -> & Hon3 & Hpg) Hn3 Hfr3]).
  assert (n ∉ (tb_indexes meta).*1) as Hnew by (intros Hx%dmem_elem; congruence).
  rstep. eapply runs_update_root; [exact Hg1 | by apply dget_middle |]. intros c3 Hc3. rstep. split; [done|].
  cbn [meta1 tb_indexes set_indexes] in Hc3. rewrite dset_middle in Hc3 by done. change (root_page_id (index_tree (Catalog.set_root r im))) with r in Hc3.
  assert (set_indexes (tb_indexes meta ++ [(n, Catalog.set_root r im)]) meta1 = set_indexes (tb_indexes meta ++ [(n, mkIndexMeta n col r u (col_type ty))]) meta) as Em by done.
  rewrite Em in Hc3. assert (forall q, q < p0 -> ps_view s3 !! q = ps_view s !! q) as Hframe by (intros q Hq; rewrite Hfr3, V2; auto).
  exists s3, c3, r, pg. split_and!; [done | | | done].
  - eapply (with_index_state s s3 c c3); try done; [by eapply with_table_get |].
    eapply index_on_perm; [symmetry; exact Tr | exact Hon3].
  - destruct Hc3 as [G3 K3]. split.
    + intros n'. rewrite G3, Hc1. by destruct (tn =? n')%string.
    + intros Hcat. apply K3. pose proof (create_index_keeps tn n col u (s, c) Hcat (proj1 Hn)) as Hkeep. rewrite E1 in Hkeep. apply Hkeep.
      unfold get_table in Hg. destruct (dget (cat_tables c) tn) as [meta'|] eqn:Eg; [| done]. injection Hg as ->.
      pose proof (to_columns _ (table_ok_get c tn meta Hcat Eg)) as Hcols. apply list_elem_of_fmap in Hcn as (cc & -> & Hcc).
      rewrite Forall_forall in Hcols. by apply Hcols.
Qed.
End statement.

(** C8: CREATE INDEX on an INT or TEXT column of a table with rows, under a new
    name: if every version has a key the index can store and no key has more
    versions than a leaf holds, the table gets an index with one entry for
    each version in the heap, visible or not, on new pages; the rows, the other
    indexes, tables and pages stay as they are. The loop scans the heap with a
    page pinned while the tree grows, so three frames are needed. *)
Theorem create_index_statement_ok {S H : Type} {store : PageStore S H} {spec : PageStoreSpec S H} stmt ty (s : S) c m meta ps pgs rows :
  let tn := ci_table stmt in let n := ci_index_name stmt in let new r := mkIndexMeta n (ci_column stmt) r (ci_unique stmt) (col_type ty) in
  table_state s c tn meta ps pgs rows -> 3 <= ps_cap s -> dmem (tb_indexes meta) n = false -> name_ok n ->
  column (tb_schema meta) (ci_column stmt) = Ok ty -> col_type ty ∈ [INT; TEXT] -> (forall r, indexable (tb_schema meta) (new r) rows) ->
  ps_count s + 1 + GROWTH * blen rows <= INVALID_PAGE_ID ->
  exists s' c' r pg, let meta' := set_indexes (tb_indexes meta ++ [(n, new r)]) meta in
  execute_create_index stmt (mkDB s c m) = (Ok (mkResult None 0 ("CREATE INDEX " +:+ n)), mkDB s' c' m) /\
  table_state s' c' tn meta' ps (pgs ++ [pg]) rows /\ with_table c tn meta' c' /\
  (forall q, q < ps_count s -> ps_view s' !! q = ps_view s !! q).
Proof.
  destruct stmt as [n tn col u]. cbn [ci_table ci_index_name ci_column ci_unique]. intros Hst Hcap Hfresh Hn Hcol Hty Hix Hbig.
  destruct (create_index_statement_runs tn n col u ty s c m meta ps pgs rows Hst Hcap Hfresh Hn Hcol Hty Hix Hbig)
    as (r0 & db' & E & -> & s' & c' & r & pg & -> & Hst' & Hc' & Hfr). by exists s', c', r, pg.
Qed.

(** CREATE INDEX t_name ON t (name) *)
Definition index_names : CreateIndex := mkCreateIndex "t_name" "t" "name" false.
Lemma create_index_statement_ok_witness : exists s' c' r pg,
  let meta' := set_indexes [("t_id", shop_index); ("t_name", mkIndexMeta "t_name" "name" r false TEXT)]%string shop_table in
  execute_create_index index_names shop_db = (Ok (mkResult None 0 "CREATE INDEX t_name"), mkDB s' c' shop_mgr) /\
  table_state s' c' "t" meta' [0] [[2]; pg] old_rows /\ with_table shop_catalog "t" meta' c' /\
  (forall q, q < ps_count shop_pool -> ps_view s' !! q = ps_view shop_pool !! q).
Proof.
  apply (create_index_statement_ok index_names (mkColumn "name" TEXT) shop_pool shop_catalog shop_mgr shop_table [0] [[2]] old_rows).
  - exact shop_state.
  - destruct shop_facts as (_ & _ & ->). lia.
  - reflexivity.
  - split; reflexivity.
  - reflexivity.
  - right. left.
  - intros r. split; repeat apply Forall_cons_2; try apply Forall_nil_2; vm_compute; repeat split; discriminate.
  - rewrite shop_count. vm_compute. discriminate.
Defined.
