(* ===== verification/DatabaseProps.v ===== *)
(** What a statement does to the transactions: it touches only the log of its
    own transaction, so a statement that fails on its own leaves nothing any
    snapshot will ever see. *)
From stdpp Require Import base numbers list gmap strings pretty relations.
From Stdlib Require Import ZArith Lia Strings.Byte.
From S2P Require Import Prelude PyNum Types PyVal Disk PageStore BufferPool HeapPage HeapFile BTree Json Wal Transaction.
From S2P Require Import Ast Lexer Parser PyDict Expr Executor Catalog Planner Base64 Database.

Local Open Scope Z_scope.

(** * Programs that leave the transactions alone *)

(** The same transactions, over a log that may have grown. *)
Definition same_txns (m m' : TransactionManager) : Prop :=
  m' = set_wal (tm_wal m') m /\ wal_open (tm_wal m') = wal_open (tm_wal m).

Lemma same_txns_refl m : same_txns m m.
Proof. by destruct m. Qed.
Lemma same_txns_trans m1 m2 m3 : same_txns m1 m2 -> same_txns m2 m3 -> same_txns m1 m3.
Proof. intros [E1 O1] [E2 O2]. split; [rewrite E2, E1; done | congruence]. Qed.

Lemma append_open t x p w : wal_open (wal_append t x p w).2 = wal_open w.
Proof.
  unfold wal_append, wal_check_open, wal_write. unfold mbind, M_bind, gets, lift_result, raise, mret, M_ret, modify. cbn.
  unfold wal_check_open. unfold mbind, M_bind, gets, raise, mret, M_ret.
  destruct (wal_open w) eqn:E; cbn; [| done]. destruct (pack_header t x _); cbn; [| done].
  rewrite E. cbn. by rewrite E.
Qed.

Section quiet.
Context {S H : Type} `{PageStore S H}.

Definition quiet {A} (p : M (Database S) A) : Prop := forall db, same_txns (db_txn_mgr db) (db_txn_mgr (p db).2).

Lemma quiet_bind {A B} (m : M (Database S) A) (k : A -> M (Database S) B) : quiet m -> (forall a, quiet (k a)) -> quiet (m ≫= k).
Proof.
  intros Hm Hk db. unfold mbind, M_bind. specialize (Hm db). destruct (m db) as [[a|e] db1]; cbn in *; [| done].
  eapply same_txns_trans; [exact Hm | apply Hk].
Qed.
Lemma quiet_ret {A} (a : A) : quiet (mret a).
Proof. intros db. apply same_txns_refl. Qed.
Lemma quiet_raise {A} e : quiet (raise (A := A) e).
Proof. intros db. apply same_txns_refl. Qed.
Lemma quiet_gets {A} (f : Database S -> A) : quiet (gets f).
Proof. intros db. apply same_txns_refl. Qed.
Lemma quiet_result {A} (r : result A) : quiet (lift_result r).
Proof. intros db. apply same_txns_refl. Qed.
Lemma quiet_pool {A} (m : M S A) : quiet (on_pool m).
Proof. intros db. unfold on_pool. destruct (m (db_pool db)). apply same_txns_refl. Qed.
Lemma quiet_catalog {A} (m : M Catalog A) : quiet (on_catalog m).
Proof. intros db. unfold on_catalog. destruct (m (db_catalog db)). apply same_txns_refl. Qed.
Lemma quiet_ddl {A} (m : M (S * Catalog) A) : quiet (on_ddl m).
Proof. intros db. unfold on_ddl. destruct (m _). apply same_txns_refl. Qed.
Lemma quiet_get_txn i : quiet (the_txn i).
Proof.
  intros db. unfold the_txn, on_mgr, get_txn. unfold mbind, M_bind, gets. cbn.
  destruct (tm_txns (db_txn_mgr db) !! i); apply same_txns_refl.
Qed.
Lemma quiet_log i kind fields : quiet (on_mgr (txn_log_operation i kind fields)).
Proof.
  intros db. unfold on_mgr, txn_log_operation, get_txn. unfold mbind, M_bind, gets. cbn.
  destruct (tm_txns (db_txn_mgr db) !! i) as [t|]; [| apply same_txns_refl]. cbn. rewrite on_wal_eq.
  destruct (log_operation _ _ _ _) as [[?|?] w] eqn:E; cbn; (split; [done|]);
    (pose proof (append_open Wal.OP (txn_id t) (JObj (("kind"%string, JStr kind) :: fields)) (tm_wal (db_txn_mgr db))) as Ho;
     unfold log_operation in E; by rewrite E in Ho).
Qed.

Create HintDb quiet discriminated.
Hint Resolve quiet_ret quiet_raise quiet_gets quiet_result quiet_pool quiet_catalog quiet_ddl quiet_get_txn quiet_log : quiet.

(** Walk through a program; what it calls is in the database. *)
Ltac quiet := repeat first
  [ solve [auto 1 with quiet nocore]
  | apply quiet_bind; [| intros ?]
  | match goal with |- quiet (match ?x with _ => _ end) => destruct x end ].

Lemma quiet_find_table n : quiet (find_table (S := S) n).
Proof. unfold find_table. quiet. Qed.
Lemma quiet_open_heap meta : quiet (open_heap meta).
Proof. apply quiet_pool. Qed.
Lemma quiet_open_index im : quiet (open_index im).
Proof. apply quiet_pool. Qed.
Lemma quiet_object {T A} (t : T) (m : M (S * T) A) : quiet (on_object t m).
Proof. apply quiet_pool. Qed.
Hint Resolve quiet_find_table quiet_open_heap quiet_open_index quiet_object : quiet.

Lemma quiet_check_entries snap ex rids : quiet (check_entries snap ex rids).
Proof. induction rids as [|rid rids IH]; cbn [check_entries]; quiet. Qed.
Hint Resolve quiet_check_entries : quiet.
Lemma quiet_check_unique i im key ex : quiet (check_unique_constraint i im key ex).
Proof. unfold check_unique_constraint. quiet. Qed.
Hint Resolve quiet_check_unique : quiet.
Lemma quiet_into_index i t vm rid ex n : quiet (insert_into_index i t vm rid ex n).
Proof. unfold insert_into_index. quiet. Qed.
Hint Resolve quiet_into_index : quiet.
Lemma quiet_into_each i t vm rid ex ns : quiet (insert_into_each i t vm rid ex ns).
Proof. induction ns as [|n ns IH]; cbn [insert_into_each]; quiet. Qed.
Hint Resolve quiet_into_each : quiet.
Lemma quiet_add_version i t meta heap vs vm ex : quiet (add_version i t meta heap vs vm ex).
Proof. unfold add_version, insert_into_indexes. quiet. Qed.
Hint Resolve quiet_add_version : quiet.
Lemma quiet_insert_rows i t meta rows : forall heap n, quiet (insert_rows i t meta heap rows n).
Proof. induction rows as [|vs rows IH]; intros heap n; cbn [insert_rows]; quiet. Qed.
Lemma quiet_list_plan i fuel plan : quiet (list_plan i fuel plan).
Proof. unfold list_plan. quiet. Qed.
Hint Resolve quiet_insert_rows quiet_list_plan : quiet.
Lemma quiet_claim i rid : quiet (claim_version i rid).
Proof. unfold claim_version. quiet. Qed.
Lemma quiet_stamp i meta rid raw : quiet (stamp_version i meta rid raw).
Proof. unfold stamp_version. quiet. Qed.
Hint Resolve quiet_claim quiet_stamp : quiet.
Lemma quiet_update_rows i t meta asg ms : forall heap n, quiet (update_rows i t meta asg heap ms n).
Proof. induction ms as [|row ms IH]; intros heap n; cbn [update_rows]; quiet. Qed.
Lemma quiet_delete_rows i meta ms : forall n, quiet (delete_rows i meta ms n).
Proof. induction ms as [|row ms IH]; intros n; cbn [delete_rows]; quiet. Qed.
Hint Resolve quiet_update_rows quiet_delete_rows : quiet.

Lemma quiet_dispatch fuel stmt txn : quiet (dispatch fuel stmt txn).
Proof.
  destruct stmt as [s|s|s|s|s|s]; cbn [dispatch]; [| | destruct txn as [i|]; cbn [with_txn]; [| by apply quiet_raise] ..].
  - unfold execute_create_table. quiet.
  - unfold execute_create_index. quiet.
  - unfold execute_insert. quiet.
  - unfold execute_select. quiet.
  - unfold execute_update, matching_rows. quiet.
  - unfold execute_delete, matching_rows. quiet.
Qed.
End quiet.

(** * A statement in its own transaction *)

Lemma append_small t i w : wal_open w = true -> 0 <= i < 2 ^ 32 ->
  exists off w', wal_append t i (JObj []) w = (Ok off, w') /\ wal_open w' = true.
Proof.
  intros Ho Hi. assert (entry_ok (mkEntry t i (JObj []))) as He by (constructor; [exact Hi | reflexivity | done]).
  destruct (pack_header_ok _ He) as (h & Eh & _). cbn [en_type en_txn en_payload] in Eh.
  assert (runs (wal_append t i (JObj [])) w (fun _ _ => True)) as (off & w' & E & _).
  { unfold wal_append, wal_write, wal_check_open. repeat rstep. rewrite Ho. repeat rstep.
    eapply runs_lift_result; [exact Eh|]. repeat rstep. rewrite Ho. repeat rstep. cbn [wal_open]. rewrite Ho. by repeat rstep. }
  exists off, w'. split; [done|]. pose proof (append_open t i (JObj []) w) as Ho'. rewrite E in Ho'. cbn in Ho'. congruence.
Qed.

Lemma flush_open w : wal_open w = true -> exists w', wal_flush w = (Ok tt, w') /\ wal_open w' = true.
Proof. intros Ho. unfold wal_flush, wal_check_open. unfold mbind, M_bind, gets. cbn. rewrite Ho. cbn. eexists. split; [reflexivity | done]. Qed.

Lemma commit_small i w : wal_open w = true -> 0 <= i < 2 ^ 32 -> exists off w', log_commit i w = (Ok off, w') /\ wal_open w' = true.
Proof.
  intros Ho Hi. destruct (append_small COMMIT i w Ho Hi) as (off & w1 & E & O1). destruct (flush_open w1 O1) as (w2 & E2 & O2).
  exists off, w2. split; [| done]. unfold log_commit. by rewrite (bind_ok _ _ _ _ _ E), (bind_ok _ _ _ _ _ E2).
Qed.

Section begin.
Context (m : TransactionManager).
Notation i := (tm_next_txn_id m).
Context (Hopen : wal_open (tm_wal m) = true) (Hi : 0 <= i < 2 ^ 32).

Definition begun (w : WriteAheadLog) : TransactionManager :=
  mkTM w (i + 1) ({[i]} ∪ tm_active_xids m) (tm_aborted_xids m) (<[i := mkTxn i (mkSnapshot i (tm_active_xids m)) ACTIVE]> (tm_txns m)).

Lemma begin_runs : exists w, begin m = (Ok i, begun w) /\ wal_open w = true.
Proof using Hopen Hi.
  destruct (append_small BEGIN i (tm_wal m) Hopen Hi) as (off & w & E & O). exists w. split; [| done].
  unfold begin. mstep. unfold mbind at 1, M_bind. rewrite on_wal_eq. cbn [tm_wal set_active set_next]. unfold log_begin. by rewrite E.
Qed.

(** Ending it. *)
Definition ended (w : WriteAheadLog) (s : TxnState) (ab : gset Z) : TransactionManager :=
  mkTM w (i + 1) (({[i]} ∪ tm_active_xids m) ∖ {[i]}) ab (<[i := mkTxn i (mkSnapshot i (tm_active_xids m)) s]> (tm_txns m)).

Lemma get_begun w : get_txn i (begun w) = (Ok (mkTxn i (mkSnapshot i (tm_active_xids m)) ACTIVE), begun w).
Proof using Type. apply get_txn_Some. apply lookup_insert_eq. Qed.

Lemma commit_runs w : wal_open w = true -> exists w', commit i (begun w) = (Ok tt, ended w' COMMITTED (tm_aborted_xids m)).
Proof using Hi.
  intros O. destruct (commit_small i w O Hi) as (off & w' & E & _). exists w'.
  unfold commit. rewrite (bind_ok _ _ _ _ _ (get_begun w)). cbn [state]. rewrite decide_True by done.
  unfold mbind at 1, M_bind. rewrite on_wal_eq. cbn [tm_wal begun txn_id]. rewrite E. cbn [fst snd]. mstep.
  unfold modify, ended, set_txn, set_active, set_wal. cbn. by rewrite insert_insert_eq.
Qed.

Lemma abort_runs w : wal_open w = true -> exists w', abort i (begun w) = (Ok tt, ended w' ABORTED ({[i]} ∪ tm_aborted_xids m)).
Proof using Hi.
  intros O. destruct (append_small ABORT i w O Hi) as (off & w' & E & _). exists w'.
  unfold abort. rewrite (bind_ok _ _ _ _ _ (get_begun w)). cbn [state]. rewrite decide_True by done.
  unfold mbind at 1, M_bind. rewrite on_wal_eq. cbn [tm_wal begun txn_id]. unfold log_abort. rewrite E. cbn [fst snd]. mstep.
  unfold modify, ended, set_txn, set_aborted, set_active, set_wal. cbn. by rewrite insert_insert_eq.
Qed.
End begin.

Lemma on_mgr_eq {S A} (p : M TransactionManager A) (db : Database S) a m' : p (db_txn_mgr db) = (Ok a, m') -> on_mgr p db = (Ok a, set_mgr m' db).
Proof. intros E. unfold on_mgr. by rewrite E. Qed.

(** ** The rest of the process *)

(** What can happen while the process runs: statements, in a transaction of their
    own or in an open one; transactions begun and ended; anything that leaves
    them alone, as a checkpoint does. *)
Inductive db_step {S H : Type} `{PageStore S H} : Database S -> Database S -> Prop :=
| st_statement fuel stmt txn db : db_step db (run_statement fuel stmt txn db).2
| st_begin db : db_step db (db_begin db).2
| st_commit i db : db_step db (on_mgr (commit i) db).2
| st_abort i db : db_step db (on_mgr (abort i) db).2
| st_other db db' w : db_txn_mgr db' = set_wal w (db_txn_mgr db) -> db_step db db'.

Section grows.
Context {S H : Type} `{PageStore S H}.

(** What is aborted stays aborted. *)
Definition grows {A} (p : M (Database S) A) : Prop := forall db, tm_aborted_xids (db_txn_mgr db) ⊆ tm_aborted_xids (db_txn_mgr (p db).2).
Lemma quiet_grows {A} (p : M (Database S) A) : quiet p -> grows p.
Proof. intros Hq db. destruct (Hq db) as [-> _]. done. Qed.
Lemma grows_bind {A B} (p : M (Database S) A) (k : A -> M (Database S) B) : grows p -> (forall a, grows (k a)) -> grows (p ≫= k).
Proof.
  intros Hp Hk db. unfold mbind, M_bind. specialize (Hp db). destruct (p db) as [[a|e] db1]; cbn in *; [| done].
  etrans; [exact Hp | apply Hk].
Qed.
Lemma grows_on_error {A} (p : M (Database S) A) h : grows p -> grows h -> grows (on_error p h).
Proof.
  intros Hp Hh db. unfold on_error. specialize (Hp db). destruct (p db) as [[a|e] db1]; cbn in *; [done|].
  specialize (Hh db1). destruct (h db1) as [[]]; cbn in *; by etrans.
Qed.
Lemma grows_mgr {A} (p : M TransactionManager A) : (forall m, tm_aborted_xids m ⊆ tm_aborted_xids (p m).2) -> grows (on_mgr p).
Proof. intros Hp db. unfold on_mgr. specialize (Hp (db_txn_mgr db)). by destruct (p (db_txn_mgr db)). Qed.

Lemma begin_grows : grows (on_mgr begin).
Proof.
  apply grows_mgr. intros m. unfold begin. mstep. unfold mbind at 1, M_bind. rewrite on_wal_eq.
  by destruct (log_begin _ _) as [[]].
Qed.
Lemma commit_grows i : grows (on_mgr (commit i)).
Proof.
  apply grows_mgr. intros m. unfold commit, get_txn. unfold mbind, M_bind, gets. destruct (tm_txns m !! i) as [t|]; [| done].
  cbn. case_decide; [| done]. rewrite on_wal_eq. by destruct (log_commit _ _) as [[]].
Qed.
Lemma abort_grows i : grows (on_mgr (abort i)).
Proof.
  apply grows_mgr. intros m. unfold abort, get_txn. unfold mbind, M_bind, gets. destruct (tm_txns m !! i) as [t|]; [| done].
  cbn. case_decide; [| done]. rewrite on_wal_eq. destruct (log_abort _ _) as [[]]; cbn; set_solver.
Qed.
Lemma statement_grows fuel stmt txn : grows (run_statement fuel stmt txn).
Proof.
  pose proof (fun t => quiet_grows _ (quiet_dispatch fuel stmt t)) as Hd. unfold run_statement. destruct txn as [i|]; [apply Hd|].
  destruct (is_ddl stmt); [apply Hd|]. apply grows_bind; [apply begin_grows|]. intros i.
  apply grows_bind; [apply grows_on_error; [apply Hd | apply abort_grows]|]. intros r.
  apply grows_bind; [apply commit_grows | intros []; by intros db].
Qed.

Lemma step_grows db db' : db_step db db' -> tm_aborted_xids (db_txn_mgr db) ⊆ tm_aborted_xids (db_txn_mgr db').
Proof.
  intros [fuel stmt txn d | d | i d | i d | d d' w E]; [apply statement_grows | apply begin_grows | apply commit_grows | apply abort_grows | by rewrite E].
Qed.
Lemma steps_grow db db' : rtc db_step db db' -> tm_aborted_xids (db_txn_mgr db) ⊆ tm_aborted_xids (db_txn_mgr db').
Proof. induction 1 as [|db db1 db2 Hs _ IH]; [done|]. etrans; [by apply step_grows | exact IH]. Qed.
End grows.

Lemma aborted_hidden m i : i ∈ tm_aborted_xids m -> forall x s, is_visible m i x s = false /\ is_visible m x i s = is_visible m x INFINITY_TXN s.
Proof.
  intros Hi x s. split; [by apply aborted_invisible|]. unfold is_visible. rewrite (bool_decide_true (i ∈ _)) by done.
  by rewrite orb_true_r, Z.eqb_refl.
Qed.

(** C3: A statement outside an explicit transaction, whatever becomes of it: its
    transaction has ended and no other has changed. If it raised, the
    transaction is aborted, and as long as the process runs, whatever
    statements, commits and aborts follow, no snapshot sees a row version it
    wrote, and a version it deleted is as visible as before. (Opening the
    database again after a checkpoint forgets the abort:
    [Transaction.checkpoint_forgets_aborts].) *)
Theorem statement_atomic {S H : Type} `{PageStore S H} fuel stmt (db : Database S) :
  let m := db_txn_mgr db in let i := tm_next_txn_id m in
  is_ddl stmt = false -> wal_open (tm_wal m) = true -> 0 <= i < 2 ^ 32 -> i ∉ tm_active_xids m ->
  exists r db', run_statement fuel stmt None db = (r, db') /\
  let m' := db_txn_mgr db' in
  tm_next_txn_id m' = i + 1 /\ tm_active_xids m' = tm_active_xids m /\ (forall j, j <> i -> tm_txns m' !! j = tm_txns m !! j) /\
  match r with
  | Ok _ => tm_aborted_xids m' = tm_aborted_xids m
  | Raise _ => tm_aborted_xids m' = {[i]} ∪ tm_aborted_xids m /\
      forall db2, rtc db_step db' db2 -> forall x s, is_visible (db_txn_mgr db2) i x s = false /\
        is_visible (db_txn_mgr db2) x i s = is_visible (db_txn_mgr db2) x INFINITY_TXN s
  end.
Proof.
  intros m i Hd Ho Hi Ha. unfold run_statement. rewrite Hd.
  destruct (begin_runs m Ho Hi) as (w & Eb & O). rewrite (bind_ok _ _ _ _ _ (on_mgr_eq _ _ _ _ Eb)).
  pose proof (quiet_dispatch fuel stmt (Some i) (set_mgr (begun m w) db)) as Hq. cbn [set_mgr db_txn_mgr] in Hq.
  assert (forall st ab, tm_active_xids (ended m st COMMITTED ab) = tm_active_xids m) as Hact by (intros; cbn; set_solver).
  unfold mbind, M_bind, on_error. fold i.
  destruct (dispatch fuel stmt (Some i) (set_mgr (begun m w) db)) as [[res|e] db2]; cbn [fst snd] in Hq |- *; destruct Hq as [Eq Oq].
  - destruct (commit_runs m Hi (tm_wal (db_txn_mgr db2))) as (w' & Ec); [by etrans; [exact Oq | exact O]|].
    rewrite (on_mgr_eq _ _ tt (ended m w' COMMITTED (tm_aborted_xids m))) by (rewrite Eq; exact Ec).
    eexists _, _. split; [reflexivity|]. cbn [set_mgr db_txn_mgr ended tm_next_txn_id tm_aborted_xids tm_txns].
    split_and!; [done | apply (Hact w' ∅) | | done]. intros j Hj. by apply lookup_insert_ne.
  - destruct (abort_runs m Hi (tm_wal (db_txn_mgr db2))) as (w' & Ec); [by etrans; [exact Oq | exact O]|].
    rewrite (on_mgr_eq _ _ tt (ended m w' ABORTED ({[i]} ∪ tm_aborted_xids m))) by (rewrite Eq; exact Ec).
    eexists _, _. split; [reflexivity|]. cbn [set_mgr db_txn_mgr]. cbn [ended tm_next_txn_id tm_aborted_xids tm_txns].
    split_and!; [done | apply (Hact w' ∅) | intros j Hj; by apply lookup_insert_ne | done |].
    intros db3 Hsteps. apply aborted_hidden. apply (steps_grow _ _ Hsteps). cbn. set_solver.
Qed.

(** * A database to run *)

Definition no_files : db_files := mkFiles None None None.
(** The state statements of their own transactions leave, errors included. *)
Fixpoint run_sql (db : Database BufferPoolManager) (sqls : list string) : Database BufferPoolManager :=
  match sqls with [] => db | q :: qs => run_sql (execute 60 q None db).2 qs end.
Definition opened (files : db_files) : Database BufferPoolManager :=
  match db_init files 8 with
  | Ok db => db
  | Raise _ => mkDB (bp_init (dm_init None) 8) (mkCatalog [] None) (tm_init (wal_init None) 1 ∅)
  end.
Definition sample_db : Database BufferPoolManager :=
  run_sql (opened no_files)
    ["CREATE TABLE t (id INT, name TEXT)"; "CREATE UNIQUE INDEX u ON t (id)"; "INSERT INTO t VALUES (1, 'ann')"]%string.

(** INSERT INTO t VALUES (2, 'bob'), (1, 'eve') *)
Definition half_good : Statement := SInsert (mkInsert "t" None
  [[Literal (VInt 2); Literal (VStr "bob")]; [Literal (VInt 1); Literal (VStr "eve")]]).

Lemma sample_next : tm_next_txn_id (db_txn_mgr sample_db) = 2.
Proof. vm_compute. reflexivity. Qed.
Lemma half_good_fails : fst (run_statement 60 half_good None sample_db) = Raise DuplicateKeyError.
Proof. vm_compute. reflexivity. Qed.

Lemma statement_atomic_witness : exists db', run_statement 60 half_good None sample_db = (Raise DuplicateKeyError, db') /\
  forall db2, rtc db_step db' db2 -> forall x s, is_visible (db_txn_mgr db2) 2 x s = false.
Proof.
  pose proof (statement_atomic 60 half_good sample_db) as Ha. cbv zeta in Ha. rewrite sample_next in Ha.
  destruct Ha as (r & db' & E & _ & _ & _ & Hr).
  - reflexivity.
  - vm_compute. reflexivity.
  - split; [discriminate | reflexivity].
  - apply (bool_decide_unpack _). vm_compute. exact I.
  - pose proof half_good_fails as Er. rewrite E in Er. cbn [fst] in Er. subst r. exists db'. split; [exact E|].
    intros db2 Hs x s. destruct Hr as [_ Hr]. exact (proj1 (Hr db2 Hs x s)).
Defined.

(** * Where the database goes wrong *)

Definition run_in (i : Z) (q : string) (db : Database BufferPoolManager) : Database BufferPoolManager := (execute 60 q (Some i) db).2.
Definition query (q : string) (db : Database BufferPoolManager) : result (option (list Row)) :=
  match (execute 60 q None db).1 with Ok r => Ok (ex_rows r) | Raise e => Raise e end.
Definition reopened (files : Database BufferPoolManager -> db_files) (db : Database BufferPoolManager) : result (Database BufferPoolManager) :=
  db_init (files db) 8.
Definition query_after (files : Database BufferPoolManager -> db_files) (q : string) (db : Database BufferPoolManager) : result (option (list Row)) :=
  db' ← reopened files db; query q db'.
Definition shown (ids : list Z) : result (option (list Row)) := Ok (Some ((fun i => [("id"%string, DVal (VInt i))]) <$> ids)).

(** An orderly close writes every page but no checkpoint, and replay inserts
    every logged row again: after closing and reopening, the rows inserted
    since the last checkpoint are there twice, and deleted ones are back. *)
Theorem reopen_duplicates_rows :
  let db := run_sql (opened no_files) ["CREATE TABLE t (id INT)"; "INSERT INTO t VALUES (1), (2)"; "DELETE FROM t WHERE id = 1"]%string in
  query "SELECT * FROM t" db = shown [2] /\
  query_after files_of "SELECT * FROM t" (db_close db).2 = shown [2; 1; 2].
Proof. vm_compute. split; reflexivity. Qed.

(** Replay puts rows where they fit, but the log names them by where they
    were. Here the row of an aborted transaction is missing after a crash, so
    the next row moves into its slot and its deletion is not replayed: the
    deletion was committed, and the row is back. *)
Theorem replay_resurrects_row :
  let db1 := (db_begin (run_sql (opened no_files) ["CREATE TABLE t (id INT)"]%string)).2 in
  let db2 := (on_mgr (abort 1) (run_in 1 "INSERT INTO t VALUES (7)" db1)).2 in
  let db := run_sql db2 ["INSERT INTO t VALUES (8)"; "DELETE FROM t WHERE id = 8"]%string in
  query "SELECT * FROM t" db = shown [] /\ query_after files_of "SELECT * FROM t" db = shown [8].
Proof. vm_compute. split; reflexivity. Qed.

(** With an index on the column, a DELETE that selects nothing deletes every
    row: the planner scans the index without bounds and drops the conjunct. *)
Theorem delete_null_deletes_all :
  let sqls (index : list string) := ["CREATE TABLE t (id INT)"]%string ++ index ++ ["INSERT INTO t VALUES (1), (2)"; "DELETE FROM t WHERE id = NULL"]%string in
  query "SELECT * FROM t" (run_sql (opened no_files) (sqls [])) = shown [1; 2] /\
  query "SELECT * FROM t" (run_sql (opened no_files) (sqls ["CREATE INDEX i ON t (id)"]%string)) = shown [].
Proof. vm_compute. split; reflexivity. Qed.

(** WHERE is applied to the left table before the join, so a column both tables
    have is the left one's in WHERE and the right one's in the result: the row
    with [n = 6] is found and the one with [n = 5] is not. *)
Theorem where_picks_other_rows :
  let db := run_sql (opened no_files) ["CREATE TABLE t (id INT, n INT)"; "CREATE TABLE u (id INT, n INT)";
    "INSERT INTO t VALUES (1, 5), (2, 6)"; "INSERT INTO u VALUES (1, 6), (2, 5)"]%string in
  query "SELECT n FROM t JOIN u ON t.id = u.id" db = Ok (Some [[("n"%string, DVal (VInt 6))]; [("n"%string, DVal (VInt 5))]]) /\
  query "SELECT n FROM t JOIN u ON t.id = u.id WHERE n = 5" db = Ok (Some [[("n"%string, DVal (VInt 6))]]).
Proof. vm_compute. split; reflexivity. Qed.

(** The unique check runs after the row is in the heap: inside an explicit
    transaction the refused row stays, and is committed with the rest. *)
Theorem refused_row_stays :
  let db1 := (db_begin (run_sql (opened no_files)
    ["CREATE TABLE t (id INT)"; "CREATE UNIQUE INDEX u ON t (id)"; "INSERT INTO t VALUES (1)"]%string)).2 in
  let i := tm_next_txn_id (db_txn_mgr db1) - 1 in
  (execute 60 "INSERT INTO t VALUES (1)" (Some i) db1).1 = Raise DuplicateKeyError /\
  query "SELECT * FROM t" (on_mgr (commit i) (run_in i "INSERT INTO t VALUES (1)" db1)).2 = shown [1; 1].
Proof. vm_compute. split; reflexivity. Qed.

(** DDL writes its page but does not force it to disk: after a power failure
    the catalog, which is forced, names a page that does not exist. *)
Theorem created_table_lost :
  let db := run_sql (opened no_files) ["CREATE TABLE t (id INT)"]%string in
  query "SELECT * FROM t" db = shown [] /\ query_after files_after_crash "SELECT * FROM t" db = Raise ValueError.
Proof. vm_compute. split; reflexivity. Qed.

(** An index on a column with duplicates is created as unique all the same. *)
Theorem unique_index_over_duplicates :
  let db := run_sql (opened no_files) ["CREATE TABLE t (id INT)"; "INSERT INTO t VALUES (1), (1)"; "CREATE UNIQUE INDEX u ON t (id)"]%string in
  query "SELECT * FROM t WHERE id = 1" db = shown [1; 1] /\
  (meta ← get_table (db_catalog db) "t"; im ← dindex (tb_indexes meta) "u"; Ok (im_unique im)) = Ok true.
Proof. vm_compute. split; reflexivity. Qed.

(** The unique check looks only at versions its own transaction sees: two
    transactions that run at the same time both insert the key, and both
    commit. *)
Theorem concurrent_duplicates_commit :
  let db := run_sql (opened no_files) ["CREATE TABLE t (id INT)"; "CREATE UNIQUE INDEX u ON t (id)"]%string in
  let db1 := run_in 2 "INSERT INTO t VALUES (5)" (run_in 1 "INSERT INTO t VALUES (5)" (db_begin (db_begin db).2).2) in
  let db2 := (on_mgr (commit 1) db1).2 in
  (on_mgr (commit 2) db2).1 = Ok tt /\ query "SELECT * FROM t" (on_mgr (commit 2) db2).2 = shown [5; 5].
Proof. vm_compute. split; reflexivity. Qed.

(** Names of columns that do not exist are taken where values are assigned: the
    value is dropped, and UPDATE still writes a new version. *)
Theorem unknown_columns_accepted :
  let db := run_sql (opened no_files) ["CREATE TABLE t (id INT)"; "INSERT INTO t (id, nosuch) VALUES (1, 2)"]%string in
  query "SELECT * FROM t" db = shown [1] /\
  (execute 60 "UPDATE t SET nosuch = 7" None db).1 = Ok (mkResult None 1 "UPDATE 1") /\
  query "SELECT nosuch FROM t" (execute 60 "UPDATE t SET nosuch = 7" None db).2 = Raise ColumnNotFoundError.
Proof. vm_compute. repeat split; reflexivity. Qed.
