(* ===== verification/Lifecycle.v ===== *)
(** Checkpoints and restarts ([src/minirel/database.py], [checkpoint] and
    [__init__]): what a database that was checkpointed holds when it is opened
    again, and what a checkpoint is refused for. *)
From stdpp Require Import base numbers list gmap strings pretty sets.
From Stdlib Require Import ZArith Lia Strings.Byte.
From S2P Require Import Prelude PyNum Types PyVal Disk PageStore BufferPool BufferPoolProps HeapPage HeapFile HeapFileProps BTree BTreeNode BTreeRep BTreeSearch BTreeInsert.
From S2P Require Import Json Wal Transaction Ast Parser PyDict Expr Executor ExecutorProps Catalog Planner PlannerProps TableRep Base64 Database LogRecords TableWrite InsertProps DatabaseProps.

Local Open Scope Z_scope.

(** * The file *)

(** A pool over the file of another, all of whose pages are on disk, shows the
    same pages. *)
Lemma reopen_view s s' n : bp_inv s' -> dm_num_pages (bp_disk s') = dm_num_pages (bp_disk s) ->
  (forall q d, bp_view s !! q = Some d -> page_at (dm_file (bp_disk s')) q = d) ->
  bp_view (bp_init (dm_init (Some (dm_file (bp_disk s')))) n) = bp_view s.
Proof.
  intros Hi Hn Hd. apply map_eq. intros q. set (s2 := bp_init _ n).
  assert (dm_num_pages (bp_disk s2) = dm_num_pages (bp_disk s)) as Hn2.
  { unfold s2. cbn [bp_disk bp_init dm_init dm_num_pages default id]. pose proof (inv_disk _ _ _ _ _ Hi) as [_ _ Hs].
    rewrite <- Hn. symmetry. apply (Z.div_unique_pos _ _ _ (blen (dm_file (bp_disk s')) - dm_num_pages (bp_disk s') * PAGE_SIZE)); unfold PAGE_SIZE in *; lia. }
  unfold bp_view at 1. rewrite lookup_zmap, Hn2. case_decide as Hq.
  - apply bp_view_range in Hq as [d Hq]. rewrite Hq. f_equal. by apply Hd.
  - destruct (bp_view s !! q) eqn:E; [| done]. apply mk_is_Some, bp_view_range in E. done.
Qed.

(** * The log after a checkpoint *)

Definition checkpoint_entry : entry := mkEntry CHECKPOINT 0 (JObj []).
Lemma checkpoint_entry_ok : entry_ok checkpoint_entry.
Proof. by constructor. Qed.

(** The open log holds exactly the entries [l], durable or not. *)
Record logs (w : WriteAheadLog) (l : list entry) : Prop := {
  lo_open : wal_open w = true;
  lo_log : wal_log w = encode_log l;
  lo_ok : Forall entry_ok l }.

(** All of it is in the file, and durable. *)
Definition settled (w : WriteAheadLog) (l : list entry) : Prop := logs w l /\ wal_durable w = encode_log l /\ wal_file w = encode_log l.

Lemma wal_is_logs w l k : wal_is [] w l k -> logs w l.
Proof. by intros [Ho Hl _ _ He]. Qed.

Lemma logs_app w l w' l' : logs w l -> wal_open w' = true -> wal_log w' = wal_log w ++ encode_log l' -> Forall entry_ok l' -> logs w' (l ++ l').
Proof. intros [Ho Hl He] Ho' Hl' He'. split; [done | by rewrite encode_log_app, Hl', Hl | by apply Forall_app]. Qed.

(** BEGIN is written; COMMIT and CHECKPOINT are written and forced to disk. *)
Lemma append_logs w l e : logs w l -> entry_ok e -> runs (wal_append (en_type e) (en_txn e) (en_payload e)) w (fun _ w' => logs w' (l ++ [e])).
Proof.
  intros Hl Hok. eapply runs_mono; [apply append_runs; [apply Hl | exact Hok]|]. intros off w' (_ & Ho & El & _).
  eapply logs_app; [exact Hl | exact Ho | | by apply Forall_singleton]. rewrite El. cbn [encode_log mbind list_bind]. by rewrite app_nil_r.
Qed.
Lemma append_flush_settled w l e : logs w l -> entry_ok e ->
  runs (offset ← wal_append (en_type e) (en_txn e) (en_payload e); wal_flush;; mret offset) w (fun _ w' => settled w' (l ++ [e])).
Proof.
  intros Hl Hok. rstep. eapply runs_mono; [by apply append_logs|]. intros off w1 H1. rstep.
  eapply runs_mono; [apply flush_runs, H1|]. intros [] w2 (Ho & El & Ed & Ef). rstep. destruct H1 as [_ L1 K1].
  split_and!; [split; [done | congruence | done] | congruence | congruence].
Qed.

Lemma since_checkpoint es : since_last_checkpoint (place 0 (es ++ [checkpoint_entry])) = [].
Proof. rewrite place_app. cbn [place]. rewrite since_snoc. by rewrite decide_True. Qed.

(** The largest transaction id of a log, one past which numbering goes on. *)
Definition max_logged (es : list entry) : Z := foldr Z.max 0 (en_txn <$> es).

Lemma max_logged_cons e es : max_logged (e :: es) = Z.max (en_txn e) (max_logged es).
Proof. done. Qed.

Lemma max_logged_place es : max_txn_id (place 0 es) = max_logged es.
Proof.
  destruct (max_txn_id_bound (place 0 es)) as (H1 & H0 & H2). rewrite entry_of_place in *.
  assert (0 <= max_logged es /\ Forall (fun e => en_txn e <= max_logged es) es) as [Hn Hb].
  { clear. induction es as [|e es [IH1 IH2]]; [done|]. rewrite max_logged_cons. split; [lia|]. constructor; [lia|].
    eapply Forall_impl; [exact IH2|]. intros x Hx. cbv beta in *. lia. }
  apply Z.le_antisymm; [by apply H2|]. clear H2 Hn Hb. remember (max_txn_id (place 0 es)) as b eqn:Eb. clear Eb.
  induction H1 as [|e es' He _ IH]; [exact H0|]. rewrite max_logged_cons. lia.
Qed.

(** * Checkpoint, crash and restart *)

(** What opening a database finds when every page is in the file and the log
    ends with a checkpoint: the same pages and tables, nothing to replay. *)
Lemma db_init_checkpointed s s' c es n : bp_inv s' -> dm_num_pages (bp_disk s') = dm_num_pages (bp_disk s) ->
  (forall q d, bp_view s !! q = Some d -> page_at (dm_file (bp_disk s')) q = d) -> cat_ok c -> Forall entry_ok es ->
  let log := encode_log (es ++ [checkpoint_entry]) in
  let pool := bp_init (dm_init (Some (dm_file (bp_disk s')))) n in
  db_init (mkFiles (Some (dm_file (bp_disk s'))) (cat_file c) (Some log)) n =
    Ok (mkDB pool c (tm_init (wal_init (Some log)) (max_logged (es ++ [checkpoint_entry]) + 1) ∅)) /\
  bp_inv pool /\ bp_view pool = bp_view s.
Proof.
  intros Hi Hn Hd Hc Hes log pool. split_and!; [| apply bp_init_inv, dm_init_wf | by apply reopen_view].
  assert (read_records log = Ok (place 0 (es ++ [checkpoint_entry]))) as Hr.
  { apply read_records_log, Forall_app. split; [done|]. apply Forall_singleton, checkpoint_entry_ok. }
  unfold db_init. cbn [df_data df_catalog df_log]. rewrite (cat_ok_reopen c Hc). cbn [mbind result_bind].
  rewrite (recovered_of_records _ _ Hr). cbn [fst mbind result_bind]. rewrite max_logged_place.
  unfold uncommitted_txn_ids. rewrite since_checkpoint. change (ids_of BEGIN [] ∖ ids_of COMMIT []) with (∅ ∖ ∅ : gset Z).
  rewrite difference_empty_L. fold pool. set (m := tm_init _ _ _).
  assert (recover (mkDB pool c m) = (Ok tt, mkDB pool c m)) as ->; [| done].
  unfold recover. assert (on_mgr (on_wal committed_operations_since_checkpoint) (mkDB pool c m) = (Ok [], mkDB pool c m)) as E.
  { unfold on_mgr. cbn [db_txn_mgr]. rewrite on_wal_eq. unfold committed_operations_since_checkpoint, read_since_last_checkpoint, read_all.
    rewrite (bind_ok _ _ _ [] (tm_wal m)); [done|]. rewrite (bind_ok _ _ _ (place 0 (es ++ [checkpoint_entry])) (tm_wal m)); [by rewrite since_checkpoint|].
    rewrite bind_gets. change (wal_file (tm_wal m)) with (log ++ []). unfold lift_result. by rewrite app_nil_r, Hr. }
  rewrite (bind_ok _ _ _ _ _ E). reflexivity.
Qed.

Section checkpointing.
Context (s : BufferPoolManager) (c : Catalog) (m : TransactionManager) (es : list entry).
Context (Hi : bp_inv s) (Hp : bp_pins s = ∅) (Hc : cat_ok c).

Context (Ha : tm_active_xids m = ∅) (Hl : logs (tm_wal m) es).

Lemma checkpoint_runs : runs checkpoint (mkDB s c m) (fun _ db' => exists s' w', db' = mkDB s' c (set_wal w' m) /\
  bp_inv s' /\ bp_view s' = bp_view s /\ bp_pins s' = ∅ /\ bp_cap s' = bp_cap s /\ settled w' (es ++ [checkpoint_entry]) /\
  forall n, exists pool, let log := encode_log (es ++ [checkpoint_entry]) in
    files_of db' = files_after_crash db' /\
    db_init (files_after_crash db') n = Ok (mkDB pool c (tm_init (wal_init (Some log)) (max_logged es + 1) ∅)) /\
    pool = bp_init (dm_init (Some (dm_synced (bp_disk s')))) n /\ bp_inv pool /\ bp_view pool = bp_view s).
Proof using All.
  unfold checkpoint. rstep. rstep. cbn [db_txn_mgr]. unfold has_active_transactions. rewrite Ha, bool_decide_eq_true_2 by done. cbn [negb].
  rstep. apply runs_on_pool. eapply runs_mono; [apply flush_all_ok; [exact Hi|]; intros q; apply bp_unpinned_clean; [exact Hi | by rewrite Hp]|].
  intros [] s' (I & V & P & C & N & Hs & D). rewrite Hs in D. rstep.
  destruct (append_flush_settled _ _ checkpoint_entry Hl checkpoint_entry_ok) as (off & w' & E & Hw').
  apply (runs_eq _ _ off (mkDB s' c (set_wal w' m))); [unfold on_mgr; cbn [db_txn_mgr]; unfold log_checkpoint; cbn in E; by rewrite on_wal_eq, E|]. rstep.
  exists s', w'. split_and!; try done; [congruence|]. intros n. pose proof Hw' as (_ & E1 & E2).
  destruct (db_init_checkpointed s s' c es n I N D Hc (lo_ok _ _ Hl)) as (Eo & Io & Vo).
  eexists. unfold files_of, files_after_crash. cbn [db_pool db_catalog db_txn_mgr tm_wal set_wal]. rewrite Hs, E1, E2.
  split_and!; [done | | reflexivity | exact Io | exact Vo]. rewrite Eo.
  do 4 f_equal. unfold max_logged. rewrite fmap_app, foldr_app. done.
Qed.
End checkpointing.

(** A table is its pages and its catalog entry: it survives a change of pool. *)
Lemma table_state_reopened (s : BufferPoolManager) s' c tn meta ps pgs rows : bp_inv s' -> bp_view s' = bp_view s -> bp_pins s' = ∅ -> 2 <= bp_cap s' ->
  table_state s c tn meta ps pgs rows -> table_state s' c tn meta ps pgs rows.
Proof. intros I V P C [_ ? ? Hon ? ? ?]. split; try done. change (ps_view s') with (bp_view s'). by rewrite V. Qed.

(** C21: [checkpoint], with no transaction running, and then a crash lose
    nothing: opening the files again succeeds, shows the same pages and the same
    tables, replays no operation, and numbers transactions past every
    one the log knows. *)
Theorem checkpoint_restart s c m es k n :
  bp_inv s -> bp_pins s = ∅ -> cat_ok c -> tm_active_xids m = ∅ -> wal_is [] (tm_wal m) es k -> 2 <= n ->
  exists db' db'', checkpoint (mkDB s c m) = (Ok tt, db') /\ bp_view (db_pool db') = bp_view s /\
    db_init (files_after_crash db') n = Ok db'' /\ db_init (files_of db') n = Ok db'' /\
    bp_view (db_pool db'') = bp_view s /\ db_catalog db'' = c /\
    tm_next_txn_id (db_txn_mgr db'') = max_logged es + 1 /\ tm_active_xids (db_txn_mgr db'') = ∅ /\ tm_aborted_xids (db_txn_mgr db'') = ∅ /\
    forall tn meta ps pgs rows, table_state s c tn meta ps pgs rows -> table_state (db_pool db'') c tn meta ps pgs rows.
Proof.
  intros Hi Hp Hc Ha Hw Hn. destruct (checkpoint_runs s c m es Hi Hp Hc Ha (wal_is_logs _ _ _ Hw)) as ([] & db' & E & s' & w' & -> & _ & V & _ & _ & _ & Hr).
  destruct (Hr n) as (pool & Hf & Eo & Ei & Io & Vo). eexists _, _. split_and!; [exact E | exact V | exact Eo | rewrite Hf; exact Eo | exact Vo | done | done | done | done |].
  intros tn meta ps pgs rows Hst. destruct (bp_init_facts (dm_init (Some (dm_synced (bp_disk s')))) n ltac:(lia)) as [P C]. rewrite <- Ei in P, C.
  eapply table_state_reopened; [exact Io | exact Vo | exact P | cbn [db_pool]; rewrite C; exact Hn | exact Hst].
Qed.

(** * A committed INSERT survives *)

Section bracket.
Context (m : TransactionManager) (Hid : 0 <= tm_next_txn_id m < 2 ^ 32).
Notation i := (tm_next_txn_id m).

Lemma begin_logs l : logs (tm_wal m) l -> exists w, begin m = (Ok i, begun m w) /\ logs w (l ++ [mkEntry BEGIN i (JObj [])]).
Proof using Hid.
  intros Hl. destruct (begin_runs m (lo_open _ _ Hl) Hid) as (w & E & _). exists w. split; [exact E|].
  apply begin_inv in E as (off & w' & _ & Ea & Em). injection Em as ->.
  destruct (append_logs _ _ (mkEntry BEGIN i (JObj [])) Hl ltac:(by constructor)) as (off' & w2 & E2 & H2).
  cbn [en_type en_txn en_payload] in E2. unfold log_begin in Ea. rewrite Ea in E2. by injection E2 as _ ->.
Qed.

Lemma commit_logs w l : logs w l -> exists w', commit i (begun m w) = (Ok tt, ended m w' COMMITTED (tm_aborted_xids m)) /\
  settled w' (l ++ [mkEntry COMMIT i (JObj [])]).
Proof using Hid.
  intros Hl. destruct (commit_runs m Hid w (lo_open _ _ Hl)) as (w' & E). exists w'. split; [exact E|].
  apply commit_inv in E as (t & off & w2 & Ht & _ & Ea & Em). cbn [begun tm_txns] in Ht. rewrite lookup_insert_eq in Ht. injection Ht as <-.
  apply (f_equal tm_wal) in Em. cbn [ended tm_wal] in Em. subst w2. cbn [txn_id begun tm_wal] in Ea.
  destruct (append_flush_settled w l (mkEntry COMMIT i (JObj [])) Hl ltac:(by constructor)) as (off' & w3 & E3 & H3).
  cbn [en_type en_txn en_payload] in E3. unfold log_commit in Ea. rewrite Ea in E3. by injection E3 as _ ->.
Qed.
End bracket.

(** The transaction a statement of its own runs in. *)
Definition own_txn (m : TransactionManager) : Transaction := mkTxn (tm_next_txn_id m) (mkSnapshot (tm_next_txn_id m) (tm_active_xids m)) ACTIVE.

Lemma max_logged_in e es : e ∈ es -> en_txn e <= max_logged es.
Proof. induction 1 as [e es|e e' es _ IH]; rewrite max_logged_cons; lia. Qed.

(** INSERT in a transaction of its own, committed. *)
Lemma insert_commits fuel stmt vss tups (s : BufferPoolManager) c m meta ps pgs rows es : let i := tm_next_txn_id m in
  table_state s c (ins_table stmt) meta ps pgs rows -> cat_ok c -> logs (tm_wal m) es -> 0 <= i < 2 ^ 32 ->
  resolve_insert_values stmt meta = Ok vss -> Forall (row_of (tb_schema meta)) vss ->
  Forall2 (version_of (own_txn m) (tb_schema meta)) vss tups -> admits m (own_txn m) (tb_schema meta) (tb_indexes meta) rows.*2 tups ->
  ps_count s + blen vss * row_growth pgs <= INVALID_PAGE_ID ->
  runs (run_statement fuel (SInsert stmt) None) (mkDB s c m) (fun r db' => r = mkResult None (blen vss) ("INSERT " +:+ pretty (blen vss)) /\
    exists rids s' c' w' meta' ps' pgs', db' = mkDB s' c' (ended m w' COMMITTED (tm_aborted_xids m)) /\ length rids = length tups /\
      table_state s' c' (ins_table stmt) meta' ps' pgs' (reverse (zip rids tups) ++ rows) /\ cat_ok c' /\ same_table meta meta' /\
      settled w' (es ++ mkEntry BEGIN i (JObj []) :: (mkEntry Wal.OP i <$> version_records (ins_table stmt) meta (zip rids tups)) ++ [mkEntry COMMIT i (JObj [])])).
Proof.
  intros i Hst Hc Hl Hid Hres Hrows Hvers Hadm Hcount. unfold run_statement. cbn [is_ddl].
  destruct (begin_logs m Hid es Hl) as (w & Eb & Hw). rstep. apply (runs_eq _ _ _ _ _ (on_mgr_eq _ (mkDB s c m) _ _ Eb)). fold i.
  change (set_mgr (begun m w) (mkDB s c m)) with (mkDB s c (begun m w)). rstep.
  destruct (insert_runs i (own_txn m) Hid stmt vss tups s c (begun m w) meta ps pgs rows Hst) as (r & db' & E & -> & rids & s' & c' & m' & meta' & ps' & pgs' & -> & Hlen & Hst' & Hwr);
    try done.
  { split; [apply lookup_insert_eq | apply Hw]. }
  apply (runs_eq _ _ (mkResult None (blen vss) ("INSERT " +:+ pretty (blen vss))) (mkDB s' c' m')).
  { unfold on_error. cbn [dispatch with_txn]. by rewrite E. }
  destruct Hwr as [Hsame Hcat [Em Om Lm Km] _ _ _].
  assert (logs (tm_wal m') ((es ++ [mkEntry BEGIN i (JObj [])]) ++ (mkEntry Wal.OP i <$> version_records (ins_table stmt) meta (zip rids tups)))) as Hw'.
  { eapply logs_app; [exact Hw | exact Om | exact Lm |]. apply Forall_fmap. exact Km. }
  destruct (commit_logs m Hid _ _ Hw') as (w' & Ec & Hs). rstep. rewrite Em.
  apply (runs_eq _ _ _ _ _ (on_mgr_eq _ (mkDB s' c' (begun m (tm_wal m'))) _ _ Ec)). rstep. split; [done|].
  exists rids, s', c', w', meta', ps', pgs'. split_and!; [done | done | exact Hst' | by apply (wt_saved _ _ _ _ Hcat) | exact Hsame |].
  rewrite <- !app_assoc in Hs. exact Hs.
Qed.

(** C4: rows inserted by a statement of its own are durable once a checkpoint
    ran: after a crash the files open, the table has the new rows, under the
    row ids the statement gave them, next to the ones it had, and the first
    transaction of the new process sees every one of them. *)
Theorem insert_survives fuel stmt vss tups (s : BufferPoolManager) c m meta ps pgs rows es k n :
  table_state s c (ins_table stmt) meta ps pgs rows -> cat_ok c -> tm_active_xids m = ∅ -> wal_is [] (tm_wal m) es k ->
  0 <= tm_next_txn_id m < 2 ^ 32 -> 2 <= n ->
  resolve_insert_values stmt meta = Ok vss -> Forall (row_of (tb_schema meta)) vss ->
  Forall2 (version_of (own_txn m) (tb_schema meta)) vss tups -> admits m (own_txn m) (tb_schema meta) (tb_indexes meta) rows.*2 tups ->
  ps_count s + blen vss * row_growth pgs <= INVALID_PAGE_ID ->
  exists r db1 db2 db3, run_statement fuel (SInsert stmt) None (mkDB s c m) = (Ok r, db1) /\ checkpoint db1 = (Ok tt, db2) /\
    db_init (files_after_crash db2) n = Ok db3 /\
    (exists rids meta' ps' pgs', length rids = length tups /\
       table_state (db_pool db1) (db_catalog db1) (ins_table stmt) meta' ps' pgs' (reverse (zip rids tups) ++ rows) /\
       table_state (db_pool db3) (db_catalog db3) (ins_table stmt) meta' ps' pgs' (reverse (zip rids tups) ++ rows)) /\
    Forall (fun tup => tuple_visible (db_txn_mgr db3) (new_snapshot (db_txn_mgr db3)) tup = Ok true) tups.
Proof.
  intros Hst Hc Ha Hw Hid Hn Hres Hrows Hvers Hadm Hcount.
  destruct (insert_commits fuel stmt vss tups s c m meta ps pgs rows es Hst Hc (wal_is_logs _ _ _ Hw) Hid Hres Hrows Hvers Hadm Hcount)
    as (r & db1 & E1 & _ & rids & s' & c' & w' & meta' & ps' & pgs' & -> & Hlen & Hst' & Hc' & _ & Hl' & _).
  set (m1 := ended m w' COMMITTED (tm_aborted_xids m)) in *. set (es' := es ++ _) in *.
  assert (tm_active_xids m1 = ∅) as Ha1 by (cbn; rewrite Ha; set_solver).
  pose proof (ts_idle _ _ _ _ _ _ _ Hst') as [I P _].
  destruct (checkpoint_runs s' c' m1 es' I P Hc' Ha1 Hl') as ([] & db2 & E2 & s2 & w2 & -> & _ & _ & _ & _ & _ & Hr).
  destruct (Hr n) as (pool & _ & E3 & Ei & I3 & V3). destruct (bp_init_facts (dm_init (Some (dm_synced (bp_disk s2)))) n ltac:(lia)) as [P3 C3]. rewrite <- Ei in P3, C3.
  eexists r, _, _, _. split_and!; [exact E1 | exact E2 | exact E3 | |].
  - exists rids, meta', ps', pgs'. split_and!; [done | exact Hst' |]. eapply table_state_reopened; [exact I3 | exact V3 | exact P3 | cbn [db_pool]; rewrite C3; exact Hn | exact Hst'].
  - cbn [db_txn_mgr]. clear -Hvers. apply Forall_forall. intros tup Ht. apply list_elem_of_lookup in Ht as [j Hj].
    destruct (Forall2_lookup_r _ _ _ _ _ Hvers Hj) as (vs & _ & p & _ & Ep & _). apply unpack_pack_tuple in Ep as (Eh & _).
    unfold tuple_visible. rewrite Eh. cbn [mbind result_bind fst snd]. f_equal. apply new_visible; [set_solver|].
    assert (mkEntry BEGIN (tm_next_txn_id m) (JObj []) ∈ es') as Hin by (unfold es'; apply elem_of_app; right; left).
    apply max_logged_in in Hin. cbn [en_txn] in Hin. cbn [own_txn txn_id]. lia.
Qed.

(** ** The shop, with its catalog on disk *)

Definition saved_catalog : Catalog := save shop_catalog.

Lemma saved_ok : cat_ok saved_catalog.
Proof.
  split; [| by left]. split; [by apply (bool_decide_unpack _)|].
  apply Forall_cons_2; [| apply Forall_singleton]; (split; [done | done | repeat (apply Forall_cons_2; [done|]); apply Forall_nil_2 | by apply (bool_decide_unpack _) |]).
  - by apply Forall_singleton.
  - apply Forall_nil_2.
Qed.

Lemma saved_state : table_state shop_pool saved_catalog "t" shop_table [0] [[2]] old_rows.
Proof. destruct shop_state. by split. Qed.

Lemma demo_log : wal_is [] (tm_wal demo_mgr) [] 0.
Proof. apply (wal_init_is []). Qed.

Lemma checkpoint_restart_witness : exists db' db'', checkpoint (mkDB shop_pool saved_catalog demo_mgr) = (Ok tt, db') /\
  db_init (files_after_crash db') 4 = Ok db'' /\ table_state (db_pool db'') saved_catalog "t" shop_table [0] [[2]] old_rows.
Proof.
  destruct (checkpoint_restart shop_pool saved_catalog demo_mgr [] 0 4) as (db' & db'' & E1 & _ & E2 & _ & _ & _ & _ & _ & _ & Hst).
  - apply shop_idle.
  - apply shop_idle.
  - exact saved_ok.
  - reflexivity.
  - exact demo_log.
  - lia.
  - exists db', db''. split_and!; [exact E1 | exact E2 | exact (Hst _ _ _ _ _ saved_state)].
Defined.

Lemma insert_survives_witness : exists r db1 db2 db3, run_statement 20 (SInsert insert_cat) None (mkDB shop_pool saved_catalog demo_mgr) = (Ok r, db1) /\
  checkpoint db1 = (Ok tt, db2) /\ db_init (files_after_crash db2) 4 = Ok db3 /\
  tuple_visible (db_txn_mgr db3) (new_snapshot (db_txn_mgr db3)) cat_tuple = Ok true.
Proof.
  destruct (insert_survives 20 insert_cat [[VInt 3; VStr "cat"]] [cat_tuple] shop_pool saved_catalog demo_mgr shop_table [0] [[2]] old_rows [] 0 4)
    as (r & db1 & db2 & db3 & E1 & E2 & E3 & _ & Hv).
  - exact saved_state.
  - exact saved_ok.
  - reflexivity.
  - exact demo_log.
  - split; [discriminate | reflexivity].
  - lia.
  - reflexivity.
  - apply Forall_singleton, shop_row; [lia | reflexivity | discriminate].
  - constructor; [exact cat_version | constructor].
  - split; [| exact I]. apply Forall_singleton. exact cat_storable.
  - rewrite shop_count. vm_compute. discriminate.
  - exists r, db1, db2, db3. exact (conj E1 (conj E2 (conj E3 (Forall_inv Hv)))).
Defined.
