(* ===== verification/Unsynced.v ===== *)
(** What INSERT leaves alone: no call of the buffer pool but [flush_all] forces the
    data file to disk, so until the next checkpoint the durable part of the file
    is as the last one left it. *)
From stdpp Require Import base numbers list gmap strings.
From Stdlib Require Import ZArith Lia Strings.Byte.
From S2P Require Import Prelude PyNum Types PyVal Disk PageStore BufferPool HeapPage HeapFile BTree Json Wal Transaction Ast PyDict Expr Catalog Base64 Database.

Local Open Scope Z_scope.

(** * Programs that leave a part of the state alone *)

Definition leaves {X T A} (f : X -> T) (p : M X A) : Prop := forall x, f (p x).2 = f x.

Section leaves.
Context {X T : Type} (f : X -> T).

Lemma leaves_bind {A B} (p : M X A) (k : A -> M X B) : leaves f p -> (forall a, leaves f (k a)) -> leaves f (p ≫= k).
Proof.
  intros Hp Hk x. unfold mbind, M_bind. specialize (Hp x). destruct (p x) as [[a|e] x1]; cbn in *; [| done]. by rewrite Hk.
Qed.
Lemma leaves_ret {A} (a : A) : leaves f (mret a).
Proof. done. Qed.
Lemma leaves_raise {A} e : leaves f (raise (A := A) e).
Proof. done. Qed.
Lemma leaves_gets {A} (g : X -> A) : leaves f (gets g).
Proof. done. Qed.
Lemma leaves_result {A} (r : result A) : leaves f (lift_result r).
Proof. done. Qed.
Lemma leaves_modify g : (forall x, f (g x) = f x) -> leaves f (modify g).
Proof. intros Hg x. apply Hg. Qed.
Lemma leaves_finally {A} (p : M X A) q : leaves f p -> leaves f q -> leaves f (try_finally p q).
Proof.
  intros Hp Hq x. unfold try_finally. specialize (Hp x). destruct (p x) as [r x1]. specialize (Hq x1). destruct (q x1) as [[]]; cbn in *; congruence.
Qed.
Lemma leaves_fst {Y A} (p : M X A) : leaves f p -> leaves (fun xy : X * Y => f xy.1) (lift_fst p).
Proof. intros Hp [x y]. unfold lift_fst. cbn. specialize (Hp x). by destruct (p x). Qed.
End leaves.

Create HintDb leaves discriminated.
#[export] Hint Resolve leaves_ret leaves_raise leaves_gets leaves_result leaves_fst : leaves.

(** Walk through a program. *)
Ltac leaves := repeat first
  [ solve [eauto 2 with leaves nocore]
  | apply leaves_bind; [| intros ?]
  | apply leaves_finally
  | apply leaves_fst
  | apply leaves_modify; intros ?; reflexivity
  | match goal with |- leaves _ (match ?x with _ => _ end) => destruct x end
  | progress cbv zeta ].

(** * The buffer pool *)

#[local] Notation synced := (fun s : BufferPoolManager => dm_synced (bp_disk s)).

Lemma leaves_on_disk {A} (p : M DiskManager A) : leaves dm_synced p -> leaves synced (on_disk p).
Proof. intros Hp s. unfold on_disk. specialize (Hp (bp_disk s)). by destruct (p (bp_disk s)). Qed.
Lemma leaves_file_op off : leaves dm_synced (file_op off).
Proof. unfold file_op. leaves. Qed.
#[export] Hint Resolve leaves_on_disk leaves_file_op : leaves.
Lemma leaves_allocate : leaves dm_synced allocate_page.
Proof. unfold allocate_page. leaves. Qed.
Lemma leaves_read p : leaves dm_synced (read_page p).
Proof. unfold read_page. leaves. Qed.
Lemma leaves_write p d : leaves dm_synced (write_page p d).
Proof. unfold write_page. leaves. Qed.
#[export] Hint Resolve leaves_allocate leaves_read leaves_write : leaves.

Lemma leaves_get_frame i : leaves synced (get_frame i).
Proof. unfold get_frame. leaves. Qed.
Lemma leaves_put_frame i fr : leaves synced (put_frame i fr).
Proof. unfold put_frame. leaves. Qed.
Lemma leaves_frame_page fr e : leaves synced (frame_page fr e).
Proof. unfold frame_page. leaves. Qed.
#[export] Hint Resolve leaves_get_frame leaves_put_frame leaves_frame_page : leaves.
Lemma leaves_evict : leaves synced evict_one.
Proof. unfold evict_one. leaves. Qed.
Lemma leaves_pin i : leaves synced (pin i).
Proof. unfold pin. leaves. Qed.
Lemma leaves_enter p i : leaves synced (enter_table p i).
Proof. unfold enter_table. leaves. Qed.
#[export] Hint Resolve leaves_evict leaves_pin leaves_enter : leaves.
Lemma leaves_fetch p : leaves synced (fetch_page p).
Proof. unfold fetch_page. leaves. Qed.
Lemma leaves_new : leaves synced new_page.
Proof. unfold new_page. leaves. Qed.
Lemma leaves_unpin p d : leaves synced (unpin_page p d).
Proof. unfold unpin_page. leaves. Qed.
Lemma leaves_flush p : leaves synced (flush_page p).
Proof. unfold flush_page. leaves. Qed.
Lemma leaves_bytes i : leaves synced (frame_bytes i).
Proof. unfold frame_bytes. leaves. Qed.
Lemma leaves_set_bytes i d : leaves synced (set_frame_bytes i d).
Proof. unfold set_frame_bytes. leaves. Qed.

(** * Its clients *)

Section clients.
Context {S H T : Type} {store : PageStore S H} (f : S -> T).
Context (Lfetch : forall p, leaves f (ps_fetch p)) (Lnew : leaves f ps_new) (Lunpin : forall p d, leaves f (ps_unpin p d))
  (Lget : forall h, leaves f (ps_get h)) (Lset : forall h d, leaves f (ps_set h d)).
Hint Resolve Lfetch Lnew Lunpin Lget Lset : leaves.

Lemma leaves_update h g : leaves f (ps_update h g).
Proof using Lget Lset. unfold ps_update. leaves. Qed.
Lemma leaves_on_page {A} h (m : M (list byte) A) : leaves f (on_page h m).
Proof using Lget Lset. unfold on_page. leaves. Qed.
Hint Resolve leaves_update leaves_on_page : leaves.

(** The heap file. *)
Lemma leaves_last_page fuel : forall p seen, leaves f (find_last_page_from fuel p seen).
Proof using Lfetch Lunpin Lget. induction fuel as [|fuel IH]; intros p seen; cbn [find_last_page_from]; leaves. Qed.
Hint Resolve leaves_last_page : leaves.
Lemma leaves_heap_init first : leaves f (heap_init first).
Proof using Lfetch Lnew Lunpin Lget Lset. unfold heap_init, find_last_page. leaves. Qed.
Lemma leaves_heap_get rid : leaves f (heap_get rid).
Proof using Lfetch Lunpin Lget. unfold heap_get. leaves. Qed.
Lemma leaves_heap_insert fuel row : leaves (fun st : S * HeapFile => f st.1) (heap_insert_from fuel row).
Proof using Lfetch Lnew Lunpin Lget Lset. induction fuel as [|fuel IH]; cbn [heap_insert_from]; leaves. Qed.

(** The B+-tree. *)
Lemma leaves_leaf_path fuel t key : forall p path, leaves f (find_leaf_path_from fuel t key p path).
Proof using Lfetch Lunpin Lget.
  induction fuel as [|fuel IH]; intros p path; cbn [find_leaf_path_from]; unfold page_node_type, read_page_internal; leaves.
Qed.
Hint Resolve leaves_leaf_path : leaves.
Lemma leaves_find_path t key : leaves f (find_leaf_path t key).
Proof using Lfetch Lunpin Lget. unfold find_leaf_path. leaves. Qed.
Hint Resolve leaves_find_path : leaves.
Lemma leaves_search t key : leaves f (bt_search t key).
Proof using Lfetch Lunpin Lget. unfold bt_search, read_page_leaf. leaves. Qed.
Hint Resolve leaves_search : leaves.
Lemma leaves_into_parent anc : forall c sep new, leaves (fun st : S * BPlusTree => f st.1) (insert_into_parent anc c sep new).
Proof using Lfetch Lnew Lunpin Lget Lset. induction anc as [|p anc IH]; intros c sep new; cbn [insert_into_parent]; unfold read_page_internal; leaves. Qed.
Hint Resolve leaves_into_parent : leaves.
Lemma leaves_bt_insert key rid : leaves (fun st : S * BPlusTree => f st.1) (bt_insert key rid).
Proof using Lfetch Lnew Lunpin Lget Lset. unfold bt_insert, read_page_leaf. leaves. Qed.

(** INSERT. *)
Notation on_db := (fun db : Database S => f (db_pool db)).
Lemma leaves_pool {A} (p : M S A) : leaves f p -> leaves on_db (on_pool p).
Proof using Type. intros Hp db. unfold on_pool. specialize (Hp (db_pool db)). by destruct (p (db_pool db)). Qed.
Lemma leaves_object {A B} (b : B) (p : M (S * B) A) : leaves (fun st : S * B => f st.1) p -> leaves on_db (on_object b p).
Proof using Type.
  intros Hp. apply leaves_pool. intros s. unfold with_object. specialize (Hp (s, b)). cbn in Hp. by destruct (p (s, b)).
Qed.
Lemma leaves_catalog {A} (p : M Catalog A) : leaves on_db (on_catalog p).
Proof using Type. intros db. unfold on_catalog. by destruct (p (db_catalog db)). Qed.
Lemma leaves_mgr {A} (p : M TransactionManager A) : leaves on_db (on_mgr p).
Proof using Type. intros db. unfold on_mgr. by destruct (p (db_txn_mgr db)). Qed.
Hint Resolve leaves_pool leaves_object leaves_catalog leaves_mgr leaves_heap_init leaves_heap_get leaves_heap_insert leaves_bt_insert : leaves.

Lemma leaves_find_table n : leaves on_db (find_table n).
Proof using Type. unfold find_table. leaves. Qed.
Lemma leaves_open_index im : leaves on_db (open_index im).
Proof using Lnew Lunpin Lget Lset. unfold open_index. apply leaves_pool. unfold bt_init. leaves. Qed.
Hint Resolve leaves_find_table leaves_open_index : leaves.
Lemma leaves_check_entries snap ex rids : leaves on_db (check_entries snap ex rids).
Proof using Lfetch Lunpin Lget. induction rids as [|rid rids IH]; cbn [check_entries]; leaves. Qed.
Hint Resolve leaves_check_entries : leaves.
Lemma leaves_check_unique i im key ex : leaves on_db (check_unique_constraint i im key ex).
Proof using Lfetch Lnew Lunpin Lget Lset. unfold check_unique_constraint, the_txn. leaves. Qed.
Hint Resolve leaves_check_unique : leaves.
Lemma leaves_into_each i tn vm rid ex ns : leaves on_db (insert_into_each i tn vm rid ex ns).
Proof using Lfetch Lnew Lunpin Lget Lset. induction ns as [|n ns IH]; cbn [insert_into_each]; unfold insert_into_index; leaves. Qed.
Hint Resolve leaves_into_each : leaves.
Lemma leaves_add_version i tn meta heap vs vm ex : leaves on_db (add_version i tn meta heap vs vm ex).
Proof using Lfetch Lnew Lunpin Lget Lset. unfold add_version, insert_into_indexes, the_txn, heap_insert. leaves. Qed.
Hint Resolve leaves_add_version : leaves.
Lemma leaves_insert_rows i tn meta rows : forall heap n, leaves on_db (insert_rows i tn meta heap rows n).
Proof using Lfetch Lnew Lunpin Lget Lset. induction rows as [|vs rows IH]; intros heap n; cbn [insert_rows]; leaves. Qed.
Hint Resolve leaves_insert_rows : leaves.
Lemma leaves_execute_insert i stmt : leaves on_db (execute_insert i stmt).
Proof using Lfetch Lnew Lunpin Lget Lset. unfold execute_insert, open_heap. leaves. Qed.
End clients.

(** An INSERT statement, in a transaction of its own or not, succeeding or not,
    forces no page to disk. *)
Lemma insert_unsynced fuel stmt i db : dm_synced (bp_disk (db_pool (run_statement fuel (SInsert stmt) i db).2)) = dm_synced (bp_disk (db_pool db)).
Proof.
  assert (forall i, leaves (fun db : Database BufferPoolManager => dm_synced (bp_disk (db_pool db))) (execute_insert i stmt)) as Hi.
  { intros j. apply (leaves_execute_insert synced); intros; [apply leaves_fetch | apply leaves_new | apply leaves_unpin | apply leaves_bytes | apply leaves_set_bytes]. }
  revert db. change (leaves (fun db : Database BufferPoolManager => dm_synced (bp_disk (db_pool db))) (run_statement fuel (SInsert stmt) i)).
  destruct i as [i|]; cbn [run_statement is_ddl dispatch with_txn]; [apply Hi|].
  apply leaves_bind; [apply (leaves_mgr synced)|]. intros j. apply leaves_bind; [| intros r; apply leaves_bind; [apply (leaves_mgr synced) | done]].
  intros db. unfold on_error. specialize (Hi j db). destruct (execute_insert j stmt db) as [[r|e] db1]; cbn in *; [done|].
  pose proof (leaves_mgr synced (abort j) db1) as Ha. destruct (on_mgr (abort j) db1) as [[]]; cbn in *; congruence.
Qed.
