(* ===== verification/Redo.v ===== *)
(** Replay ([src/minirel/database.py], [_recover] and [_apply_recovery_op]): what
    opening a database makes of the operations committed since the last
    checkpoint, when no page written since then reached the file. *)
From stdpp Require Import base numbers list gmap strings pretty sets.
From Stdlib Require Import ZArith Lia Strings.Byte.
From S2P Require Import Prelude PyNum Types PyVal Disk PageStore BufferPool BufferPoolProps HeapPage HeapFile HeapFileProps BTree BTreeNode BTreeRep BTreeSearch BTreeInsert.
From S2P Require Import Json Wal Transaction Ast Parser PyDict Expr Executor ExecutorProps Catalog Planner PlannerProps TableRep Base64 Database LogRecords TableWrite InsertProps DeleteProps DatabaseProps Lifecycle Unsynced.

Local Open Scope Z_scope.

(** * Operations on heaps *)

(** The two records of a change to a heap: [rid] of an insertion is where the row
    was, which replay does not look at. *)
Inductive heap_op : Type :=
| OInsert (tn : string) (tup : list byte) (rid : RID)
| OStamp (tn : string) (rid : RID) (x : Z).
Definition op_record (o : heap_op) : json :=
  match o with OInsert tn tup rid => heap_record tn tup rid | OStamp tn rid x => xmax_record tn rid x end.

(** The rows of each table. *)
Notation contents := (gmap string (list (RID * list byte))).

(** The tuples inserted into a table, in order, and what the stamps make of the
    rows it had. *)
Definition inserted_into (tn : string) (ops : list heap_op) : list (list byte) :=
  omap (fun o => match o with OInsert n tup _ => if (n =? tn)%string then Some tup else None | OStamp _ _ _ => None end) ops.
Fixpoint restamped (tn : string) (ops : list heap_op) (rows : list (RID * list byte)) : list (RID * list byte) :=
  match ops with
  | [] => rows
  | OInsert _ _ _ :: ops' => restamped tn ops' rows
  | OStamp n rid x :: ops' => restamped tn ops' (if (n =? tn)%string then stamp_rows x [rid] rows else rows)
  end.

(** An operation that replay can apply to tables that held [T] on the pages [P] at
    the checkpoint: an insertion of a row version that fits, or a stamp that
    names a place on a page its table had. *)
Definition redoable (P : string -> list Z) (T : contents) (o : heap_op) : Prop :=
  match o with
  | OInsert tn tup _ => is_Some (T !! tn) /\ stamped_row (mkRID 0 0, tup) /\ HEADER_SIZE + SLOT_SIZE + blen tup <= PAGE_SIZE
  | OStamp tn rid x => is_Some (T !! tn) /\ (page_id rid ∈ P tn /\ 0 <= slot_id rid) /\ 0 <= x < 2 ^ 32
  end.
(** A stamp names a row that was there at the checkpoint. *)
Definition of_old_row (T : contents) (o : heap_op) : Prop :=
  match o with OInsert _ _ _ => True | OStamp tn rid _ => exists rows, T !! tn = Some rows /\ rid ∈ rows.*1 end.

(** The rows of the tables in [T] are in their heaps, each on pages of its own. *)
Record heaps_on (V : gmap Z (list byte)) (c : Catalog) (pages_of : string -> list Z) (T : contents) : Prop := {
  hs_heap tn rows : T !! tn = Some rows -> exists meta, get_table c tn = Ok meta /\
    heap_has V (tb_heap_first_page_id meta) (pages_of tn) rows /\ Forall stamped_row rows;
  hs_disjoint tn tn' q : is_Some (T !! tn) -> is_Some (T !! tn') -> q ∈ pages_of tn -> q ∈ pages_of tn' -> tn = tn' }.

(** ** Facts about the rows *)

Lemma restamped_rids tn ops rows : (restamped tn ops rows).*1 = rows.*1.
Proof.
  revert rows. induction ops as [|[n tup rid|n rid x] ops IH]; intros rows; cbn [restamped]; [done | apply IH |]. rewrite IH.
  case_match; [apply stamp_rows_rids | done].
Qed.

(** A fresh row is not stamped. *)
Lemma restamped_cons T tn ops x rows : Forall (of_old_row T) ops -> (forall r, T !! tn = Some r -> x.1 ∉ r.*1) ->
  restamped tn ops (x :: rows) = x :: restamped tn ops rows.
Proof.
  intros Hops Hx. revert rows. induction Hops as [|[n tup rid|n rid y] ops Ho _ IH]; intros rows; cbn [restamped]; [done | apply IH |].
  destruct (String.eqb_spec n tn) as [->|]; [| apply IH]. destruct Ho as (r & Hr & Hin). specialize (Hx r Hr).
  unfold stamp_rows at 1. cbn [fmap list_fmap]. rewrite decide_False by (intros E%list_elem_of_singleton; congruence). apply IH.
Qed.

(** * One operation *)

Lemma runs_same {X A} (p q : M X A) x Q : p x = q x -> runs q x Q -> runs p x Q.
Proof. unfold runs. by intros ->. Qed.

Section redo.
Context {S H : Type} {store : PageStore S H} {spec : PageStoreSpec S H}.

Lemma insert_heap_runs (s : S) hf first ps rows tup : idle s -> heap_ok (ps_view s) hf ps -> heap_has (ps_view s) first ps rows ->
  HEADER_SIZE + SLOT_SIZE + blen tup <= PAGE_SIZE -> ps_count s < INVALID_PAGE_ID ->
  runs (heap_insert tup) (s, hf) (fun rid st => exists ps', let s' := fst st in
    idle s' /\ heap_has (ps_view s') first ps' ((rid, tup) :: rows) /\ rid ∉ rows.*1 /\ (ps' = ps \/ ps' = ps ++ [ps_count s]) /\
    ps_count s <= ps_count s' <= ps_count s + 1 /\ (forall q, q ∉ ps' -> ps_view s' !! q = ps_view s !! q)).
Proof.
  intros Hs Hok Hh Hfit Hcount. pose proof (id_inv _ Hs) as Hinv. pose proof Hh as [Hc Hnd Hids Hf Hr].
  eapply runs_mono; [apply (heap_insert_runs s hf ps); try done; by apply idle_room|]. intros rid [s' hf'] (ps' & Hins). cbn [fst snd] in *.
  assert (0 <= ps_count s) as H0.
  { destruct ps as [|p ps0]; [inversion Hc|]. pose proof (chain_view _ _ p Hc ltac:(left)) as Hp. apply ps_view_dom in Hp; [lia | done]. }
  pose proof (inserted_count _ _ _ _ _ _ _ Hinv H0 Hc Hins) as Hcnt. pose proof (inserted_rows _ _ _ _ _ _ _ Hnd Hc Hins) as Hrows.
  destruct Hins as [(Hok' & Hps & Hnone & _ & Hfr) (I & P & C)]. exists ps'. split_and!; try done; try lia.
  - destruct Hs. split; [done | congruence | lia].
  - destruct Hok' as [? ? ? _ _]. split; try done; [| by rewrite Hrows, Hr]. destruct Hps as [-> | ->]; [done | by destruct ps].
  - intros ([r raw] & -> & Hin)%list_elem_of_fmap. apply (heap_has_tuple _ _ _ _ _ _ Hh) in Hin. cbn [fst] in Hnone. congruence.
Qed.

Context (c : Catalog) (m : TransactionManager).

Lemma heaps_lt (s : S) P T tn q : idle s -> heaps_on (ps_view s) c P T -> is_Some (T !! tn) -> q ∈ P tn -> q < ps_count s.
Proof using Type.
  intros Hs [Hh _] [rows Ht] Hq. destruct (Hh tn rows Ht) as (meta & _ & [Hc _ _ _ _] & _). apply view_lt; [apply Hs | by eapply chain_view].
Qed.

(** Only the heap of [tn] changed, and it may have got a new page. *)
Lemma heaps_on_change (s s' : S) P T tn meta ps' rows' : idle s -> heaps_on (ps_view s) c P T -> is_Some (T !! tn) -> get_table c tn = Ok meta ->
  heap_has (ps_view s') (tb_heap_first_page_id meta) ps' rows' -> Forall stamped_row rows' -> ps' = P tn \/ ps' = P tn ++ [ps_count s] ->
  (forall q, q ∉ ps' -> ps_view s' !! q = ps_view s !! q) ->
  heaps_on (ps_view s') c (fun n => if (tn =? n)%string then ps' else P n) (<[tn := rows']> T).
Proof using Type.
  intros Hs Hon Htn Hg Hh Hsr Hps Hfr. pose proof (fun n q => heaps_lt s P T n q Hs Hon) as Hlt. destruct Hon as [Hheap Hdisj].
  assert (forall n q, n <> tn -> is_Some (T !! n) -> q ∈ P n -> q ∉ ps') as Hother.
  { intros n q Hn Hin Hq Hq'. destruct Hps as [-> | ->]; [apply Hn; by eapply Hdisj|].
    apply elem_of_app in Hq' as [Hq'| ->%list_elem_of_singleton]; [apply Hn; by eapply Hdisj | specialize (Hlt n _ Hin Hq); lia]. }
  split.
  - intros n rows Hn. destruct (String.eqb_spec tn n) as [<-|Hne].
    + rewrite lookup_insert_eq in Hn. injection Hn as <-. by exists meta.
    + rewrite lookup_insert_ne in Hn by done. destruct (Hheap n rows Hn) as (meta' & Hg' & Hh' & Hsr'). exists meta'. split_and!; [done | | done].
      eapply heap_has_frame; [| exact Hh']. intros q Hq. apply Hfr. by apply (Hother n).
  - assert (forall n, is_Some (<[tn:=rows']> T !! n) -> is_Some (T !! n)) as Hsome by (intros n; rewrite lookup_insert; case_decide; [by intros _; subst | done]).
    intros n n' q Hn%Hsome Hn'%Hsome. destruct (String.eqb_spec tn n) as [<-|Hne], (String.eqb_spec tn n') as [<-|Hne']; try done.
    + intros Hq Hq'. by destruct (Hother n' q ltac:(done) Hn' Hq').
    + intros Hq Hq'. by destruct (Hother n q ltac:(done) Hn Hq).
    + by apply Hdisj.
Qed.

(** What one operation makes of the contents: an insertion adds a row under an id
    that no row has; a stamp changes the row that has its id now, whichever that
    is, and nothing if there is none. *)
Definition redone (T : contents) (o : heap_op) (T' : contents) : Prop :=
  match o with
  | OInsert tn tup _ => exists rows rid, T !! tn = Some rows /\ rid ∉ rows.*1 /\ T' = <[tn := (rid, tup) :: rows]> T
  | OStamp tn rid x => exists rows, T !! tn = Some rows /\ T' = <[tn := stamp_rows x [rid] rows]> T
  end.

Lemma redo_runs (s : S) P T o : idle s -> heaps_on (ps_view s) c P T -> redoable P T o -> ps_count s < INVALID_PAGE_ID ->
  runs (apply_recovery_op (op_record o)) (mkDB s c m) (fun _ db' => exists s' P' T', db' = mkDB s' c m /\
    idle s' /\ heaps_on (ps_view s') c P' T' /\ (forall n q, q ∈ P n -> q ∈ P' n) /\ redone T o T' /\ ps_count s' <= ps_count s + 1).
Proof using spec.
  intros Hs Hon Ho Hcount. destruct o as [tn tup rid0|tn rid x]; cbn [op_record redoable redone] in *.
  - destruct Ho as ([rows Ht] & Htup & Hfit). destruct (hs_heap _ _ _ _ Hon tn rows Ht) as (meta & Hg & Hh & Hsr).
    eapply runs_same; [apply replays_insert|]. unfold redo_insert. rstep. eapply runs_find_table; [exact Hg|].
    rstep. eapply runs_mono; [by apply open_heap_at; [| apply Hh ..]|]. intros hf db1 (s1 & -> & Hk & Hok1). pose proof Hk as (_ & V1 & _ & _ & N1).
    rstep. apply runs_on_object. rewrite <- V1 in Hh, Hon. rewrite <- N1 in Hcount. pose proof (idle_keeps _ _ Hs Hk) as Hs1.
    eapply runs_mono; [by eapply (insert_heap_runs s1 hf)|]. intros rid [s2 hf2] (ps' & Hs2 & Hh2 & Hfresh & Hps & Hcnt & Hfr). cbn [fst snd] in *. rstep.
    eexists s2, _, _. split_and!; [done | done | | | by exists rows, rid | lia].
    + apply (heaps_on_change s1 s2 P T tn meta ps'); try done. constructor; [| done]. exact Htup.
    + intros n q Hq. cbv beta. destruct (String.eqb_spec tn n) as [<-|]; [| done]. destruct Hps as [-> | ->]; [done | apply elem_of_app; by left].
  - destruct Ho as ([rows Ht] & [Hp Hi] & Hx). destruct (hs_heap _ _ _ _ Hon tn rows Ht) as (meta & Hg & Hh & Hsr).
    eapply runs_same; [apply replays_xmax|]. unfold redo_xmax. rstep. eapply runs_find_table; [exact Hg|].
    rstep. eapply runs_mono; [by apply open_heap_at; [| apply Hh ..]|]. intros hf db1 (s1 & -> & Hk & Hok1). pose proof Hk as (_ & V1 & _ & _ & N1).
    rewrite <- V1 in Hh, Hon. pose proof (idle_keeps _ _ Hs Hk) as Hs1.
    rstep. apply runs_on_pool. eapply runs_mono; [apply (heap_get_runs s1 hf (P tn) rid Hok1 (idle_room s1 _ 1 Hs1 ltac:(lia)) Hp Hi)|].
    intros o s2 (-> & Hk2). pose proof Hk2 as (_ & V2 & _ & _ & N2). pose proof (fun raw => heap_has_tuple _ _ _ _ rid raw Hh) as Htup.
    pose proof (idle_keeps _ _ Hs1 Hk2) as Hs2. rewrite <- V2 in Hh, Hon, Hok1.
    destruct (heap_tuple (ps_view s1) (P tn) rid) as [raw|] eqn:Eg.
    2: { rstep. eexists s2, P, T. split_and!; [done | done | done | done | | lia]. exists rows. split; [done|].
         rewrite stamp_rows_out, insert_id; [done | done |]. intros r0 ->%list_elem_of_singleton ([r1 raw] & -> & Hin)%list_elem_of_fmap.
         cbn [fst] in Eg. by apply Htup in Hin. }
    pose proof (proj2 (Htup raw) eq_refl) as Hin.
    pose proof (proj1 (Forall_forall _ _) Hsr _ Hin) as Hrow. destruct (stamp_spec x rid raw Hrow Hx) as (Ew & _).
    rstep. eapply runs_lift_result; [exact Ew|]. rstep. apply runs_on_pool.
    eapply runs_mono; [by apply (stamp_heap_runs s2 hf (tb_heap_first_page_id meta) (P tn) rows rid raw x)|].
    intros b s3 (Hs3 & Hok3 & Hh3 & Hfr & Hcnt). rstep. eexists s3, _, _. split_and!; [done | done | | | by exists rows | lia].
    + apply (heaps_on_change s2 s3 P T tn meta (P tn)); try done; [by apply stamp_stamped | by left].
    + intros n q Hq. cbv beta. by destruct (String.eqb_spec tn n) as [<-|].
Qed.

(** * All of them *)

(** Every table has got the tuples inserted into it, under new row ids, and the
    rows it had are stamped. *)
Definition recovered (ops : list heap_op) (T T' : contents) : Prop :=
  (forall tn, T !! tn = None -> T' !! tn = None) /\
  forall tn rows, T !! tn = Some rows -> exists rids, length rids = length (inserted_into tn ops) /\
    T' !! tn = Some (reverse (zip rids (inserted_into tn ops)) ++ restamped tn ops rows).

(** One operation after the other. *)
Fixpoint replayed (ops : list heap_op) (T T' : contents) : Prop :=
  match ops with [] => T' = T | o :: ops' => exists T1, redone T o T1 /\ replayed ops' T1 T' end.

(** Tables and rows stay. *)
Lemma redone_grows T o T' n rows : redone T o T' -> T !! n = Some rows -> exists rows', T' !! n = Some rows' /\ forall r, r ∈ rows.*1 -> r ∈ rows'.*1.
Proof using Type.
  intros Hr Hn. destruct o as [tn tup r0|tn r x]; cbn [redone] in Hr; [destruct Hr as (rows0 & rid & Ht & _ & ->) | destruct Hr as (rows0 & Ht & ->)];
    rewrite lookup_insert; (case_decide as E; [subst n; rewrite Ht in Hn; injection Hn as -> | by exists rows]); (eexists; split; [done|]); intros r' Hr'.
  - by right.
  - by rewrite stamp_rows_rids.
Qed.
Lemma redone_redoable P P' T o T' o' : redone T o T' -> (forall n q, q ∈ P n -> q ∈ P' n) -> redoable P T o' -> redoable P' T' o'.
Proof using Type.
  intros Hr HP. destruct o' as [tn tup r0|tn r x]; cbn [redoable]; intros ([rows Ht] & H1 & H2);
    destruct (redone_grows _ _ _ _ _ Hr Ht) as (rows' & -> & _); destruct_and?; split_and!; eauto.
Qed.
Lemma redone_old T o T' o' : redone T o T' -> of_old_row T o' -> of_old_row T' o'.
Proof using Type.
  intros Hr. destruct o' as [|tn r x]; [done|]. intros (rows & Ht & Hin). destruct (redone_grows _ _ _ _ _ Hr Ht) as (rows' & E & Hsub). exists rows'. eauto.
Qed.

Lemma recovered_cons T o T1 ops T' : redone T o T1 -> Forall (of_old_row T) ops -> recovered ops T1 T' -> recovered (o :: ops) T T'.
Proof using Type.
  intros Ho Hops [Hnone Hsome]. destruct o as [tn tup r0|tn r x]; cbn [redone] in Ho.
  - destruct Ho as (rows & rid & Ht & Hfresh & ->). split.
    + intros n Hn. apply Hnone. rewrite lookup_insert_ne; [done | intros ->; congruence].
    + intros n rows' Hn. cbn [inserted_into omap list_omap restamped]. destruct (String.eqb_spec tn n) as [<-|Hne].
      * rewrite Ht in Hn. injection Hn as <-. destruct (Hsome tn ((rid, tup) :: rows)) as (rids & Hl & E); [apply lookup_insert_eq|].
        exists (rid :: rids). split; [cbn [length]; unfold inserted_into in Hl; lia|]. rewrite E. f_equal. cbn [zip zip_with]. rewrite reverse_cons, <- app_assoc.
        cbn [app]. f_equal. apply (restamped_cons T); [done|]. intros r Hr. rewrite Ht in Hr. by injection Hr as <-.
      * destruct (Hsome n rows') as (rids & Hl & E); [by rewrite lookup_insert_ne|]. by exists rids.
  - destruct Ho as (rows & Ht & ->). split.
    + intros n Hn. apply Hnone. rewrite lookup_insert_ne; [done | intros ->; congruence].
    + intros n rows' Hn. cbn [inserted_into omap list_omap restamped]. destruct (String.eqb_spec tn n) as [<-|Hne].
      * rewrite Ht in Hn. injection Hn as <-. apply Hsome, lookup_insert_eq.
      * apply Hsome. by rewrite lookup_insert_ne.
Qed.

Lemma replayed_recovered ops : forall T T', Forall (of_old_row T) ops -> replayed ops T T' -> recovered ops T T'.
Proof using Type.
  induction ops as [|o ops IH]; intros T T' Hops Hr; cbn [replayed] in Hr.
  - subst T'. split; [done|]. intros tn rows Ht. by exists [].
  - destruct Hr as (T1 & Ho & Hr). apply Forall_cons in Hops as [_ Hops]. eapply recovered_cons; [exact Ho | exact Hops|].
    apply IH; [| exact Hr]. eapply Forall_impl; [exact Hops|]. intros o'. by apply redone_old with o.
Qed.

Lemma replay_runs ops : forall rs (s : S) P T, lr_payload <$> rs = op_record <$> ops -> idle s -> heaps_on (ps_view s) c P T ->
  Forall (redoable P T) ops -> ps_count s + blen ops <= INVALID_PAGE_ID ->
  runs (replay rs) (mkDB s c m) (fun _ db' => exists s' P' T', db' = mkDB s' c m /\ idle s' /\ heaps_on (ps_view s') c P' T' /\ replayed ops T T').
Proof using spec.
  induction ops as [|o ops IH]; intros rs s P T Hrs Hs Hon Hops Hcount; destruct rs as [|r rs]; try done.
  - cbn [replay]. rstep. by exists s, P, T.
  - cbn [fmap list_fmap] in Hrs. injection Hrs as Er Hrs. apply Forall_cons in Hops as [Ho Hops]. rewrite blen_cons in Hcount. pose proof (blen_nonneg ops).
    cbn [replay]. rstep. rewrite Er. eapply runs_mono; [eapply (redo_runs s P T o); try done; lia|].
    intros [] db1 (s1 & P1 & T1 & -> & Hs1 & Hon1 & HP1 & Hr1 & Hc1).
    eapply runs_mono; [eapply (IH rs s1 P1 T1); try done; [|lia]|].
    + eapply Forall_impl; [exact Hops|]. intros o' Ho'. eapply redone_redoable; [exact Hr1 | exact HP1 | exact Ho'].
    + intros [] db2 (s2 & P2 & T2 & -> & Hs2 & Hon2 & Hr2). exists s2, P2, T2. split_and!; try done. by exists T1.
Qed.
End redo.

(** * Opening the files *)

(** The operations of a log behind its last checkpoint whose transactions
    committed there. *)
Definition committed_in (tail : list entry) : gset Z := list_to_set (en_txn <$> filter (fun e => en_type e = COMMIT) tail).
Definition committed_payloads (tail : list entry) : list json :=
  en_payload <$> filter (fun e => en_type e = Wal.OP /\ en_txn e ∈ committed_in tail) tail.

Lemma entries_filter {A} (g : entry -> A) (P : entry -> Prop) (Q : LogRecord -> Prop) `{!forall e, Decision (P e), !forall r, Decision (Q r)} f (rs : list LogRecord) :
  (forall r, f r = g (entry_of r)) -> (forall r, Q r <-> P (entry_of r)) -> f <$> filter Q rs = g <$> filter P (entry_of <$> rs).
Proof.
  intros Hf HQ. induction rs as [|r rs IH]; [done|]. rewrite fmap_cons, !filter_cons, (decide_ext _ _ _ _ (HQ r)).
  case_decide; rewrite ?fmap_cons, IH; [by rewrite Hf | done].
Qed.
Lemma committed_payloads_ok rs : lr_payload <$> committed_operations rs = committed_payloads (entry_of <$> rs).
Proof.
  unfold committed_operations, committed_payloads. assert (ids_of COMMIT rs = committed_in (entry_of <$> rs)) as E.
  { unfold ids_of, committed_in. f_equal. by apply entries_filter. }
  apply entries_filter; [done|]. intros r. by rewrite E.
Qed.

Lemma since_tail es tail : Forall (fun e => en_type e <> CHECKPOINT) tail ->
  entry_of <$> since_last_checkpoint (place 0 (es ++ checkpoint_entry :: tail)) = tail.
Proof.
  intros Ht. change (checkpoint_entry :: tail) with ([checkpoint_entry] ++ tail). rewrite app_assoc, (place_app 0 (es ++ [checkpoint_entry])).
  rewrite since_app, since_checkpoint; [apply entry_of_place|]. apply (Forall_fmap entry_of (fun e => en_type e <> CHECKPOINT)). by rewrite entry_of_place.
Qed.

Lemma read_committed img rs : read_records img = Ok rs ->
  committed_operations_since_checkpoint (wal_init (Some img)) = (Ok (committed_operations (since_last_checkpoint rs)), wal_init (Some img)).
Proof.
  intros Hr. unfold committed_operations_since_checkpoint, read_since_last_checkpoint, read_all. 
  rewrite (bind_ok _ _ _ (since_last_checkpoint rs) (wal_init (Some img))); [done|]. rewrite (bind_ok _ _ _ rs (wal_init (Some img))); [done|].
  rewrite bind_gets. change (wal_file (wal_init (Some img))) with (img ++ []). unfold lift_result. by rewrite app_nil_r, Hr.
Qed.

(** Replay, and writing the pages back if the pool used the disk. *)
Lemma recover_runs (pool : BufferPoolManager) c m img es tail ops P T : tm_wal m = wal_init (Some img) ->
  read_records img = Ok (place 0 (es ++ checkpoint_entry :: tail)) -> Forall (fun e => en_type e <> CHECKPOINT) tail ->
  committed_payloads tail = op_record <$> ops -> idle pool -> heaps_on (ps_view pool) c P T -> Forall (redoable P T) ops ->
  ps_count pool + blen ops <= INVALID_PAGE_ID ->
  runs recover (mkDB pool c m) (fun _ db' => exists s' P' T', db' = mkDB s' c m /\ idle s' /\ heaps_on (ps_view s') c P' T' /\ replayed ops T T').
Proof.
  intros Hw Hr Htail Hops Hs Hon Hredo Hcount. unfold recover. rstep.
  apply (runs_eq _ _ (committed_operations (since_last_checkpoint (place 0 (es ++ checkpoint_entry :: tail)))) (mkDB pool c m)).
  { unfold on_mgr. cbn [db_txn_mgr]. rewrite on_wal_eq, Hw, (read_committed _ _ Hr). cbn [fst snd]. rewrite <- Hw. unfold set_mgr. cbn. by destruct m. }
  rstep. eapply runs_mono; [eapply (replay_runs c m ops _ pool P T); try done; by rewrite committed_payloads_ok, since_tail|].
  intros [] db1 (s1 & P1 & T1 & -> & Hs1 & Hon1 & Hrec). rstep. rstep. cbn [db_pool].
  destruct (_ || _); [| rstep; by exists s1, P1, T1].
  apply runs_on_pool. pose proof Hs1 as [I1 E1 C1]. change (bp_pins s1 = ∅) in E1. eapply runs_mono; [apply flush_all_ok; [exact I1|]; intros q; apply bp_unpinned_clean; [exact I1 | by rewrite E1]|].
  intros [] s2 (I2 & V2 & P2 & C2 & _). exists s2, P1, T1. split_and!; [done | | | done].
  - split; [exact I2 | change (bp_pins s2 = ∅); by rewrite P2 | change (2 <= bp_cap s2); by rewrite C2].
  - change (ps_view s2) with (bp_view s2). by rewrite V2.
Qed.

(** The transactions that were interrupted. *)
Definition interrupted_in (tail : list entry) : gset Z := list_to_set (en_txn <$> filter (fun e => en_type e = BEGIN) tail) ∖ committed_in tail.

Lemma interrupted_ok rs : uncommitted_txn_ids rs = interrupted_in (entry_of <$> rs).
Proof. unfold uncommitted_txn_ids, interrupted_in, committed_in, ids_of. f_equal; f_equal; by apply entries_filter. Qed.

Lemma db_init_redoes data c img es tail ops n P T : let pool := bp_init (dm_init (Some data)) n in
  cat_ok c -> read_records img = Ok (place 0 (es ++ checkpoint_entry :: tail)) -> Forall (fun e => en_type e <> CHECKPOINT) tail ->
  committed_payloads tail = op_record <$> ops -> 2 <= n -> heaps_on (bp_view pool) c P T -> Forall (redoable P T) ops ->
  dm_num_pages (bp_disk pool) + blen ops <= INVALID_PAGE_ID ->
  exists s' P' T', db_init (mkFiles (Some data) (cat_file c) (Some img)) n =
    Ok (mkDB s' c (tm_init (wal_init (Some img)) (max_logged (es ++ checkpoint_entry :: tail) + 1) (interrupted_in tail))) /\
  idle s' /\ heaps_on (bp_view s') c P' T' /\ replayed ops T T'.
Proof.
  intros pool Hcat Hr Htail Hops Hn Hon Hredo Hcount. destruct (bp_init_facts (dm_init (Some data)) n ltac:(lia)) as [P0 C0].
  assert (idle pool) as Hs by (split; [apply bp_init_inv, dm_init_wf | exact P0 | change (2 <= bp_cap pool); unfold pool; rewrite C0; lia]).
  set (m := tm_init (wal_init (Some img)) (max_logged (es ++ checkpoint_entry :: tail) + 1) (interrupted_in tail)).
  destruct (recover_runs pool c m img es tail ops P T eq_refl Hr Htail Hops Hs Hon Hredo Hcount) as ([] & db' & E & s' & P' & T' & -> & Hi & Hon' & Hrec).
  exists s', P', T'. split_and!; try done. unfold db_init. cbn [df_data df_catalog df_log]. rewrite (cat_ok_reopen c Hcat). cbn [mbind result_bind].
  rewrite (recovered_of_records _ _ Hr). cbn [fst mbind result_bind]. rewrite max_logged_place, interrupted_ok, since_tail by done.
  fold pool m. by rewrite E.
Qed.

(** C22: replay. A database is opened whose data file is as the last checkpoint
    left it and whose log, cut anywhere, has come to hold the records [tail]
    since, in which the committed transactions changed heaps only ([ops]; no
    index records) and stamped places on pages their tables had at the
    checkpoint. Exactly the operations of the transactions that committed in
    [tail] are done again, in order: each insertion under some row id that is
    free, each stamp on the row that has the logged id by then. If the stamps
    name rows that were there at the checkpoint, every table holds those rows so
    stamped and the inserted tuples, and no others; if one names a row inserted
    since, it can hit another row, since row ids may have shifted
    ([DatabaseProps.replay_resurrects_row]). The catalog is untouched, numbering
    goes on behind the log, and the interrupted transactions count as aborted. *)
Theorem recovery_redoes data c img es tail ops n P T : let pool := bp_init (dm_init (Some data)) n in
  cat_ok c -> read_records img = Ok (place 0 (es ++ checkpoint_entry :: tail)) -> Forall (fun e => en_type e <> CHECKPOINT) tail ->
  committed_payloads tail = op_record <$> ops -> 2 <= n -> heaps_on (bp_view pool) c P T -> Forall (redoable P T) ops ->
  dm_num_pages (bp_disk pool) + blen ops <= INVALID_PAGE_ID ->
  exists s' P' T', db_init (mkFiles (Some data) (cat_file c) (Some img)) n =
    Ok (mkDB s' c (tm_init (wal_init (Some img)) (max_logged (es ++ checkpoint_entry :: tail) + 1) (interrupted_in tail))) /\
  idle s' /\ heaps_on (bp_view s') c P' T' /\ replayed ops T T' /\ (Forall (of_old_row T) ops -> recovered ops T T').
Proof.
  intros pool Hcat Hr Htail Hops Hn Hon Hredo Hcount.
  destruct (db_init_redoes data c img es tail ops n P T Hcat Hr Htail Hops Hn Hon Hredo Hcount) as (s' & P' & T' & E & Hi & Hon' & Hrep).
  exists s', P', T'. split_and!; try done. intros Hold. by apply replayed_recovered.
Qed.

(** * A committed INSERT and a crash *)

(** The records of an INSERT into a table without indexes. *)
Definition insert_ops (tn : string) (rids : list RID) (tups : list (list byte)) : list heap_op :=
  (fun x : RID * list byte => OInsert tn x.2 x.1) <$> zip rids tups.

Lemma insert_ops_records tn meta new : tb_indexes meta = [] ->
  version_records tn meta new = op_record <$> ((fun x : RID * list byte => OInsert tn x.2 x.1) <$> new).
Proof.
  intros Hx. unfold version_records. rewrite Hx. induction new as [|x new IH]; [done|]. rewrite bind_cons, IH. done.
Qed.
Lemma insert_ops_into tn rids tups : length rids = length tups -> inserted_into tn (insert_ops tn rids tups) = tups.
Proof.
  unfold insert_ops. revert rids. induction tups as [|tup tups IH]; intros [|rid rids] Hl; try done. cbn [zip zip_with fmap list_fmap inserted_into omap list_omap fst snd].
  rewrite String.eqb_refl. f_equal. apply IH. by injection Hl.
Qed.
Lemma insert_ops_stamp tn rids tups rows : restamped tn (insert_ops tn rids tups) rows = rows.
Proof. unfold insert_ops. induction (zip rids tups) as [|x l IH]; done. Qed.

Lemma insert_ops_old T tn rids tups : Forall (of_old_row T) (insert_ops tn rids tups).
Proof. unfold insert_ops. by apply Forall_fmap, Forall_true. Qed.

(** What a transaction's log tail makes replay do. *)
Definition own_entries (i : Z) (ops : list json) : list entry := mkEntry BEGIN i (JObj []) :: (mkEntry Wal.OP i <$> ops) ++ [mkEntry COMMIT i (JObj [])].

Lemma filter_ops (P : entry -> Prop) `{!forall e, Decision (P e)} i ops : (forall p, ~ P (mkEntry Wal.OP i p)) -> filter P (mkEntry Wal.OP i <$> ops) = [].
Proof. intros HP. induction ops as [|p ops IH]; [done|]. rewrite fmap_cons, filter_cons, decide_False by done. exact IH. Qed.
Lemma own_committed i ops : committed_in (own_entries i ops) = {[i]}.
Proof.
  unfold committed_in, own_entries. rewrite filter_cons, filter_app, filter_ops by done. cbn. set_solver.
Qed.
Lemma own_tail i ops : Forall (fun e => en_type e <> CHECKPOINT) (own_entries i ops) /\
  committed_payloads (own_entries i ops) = ops /\ interrupted_in (own_entries i ops) = ∅.
Proof.
  split_and!.
  - constructor; [done|]. apply Forall_app. split; [| by apply Forall_singleton]. apply Forall_fmap, Forall_true. done.
  - unfold committed_payloads. rewrite own_committed. unfold own_entries. rewrite filter_cons, decide_False by (by intros []).
    rewrite filter_app, filter_cons, (decide_False (P := _ /\ _)) by (by intros []). rewrite filter_nil, app_nil_r.
    induction ops as [|p ops IH]; [done|]. rewrite fmap_cons, filter_cons, decide_True by (split; [done | set_solver]). rewrite fmap_cons. by f_equal.
  - unfold interrupted_in. rewrite own_committed. unfold own_entries. rewrite filter_cons, filter_app, filter_ops by done. cbn. set_solver.
Qed.

Lemma version_redoes P (T : contents) t sch tn vss tups rids : is_Some (T !! tn) -> Forall2 (version_of t sch) vss tups -> length rids = length tups ->
  Forall (redoable P T) (insert_ops tn rids tups).
Proof.
  intros Ht Hv Hl. unfold insert_ops. apply Forall_fmap, Forall_forall. intros [rid tup] Hx. cbn. apply elem_of_zip_r in Hx.
  apply list_elem_of_lookup in Hx as [j Hj]. destruct (Forall2_lookup_r _ _ _ _ _ Hv Hj) as (vs & _ & Hvs). split_and!; [done | by eapply version_stamped|].
  by destruct Hvs as (p & _ & _ & Hfit).
Qed.

Lemma versions_visible w next t sch vss tups : Forall2 (version_of t sch) vss tups -> txn_id t < next ->
  Forall (fun tup => tuple_visible (tm_init w next ∅) (new_snapshot (tm_init w next ∅)) tup = Ok true) tups.
Proof.
  intros Hv Hlt. apply Forall_forall. intros tup Ht. apply list_elem_of_lookup in Ht as [j Hj].
  destruct (Forall2_lookup_r _ _ _ _ _ Hv Hj) as (vs & _ & p & _ & Ep & _). apply unpack_pack_tuple in Ep as (Eh & _).
  unfold tuple_visible. rewrite Eh. cbn [mbind result_bind fst snd]. f_equal. apply new_visible; [set_solver | done].
Qed.

Lemma admits_unindexed m t sch raws tups : admits m t sch [] raws tups.
Proof. revert raws. induction tups as [|tup tups IH]; intros raws; [done|]. by split. Qed.

(** A heap and a catalog entry without indexes make a table. *)
Lemma heap_table (s s' : BufferPoolManager) c c' tn meta meta' ps ps' rows rows' : table_state s c tn meta ps [] rows -> idle s' ->
  get_table c' tn = Ok meta' -> same_table meta meta' -> heap_has (ps_view s') (tb_heap_first_page_id meta') ps' rows' -> Forall stamped_row rows' ->
  table_state s' c' tn meta' ps' [] rows'.
Proof.
  intros [_ _ Hn [_ _ _ _ Hpl _ _ Hx] _ Hno _] Hs Hg [En Esch _ Ex] [Hc Hnd Hids Hf Hr] Hst. apply Forall2_nil_inv_r in Hx. rewrite Hx in Ex. apply Forall2_nil_inv_l in Ex.
  split; try done; [congruence | | by rewrite Ex]. split; try done; rewrite ?Ex, ?Esch; try done; [by rewrite app_nil_r | apply NoDup_nil_2].
Qed.

(** C23: a checkpoint, then an INSERT in a transaction of its own into a table
    without indexes, then a crash: the INSERT is durable when it returns,
    although it forces no page to disk. The files open, the table has the rows
    it had at the checkpoint and the new ones, and the first transaction of the
    new process sees every one of those. (The table itself must be in the file:
    without a checkpoint behind CREATE TABLE the files do not even open,
    [DatabaseProps.created_table_lost].) *)
Theorem committed_insert_survives_crash fuel stmt vss tups (s : BufferPoolManager) c m meta ps rows es k n :
  table_state s c (ins_table stmt) meta ps [] rows -> cat_ok c -> tm_active_xids m = ∅ -> wal_is [] (tm_wal m) es k ->
  0 <= tm_next_txn_id m < 2 ^ 32 -> 2 <= n ->
  resolve_insert_values stmt meta = Ok vss -> Forall (row_of (tb_schema meta)) vss ->
  Forall2 (version_of (own_txn m) (tb_schema meta)) vss tups -> ps_count s + blen vss <= INVALID_PAGE_ID ->
  exists r db1 db2 db3, checkpoint (mkDB s c m) = (Ok tt, db1) /\ run_statement fuel (SInsert stmt) None db1 = (Ok r, db2) /\
    db_init (files_after_crash db2) n = Ok db3 /\
    (exists rids meta' ps', length rids = length tups /\
       table_state (db_pool db3) (db_catalog db3) (ins_table stmt) meta' ps' [] (reverse (zip rids tups) ++ rows)) /\
    Forall (fun tup => tuple_visible (db_txn_mgr db3) (new_snapshot (db_txn_mgr db3)) tup = Ok true) tups.
Proof.
  intros Hst Hc Ha Hw Hid Hn Hres Hrows Hvers Hcount. pose proof (ts_idle _ _ _ _ _ _ _ Hst) as [I P C]. set (tn := ins_table stmt) in *.
  destruct (checkpoint_runs s c m es I P Hc Ha (wal_is_logs _ _ _ Hw)) as ([] & db1 & E1 & s1 & w1 & -> & I1 & V1 & P1 & C1 & (L1 & _) & Hr).
  destruct (Hr n) as (pool & _ & _ & Epool & Ip & Vp). clear Hr.
  assert (table_state s1 c tn meta ps [] rows) as Hst1 by (eapply table_state_reopened; [exact I1 | exact V1 | exact P1 | rewrite C1; exact C | exact Hst]).
  assert (ps_count s1 = ps_count s) as N1 by (apply same_pages_count; [done | done | intros q; change (ps_view s1) with (bp_view s1); by rewrite V1 | by eapply table_pages_pos]).
  assert (ps_count pool = ps_count s) as Np by (apply same_pages_count; [done | done | intros q; change (ps_view pool) with (bp_view pool); by rewrite Vp | by eapply table_pages_pos]).
  assert (tb_indexes meta = []) as Hx by (eapply Forall2_nil_inv_r, Hst).
  destruct (insert_commits fuel stmt vss tups s1 c (set_wal w1 m) meta ps [] rows (es ++ [checkpoint_entry]) Hst1 Hc L1 Hid Hres Hrows Hvers)
    as (r & db2 & E2 & _ & rids & s2 & c2 & w2 & meta' & ps2 & pgs2 & -> & Hlen & Hst2 & Hc2 & Hsame & Hl2 & Hd2 & _).
  { rewrite Hx. apply admits_unindexed. } { rewrite N1. change (row_growth []) with 1. lia. }
  pose proof (insert_unsynced fuel stmt None (mkDB s1 c (set_wal w1 m))) as Hsync. rewrite E2 in Hsync. cbn [snd db_pool] in Hsync.
  rewrite insert_ops_records in Hd2, Hl2 by done. fold tn in Hd2, Hl2, Hst2. fold (insert_ops tn rids tups) in Hd2, Hl2.
  set (i := tm_next_txn_id (set_wal w1 m)) in *. set (ops := insert_ops tn rids tups) in *.
  change (mkEntry BEGIN i (JObj []) :: _) with (own_entries i (op_record <$> ops)) in Hd2, Hl2.
  rewrite <- app_assoc in Hd2, Hl2. cbn [app] in Hd2, Hl2.
  destruct (own_tail i (op_record <$> ops)) as (Ht1 & Ht2 & Ht3). pose proof (ts_on _ _ _ _ _ _ _ Hst) as Hon.
  assert (length ops = length vss) as Hops by (unfold ops, insert_ops; rewrite length_fmap, length_zip_with, (Forall2_length _ _ _ Hvers); lia).
  destruct (db_init_redoes (dm_synced (bp_disk s1)) c2 (encode_log (es ++ checkpoint_entry :: own_entries i (op_record <$> ops))) es
    (own_entries i (op_record <$> ops)) ops n (fun _ => ps) {[tn := rows]}) as (s3 & P3 & T3 & E3 & I3 & Hon3 & Hrep); try done.
  - by apply read_records_log, Hl2.
  - rewrite <- Epool. change (bp_view pool) with (ps_view pool) in Vp |- *. rewrite Vp. split.
    + intros n' rows' [<- <-]%lookup_singleton_Some. exists meta'. split_and!; [apply Hst2 | | apply Hst].
      rewrite (st_first _ _ Hsame). by eapply table_heap.
    + intros n1 n2 q [r1 [<- _]%lookup_singleton_Some] [r2 [<- _]%lookup_singleton_Some]. done.
  - apply (version_redoes _ _ (own_txn m) (tb_schema meta) tn vss); [rewrite lookup_singleton_eq; by eexists | done | done].
  - rewrite <- Epool. change (dm_num_pages (bp_disk pool)) with (ps_count pool). rewrite Np. unfold blen in *. by rewrite Hops.
  - apply replayed_recovered in Hrep as [_ Hrec]; [| apply insert_ops_old]. destruct (Hrec tn rows (lookup_singleton_eq _ _)) as (rids3 & Hlen3 & ET). unfold ops in Hlen3, ET. rewrite insert_ops_into in Hlen3, ET by done. rewrite insert_ops_stamp in ET.
    destruct (hs_heap _ _ _ _ Hon3 _ _ ET) as (meta3 & Hg3 & Hh3 & Hst3).
    rewrite (ts_get _ _ _ _ _ _ _ Hst2) in Hg3. injection Hg3 as <-.
    eexists r, _, _, _. split_and!; [exact E1 | exact E2 | | |].
    + unfold files_after_crash. cbn [db_pool db_catalog db_txn_mgr tm_wal ended]. rewrite Hsync, Hd2. exact E3.
    + exists rids3, meta', (P3 tn). split; [done|]. eapply (heap_table s s3 c c2); try done. apply Hst2.
    + cbn [db_txn_mgr]. rewrite Ht3. eapply versions_visible; [exact Hvers|].
      assert (mkEntry BEGIN i (JObj []) ∈ es ++ checkpoint_entry :: own_entries i (op_record <$> ops)) as Hin by (apply elem_of_app; right; right; left).
      apply max_logged_in in Hin. cbn [en_txn] in Hin. change (txn_id (own_txn m)) with i. lia.
Qed.

(** ** The shop *)

(** The log of a transaction that deleted the first row of [t], put a row there
    and committed, behind one that did not. *)
Definition shop_ops : list heap_op := [OStamp "t" (mkRID 0 0) 9; OInsert "t" cat_tuple (mkRID 5 7)].
Definition shop_tail : list entry :=
  mkEntry BEGIN 8 (JObj []) :: mkEntry Wal.OP 8 (op_record (OStamp "t" (mkRID 0 1) 8)) :: own_entries 9 (op_record <$> shop_ops).
Definition shop_log : list byte := encode_log ([] ++ checkpoint_entry :: shop_tail).

Lemma shop_heaps : heaps_on (bp_view shop_pool) saved_catalog (fun _ => [0]) {["t"%string := old_rows]}.
Proof.
  split.
  - intros tn rows [<- <-]%lookup_singleton_Some. exists shop_table. split_and!; [reflexivity | exact (table_heap _ _ _ _ _ (ts_on _ _ _ _ _ _ _ saved_state)) | exact (ts_stamped _ _ _ _ _ _ _ saved_state)].
  - intros n1 n2 q [r1 [<- _]%lookup_singleton_Some] [r2 [<- _]%lookup_singleton_Some]. done.
Qed.
Lemma shop_redoable : Forall (redoable (fun _ => [0]) {["t"%string := old_rows]}) shop_ops.
Proof.
  apply Forall_cons_2; [| apply Forall_singleton].
  - split_and!; [by exists old_rows | left | done | lia | lia].
  - split_and!; [by exists old_rows | by eapply version_stamped, cat_version | vm_compute; discriminate].
Qed.

Lemma recovery_redoes_witness : exists s' P' T' rid, db_init (mkFiles (Some (concat shop_pages)) (cat_file saved_catalog) (Some shop_log)) 4 =
    Ok (mkDB s' saved_catalog (tm_init (wal_init (Some shop_log)) 10 {[8]})) /\
  heaps_on (bp_view s') saved_catalog P' T' /\ T' !! "t"%string = Some ((rid, cat_tuple) :: stamp_rows 9 [mkRID 0 0] old_rows).
Proof.
  destruct (recovery_redoes (concat shop_pages) saved_catalog shop_log [] shop_tail shop_ops 4 (fun _ => [0]) {["t"%string := old_rows]})
    as (s' & P' & T' & E & _ & Hon & _ & Hrec).
  - exact saved_ok.
  - vm_compute. reflexivity.
  - by apply (bool_decide_unpack _).
  - vm_compute. reflexivity.
  - lia.
  - exact shop_heaps.
  - exact shop_redoable.
  - vm_compute. discriminate.
  - destruct Hrec as [_ Hrec]; [apply Forall_cons_2; [exists old_rows; split; [reflexivity | left] | by apply Forall_singleton]|].
    destruct (Hrec "t"%string old_rows eq_refl) as (rids & Hl & ET). change (length rids = 1%nat) in Hl. destruct rids as [|rid [|]]; [discriminate Hl | | discriminate Hl].
    exists s', P', T', rid. split_and!; [exact E | exact Hon | exact ET].
Defined.

(** INSERT INTO u VALUES (3, 'cat'), which has no index. *)
Definition insert_cat_u : Insert := mkInsert "u" None [cat_row].
Definition u_table : TableMeta := mkTableMeta "u" demo_schema 1 [].
Definition u_rows : list (RID * list byte) := [(mkRID 1 0, demo_a); (mkRID 1 1, demo_tuple 7 [VInt 2; VStr "eve"])].
Lemma u_state : table_state shop_pool saved_catalog "u" u_table [1] [] u_rows.
Proof.
  destruct (shop_chain 1 (demo_tuple 7 [VInt 2; VStr "eve"]) eq_refl ltac:(vm_compute; reflexivity) ltac:(vm_compute; reflexivity)) as (Hc & Hi & Hr).
  split; [exact shop_idle | reflexivity | reflexivity | | | split; reflexivity | constructor].
  - split; [exact Hc | apply NoDup_singleton | exact Hi | reflexivity | split; [by apply (bool_decide_unpack _) | repeat constructor; done] | apply NoDup_nil_2 | | constructor].
    change [1] with [Z.of_nat 1]. by rewrite Hr.
  - repeat constructor; eexists; vm_compute; reflexivity.
Qed.

Lemma committed_insert_survives_crash_witness : exists r db1 db2 db3, checkpoint (mkDB shop_pool saved_catalog demo_mgr) = (Ok tt, db1) /\
  run_statement 20 (SInsert insert_cat_u) None db1 = (Ok r, db2) /\ db_init (files_after_crash db2) 4 = Ok db3 /\
  tuple_visible (db_txn_mgr db3) (new_snapshot (db_txn_mgr db3)) cat_tuple = Ok true.
Proof.
  destruct (committed_insert_survives_crash 20 insert_cat_u [[VInt 3; VStr "cat"]] [cat_tuple] shop_pool saved_catalog demo_mgr u_table [1] u_rows [] 0 4)
    as (r & db1 & db2 & db3 & E1 & E2 & E3 & _ & Hv).
  - exact u_state.
  - exact saved_ok.
  - reflexivity.
  - exact demo_log.
  - split; [discriminate | reflexivity].
  - lia.
  - reflexivity.
  - apply Forall_singleton, shop_row; [lia | reflexivity | discriminate].
  - constructor; [exact cat_version | constructor].
  - rewrite shop_count. vm_compute. discriminate.
  - exists r, db1, db2, db3. exact (conj E1 (conj E2 (conj E3 (Forall_inv Hv)))).
Defined.
