(* ===== verification/Repl.v ===== *)
(** The interactive shell ([src/minirel/repl.py]): how a result is laid out,
    the loop over input lines with its buffer and dot-commands, and [main].
    Writing to the output stream is part of the shell's state; a line of input
    is the string [readline] returns. *)
From stdpp Require Import base numbers list sorting gmap strings pretty.
From Stdlib Require Import ZArith Lia Strings.Ascii Strings.Byte.
From S2P Require Import Prelude PyNum Types PyVal Disk PageStore BufferPool Json Wal Transaction Ast Lexer Parser PyDict Expr Executor Catalog Planner Database DatabaseProps.

Local Open Scope Z_scope.

(** * Text *)

Definition nl : string := String (ascii_of_nat 10) EmptyString.
Definition semicolon : ascii := ";"%char.

(** [len(s)]: the bytes that do not continue a code point. *)
Fixpoint str_len (s : string) : nat :=
  match s with EmptyString => 0 | String c s' => (if continues c then 0 else 1) + str_len s' end%nat.

Fixpoint repeat_str (n : nat) (s : string) : string :=
  match n with O => ""%string | S n' => s +:+ repeat_str n' s end.
(** [s.ljust(w)] *)
Definition ljust (w : nat) (s : string) : string := s +:+ repeat_str (w - str_len s) " ".

(** The code points [str.strip] removes. *)
Definition space_point (cp : Z) : bool :=
  ((9 <=? cp) && (cp <=? 13)) || ((28 <=? cp) && (cp <=? 32)) || (cp =? 0x85) || (cp =? 0xA0) || (cp =? 0x1680) ||
  ((0x2000 <=? cp) && (cp <=? 0x200A)) || (cp =? 0x2028) || (cp =? 0x2029) || (cp =? 0x202F) || (cp =? 0x205F) || (cp =? 0x3000).
Fixpoint drop_spaces (l : list Z) : list Z :=
  match l with cp :: l' => if space_point cp then drop_spaces l' else l | [] => [] end.
Definition strip (s : string) : string :=
  String.string_of_list_byte (reverse (drop_spaces (reverse (drop_spaces (utf8_points (str_encode s))))) ≫= utf8_bytes).

(** [";" in s] *)
Fixpoint has_semicolon (s : string) : bool :=
  match s with EmptyString => false | String c s' => Ascii.eqb c semicolon || has_semicolon s' end.
(** [s.partition(";")], without the separator. *)
Fixpoint partition (s : string) : string * string :=
  match s with
  | EmptyString => (EmptyString, EmptyString)
  | String c s' => if Ascii.eqb c semicolon then (EmptyString, s') else let '(a, b) := partition s' in (String c a, b)
  end.

(** [sorted(names)]: UTF-8 keeps the order of code points. *)
Definition str_le (a b : string) : Prop := String.leb a b = true.
#[global] Instance str_le_dec a b : Decision (str_le a b).
Proof. unfold str_le. apply _. Defined.
Definition sorted (names : list string) : list string := merge_sort str_le names.

(** * Results *)

(** [str] of a value in a row. *)
Definition cell_str (d : datum) : string :=
  match d with
  | DVal v => py_str v
  | DRid r => "RID(" +:+ pretty (page_id r) +:+ ", " +:+ pretty (slot_id r) +:+ ")"
  end.
Definition cell (row : Row) (col : string) : string := match dget row col with Some d => cell_str d | None => ""%string end.

Definition col_width (rows : list Row) (col : string) : nat :=
  Nat.max (str_len col) (foldr Nat.max O ((fun row => str_len (cell row col)) <$> rows)).

Definition format_rows (rows : list Row) : string :=
  match rows with
  | [] => "(0 rows)"%string
  | first :: _ =>
      let columns := first.*1 in
      let col_widths := col_width rows <$> columns in
      let header := String.concat " | " (zip_with ljust col_widths columns) in
      let rule := String.concat "-+-" ((fun w => repeat_str w "-") <$> col_widths) in
      let body := (fun row => String.concat " | " (zip_with ljust col_widths (cell row <$> columns))) <$> rows in
      let footer := "(" +:+ pretty (blen rows) +:+ " row" +:+ (if blen rows =? 1 then "" else "s") +:+ ")" in
      String.concat nl (header :: rule :: body ++ [footer])
  end.

(** * The loop *)

(** What goes to the output: a text, or the line [error: {exc}] of an exception. *)
Inductive written : Set := WText (s : string) | WError (e : exn).

#[global] Instance written_eq_dec : EqDecision written.
Proof. solve_decision. Defined.

Definition banner : string := "minirel -- type SQL statements ending in ';', or .exit to quit" +:+ nl.
Definition help_text : string := "Enter SQL ending in ';'. Dot-commands: .tables, .exit" +:+ nl.
Definition prompt (buffer : string) : string := if (buffer =? "")%string then "minirel> "%string else "     ...> "%string.

Section shell.
Context {S H : Type} `{PageStore S H} (fuel : nat).

Record Shell : Type := mkShell { sh_db : Database S; sh_out : list written }.

Definition write (w : written) : M Shell unit := modify (fun sh => mkShell (sh_db sh) (sh_out sh ++ [w])).
Definition on_db {A} (m : M (Database S) A) : M Shell A := fun sh =>
  let '(r, db) := m (sh_db sh) in (r, mkShell db (sh_out sh)).

Definition run_statement (sql : string) : M (Database S) string :=
  result ← execute fuel sql None;
  mret (match ex_rows result with Some rows => format_rows rows | None => ex_message result end).

(** [try: body except Exception as exc: write(f"error: {exc}\n")] *)
Definition report (body : M Shell unit) : M Shell unit := fun sh =>
  match body sh with
  | (Raise Diverges, sh1) => (Raise Diverges, sh1)
  | (Raise e, sh1) => write (WError e) sh1
  | r => r
  end.

Definition run_and_show (statement : string) : M Shell unit :=
  report (r ← on_db (run_statement statement); write (WText (r +:+ nl))).

Fixpoint repl_loop (input : list string) (buffer : string) : M Shell unit :=
  write (WText (prompt buffer));;
  match input with
  | [] => mret tt
  | line :: input' =>
      if (line =? "")%string then mret tt else
      let stripped := strip line in
      let empty := (buffer =? "")%string in
      if empty && ((stripped =? ".exit") || (stripped =? ".quit"))%string then mret tt else
      if empty && (stripped =? ".tables")%string then
        sh ← gets id;
        write (WText (String.concat nl (sorted (cat_tables (db_catalog (sh_db sh))).*1) +:+ nl));;
        repl_loop input' buffer
      else if empty && (stripped =? ".help")%string then
        write (WText help_text);; repl_loop input' buffer
      else
        let buffer := buffer +:+ line in
        if has_semicolon line then
          let '(statement, rest) := partition buffer in
          let buffer := strip rest in
          let statement := strip statement in
          if (statement =? "")%string then repl_loop input' buffer else
          run_and_show statement;; repl_loop input' buffer
        else repl_loop input' buffer
  end.

Definition repl (input : list string) : M Shell unit :=
  write (WText banner);; repl_loop input "";; write (WText nl).
End shell.

(** [main]: the exit code and what was written; [files path] are the files the
    database at [path] finds. *)
Definition main (fuel : nat) (argv : list string) (files : string -> db_files) (input : list string) : result (Z * list written) :=
  match argv with
  | [path] =>
      db ← db_init (files path) 128;
      let '(r, sh) := try_finally (repl fuel input) (on_db db_close) (mkShell db []) in
      r;; Ok (0, sh_out sh)
  | _ => Ok (2, [WText ("usage: minirel <path-to-database-file>" +:+ nl)])
  end.

(** * Layout *)

Lemma str_len_app a b : str_len (a +:+ b) = (str_len a + str_len b)%nat.
Proof. induction a as [|c a IH]; [done|]. change (String c a +:+ b) with (String c (a +:+ b)). cbn [str_len]. rewrite IH. lia. Qed.
Lemma str_len_repeat n s : str_len (repeat_str n s) = (n * str_len s)%nat.
Proof. induction n as [|n IH]; [done|]. cbn [repeat_str]. rewrite str_len_app, IH. lia. Qed.
Lemma str_len_ljust w s : (str_len s <= w)%nat -> str_len (ljust w s) = w.
Proof. intros Hs. unfold ljust. rewrite str_len_app, str_len_repeat. change (str_len " ") with 1%nat. lia. Qed.

(** The width of cells of widths [ws] with separators of three characters between them. *)
Definition line_width (ws : list nat) : nat := (sum_list ws + 3 * pred (length ws))%nat.

Lemma str_len_concat sep cells ws : str_len sep = 3%nat -> Forall2 (fun c w => str_len c = w) cells ws ->
  str_len (String.concat sep cells) = line_width ws.
Proof.
  intros Hs. induction 1 as [|c w cells ws <- Hcs IH]; [done|]. destruct Hcs as [|c2 w2 cells ws Hc2 Hcs]; [unfold line_width; cbn; lia|].
  change (String.concat sep (c :: c2 :: cells)) with (c +:+ sep +:+ String.concat sep (c2 :: cells)).
  rewrite !str_len_app, IH, Hs. unfold line_width. cbn [sum_list sum_list_with foldr id length pred]. cbn. lia.
Qed.

Lemma cell_fits rows row col : row ∈ rows -> (str_len (cell row col) <= col_width rows col)%nat.
Proof.
  unfold col_width. intros Hr. assert (str_len (cell row col) <= foldr Nat.max 0 ((fun r => str_len (cell r col)) <$> rows))%nat; [| lia].
  induction Hr as [row rows|row row' rows _ IH]; cbn; [lia|]. etrans; [exact IH|]. apply Nat.le_max_r.
Qed.

Lemma justified rows columns f : Forall (fun col => str_len (f col) <= col_width rows col)%nat columns ->
  Forall2 (fun c w => str_len c = w) (zip_with ljust (col_width rows <$> columns) (f <$> columns)) (col_width rows <$> columns).
Proof. induction 1 as [|col columns Hc _ IH]; constructor; [by apply str_len_ljust | exact IH]. Qed.

(** Every line of a printed result but the last is equally wide, whatever
    the values, so the columns line up: the header, the rule under it and one
    line per row. *)
Theorem format_rows_aligned first rest : let rows := first :: rest in
  let width := line_width (col_width rows <$> first.*1) in
  exists lines footer, format_rows rows = String.concat nl (lines ++ [footer]) /\ length lines = (2 + length rows)%nat /\
    Forall (fun l => str_len l = width) lines.
Proof.
  intros rows width. unfold format_rows. fold rows. eexists (_ :: _ :: _), _. split; [reflexivity|]. split; [cbn [length]; by rewrite length_fmap|].
  apply Forall_cons_2; [| apply Forall_cons_2].
  - apply str_len_concat; [done|]. rewrite <- (list_fmap_id first.*1) at 2. apply justified, Forall_forall. intros col _. unfold col_width. apply Nat.le_max_l.
  - apply str_len_concat; [done|]. clear width. generalize (col_width rows <$> first.*1) as ws. intros ws. apply Forall2_fmap_l, Forall_Forall2_diag, Forall_forall. intros w _. cbv beta. change (str_len (repeat_str w "-") = w). rewrite str_len_repeat. change (str_len "-") with 1%nat. lia.
  - apply Forall_fmap, Forall_forall. intros row Hrow. apply str_len_concat; [done|]. apply justified, Forall_forall. intros col _. by apply cell_fits.
Qed.

(** * Sessions *)

(** A statement as it is typed: full lines without a semicolon, then a line
    that ends it; behind the semicolon only space. *)
Record typed : Type := mkTyped { ty_lines : list string; ty_last : string; ty_rest : string }.
Definition typed_lines (t : typed) : list string := ty_lines t ++ [ty_last t +:+ String semicolon (ty_rest t)].
Definition glue (ls : list string) : string := foldr String.append "" ls.
Definition typed_text (t : typed) : string := strip (glue (ty_lines t) +:+ ty_last t).

Definition is_command (stripped : string) : bool :=
  bool_decide (stripped ∈ [".exit"; ".quit"; ".tables"; ".help"]%string).
Record typed_ok (t : typed) : Prop := {
  tk_lines : Forall (fun l => l <> ""%string /\ has_semicolon l = false) (ty_lines t);
  tk_last : has_semicolon (ty_last t) = false;
  tk_rest : strip (ty_rest t) = ""%string;
  tk_text : typed_text t <> ""%string;
  tk_statement : is_command (strip (default "" (head (typed_lines t)))) = false }.

(** The input ends, or a line asks for it. *)
Definition leaves (input : list string) : Prop :=
  match input with [] => True | l :: _ => l = ""%string \/ strip l = ".exit"%string \/ strip l = ".quit"%string end.

Lemma str_app_assoc a b c : (a +:+ b) +:+ c = a +:+ (b +:+ c).
Proof. induction a as [|x a IH]; [done|]. exact (f_equal (String x) IH). Qed.
Lemma str_app_nil a : a +:+ "" = a.
Proof. induction a as [|x a IH]; [done|]. exact (f_equal (String x) IH). Qed.
Lemma app_not_empty a b : b <> ""%string -> a +:+ b <> ""%string.
Proof. destruct a; [intros Hb; exact Hb | done]. Qed.
Lemma has_semicolon_app a b : has_semicolon (a +:+ b) = has_semicolon a || has_semicolon b.
Proof.
  induction a as [|x a IH]; [done|]. change (String x a +:+ b) with (String x (a +:+ b)). cbn [has_semicolon]. by rewrite IH, orb_assoc.
Qed.
Lemma partition_at a b : has_semicolon a = false -> partition (a +:+ String semicolon b) = (a, b).
Proof.
  induction a as [|x a IH]; [done|]. change (String x a +:+ String semicolon b) with (String x (a +:+ String semicolon b)).
  cbn [has_semicolon partition]. intros [-> Ha]%orb_false_iff. by rewrite IH.
Qed.

Section sessions.
Context {S H : Type} `{PageStore S H} (fuel : nat).

(** What a session writes and leaves, statement after statement. *)
Definition prompts (t : typed) : list written := WText (prompt "") :: replicate (length (ty_lines t)) (WText (prompt ".")).
Definition answer (r : result string) : written := match r with Ok text => WText (text +:+ nl) | Raise e => WError e end.
Fixpoint transcript (ts : list typed) (db : Database S) : list written * Database S :=
  match ts with
  | [] => ([WText (prompt "")], db)
  | t :: ts' =>
      let '(r, db1) := run_statement fuel (typed_text t) db in
      let '(out, db2) := transcript ts' db1 in (prompts t ++ answer r :: out, db2)
  end.
(** Every statement has enough fuel. *)
Fixpoint all_end (ts : list typed) (db : Database S) : Prop :=
  match ts with
  | [] => True
  | t :: ts' => (run_statement fuel (typed_text t) db).1 <> Raise Diverges /\ all_end ts' (run_statement fuel (typed_text t) db).2
  end.

Lemma not_command buf line : (buf = ""%string -> is_command (strip line) = false) ->
  (buf =? "")%string && ((strip line =? ".exit") || (strip line =? ".quit"))%string = false /\
  (buf =? "")%string && (strip line =? ".tables")%string = false /\ (buf =? "")%string && (strip line =? ".help")%string = false.
Proof using Type.
  destruct (String.eqb_spec buf "") as [->|]; [| done]. intros Hc. specialize (Hc eq_refl). apply bool_decide_eq_false in Hc.
  rewrite !not_elem_of_cons in Hc. destruct Hc as (H1 & H2 & H3 & H4 & _). cbn [andb].
  by rewrite (proj2 (String.eqb_neq _ _) H1), (proj2 (String.eqb_neq _ _) H2), (proj2 (String.eqb_neq _ _) H3), (proj2 (String.eqb_neq _ _) H4).
Qed.

(** A line without a semicolon is kept. *)
Lemma loop_keep buf line input db out : line <> ""%string -> (buf = ""%string -> is_command (strip line) = false) -> has_semicolon line = false ->
  repl_loop fuel (line :: input) buf (mkShell db out) = repl_loop fuel input (buf +:+ line) (mkShell db (out ++ [WText (prompt buf)])).
Proof using Type.
  intros Hl Hc Hs. destruct (not_command buf line Hc) as (E1 & E2 & E3). cbn [repl_loop].
  rewrite (bind_ok _ _ _ tt (mkShell db (out ++ [WText (prompt buf)]))) by done.
  rewrite (proj2 (String.eqb_neq _ _) Hl). cbv zeta. by rewrite E1, E2, E3, Hs.
Qed.

Lemma loop_keeps ls : forall buf input db out, Forall (fun l => l <> ""%string /\ has_semicolon l = false) ls -> buf <> ""%string ->
  repl_loop fuel (ls ++ input) buf (mkShell db out) =
  repl_loop fuel input (buf +:+ glue ls) (mkShell db (out ++ replicate (length ls) (WText (prompt ".")))).
Proof using Type.
  induction ls as [|l ls IH]; intros buf input db out Hls Hb; cbn [app length replicate glue foldr]; [by rewrite app_nil_r, str_app_nil|].
  apply Forall_cons in Hls as [[Hl Hs] Hls]. rewrite loop_keep by done. rewrite IH by (done || by apply app_not_empty).
  rewrite str_app_assoc, <- app_assoc. unfold prompt at 1. by rewrite (proj2 (String.eqb_neq _ _) Hb).
Qed.

(** The line with the semicolon runs what was kept. *)
Lemma loop_run buf last rest input db out : (buf = ""%string -> is_command (strip (last +:+ String semicolon rest)) = false) ->
  has_semicolon buf = false -> has_semicolon last = false -> strip rest = ""%string -> strip (buf +:+ last) <> ""%string ->
  repl_loop fuel ((last +:+ String semicolon rest) :: input) buf (mkShell db out) =
  (run_and_show fuel (strip (buf +:+ last));; repl_loop fuel input "") (mkShell db (out ++ [WText (prompt buf)])).
Proof using Type.
  intros Hc Hb Hl Hr Ht. destruct (not_command buf _ Hc) as (E1 & E2 & E3). cbn [repl_loop].
  rewrite (bind_ok _ _ _ tt (mkShell db (out ++ [WText (prompt buf)]))) by done.
  rewrite (proj2 (String.eqb_neq _ _)) by by apply app_not_empty. cbv zeta. rewrite E1, E2, E3, has_semicolon_app. cbn [has_semicolon].
  rewrite Ascii.eqb_refl, orb_true_r, <- str_app_assoc, partition_at by (by rewrite has_semicolon_app, Hb, Hl).
  by rewrite Hr, (proj2 (String.eqb_neq _ _) Ht).
Qed.

Lemma show_answer text db out : (run_statement fuel text db).1 <> Raise Diverges ->
  run_and_show fuel text (mkShell db out) = (Ok tt, mkShell (run_statement fuel text db).2 (out ++ [answer (run_statement fuel text db).1])).
Proof using Type.
  intros Hd. unfold run_and_show, report, on_db, mbind, M_bind. cbn [sh_db sh_out].
  destruct (run_statement fuel text db) as [[r|e] db1]; cbn [fst snd] in *; [done|]. by destruct e.
Qed.

Lemma glue_no_semicolon ls : Forall (fun l => l <> ""%string /\ has_semicolon l = false) ls -> has_semicolon (glue ls) = false.
Proof using Type. induction 1 as [|l ls [_ Hl] _ IH]; [done|]. cbn [glue foldr]. by rewrite has_semicolon_app, Hl. Qed.

Lemma loop_typed t input db out : typed_ok t -> (run_statement fuel (typed_text t) db).1 <> Raise Diverges ->
  repl_loop fuel (typed_lines t ++ input) "" (mkShell db out) =
  repl_loop fuel input "" (mkShell (run_statement fuel (typed_text t) db).2 (out ++ prompts t ++ [answer (run_statement fuel (typed_text t) db).1])).
Proof using Type.
  intros [Hl Hs Hr Ht Hc] Hd. destruct t as [ls last rest]. unfold typed_lines, typed_text, prompts in *. cbn [ty_lines ty_last ty_rest] in *.
  destruct ls as [|l ls]; cbn [app head default id length replicate glue foldr] in *.
  - rewrite loop_run by done. by rewrite (bind_ok _ _ _ _ _ (show_answer _ _ _ Hd)), <- app_assoc.
  - pose proof (glue_no_semicolon _ Hl) as Hg. cbn [glue foldr] in Hg. apply Forall_cons in Hl as [[Hl1 Hl2] Hl]. rewrite loop_keep by done.
    change ("" +:+ l) with l. rewrite <- app_assoc, loop_keeps by done. cbn [app]. fold (glue ls) in *.
    rewrite loop_run; [| by intros E; destruct l | done..]. rewrite (bind_ok _ _ _ _ _ (show_answer _ _ _ Hd)).
    assert (prompt (l +:+ glue ls) = prompt ".") as -> by (unfold prompt; by destruct l).
    do 2 f_equal. rewrite <- !app_assoc. cbn [app]. do 2 f_equal.
    generalize (WText (prompt ".")) as w, (answer (run_statement fuel (strip ((l +:+ glue ls) +:+ last)) db).1) as v. intros w v.
    change (w :: replicate (length ls) w ++ [v]) with ((w :: replicate (length ls) w) ++ [v]). by rewrite replicate_cons_app, <- app_assoc.
Qed.
End sessions.

(** C26: the shell runs what is typed. Statements entered one after the other, each
    on as many lines as its user likes and ended by a semicolon at the end of
    a line, are executed in this order, each in a transaction of its own; after
    every one comes its result or an error line and then the next prompt; the loop goes on behind
    an error, and ends with the input or at [.exit] or [.quit]. *)
Theorem repl_session {S H : Type} `{PageStore S H} fuel ts input (db : Database S) out :
  Forall typed_ok ts -> all_end fuel ts db -> leaves input ->
  repl fuel ((ts ≫= typed_lines) ++ input) (mkShell db out) =
    (Ok tt, mkShell (transcript fuel ts db).2 (out ++ WText banner :: (transcript fuel ts db).1 ++ [WText nl])).
Proof.
  intros Hts Hend Hin. unfold repl. rewrite (bind_ok _ _ _ tt (mkShell db (out ++ [WText banner]))) by done.
  assert (forall out, repl_loop fuel ((ts ≫= typed_lines) ++ input) "" (mkShell db out) =
    (Ok tt, mkShell (transcript fuel ts db).2 (out ++ (transcript fuel ts db).1))) as Hloop.
  2: { rewrite (bind_ok _ _ _ _ _ (Hloop _)). unfold write, modify. cbn [sh_db sh_out]. by rewrite <- !app_assoc. }
  clear out. revert db Hend. induction Hts as [|t ts Ht Hts IH]; intros db Hend out.
  - cbn [mbind list_bind app transcript fst snd]. destruct input as [|l input]; [done|]. cbn [repl_loop].
    rewrite (bind_ok _ _ _ tt (mkShell db (out ++ [WText (prompt "")]))) by done.
    destruct (String.eqb_spec l ""); [done|]. cbv zeta. change ("" =? "")%string with true. cbn [andb].
    destruct Hin as [Hl|[-> | ->]]; [done | done..].
  - destruct Hend as [Hd Hend]. rewrite bind_cons, <- app_assoc, loop_typed by done. cbn [transcript].
    rewrite IH by done. destruct (run_statement fuel (typed_text t) db) as [r db1]; cbn [fst snd].
    destruct (transcript fuel ts db1) as [o db2]; cbn [fst snd]. by rewrite <- !app_assoc.
Qed.

(** ** Where the shell goes wrong *)

Definition line (s : string) : string := s +:+ nl.
(** What a session on a new database shows after the prompts. *)
Definition shown_by (input : list string) : option (list written) :=
  match main 60 ["db"%string] (fun _ => no_files) (line <$> input) with
  | Ok (0, out) => Some (filter (fun w => w ∉ [WText banner; WText (prompt ""); WText (prompt "."); WText nl]) out)
  | _ => None
  end.

(** The loop looks for semicolons in the text, not among its tokens: one inside
    a string literal ends the statement, although [execute] takes the same text. *)
Theorem semicolon_splits_literal :
  shown_by ["CREATE TABLE t (name TEXT);"; "INSERT INTO t VALUES ('a;b');"]%string =
    Some [WText (line "CREATE TABLE t"); WError LexError] /\
  (let db := run_sql (opened no_files) ["CREATE TABLE t (name TEXT)"]%string in
   (execute 60 "INSERT INTO t VALUES ('a;b')" None db).1 = Ok (mkResult None 1 "INSERT 1")).
Proof. vm_compute. split; reflexivity. Qed.

(** Only the first statement of a line is run; the next waits for another line
    with a semicolon and is dropped at the end of the input. *)
Theorem second_statement_waits :
  shown_by ["CREATE TABLE t (id INT); INSERT INTO t VALUES (1);"]%string = Some [WText (line "CREATE TABLE t")] /\
  shown_by ["CREATE TABLE t (id INT); INSERT INTO t VALUES (1);"; "SELECT id FROM t;"]%string =
    Some [WText (line "CREATE TABLE t"); WText (line "INSERT 1")].
Proof. vm_compute. split; reflexivity. Qed.

(** What follows a semicolon is stripped of its line break, so its last word and
    the first word of the next line become one. *)
Theorem line_break_lost :
  shown_by ["CREATE TABLE t (id INT);"; "SELECT id"; "FROM t;"]%string = Some [WText (line "CREATE TABLE t"); WText (line "(0 rows)")] /\
  shown_by ["CREATE TABLE t (id INT); SELECT id"; "FROM t;"]%string = Some [WText (line "CREATE TABLE t"); WError ParseError].
Proof. vm_compute. split; reflexivity. Qed.

(** An empty line counts as the start of a statement: the dot-commands behind it
    are read as part of it. *)
Theorem empty_line_hides_commands :
  shown_by ["CREATE TABLE t (id INT);"; ".tables"]%string = Some [WText (line "CREATE TABLE t"); WText (line "t")] /\
  shown_by ["CREATE TABLE t (id INT);"; ""; ".tables"; "SELECT id FROM t;"]%string = Some [WText (line "CREATE TABLE t"); WError ParseError].
Proof. vm_compute. split; reflexivity. Qed.

(** CREATE TABLE, an INSERT on two lines, one that fails, and [.exit] *)
Definition typed_sample : list typed :=
  [mkTyped [] "CREATE TABLE t (id INT)" nl; mkTyped [line "INSERT INTO t"; line "  VALUES (1)"] "" nl; mkTyped [] "SELECT * FROM u" nl]%string.

Lemma repl_session_witness : repl 60 ((typed_sample ≫= typed_lines) ++ [line ".exit"; line "ignored"]) (mkShell (opened no_files) []) =
  (Ok tt, mkShell (transcript 60 typed_sample (opened no_files)).2
    ([] ++ WText banner :: (transcript 60 typed_sample (opened no_files)).1 ++ [WText nl])).
Proof.
  apply (repl_session 60 typed_sample [line ".exit"; line "ignored"] (opened no_files) []).
  - repeat apply Forall_cons_2; [.. | apply Forall_nil_2]; (split; [repeat constructor; discriminate | reflexivity | vm_compute; reflexivity | vm_compute; discriminate | vm_compute; reflexivity]).
  - vm_compute. repeat split; discriminate.
  - right. left. vm_compute. reflexivity.
Defined.
